(** * WebRunner: the deterministic core, embedded and verified

    A shallow embedding of the TypeScript sources of WebRunner
    (state model and differ, selector resolver, recovery detectors,
    step executor, task orchestrator, artifact redaction, macro
    parameterisation) together with the properties the specification
    states about them, and of what surrounds these (snapshot
    collection, cache keys, the diff prompt, the browser controller,
    plan assertions, the LLM client's retry loop, plan and verdict
    repair) with properties read off the code.

    Conventions of the embedding.
    - A JavaScript string is a [string]; each [ascii] stands for one
      UTF-16 code unit in the range 0..255.
    - Code that talks to the browser, the LLM, the clock or the file
      system is written in explicit state-passing style over an abstract
      [World]; the external capabilities are the fields of interface
      records ([Page], [Browser], [Oracle]).
    - A rejected promise / thrown exception is the [Throw] case of
      [Result]; [try]/[catch] is a [match] on it.
    - Logger calls have no effect on control or data flow and are left
      out. *)

From Stdlib Require Import ZArith Lia Ascii String.
From stdpp Require Import base option list strings gmap pretty sorting.

Local Open Scope string_scope.
Local Open Scope Z_scope.

#[local] Set Warnings "-register-all".

(* ===================================================================== *)
(** * JavaScript strings                                                  *)
(* ===================================================================== *)

Module Js.

Definition empty : string := EmptyString.

(** The code unit U+0022, written without a string escape. *)
Definition dquote : ascii := ascii_of_nat 34.
Definition backslash : ascii := ascii_of_nat 92.

Definition chr (c : ascii) : string := String c EmptyString.

(** [Boolean(s)] for a string: every string but the empty one. *)
Definition truthy (s : string) : bool :=
  match s with EmptyString => false | String _ _ => true end.

(** [Boolean(x)] for an optional string ([undefined] is falsy). *)
Definition truthyOpt (o : option string) : bool :=
  match o with Some s => truthy s | None => false end.

Definition inRange (lo hi : nat) (c : ascii) : bool :=
  let n := nat_of_ascii c in ((lo <=? n)%nat && (n <=? hi)%nat)%bool.

(** One code unit of [String.prototype.toLowerCase] on 0..255:
    A-Z and the Latin-1 capitals (all of C0..DE but the sign D7). *)
Definition lowerUnit (c : ascii) : ascii :=
  if inRange 65 90 c then ascii_of_nat (nat_of_ascii c + 32)
  else if (inRange 192 222 c && negb (Nat.eqb (nat_of_ascii c) 215))%bool
       then ascii_of_nat (nat_of_ascii c + 32)
       else c.

Fixpoint toLowerCase (s : string) : string :=
  match s with
  | EmptyString => EmptyString
  | String c r => String (lowerUnit c) (toLowerCase r)
  end.

(** [s.startsWith(sub)] *)
Fixpoint startsWith (s sub : string) : bool :=
  match sub, s with
  | EmptyString, _ => true
  | String _ _, EmptyString => false
  | String a sub', String b s' => (Ascii.eqb a b && startsWith s' sub')%bool
  end.

(** [s.includes(sub)] *)
Fixpoint includes (s sub : string) : bool :=
  (startsWith s sub ||
   match s with
   | EmptyString => false
   | String _ s' => includes s' sub
   end)%bool.

(** [parts.join(sep)] *)
Fixpoint join (sep : string) (parts : list string) : string :=
  match parts with
  | [] => EmptyString
  | [p] => p
  | p :: rest => p +:+ sep +:+ join sep rest
  end.

(** [a ?? b] on an optional string. *)
Definition orElse (o : option string) (d : string) : string :=
  match o with Some s => s | None => d end.

End Js.

(* ===================================================================== *)
(** * The regular expressions of the sources                              *)
(* ===================================================================== *)

(** Every regular expression literal of the modelled code is an
  alternation of sequences of: a literal character, the wildcard [.],
  or an optional character class [[..]?]; all carry the flag [i] and
  none the flags [g], [y] or [u], so [test] is a pure search. *)
Module Regex.

Inductive atom :=
| Lit (c : ascii)
| Dot
| OptOneOf (cs : list ascii).

Definition branch := list atom.

Record RegExp := { alternatives : list branch }.

(** Canonicalize of the language specification for flag [i] without
    [u]: the upper case of the code unit, unless that would turn a
    non-ASCII unit into an ASCII one or leave the single-unit range. *)
Definition canonicalize (c : ascii) : ascii :=
  if Js.inRange 97 122 c then ascii_of_nat (nat_of_ascii c - 32)
  else if (Js.inRange 224 254 c && negb (Nat.eqb (nat_of_ascii c) 247))%bool
       then ascii_of_nat (nat_of_ascii c - 32)
       else c.

Definition sameUnit (a b : ascii) : bool :=
  Ascii.eqb (canonicalize a) (canonicalize b).

Definition lineTerminator (c : ascii) : bool :=
  (Nat.eqb (nat_of_ascii c) 10 || Nat.eqb (nat_of_ascii c) 13)%bool.

Fixpoint matchHere (p : branch) (s : string) : bool :=
  match p with
  | [] => true
  | Lit c :: p' =>
      match s with
      | String x s' => (sameUnit c x && matchHere p' s')%bool
      | EmptyString => false
      end
  | Dot :: p' =>
      match s with
      | String x s' => (negb (lineTerminator x) && matchHere p' s')%bool
      | EmptyString => false
      end
  | OptOneOf cs :: p' =>
      (match s with
       | String x s' => (existsb (sameUnit x) cs && matchHere p' s')%bool
       | EmptyString => false
       end || matchHere p' s)%bool
  end.

Fixpoint matchAnywhere (p : branch) (s : string) : bool :=
  (matchHere p s ||
   match s with
   | EmptyString => false
   | String _ s' => matchAnywhere p s'
   end)%bool.

(** [re.test(s)] *)
Definition test (re : RegExp) (s : string) : bool :=
  existsb (fun p => matchAnywhere p s) (alternatives re).

Fixpoint lits (s : string) : branch :=
  match s with
  | EmptyString => []
  | String c r => Lit c :: lits r
  end.

(** [/word/i] *)
Definition word (s : string) : RegExp := {| alternatives := [lits s] |}.

(** [/w1|w2|.../i] *)
Definition anyOf (bs : list branch) : RegExp := {| alternatives := bs |}.

End Regex.

(* ===================================================================== *)
(** * core/errors.ts                                                      *)
(* ===================================================================== *)

Module Errors.

Inductive WebRunnerErrorCode :=
| CAPTCHA_DETECTED
| TWO_FA_DETECTED
| LOGIN_FAILED
| ELEMENT_MISSING
| NAVIGATION_FAILED
| ASSERTION_FAILED
| TIMEOUT
| SCHEMA_VALIDATION_FAILED
| LLM_ERROR
| DOWNLOAD_FAILED
| UNKNOWN.

(** The class of the error object, which is what [instanceof] tests
    (no class of the hierarchy has a subclass of its own). *)
Inductive ErrorClass :=
| CWebRunnerError
| CCaptchaDetected
| CTwoFADetected
| CLoginFailed
| CElementMissing
| CNavigationFailed
| CAssertionFailed
| CTimeoutError
| CSchemaValidationError
| CLLMError.

(** The [details] payloads the modelled code attaches. *)
Inductive Details :=
| NoDetails
| Attempts (attempts : list string)
| Note (text : string).

Record WebRunnerError := {
  class : ErrorClass;
  code : WebRunnerErrorCode;
  message : string;
  recoverable : bool;
  details : Details;
}.

Definition CaptchaDetected : WebRunnerError :=
  {| class := CCaptchaDetected; code := CAPTCHA_DETECTED;
     message := "CAPTCHA detected, human intervention required";
     recoverable := false; details := NoDetails |}.

Definition TwoFADetected : WebRunnerError :=
  {| class := CTwoFADetected; code := TWO_FA_DETECTED;
     message := "2FA prompt detected, human intervention required";
     recoverable := false; details := NoDetails |}.

Definition LoginFailed : WebRunnerError :=
  {| class := CLoginFailed; code := LOGIN_FAILED;
     message := "Login failed or credentials rejected";
     recoverable := false; details := NoDetails |}.

Definition ElementMissing (ref : string) (d : Details) : WebRunnerError :=
  {| class := CElementMissing; code := ELEMENT_MISSING;
     message := "Element ref " +:+ ref +:+ " not found in DOM";
     recoverable := true; details := d |}.

Definition NavigationFailed (url : string) (d : Details) : WebRunnerError :=
  {| class := CNavigationFailed; code := NAVIGATION_FAILED;
     message := "Navigation to " +:+ url +:+ " failed";
     recoverable := true; details := d |}.

Definition LLMError (msg : string) (d : Details) : WebRunnerError :=
  {| class := CLLMError; code := LLM_ERROR;
     message := "LLM call failed: " +:+ msg;
     recoverable := true; details := d |}.

Definition classEqb (a b : ErrorClass) : bool :=
  match a, b with
  | CWebRunnerError, CWebRunnerError
  | CCaptchaDetected, CCaptchaDetected
  | CTwoFADetected, CTwoFADetected
  | CLoginFailed, CLoginFailed
  | CElementMissing, CElementMissing
  | CNavigationFailed, CNavigationFailed
  | CAssertionFailed, CAssertionFailed
  | CTimeoutError, CTimeoutError
  | CSchemaValidationError, CSchemaValidationError
  | CLLMError, CLLMError => true
  | _, _ => false
  end.

(** A thrown value: an instance of [WebRunnerError] (or of one of its
    subclasses), or anything else, of which the code only ever reads
    [err instanceof Error ? err.message : String(err)]. *)
Inductive Thrown :=
| Raised (e : WebRunnerError)
| Foreign (text : string).

(** [err instanceof C] for a class [C] below [WebRunnerError]. *)
Definition instanceOf (c : ErrorClass) (t : Thrown) : bool :=
  match t with
  | Raised e => classEqb (class e) c
  | Foreign _ => false
  end.

(** [err instanceof WebRunnerError] *)
Definition isWebRunnerError (t : Thrown) : bool :=
  match t with Raised _ => true | Foreign _ => false end.

(** [err instanceof Error ? err.message : String(err)] *)
Definition errorText (t : Thrown) : string :=
  match t with
  | Raised e => message e
  | Foreign text => text
  end.

(** [isEscalatable(err)] *)
Definition codeEqb (a b : WebRunnerErrorCode) : bool :=
  match a, b with
  | CAPTCHA_DETECTED, CAPTCHA_DETECTED
  | TWO_FA_DETECTED, TWO_FA_DETECTED
  | LOGIN_FAILED, LOGIN_FAILED
  | ELEMENT_MISSING, ELEMENT_MISSING
  | NAVIGATION_FAILED, NAVIGATION_FAILED
  | ASSERTION_FAILED, ASSERTION_FAILED
  | TIMEOUT, TIMEOUT
  | SCHEMA_VALIDATION_FAILED, SCHEMA_VALIDATION_FAILED
  | LLM_ERROR, LLM_ERROR
  | DOWNLOAD_FAILED, DOWNLOAD_FAILED
  | UNKNOWN, UNKNOWN => true
  | _, _ => false
  end.

Definition isEscalatable (t : Thrown) : bool :=
  match t with
  | Raised e =>
      existsb (codeEqb (code e)) [CAPTCHA_DETECTED; TWO_FA_DETECTED; LOGIN_FAILED]
  | Foreign _ => false
  end.

Inductive Result (A : Type) :=
| Ok (a : A)
| Throw (t : Thrown).
Arguments Ok {A} a.
Arguments Throw {A} t.

End Errors.
Export Errors.

(* ===================================================================== *)
(** * core/browser/selectors.ts                                           *)
(* ===================================================================== *)

Module Selectors.

Record SelectorSet := {
  primary : string;
  fallback : list string;
}.

(** What [trySelectors] needs of a Playwright page: [page.$(selector)]
  resolves to a handle or to [null], or rejects (selector syntax
  error); [handle.isVisible()] resolves to a boolean or rejects
  (detached element). *)
Record Page (World Handle : Type) := {
  query : string -> World -> Result (option Handle) * World;
  isVisible : Handle -> World -> Result bool * World;
}.
Arguments query {World Handle}.
Arguments isVisible {World Handle}.

Record ResolvedSelector (Handle : Type) := {
  selector : string;
  handle : Handle;
}.
Arguments selector {Handle}.
Arguments handle {Handle}.

Section TrySelectors.
Context {World Handle : Type} (page : Page World Handle).

(** One turn of the [for] loop: the body of the [try] block.
    [Some r] is the [return]; [None] falls through to the next
    selector, either because [page.$] gave [null] or because the
    [catch] swallowed a rejection. *)
Definition probe (sel : string) (w : World)
  : option (ResolvedSelector Handle) * World :=
  let '(q, w1) := query page sel w in
  match q with
  | Ok (Some h) =>
      let '(v, w2) := isVisible page h w1 in
      match v with
      | Ok true => (Some {| selector := sel; handle := h |}, w2)
      | Ok false => (Some {| selector := sel; handle := h |}, w2)
      | Throw _ => (None, w2)
      end
  | Ok None => (None, w1)
  | Throw _ => (None, w1)
  end.

(** The [for] loop over [attempts]; on exhaustion the [throw] after
    it, which names the whole list [all]. *)
Fixpoint trySelectorsFrom (all rest : list string) (w : World)
  : Result (ResolvedSelector Handle) * World :=
  match rest with
  | [] =>
      (Throw (Raised (ElementMissing
                        ("(via selectors: " +:+ Js.join ", " all +:+ ")")
                        (Attempts all))), w)
  | sel :: rest' =>
      let '(r, w1) := probe sel w in
      match r with
      | Some found => (Ok found, w1)
      | None => trySelectorsFrom all rest' w1
      end
  end.

Definition trySelectors (selectorSet : SelectorSet) (w : World)
  : Result (ResolvedSelector Handle) * World :=
  let attempts := primary selectorSet :: fallback selectorSet in
  trySelectorsFrom attempts attempts w.

(** [selectorExists]: [trySelectors] under a [try]. *)
Definition selectorExists (selectorSet : SelectorSet) (w : World)
  : bool * World :=
  let '(r, w1) := trySelectors selectorSet w in
  match r with
  | Ok _ => (true, w1)
  | Throw _ => (false, w1)
  end.

(** [Dead sel w w']: handed to the page in [w], the selector [sel]
    yields no live element, and the page is left in [w']: either
    [page.$] resolves to [null] or rejects, or it resolves to a handle
    whose [isVisible] rejects. *)
Inductive Dead (sel : string) (w w' : World) : Prop :=
| DeadNull : query page sel w = (Ok None, w') -> Dead sel w w'
| DeadQuery t : query page sel w = (Throw t, w') -> Dead sel w w'
| DeadDetached h w1 t :
    query page sel w = (Ok (Some h), w1) ->
    isVisible page h w1 = (Throw t, w') ->
    Dead sel w w'.

(** [Misses sels w w']: starting in [w], every selector of [sels],
    handed to the page in order, yields no live element, and the page
    is left in [w']. *)
Inductive Misses : list string -> World -> World -> Prop :=
| Misses_nil w : Misses [] w w
| Misses_cons sel sels w w1 w2 :
    Dead sel w w1 ->
    Misses sels w1 w2 ->
    Misses (sel :: sels) w w2.

End TrySelectors.

End Selectors.

(* ===================================================================== *)
(** * core/state/model.ts                                                 *)
(* ===================================================================== *)

Module Model.
Import Selectors.

Inductive ElementRole :=
| RInput | RButton | RLink | RSelect | RTextarea | RCheckbox | RRadio
| ROther.

(** The string a role is at run time. *)
Definition roleName (r : ElementRole) : string :=
  match r with
  | RInput => "input"
  | RButton => "button"
  | RLink => "link"
  | RSelect => "select"
  | RTextarea => "textarea"
  | RCheckbox => "checkbox"
  | RRadio => "radio"
  | ROther => "other"
  end.

Record InteractiveElement := {
  ref : string;
  role : ElementRole;
  label : string;
  name : option string;
  inputType : option string;
  valuePresent : bool;
  disabled : bool;
  visible : bool;
  selectors : SelectorSet;
  text : option string;
  href : option string;
}.

Record PageSummary := {
  headings : list string;
  forms : list string;
  notices : list string;
}.

Record StateMeta := {
  runId : string;
  timestamp : string;
  url : string;
  title : string;
}.

Record CompactState := {
  meta : StateMeta;
  pageSummary : PageSummary;
  interactive : list InteractiveElement;
}.

End Model.

(* ===================================================================== *)
(** * core/planning/schemas.ts and core/config.ts                         *)
(* ===================================================================== *)

Module Schemas.

(** The names [stepOps] lists. A step's [op] is typed [StepOp], but a
    plan that went through [repairPlan] was never validated, so at run
    time [op] is any string. *)
Definition stepOps : list string :=
  ["navigate"; "click"; "type"; "select"; "waitFor"; "extract";
   "screenshot"; "scroll"].

Definition verdictStatuses : list string := ["success"; "patch"; "escalate"].

Module Step.
Record t := {
  id : string;
  op : string;
  url : option string;
  ref : option string;
  text : option string;
  value : option string;
  kind : option string;
  timeoutMs : option Z;
  schemaRef : option string;
  out : option string;
  direction : option string;
  amount : option Z;
}.
End Step.

Module Assertion.
Record t := {
  kind : string;
  value : option string;
  ref : option string;
  filePattern : option string;
}.
End Assertion.

Module OnFailure.
Record t := {
  retryMaxAttempts : option Z;
  escalateIf : option (list string);
}.
End OnFailure.

Module Plan.
Record t := {
  goal : string;
  assumptions : option (list string);
  steps : list Step.t;
  assertions : option (list Assertion.t);
  onFailure : option OnFailure.t;
  schemaVersion : option string;
}.
End Plan.

Module Evidence.
Record t := {
  url : option string;
  keyTexts : option (list string);
  files : option (list string);
}.
End Evidence.

Module Verdict.
Record t := {
  status : string;
  summary : string;
  evidence : option Evidence.t;
  patchPlan : option string;
  reason : option string;
  next : option string;
  schemaVersion : option string;
}.
End Verdict.

End Schemas.

Module Config.

Record WebRunnerConfig := {
  globalTimeoutMs : Z;
  stepTimeoutMs : Z;
  navigationTimeoutMs : Z;
  headless : bool;
  outDir : string;
  model : string;
  allowScreenshots : bool;
  allowTracing : bool;
  redactPatterns : list Regex.RegExp;
  (** Max patch rounds before escalating. Default: 2 *)
  maxPatchRounds : Z;
  openRouterApiKey : option string;
  downloadDir : option string;
}.

Definition defaultConfig : WebRunnerConfig :=
  {| globalTimeoutMs := 180000;
     stepTimeoutMs := 30000;
     navigationTimeoutMs := 60000;
     headless := true;
     outDir := "./out";
     model := "google/gemini-2.0-flash-001";
     allowScreenshots := true;
     allowTracing := false;
     redactPatterns :=
       [ Regex.word "password"; Regex.word "passwd"; Regex.word "secret";
         Regex.word "token";
         {| Regex.alternatives :=
              [(Regex.lits "api" ++ [Regex.OptOneOf ["_"; "-"]%char]
                  ++ Regex.lits "key")%list] |};
         Regex.word "otp"; Regex.word "auth"; Regex.word "credential" ];
     maxPatchRounds := 2;
     openRouterApiKey := None;
     downloadDir := None |}.

End Config.

(* ===================================================================== *)
(** * core/execute/recovery.ts                                            *)
(* ===================================================================== *)

Module Recovery.
Import Selectors Model.

(** The optional third argument of [fuzzyRefResolve]. *)
Record Hint := {
  hintLabel : option string;
  hintRole : option string;
}.

Definition fuzzyCandidate (hint : Hint) (el : InteractiveElement) : bool :=
  if (Js.truthyOpt (hintRole hint)
      && negb (String.eqb (roleName (role el)) (Js.orElse (hintRole hint) Js.empty)))%bool
  then false
  else if Js.truthyOpt (hintLabel hint) then
    let normalLabel := Js.toLowerCase (label el) in
    let normalHint := Js.toLowerCase (Js.orElse (hintLabel hint) Js.empty) in
    (Js.includes normalLabel normalHint || Js.includes normalHint normalLabel)%bool
  else true.

(** [fuzzyRefResolve(missingRef, currentState, hint?)] *)
Definition fuzzyRefResolve (missingRef : string) (currentState : CompactState)
    (hint : option Hint) : option InteractiveElement :=
  match hint with
  | None => None
  | Some h => head (List.filter (fuzzyCandidate h) (interactive currentState))
  end.

(** [/captcha|recaptcha|i'm not a robot|bot detection/i] *)
Definition captchaPattern : Regex.RegExp :=
  Regex.anyOf [Regex.lits "captcha"; Regex.lits "recaptcha";
               Regex.lits "i'm not a robot"; Regex.lits "bot detection"].

(** [/two.factor|2fa|verification code|authenticator|otp|one.time/i] *)
Definition twoFactorPattern : Regex.RegExp :=
  Regex.anyOf [(Regex.lits "two" ++ [Regex.Dot] ++ Regex.lits "factor")%list;
               Regex.lits "2fa"; Regex.lits "verification code";
               Regex.lits "authenticator"; Regex.lits "otp";
               (Regex.lits "one" ++ [Regex.Dot] ++ Regex.lits "time")%list].

Definition captchaFrames : string :=
  "iframe[src*=" +:+ Js.chr Js.dquote +:+ "recaptcha" +:+ Js.chr Js.dquote
  +:+ "], iframe[src*=" +:+ Js.chr Js.dquote +:+ "hcaptcha"
  +:+ Js.chr Js.dquote +:+ "]".

(** What the detectors read of the page: the lower-cased body text
    ([page.evaluate(() => document.body.innerText.toLowerCase())]) and
    whether a selector has a match ([page.$(sel).then(Boolean)]); either
    promise may reject. *)
Record Probe (World : Type) := {
  bodyTextLower : World -> Result string * World;
  present : string -> World -> Result bool * World;
}.
Arguments bodyTextLower {World}.
Arguments present {World}.

Section Detectors.
Context {World : Type} (page : Probe World).

Definition detectCaptcha (w : World) : bool * World :=
  let '(t, w1) := bodyTextLower page w in
  let text := match t with Ok s => s | Throw _ => Js.empty end in
  let hasCaptchaText := Regex.test captchaPattern text in
  let '(f, w2) := present page captchaFrames w1 in
  let hasCaptchaIframe := match f with Ok b => b | Throw _ => false end in
  ((hasCaptchaText || hasCaptchaIframe)%bool, w2).

Definition detect2FA (w : World) : bool * World :=
  let '(t, w1) := bodyTextLower page w in
  let text := match t with Ok s => s | Throw _ => Js.empty end in
  (Regex.test twoFactorPattern text, w1).

End Detectors.

End Recovery.

(* ===================================================================== *)
(** * core/execute/assertions.ts (result type)                            *)
(* ===================================================================== *)

Module Assertions.

Record Failure := {
  kind : string;
  expected : option string;
  actual : option string;
  error : option string;
}.

Record AssertionResult := {
  passed : bool;
  failed : list Failure;
}.

End Assertions.

(* ===================================================================== *)
(** * core/execute/executor.ts                                            *)
(* ===================================================================== *)

Module Executor.
Import Selectors Model Schemas Recovery.

Inductive Status := success | skipped | failed.

Record StepResult := {
  id : string;
  op : string;
  status : Status;
  selectorUsed : option string;
  durationMs : Z;
  error : option string;
}.

Record RunLog := {
  planGoal : string;
  startedAt : string;
  completedAt : string;
  runDurationMs : Z;
  steps : list StepResult;
  assertionResult : option Assertions.AssertionResult;
  finalUrl : string;
}.

(** The collaborators of the executor, as operations on the world:
    the methods of [BrowserController], the recovery helpers
    [handleCookieBanner] and [dismissModal], [collectState],
    [runAssertions], [writeJsonArtifact] and the clock. *)
Record Browser (World : Type) := {
  navigate : string -> World -> Result unit * World;
  click : SelectorSet -> World -> Result string * World;
  type : SelectorSet -> string -> World -> Result string * World;
  select : SelectorSet -> string -> World -> Result string * World;
  waitFor : string -> option Z -> World -> Result unit * World;
  screenshot : World -> Result unit * World;
  scroll : string -> option Z -> World -> Result unit * World;
  evaluateInnerText : World -> Result string * World;
  currentUrl : World -> string;
  handleCookieBanner : World -> Result bool * World;
  dismissModal : World -> Result bool * World;
  collectState : string -> World -> Result CompactState * World;
  runAssertions :
    list Assertion.t -> string -> World -> Assertions.AssertionResult * World;
  writeJsonArtifact : string -> RunLog -> World -> Result unit * World;
  dateNow : World -> Z * World;
  isoNow : World -> string * World;
}.
Arguments navigate {World}.
Arguments click {World}.
Arguments type {World}.
Arguments select {World}.
Arguments waitFor {World}.
Arguments screenshot {World}.
Arguments scroll {World}.
Arguments evaluateInnerText {World}.
Arguments currentUrl {World}.
Arguments handleCookieBanner {World}.
Arguments dismissModal {World}.
Arguments collectState {World}.
Arguments runAssertions {World}.
Arguments writeJsonArtifact {World}.
Arguments dateNow {World}.
Arguments isoNow {World}.

(** A browser action a step is dispatched as. *)
Inductive BrowserCall :=
| CallNavigate (url : string)
| CallClick (s : SelectorSet)
| CallType (s : SelectorSet) (text : string)
| CallSelect (s : SelectorSet) (value : string)
| CallWaitFor (kind : string) (timeoutMs : option Z)
| CallScreenshot
| CallScroll (direction : string) (amount : option Z)
| CallEvaluateInnerText.

(** What the executor does to the page, in the order it does it; the
    log is kept beside the computation and does not influence it. *)
Inductive Event :=
| EvHandleCookieBanner
| EvDismissModal
| EvDetectCaptcha (fired : bool)
| EvDetect2FA (fired : bool)
| EvDispatch (call : BrowserCall)
| EvCollectState.

(** One turn of the step loop, as logged: the step, the events in
    order, and the error the [catch] block caught, if any. *)
Record Attempt := {
  attempted : Step.t;
  events : list Event;
  thrown : option Thrown;
}.

Definition isDetector (e : Event) : bool :=
  match e with EvDetectCaptcha _ | EvDetect2FA _ => true | _ => false end.

Definition isDispatch (e : Event) : bool :=
  match e with EvDispatch _ => true | _ => false end.

Definition isRecovery (e : Event) : bool :=
  match e with EvHandleCookieBanner | EvDismissModal => true | _ => false end.

(** [resolveRef(ref, state, logger)]; the call of [fuzzyRefResolve]
    passes two arguments, so its [hint] is [undefined]. *)
Definition resolveRef (ref : option string) (state : CompactState)
  : Result InteractiveElement :=
  match ref with
  | None => Throw (Raised (ElementMissing "(undefined ref)" NoDetails))
  | Some r =>
      if negb (Js.truthy r)
      then Throw (Raised (ElementMissing "(undefined ref)" NoDetails))
      else
        match List.find (fun e => String.eqb (Model.ref e) r) (interactive state) with
        | Some el => Ok el
        | None =>
            match fuzzyRefResolve r state None with
            | Some fuzzy => Ok fuzzy
            | None => Throw (Raised (ElementMissing r NoDetails))
            end
        end
  end.

(** [ref] names no element of the snapshot. *)
Definition absent (r : string) (state : CompactState) : Prop :=
  forall el, In el (interactive state) -> ref el <> r.

(** The text [resolveRef] hands to [ElementMissing] for a ref it cannot
    resolve. *)
Definition missingText (r : option string) : string :=
  match r with
  | Some s => if Js.truthy s then s else "(undefined ref)"
  | None => "(undefined ref)"
  end.

(** A logged turn is gated when it opens with the CAPTCHA detector and
    any dispatch in it comes after both detectors answered no. *)
Definition gated (log : Attempt) : Prop :=
  (exists fired, head (events log) = Some (EvDetectCaptcha fired))
  /\ (forall call, In (EvDispatch call) (events log) ->
      exists more,
        events log = EvDetectCaptcha false :: EvDetect2FA false :: more).

Section Execute.
Context {World : Type} (page : Probe World) (browser : Browser World).

(** [await p; return undefined] *)
Definition discard {A : Type} (r : Result A * World)
  : Result (option string) * World :=
  match r with
  | (Ok _, w) => (Ok None, w)
  | (Throw t, w) => (Throw t, w)
  end.

(** [return p] for a promise of a string *)
Definition pass (r : Result string * World) : Result (option string) * World :=
  match r with
  | (Ok s, w) => (Ok (Some s), w)
  | (Throw t, w) => (Throw t, w)
  end.

Definition dispatched (call : BrowserCall) (r : Result (option string) * World)
  : Result (option string) * list Event * World :=
  (fst r, [EvDispatch call], snd r).

(** [executeStep]: the [switch] on [step.op]. *)
Definition executeStep (step : Step.t) (currentState : CompactState) (w : World)
  : Result (option string) * list Event * World :=
  let op := Step.op step in
  if String.eqb op "navigate" then
    match Step.url step with
    | Some u =>
        if Js.truthy u
        then dispatched (CallNavigate u) (discard (navigate browser u w))
        else (Throw (Raised (NavigationFailed "(missing url)"
                (Note "step.url is required for navigate op"))), [], w)
    | None =>
        (Throw (Raised (NavigationFailed "(missing url)"
           (Note "step.url is required for navigate op"))), [], w)
    end
  else if String.eqb op "click" then
    match resolveRef (Step.ref step) currentState with
    | Ok el =>
        dispatched (CallClick (selectors el)) (pass (click browser (selectors el) w))
    | Throw t => (Throw t, [], w)
    end
  else if String.eqb op "type" then
    match resolveRef (Step.ref step) currentState with
    | Ok el =>
        let text := Js.orElse (Step.text step) Js.empty in
        dispatched (CallType (selectors el) text)
          (discard (type browser (selectors el) text w))
    | Throw t => (Throw t, [], w)
    end
  else if String.eqb op "select" then
    match resolveRef (Step.ref step) currentState with
    | Ok el =>
        let value := Js.orElse (Step.value step) Js.empty in
        dispatched (CallSelect (selectors el) value)
          (pass (select browser (selectors el) value w))
    | Throw t => (Throw t, [], w)
    end
  else if String.eqb op "waitFor" then
    let kind := Js.orElse (Step.kind step) "networkIdle" in
    dispatched (CallWaitFor kind (Step.timeoutMs step))
      (discard (waitFor browser kind (Step.timeoutMs step) w))
  else if String.eqb op "screenshot" then
    dispatched CallScreenshot (discard (screenshot browser w))
  else if String.eqb op "scroll" then
    let direction := Js.orElse (Step.direction step) "down" in
    dispatched (CallScroll direction (Step.amount step))
      (discard (scroll browser direction (Step.amount step) w))
  else if String.eqb op "extract" then
    dispatched CallEvaluateInnerText (discard (evaluateInnerText browser w))
  else
    (* default: 'Unknown step op, skipping' *)
    (Ok None, [], w).

(** The [try] block of one turn of the loop: the two detectors, then
    [executeStep]. *)
Definition tryStep (step : Step.t) (currentState : CompactState) (w : World)
  : Result (option string) * list Event * World :=
  let '(captcha, w1) := detectCaptcha page w in
  if captcha then (Throw (Raised CaptchaDetected), [EvDetectCaptcha true], w1)
  else
    let '(twoFA, w2) := detect2FA page w1 in
    if twoFA
    then (Throw (Raised TwoFADetected),
          [EvDetectCaptcha false; EvDetect2FA true], w2)
    else
      let '(r, evs, w3) := executeStep step currentState w2 in
      (r, EvDetectCaptcha false :: EvDetect2FA false :: evs, w3).

(** The [catch] block after the failed result is pushed, up to its
    [break]: the recovery events it adds and the world it leaves. Every
    path through it ends in [break]. *)
Definition afterFailure (err : Thrown) (w : World) : list Event * World :=
  let isEscalatable :=
    (instanceOf CCaptchaDetected err || instanceOf CTwoFADetected err)%bool in
  if (isEscalatable
      || (isWebRunnerError err
          && negb match err with Raised e => recoverable e | Foreign _ => true end))%bool
  then ([], w)
  else if instanceOf CElementMissing err then
    let '(_, w1) := handleCookieBanner browser w in
    let '(_, w2) := dismissModal browser w1 in
    ([EvHandleCookieBanner; EvDismissModal], w2)
  else ([], w).

(** How one turn of the [for] loop ends: at the bottom of the body, with
    the snapshot for the next step, or in a [break]. *)
Inductive Turn :=
| Continue (result : StepResult) (log : Attempt) (nextState : CompactState)
    (w : World)
| Break (result : StepResult) (log : Attempt) (w : World).

(** The body of [for (const step of plan.steps)]. *)
Definition turn (step : Step.t) (currentState : CompactState) (w : World)
  : Turn :=
  let '(stepStart, w0) := dateNow browser w in
  let '(r, evs, w1) := tryStep step currentState w0 in
  match r with
  | Ok used =>
      let '(stepEnd, w2) := dateNow browser w1 in
      let result :=
        {| id := Step.id step; op := Step.op step; status := success;
           selectorUsed := used; durationMs := stepEnd - stepStart;
           error := None |} in
      let '(snap, w3) := collectState browser (runId (meta currentState)) w2 in
      let nextState := match snap with Ok s => s | Throw _ => currentState end in
      Continue result
        {| attempted := step; events := (evs ++ [EvCollectState])%list;
           thrown := None |}
        nextState w3
  | Throw err =>
      let '(stepEnd, w2) := dateNow browser w1 in
      let result :=
        {| id := Step.id step; op := Step.op step; status := failed;
           selectorUsed := None; durationMs := stepEnd - stepStart;
           error := Some (errorText err) |} in
      let '(recovery, w3) := afterFailure err w2 in
      Break result
        {| attempted := step; events := (evs ++ recovery)%list;
           thrown := Some err |}
        w3
  end.

Definition turnResult (t : Turn) : StepResult :=
  match t with Continue r _ _ _ | Break r _ _ => r end.

Definition turnLog (t : Turn) : Attempt :=
  match t with Continue _ l _ _ | Break _ l _ => l end.

(** The loop. It returns the step results pushed, the log of the turns
    taken, and the world it ends in. *)
Fixpoint runSteps (todo : list Step.t) (currentState : CompactState) (w : World)
  : list StepResult * list Attempt * World :=
  match todo with
  | [] => ([], [], w)
  | step :: rest =>
      match turn step currentState w with
      | Continue result log nextState w1 =>
          let '(results, logs, w2) := runSteps rest nextState w1 in
          (result :: results, log :: logs, w2)
      | Break result log w1 => ([result], [log], w1)
      end
  end.

(** The point the loop is at once the steps [done] have all been
    processed without a [break]: the results and logs so far, the
    current snapshot and the world. [None] if one of them broke out. *)
Fixpoint reach (done : list Step.t) (currentState : CompactState) (w : World)
  : option (list StepResult * list Attempt * CompactState * World) :=
  match done with
  | [] => Some ([], [], currentState, w)
  | step :: rest =>
      match turn step currentState w with
      | Continue result log nextState w1 =>
          match reach rest nextState w1 with
          | Some (results, logs, cs, w2) =>
              Some (result :: results, log :: logs, cs, w2)
          | None => None
          end
      | Break _ _ _ => None
      end
  end.

(** The detectors, run where a turn runs them, both stay silent. *)
Definition quiet (w : World) : Prop :=
  let w0 := snd (dateNow browser w) in
  fst (detectCaptcha page w0) = false
  /\ fst (detect2FA page (snd (detectCaptcha page w0))) = false.

(** The detectors, run where a turn runs them: one of them fires. *)
Inductive Gate (w : World) : Prop :=
| GateCaptcha :
    fst (detectCaptcha page (snd (dateNow browser w))) = true -> Gate w
| GateTwoFA :
    fst (detectCaptcha page (snd (dateNow browser w))) = false ->
    fst (detect2FA page (snd (detectCaptcha page (snd (dateNow browser w))))) = true ->
    Gate w.

Record Trace := {
  preRun : list Event;
  attempts : list Attempt;
}.

(** The world the step loop of [executePlan] starts in: after the two
    clock reads and the pre-run dismissal of cookie banners and modals. *)
Definition loopStart (w : World) : World :=
  let '(_, w) := isoNow browser w in
  let '(_, w) := dateNow browser w in
  let '(_, w) := handleCookieBanner browser w in
  let '(_, w) := dismissModal browser w in
  w.

(** [executePlan]. The promise rejects only if the final
    [writeJsonArtifact] does. *)
Definition executePlan (plan : Plan.t) (config : Config.WebRunnerConfig)
    (currentState : CompactState) (downloadDir runlogPath : string) (w : World)
  : Result RunLog * Trace * World :=
  let '(startedAt, w) := isoNow browser w in
  let '(startMs, w) := dateNow browser w in
  let '(_, w) := handleCookieBanner browser w in
  let '(_, w) := dismissModal browser w in
  let '(stepResults, log, w) := runSteps (Plan.steps plan) currentState w in
  let '(assertionResult, w) :=
    match Plan.assertions plan with
    | Some (a :: more) =>
        let '(result, w') := runAssertions browser (a :: more) downloadDir w in
        (Some result, w')
    | Some [] | None => (None, w)
    end in
  let '(completedAt, w) := isoNow browser w in
  let '(endMs, w) := dateNow browser w in
  let runLog :=
    {| planGoal := Plan.goal plan; startedAt := startedAt;
       completedAt := completedAt; runDurationMs := endMs - startMs;
       steps := stepResults; assertionResult := assertionResult;
       finalUrl := currentUrl browser w |} in
  let trace :=
    {| preRun := [EvHandleCookieBanner; EvDismissModal]; attempts := log |} in
  let '(written, w) := writeJsonArtifact browser runlogPath runLog w in
  match written with
  | Ok _ => (Ok runLog, trace, w)
  | Throw t => (Throw t, trace, w)
  end.

End Execute.

End Executor.

(* ===================================================================== *)
(** * The built-in [Map] with string keys                                 *)
(* ===================================================================== *)

(** A [Map] iterates in insertion order, and setting a key that is
    already present replaces its value in place. *)
Module JsMap.

Definition t (V : Type) := list (string * V).

Fixpoint set {V : Type} (m : t V) (k : string) (v : V) : t V :=
  match m with
  | [] => [(k, v)]
  | (k', v') :: m' =>
      if String.eqb k' k then (k', v) :: m' else (k', v') :: set m' k v
  end.

Fixpoint get {V : Type} (m : t V) (k : string) : option V :=
  match m with
  | [] => None
  | (k', v') :: m' => if String.eqb k' k then Some v' else get m' k
  end.

Definition has {V : Type} (m : t V) (k : string) : bool :=
  match get m k with Some _ => true | None => false end.

(** [m.keys()] *)
Definition keys {V : Type} (m : t V) : list string := map fst m.

(** [new Map(entries)] *)
Definition ofEntries {V : Type} (entries : list (string * V)) : t V :=
  fold_left (fun m e => set m (fst e) (snd e)) entries [].

End JsMap.

(* ===================================================================== *)
(** * core/state/diff.ts                                                  *)
(* ===================================================================== *)

Module Diff.
Import Model.

Inductive TrackedField :=
| FLabel | FDisabled | FVisible | FValuePresent | FText | FHref.

Definition TRACKED_FIELDS : list TrackedField :=
  [FLabel; FDisabled; FVisible; FValuePresent; FText; FHref].

(** The value of a tracked field of an element object. *)
Inductive FieldValue :=
| VUndefined
| VString (s : string)
| VBool (b : bool).

Definition ofOption (o : option string) : FieldValue :=
  match o with Some s => VString s | None => VUndefined end.

(** [el[field]] *)
Definition field (el : InteractiveElement) (f : TrackedField) : FieldValue :=
  match f with
  | FLabel => VString (label el)
  | FDisabled => VBool (disabled el)
  | FVisible => VBool (visible el)
  | FValuePresent => VBool (valuePresent el)
  | FText => ofOption (text el)
  | FHref => ofOption (href el)
  end.

(** [a === b] on such values. *)
Definition strictEq (a b : FieldValue) : bool :=
  match a, b with
  | VUndefined, VUndefined => true
  | VString s, VString t => String.eqb s t
  | VBool x, VBool y => Bool.eqb x y
  | _, _ => false
  end.

(** [Partial<InteractiveElement>] restricted to the tracked fields: the
    properties assigned, in assignment order. *)
Definition PartialElement := list (TrackedField * FieldValue).

Fixpoint changedOver (fields : list TrackedField) (before after : InteractiveElement)
  : PartialElement * PartialElement :=
  match fields with
  | [] => ([], [])
  | f :: rest =>
      let '(bDiff, aDiff) := changedOver rest before after in
      if negb (strictEq (field before f) (field after f))
      then ((f, field before f) :: bDiff, (f, field after f) :: aDiff)
      else (bDiff, aDiff)
  end.

(** [changed(before, after)] *)
Definition changed (before after : InteractiveElement)
  : option (PartialElement * PartialElement) :=
  let '(bDiff, aDiff) := changedOver TRACKED_FIELDS before after in
  if Nat.eqb (length bDiff) 0 then None else Some (bDiff, aDiff).

Record Change := {
  changedRef : string;
  before : PartialElement;
  after : PartialElement;
}.

Record StateDiff := {
  added : list InteractiveElement;
  removed : list InteractiveElement;
  changedList : list Change;
}.

Definition indexByRef (elements : list InteractiveElement)
  : JsMap.t InteractiveElement :=
  JsMap.ofEntries (map (fun el => (ref el, el)) elements).

(** The first loop of [diffStates], over the entries of [currMap]. *)
Fixpoint scanCurrent (entries : list (string * InteractiveElement))
    (prevMap : JsMap.t InteractiveElement)
  : list InteractiveElement * list Change :=
  match entries with
  | [] => ([], [])
  | (r, currEl) :: rest =>
      let '(addedRest, changedRest) := scanCurrent rest prevMap in
      if negb (JsMap.has prevMap r) then (currEl :: addedRest, changedRest)
      else
        match JsMap.get prevMap r with
        | Some prevEl =>
            match changed prevEl currEl with
            | Some (b, a) =>
                (addedRest,
                 {| changedRef := r; before := b; after := a |} :: changedRest)
            | None => (addedRest, changedRest)
            end
        | None => (addedRest, changedRest)
        end
  end.

(** The second loop, over the entries of [prevMap]. *)
Fixpoint scanPrevious (entries : list (string * InteractiveElement))
    (currMap : JsMap.t InteractiveElement) : list InteractiveElement :=
  match entries with
  | [] => []
  | (r, prevEl) :: rest =>
      if negb (JsMap.has currMap r) then prevEl :: scanPrevious rest currMap
      else scanPrevious rest currMap
  end.

Definition diffStates (prev curr : CompactState) : StateDiff :=
  let prevMap := indexByRef (interactive prev) in
  let currMap := indexByRef (interactive curr) in
  let '(addedEls, changes) := scanCurrent currMap prevMap in
  {| added := addedEls;
     removed := scanPrevious prevMap currMap;
     changedList := changes |}.

End Diff.

(* ===================================================================== *)
(** * JSON-like values                                                    *)
(* ===================================================================== *)

(** The values the artifact and macro code handles: what [JSON.parse]
    produces, plus [undefined]. An object is the list of its own
    enumerable properties in the order [Object.entries] gives them.
    Numbers are the integral ones. *)
Inductive JsValue :=
| JsUndefined
| JsNull
| JsBool (b : bool)
| JsNumber (n : Z)
| JsString (s : string)
| JsArray (items : list JsValue)
| JsObject (entries : list (string * JsValue)).

(** Where a value sits inside another: through the property named [k]
    of an object, or through the element [i] of an array. *)
Module JsPath.

Inductive Seg :=
| Key (k : string)
| Index (i : nat).

Definition t := list Seg.

(** [obj[k]] for an own property. *)
Fixpoint property (entries : list (string * JsValue)) (k : string)
  : option JsValue :=
  match entries with
  | [] => None
  | (k', v) :: rest => if String.eqb k' k then Some v else property rest k
  end.

(** The value found by following the path, if the path exists. *)
Fixpoint follow (v : JsValue) (p : t) : option JsValue :=
  match p with
  | [] => Some v
  | Key k :: p' =>
      match v with
      | JsObject entries =>
          match property entries k with
          | Some x => follow x p'
          | None => None
          end
      | _ => None
      end
  | Index i :: p' =>
      match v with
      | JsArray items =>
          match items !! i with
          | Some x => follow x p'
          | None => None
          end
      | _ => None
      end
  end.

Definition isString (v : JsValue) : bool :=
  match v with JsString _ => true | _ => false end.

(** Neither an object nor an array. *)
Definition isScalar (v : JsValue) : bool :=
  match v with JsObject _ | JsArray _ => false | _ => true end.

End JsPath.

(* ===================================================================== *)
(** * core/artifacts/redact.ts                                            *)
(* ===================================================================== *)

Module Redact.

Definition optional (cs : list ascii) : Regex.branch := [Regex.OptOneOf cs].

Definition SECRET_KEY_PATTERNS : list Regex.RegExp :=
  [ Regex.word "password";
    Regex.word "passwd";
    Regex.word "secret";
    Regex.word "token";
    Regex.anyOf [(Regex.lits "api" ++ optional ["_"; "-"]%char ++ Regex.lits "key")%list];
    Regex.word "otp";
    (* /auth(?:orization)?/i *)
    Regex.anyOf [Regex.lits "authorization"; Regex.lits "auth"];
    Regex.word "credential";
    Regex.anyOf [(Regex.lits "private" ++ optional ["_"; "-"]%char ++ Regex.lits "key")%list];
    Regex.anyOf [(Regex.lits "access" ++ optional ["_"; "-"]%char ++ Regex.lits "key")%list] ].

Definition isSecretKey (key : string) (patterns : list Regex.RegExp) : bool :=
  existsb (fun p => Regex.test p key) patterns.

(** [allowlist.includes(key)] *)
Definition allowed (allowlist : list string) (key : string) : bool :=
  existsb (String.eqb key) allowlist.

(** [`[REDACTED:${val.length}]`] *)
Definition marker (val : string) : string :=
  "[REDACTED:" +:+ pretty (String.length val) +:+ "]".

(** [result[key] = ...] on the object literal [result] creates the
    property [key], except for the key [__proto__]: that assignment
    goes to the setter [Object.prototype] has under this name, and
    [result] gets no property of its own (an object assigned this way
    becomes the prototype of [result]; [Object.entries] and
    [JSON.stringify], through which the result is read and written,
    see own properties only). *)
Definition isProto (key : string) : bool := String.eqb key "__proto__".

Definition assignable (entry : string * JsValue) : bool :=
  negb (isProto (fst entry)).

Fixpoint redactSecrets (allowlist : list string) (patterns : list Regex.RegExp)
    (value : JsValue) : JsValue :=
  match value with
  | JsNull => JsNull
  | JsUndefined => JsUndefined
  | JsArray items =>
      JsArray (map (redactSecrets allowlist patterns) items)
  | JsObject entries =>
      JsObject
        (List.filter assignable
           (map (fun entry : string * JsValue =>
                   let (key, val) := entry in
                   if allowed allowlist key then (key, val)
                   else
                     match val with
                     | JsString s =>
                         if isSecretKey key patterns
                         then (key, JsString (marker s))
                         else (key, redactSecrets allowlist patterns val)
                     | _ => (key, redactSecrets allowlist patterns val)
                     end)
                entries))
  | _ => value
  end.

(** The loop body of the object case, as a function of the entry. *)
Definition redactEntry (allowlist : list string) (patterns : list Regex.RegExp)
    (entry : string * JsValue) : string * JsValue :=
  let (key, val) := entry in
  if allowed allowlist key then (key, val)
  else
    match val with
    | JsString s =>
        if isSecretKey key patterns then (key, JsString (marker s))
        else (key, redactSecrets allowlist patterns val)
    | _ => (key, redactSecrets allowlist patterns val)
    end.

(** Some property name on the path is allow-listed. *)
Definition passesAllowed (allowlist : list string) (p : JsPath.t) : bool :=
  existsb (fun seg => match seg with
                      | JsPath.Key k => allowed allowlist k
                      | JsPath.Index _ => false
                      end) p.

(** What [redactSecrets] leaves in place of a value [x] that sits at
    the path [p] of its argument: [x] itself below an allow-listed
    property; the marker for a string that is the value of a
    secret-named property; the redaction of [x] otherwise. *)
Definition redactedAt (allowlist : list string) (patterns : list Regex.RegExp)
    (p : JsPath.t) (x : JsValue) : JsValue :=
  if passesAllowed allowlist p then x
  else
    match last p, x with
    | Some (JsPath.Key k), JsString s =>
        if isSecretKey k patterns then JsString (marker s) else x
    | _, _ => redactSecrets allowlist patterns x
    end.

(** No property name on the path is [__proto__]. *)
Definition protoFree (p : JsPath.t) : bool :=
  forallb (fun seg => match seg with
                      | JsPath.Key k => negb (isProto k)
                      | JsPath.Index _ => true
                      end) p.

(** [redactSecrets(value)], both optional parameters at their defaults. *)
Definition redactSecretsDefault (value : JsValue) : JsValue :=
  redactSecrets [] SECRET_KEY_PATTERNS value.

Definition buildRedactPatterns (config : Config.WebRunnerConfig)
  : list Regex.RegExp :=
  (SECRET_KEY_PATTERNS ++ Config.redactPatterns config)%list.

End Redact.

(* ===================================================================== *)
(** * core/index.ts: the patch loop of [runTask]                          *)
(* ===================================================================== *)

Module Orchestrator.
Import Model Schemas Executor.

(** The oracle-facing halves of one patch round, each an operation on
    the world that may reject:
    - [requestPatchPlan task finalState verdict patchRound]:
      [buildPatchPrompt], [llm.call], [parsePlan] with its
      [repairPlan] fallback, and the write of the patch plan;
    - [requestVerdict task newFinalState steps]: [buildRunlogSummary],
      [buildVerifyPrompt], [llm.call], [parseVerdict] with its
      [repairVerdict] fallback, and the write of the verdict;
    - [patchLogPath patchRound]: the run-log path of the round. *)
Record Oracle (World : Type) := {
  requestPatchPlan :
    string -> CompactState -> Verdict.t -> Z -> World -> Result Plan.t * World;
  requestVerdict :
    string -> CompactState -> list StepResult -> World
    -> Result Verdict.t * World;
  patchLogPath : Z -> string;
}.
Arguments requestPatchPlan {World}.
Arguments requestVerdict {World}.
Arguments patchLogPath {World}.

(** How the loop was left: by its guard, with the verdict and counter
    then current; by a rejection inside the body; or not at all within
    the turns the model was given. *)
Inductive Outcome :=
| Settled (verdict : Verdict.t) (patchRound : Z)
| Rejected (t : Thrown)
| Unfinished.

(** One turn of the loop, as logged: the counter after [patchRound++],
    the verdict the turn was entered with, and what its body produced. *)
Record Round := {
  counter : Z;
  given : Verdict.t;
  produced : Result Verdict.t;
}.

(** The verdict that stands after the logged turns: what the last turn
    produced, or the verdict the loop was entered with if it took none. *)
Definition lastVerdict (initial : Verdict.t) (log : list Round)
  : Result Verdict.t :=
  match last log with
  | Some r => produced r
  | None => Ok initial
  end.

(** [Rounds config n v log o]: entered with counter [n] and verdict
    [v], the loop takes the turns [log] and is left as [o]; each turn is
    taken under the guard, bumps the counter by one and hands its
    verdict to the next. *)
Inductive Rounds (config : Config.WebRunnerConfig)
  : Z -> Verdict.t -> list Round -> Outcome -> Prop :=
| RoundsStop n v :
    ~ (Verdict.status v = "patch" /\ n < Config.maxPatchRounds config) ->
    Rounds config n v [] (Settled v n)
| RoundsThrow n v t :
    Verdict.status v = "patch" -> n < Config.maxPatchRounds config ->
    Rounds config n v
      [{| counter := n + 1; given := v; produced := Throw t |}] (Rejected t)
| RoundsStep n v v' log o :
    Verdict.status v = "patch" -> n < Config.maxPatchRounds config ->
    Rounds config (n + 1) v' log o ->
    Rounds config n v
      ({| counter := n + 1; given := v; produced := Ok v' |} :: log) o.

Section PatchLoop.
Context {World : Type} (page : Recovery.Probe World) (browser : Browser World)
        (oracle : Oracle World).
Variables (config : Config.WebRunnerConfig) (task : string)
          (finalState : CompactState) (runId downloadDir : string).

(** The body of the [while] after [patchRound++]. *)
Definition patchBody (patchRound : Z) (verdict : Verdict.t) (w : World)
  : Result Verdict.t * World :=
  let '(p, w1) := requestPatchPlan oracle task finalState verdict patchRound w in
  match p with
  | Throw t => (Throw t, w1)
  | Ok patchPlan =>
      let '(r, _, w2) :=
        executePlan page browser patchPlan config finalState downloadDir
          (patchLogPath oracle patchRound) w1 in
      match r with
      | Throw t => (Throw t, w2)
      | Ok runlog =>
          let '(s, w3) := collectState browser runId w2 in
          match s with
          | Throw t => (Throw t, w3)
          | Ok newFinalState =>
              requestVerdict oracle task newFinalState (steps runlog) w3
          end
      end
  end.

(** [Body patchRound verdict w r w']: entered in the world [w], the
    body asks the oracle for a patch plan for [verdict], runs the plan,
    collects the state and asks the oracle for a verdict on it, in this
    order; [r] is the verdict the oracle gave, or the first rejection
    on the way, and [w'] the world then. *)
Inductive Body (patchRound : Z) (verdict : Verdict.t) (w : World)
  : Result Verdict.t -> World -> Prop :=
| BodyNoPlan t w1 :
    requestPatchPlan oracle task finalState verdict patchRound w
    = (Throw t, w1) ->
    Body patchRound verdict w (Throw t) w1
| BodyNoRun patchPlan w1 t trace w2 :
    requestPatchPlan oracle task finalState verdict patchRound w
    = (Ok patchPlan, w1) ->
    executePlan page browser patchPlan config finalState downloadDir
      (patchLogPath oracle patchRound) w1
    = (Throw t, trace, w2) ->
    Body patchRound verdict w (Throw t) w2
| BodyNoState patchPlan w1 runlog trace w2 t w3 :
    requestPatchPlan oracle task finalState verdict patchRound w
    = (Ok patchPlan, w1) ->
    executePlan page browser patchPlan config finalState downloadDir
      (patchLogPath oracle patchRound) w1
    = (Ok runlog, trace, w2) ->
    collectState browser runId w2 = (Throw t, w3) ->
    Body patchRound verdict w (Throw t) w3
| BodyVerdict patchPlan w1 runlog trace w2 newFinalState w3 r w4 :
    requestPatchPlan oracle task finalState verdict patchRound w
    = (Ok patchPlan, w1) ->
    executePlan page browser patchPlan config finalState downloadDir
      (patchLogPath oracle patchRound) w1
    = (Ok runlog, trace, w2) ->
    collectState browser runId w2 = (Ok newFinalState, w3) ->
    requestVerdict oracle task newFinalState (steps runlog) w3 = (r, w4) ->
    Body patchRound verdict w r w4.

(** [Turns n v w log o w']: entered with the counter [n] and the
    verdict [v] in the world [w], the loop takes the turns [log], is
    left as [o] and leaves the world [w']. A turn is taken only under
    the guard; it bumps the counter by one; what it produces is what
    its body got from the oracle, and the next turn is entered with it,
    in the world the body left. *)
Inductive Turns
  : Z -> Verdict.t -> World -> list Round -> Outcome -> World -> Prop :=
| TurnsStop n v w :
    ~ (Verdict.status v = "patch" /\ n < Config.maxPatchRounds config) ->
    Turns n v w [] (Settled v n) w
| TurnsThrow n v w t w1 :
    Verdict.status v = "patch" -> n < Config.maxPatchRounds config ->
    Body (n + 1) v w (Throw t) w1 ->
    Turns n v w
      [{| counter := n + 1; given := v; produced := Throw t |}] (Rejected t) w1
| TurnsStep n v w v' w1 log o w2 :
    Verdict.status v = "patch" -> n < Config.maxPatchRounds config ->
    Body (n + 1) v w (Ok v') w1 ->
    Turns (n + 1) v' w1 log o w2 ->
    Turns n v w
      ({| counter := n + 1; given := v; produced := Ok v' |} :: log) o w2.

(** [while (verdict.status === 'patch' && patchRound < config.maxPatchRounds)];
    [turns] bounds the number of turns the model may take. *)
Fixpoint patchLoop (turns : nat) (verdict : Verdict.t) (patchRound : Z) (w : World)
  : Outcome * list Round * World :=
  if (String.eqb (Verdict.status verdict) "patch"
      && (patchRound <? Config.maxPatchRounds config))%bool
  then
    match turns with
    | O => (Unfinished, [], w)
    | S turns' =>
        let patchRound' := patchRound + 1 in
        let '(r, w1) := patchBody patchRound' verdict w in
        let entry :=
          {| counter := patchRound'; given := verdict; produced := r |} in
        match r with
        | Ok verdict' =>
            let '(o, log, w2) := patchLoop turns' verdict' patchRound' w1 in
            (o, entry :: log, w2)
        | Throw t => (Rejected t, [entry], w1)
        end
    end
  else (Settled verdict patchRound, [], w).

(** STEP 6 of [runTask]: [let patchRound = 0] and the loop. *)
Definition patchPhase (verdict : Verdict.t) (w : World)
  : Outcome * list Round * World :=
  patchLoop (Z.to_nat (Config.maxPatchRounds config)) verdict 0 w.

End PatchLoop.

End Orchestrator.

(* ===================================================================== *)
(** * The built-in [JSON] object                                          *)
(* ===================================================================== *)

(** [JSON.stringify] (one argument) and [JSON.parse] on [JsValue]. The
    parser covers the JSON grammar but for numbers with a fraction or
    an exponent and escapes above U+00FF, which the value type has no
    room for: it reports them as it does malformed text. *)
Module JSON.

Definition hexDigit (n : nat) : ascii :=
  if (n <? 10)%nat then ascii_of_nat (48 + n) else ascii_of_nat (87 + n).

(** QuoteJSONString, one code unit. *)
Definition escapeUnit (c : ascii) : string :=
  let n := nat_of_ascii c in
  let esc (x : string) := String Js.backslash x in
  if Nat.eqb n 34 then esc (Js.chr Js.dquote)
  else if Nat.eqb n 92 then esc (Js.chr Js.backslash)
  else if Nat.eqb n 8 then esc "b"
  else if Nat.eqb n 9 then esc "t"
  else if Nat.eqb n 10 then esc "n"
  else if Nat.eqb n 12 then esc "f"
  else if Nat.eqb n 13 then esc "r"
  else if (n <? 32)%nat
       then esc (String "u" (String "0" (String "0"
              (String (hexDigit (n / 16)) (String (hexDigit (n mod 16))
                 EmptyString)))))
       else Js.chr c.

Fixpoint escape (s : string) : string :=
  match s with
  | EmptyString => EmptyString
  | String c r => escapeUnit c +:+ escape r
  end.

Definition quote (s : string) : string :=
  String Js.dquote (escape s +:+ Js.chr Js.dquote).

(** SerializeJSONProperty for a value that is not [undefined] at the
    top; inside an array [undefined] is written [null], and a property
    whose value is [undefined] is left out. *)
Fixpoint serialize (v : JsValue) : string :=
  match v with
  | JsUndefined => "null"
  | JsNull => "null"
  | JsBool true => "true"
  | JsBool false => "false"
  | JsNumber n => pretty n
  | JsString s => quote s
  | JsArray items => "[" +:+ Js.join "," (map serialize items) +:+ "]"
  | JsObject entries =>
      "{" +:+
      Js.join ","
        ((fix members (es : list (string * JsValue)) : list string :=
            match es with
            | [] => []
            | (k, x) :: rest =>
                match x with
                | JsUndefined => members rest
                | _ => (quote k +:+ ":" +:+ serialize x) :: members rest
                end
            end) entries)
      +:+ "}"
  end.

(** [JSON.stringify(value)]; [None] is [undefined]. *)
Definition stringify (v : JsValue) : option string :=
  match v with
  | JsUndefined => None
  | _ => Some (serialize v)
  end.

Definition isWs (c : ascii) : bool :=
  let n := nat_of_ascii c in
  (Nat.eqb n 32 || Nat.eqb n 9 || Nat.eqb n 10 || Nat.eqb n 13)%bool.

Fixpoint skipWs (s : string) : string :=
  match s with
  | EmptyString => EmptyString
  | String c r => if isWs c then skipWs r else s
  end.

Definition hexValue (c : ascii) : option nat :=
  let n := nat_of_ascii c in
  if Js.inRange 48 57 c then Some (n - 48)%nat
  else if Js.inRange 97 102 c then Some (n - 87)%nat
  else if Js.inRange 65 70 c then Some (n - 55)%nat
  else None.

(** The code unit a four-digit [\u] escape stands for, if below 256. *)
Definition unicodeUnit (a b c d : ascii) : option ascii :=
  match hexValue a, hexValue b, hexValue c, hexValue d with
  | Some 0%nat, Some 0%nat, Some h, Some l => Some (ascii_of_nat (16 * h + l))
  | _, _, _, _ => None
  end.

(** The rest of a string literal after its opening quote: the string
    it denotes and the text after the closing quote. *)
Fixpoint parseString (s : string) : option (string * string) :=
  match s with
  | EmptyString => None
  | String c r =>
      let n := nat_of_ascii c in
      if Nat.eqb n 34 then Some (EmptyString, r)
      else if Nat.eqb n 92 then
        match r with
        | EmptyString => None
        | String e r1 =>
            let unit (x : ascii) :=
              match parseString r1 with
              | Some (str, rest) => Some (String x str, rest)
              | None => None
              end in
            let m := nat_of_ascii e in
            if Nat.eqb m 34 then unit Js.dquote
            else if Nat.eqb m 92 then unit Js.backslash
            else if Nat.eqb m 47 then unit "/"%char
            else if Nat.eqb m 98 then unit (ascii_of_nat 8)
            else if Nat.eqb m 102 then unit (ascii_of_nat 12)
            else if Nat.eqb m 110 then unit (ascii_of_nat 10)
            else if Nat.eqb m 114 then unit (ascii_of_nat 13)
            else if Nat.eqb m 116 then unit (ascii_of_nat 9)
            else if Nat.eqb m 117 then
              match r1 with
              | String a (String b (String c' (String d r2))) =>
                  match unicodeUnit a b c' d, parseString r2 with
                  | Some x, Some (str, rest) => Some (String x str, rest)
                  | _, _ => None
                  end
              | _ => None
              end
            else None
        end
      else if (n <? 32)%nat then None
      else
        match parseString r with
        | Some (str, rest) => Some (String c str, rest)
        | None => None
        end
  end.

Definition isDigit (c : ascii) : bool := Js.inRange 48 57 c.

(** The digits [s] starts with, read as a number in base ten on top
    of [acc], and what follows them. *)
Fixpoint parseDigits (acc : N) (s : string) : N * string :=
  match s with
  | EmptyString => (acc, EmptyString)
  | String c r =>
      if isDigit c
      then parseDigits (acc * 10 + N.of_nat (nat_of_ascii c - 48)) r
      else (acc, s)
  end.

(** An integer in the JSON number grammar: no leading zero, nothing of
    a fraction or exponent after it. *)
Definition parseNatural (s : string) : option (N * string) :=
  match s with
  | EmptyString => None
  | String c r =>
      if isDigit c then
        let '(n, rest) := parseDigits 0 s in
        let leadingZero :=
          (Nat.eqb (nat_of_ascii c) 48
           && match r with String d _ => isDigit d | EmptyString => false end)%bool in
        let goesOn :=
          match rest with
          | String d _ =>
              let m := nat_of_ascii d in
              (Nat.eqb m 46 || Nat.eqb m 101 || Nat.eqb m 69)%bool
          | EmptyString => false
          end in
        if (leadingZero || goesOn)%bool then None else Some (n, rest)
      else None
  end.

Definition parseNumber (s : string) : option (Z * string) :=
  match s with
  | String c r =>
      if Nat.eqb (nat_of_ascii c) 45 then
        match parseNatural r with
        | Some (n, rest) => Some (- Z.of_N n, rest)
        | None => None
        end
      else
        match parseNatural s with
        | Some (n, rest) => Some (Z.of_N n, rest)
        | None => None
        end
  | EmptyString => None
  end.

Fixpoint allDigits (s : string) : bool :=
  match s with
  | EmptyString => true
  | String c r => (isDigit c && allDigits r)%bool
  end.

(** A property name that is an array index: the decimal form, without
    leading zeros, of an integer from 0 to 2^32 - 2. *)
Definition arrayIndex (k : string) : option N :=
  match k with
  | EmptyString => None
  | String c r =>
      if (allDigits k
          && negb (Nat.eqb (nat_of_ascii c) 48 && Js.truthy r))%bool
      then
        let n := fst (parseDigits 0 k) in
        if (n <=? 4294967294)%N then Some n else None
      else None
  end.

(** The place of a new property whose name is the array index [n]:
    behind the array indices below it, before everything else. *)
Fixpoint place (entries : list (string * JsValue)) (n : N) (k : string)
    (v : JsValue) : list (string * JsValue) :=
  match entries with
  | [] => [(k, v)]
  | (k', v') :: rest =>
      match arrayIndex k' with
      | Some m =>
          if (m <? n)%N then (k', v') :: place rest n k v
          else (k, v) :: entries
      | None => (k, v) :: entries
      end
  end.

(** The property [k] defined on the object being built: an existing
    property keeps its place and takes the new value; a new one comes
    after all others, unless its name is an array index: the properties
    of an object are kept with the array indices first, in ascending
    order, and the other names behind them in the order of their
    creation. *)
Definition define (entries : list (string * JsValue)) (k : string) (v : JsValue)
  : list (string * JsValue) :=
  if JsMap.has entries k then JsMap.set entries k v
  else
    match arrayIndex k with
    | Some n => place entries n k v
    | None => (entries ++ [(k, v)])%list
    end.

(** [s] without the prefix [word], if it has it. *)
Fixpoint stripPrefix (word s : string) : option string :=
  match word with
  | EmptyString => Some s
  | String a word' =>
      match s with
      | String b s' => if Ascii.eqb a b then stripPrefix word' s' else None
      | EmptyString => None
      end
  end.

Definition keyword (word : string) (v : JsValue) (s : string)
  : option (JsValue * string) :=
  match stripPrefix word s with
  | Some rest => Some (v, rest)
  | None => None
  end.

(** One JSON value at the start of [s] (after white space), and the
    text after it. [fuel] bounds the number of nested calls. *)
Fixpoint parseValue (fuel : nat) (s : string) : option (JsValue * string) :=
  match fuel with
  | O => None
  | S fuel' =>
      match skipWs s with
      | EmptyString => None
      | String c r =>
          let n := nat_of_ascii c in
          if Nat.eqb n 123 then
            match skipWs r with
            | String d r' =>
                if Nat.eqb (nat_of_ascii d) 125 then Some (JsObject [], r')
                else parseMembers fuel' r []
            | EmptyString => None
            end
          else if Nat.eqb n 91 then
            match skipWs r with
            | String d r' =>
                if Nat.eqb (nat_of_ascii d) 93 then Some (JsArray [], r')
                else parseElements fuel' r []
            | EmptyString => None
            end
          else if Nat.eqb n 34 then
            match parseString r with
            | Some (str, rest) => Some (JsString str, rest)
            | None => None
            end
          else if Nat.eqb n 116 then keyword "true" (JsBool true) (String c r)
          else if Nat.eqb n 102 then keyword "false" (JsBool false) (String c r)
          else if Nat.eqb n 110 then keyword "null" JsNull (String c r)
          else
            match parseNumber (String c r) with
            | Some (z, rest) => Some (JsNumber z, rest)
            | None => None
            end
      end
  end
with parseElements (fuel : nat) (s : string) (acc : list JsValue)
  : option (JsValue * string) :=
  match fuel with
  | O => None
  | S fuel' =>
      match parseValue fuel' s with
      | Some (v, rest) =>
          match skipWs rest with
          | String d r' =>
              if Nat.eqb (nat_of_ascii d) 44
              then parseElements fuel' r' (acc ++ [v])%list
              else if Nat.eqb (nat_of_ascii d) 93
                   then Some (JsArray (acc ++ [v])%list, r')
                   else None
          | EmptyString => None
          end
      | None => None
      end
  end
with parseMembers (fuel : nat) (s : string) (acc : list (string * JsValue))
  : option (JsValue * string) :=
  match fuel with
  | O => None
  | S fuel' =>
      match skipWs s with
      | String q r =>
          if Nat.eqb (nat_of_ascii q) 34 then
            match parseString r with
            | Some (k, r1) =>
                match skipWs r1 with
                | String colon r2 =>
                    if Nat.eqb (nat_of_ascii colon) 58 then
                      match parseValue fuel' r2 with
                      | Some (v, r3) =>
                          match skipWs r3 with
                          | String d r4 =>
                              if Nat.eqb (nat_of_ascii d) 44
                              then parseMembers fuel' r4 (define acc k v)
                              else if Nat.eqb (nat_of_ascii d) 125
                                   then Some (JsObject (define acc k v), r4)
                                   else None
                          | EmptyString => None
                          end
                      | None => None
                      end
                    else None
                | EmptyString => None
                end
            | None => None
            end
          else None
      | EmptyString => None
      end
  end.

Definition syntaxError : Thrown := Foreign "Unexpected token in JSON".

(** [JSON.parse(text)] *)
Definition parse (text : string) : Result JsValue :=
  match parseValue (2 * String.length text + 2) text with
  | Some (v, rest) =>
      match skipWs rest with
      | EmptyString => Ok v
      | String _ _ => Throw syntaxError
      end
  | None => Throw syntaxError
  end.

(** No name occurs twice. *)
Fixpoint distinct (names : list string) : bool :=
  match names with
  | [] => true
  | k :: rest => (negb (existsb (String.eqb k) rest) && distinct rest)%bool
  end.

(** The order in which an object keeps its property names: the array
    indices first, ascending, then the other names. *)
Fixpoint ordered (names : list string) : bool :=
  match names with
  | [] => true
  | k :: rest =>
      (match arrayIndex k with
       | Some n =>
           forallb (fun k' => match arrayIndex k' with
                              | Some m => (n <? m)%N
                              | None => true
                              end) rest
       | None =>
           forallb (fun k' => match arrayIndex k' with
                              | Some _ => false
                              | None => true
                              end) rest
       end && ordered rest)%bool
  end.

(** A value as [JSON.parse] can produce it: no [undefined] inside, and
    no object with two properties of one name or with its properties
    out of order. *)
Fixpoint wellFormed (v : JsValue) : bool :=
  match v with
  | JsUndefined => false
  | JsArray items => forallb wellFormed items
  | JsObject entries =>
      (distinct (map fst entries)
       && ordered (map fst entries)
       && forallb (fun entry : string * JsValue =>
                     let (_, x) := entry in wellFormed x) entries)%bool
  | _ => true
  end.

(** How deep the calls of the parser nest on the serialized form of a
    value. *)
Fixpoint need (v : JsValue) : nat :=
  match v with
  | JsArray items =>
      S ((fix all (l : list JsValue) : nat :=
            match l with
            | [] => O
            | x :: r => S (Nat.max (need x) (all r))
            end) items)
  | JsObject entries =>
      S ((fix all (l : list (string * JsValue)) : nat :=
            match l with
            | [] => O
            | (_, x) :: r => S (Nat.max (need x) (all r))
            end) entries)
  | _ => 1%nat
  end.

(** Text that cannot continue a number: it does not start with a digit,
    a point or an exponent mark. *)
Definition delimited (rest : string) : bool :=
  match rest with
  | EmptyString => true
  | String c _ =>
      let n := nat_of_ascii c in
      negb (isDigit c || Nat.eqb n 46 || Nat.eqb n 101 || Nat.eqb n 69)%bool
  end.

(** The first code unit of a serialized value: not white space, not a
    closing bracket or brace. *)
Definition opens (c : ascii) : bool :=
  let n := nat_of_ascii c in
  (negb (isWs c) && negb (Nat.eqb n 93) && negb (Nat.eqb n 125))%bool.

(** The first code unit of a serialized number. *)
Definition numeric (c : ascii) : bool :=
  (isDigit c || Nat.eqb (nat_of_ascii c) 45)%bool.

(** The nesting of the parser's calls over the elements of an array
    and over the properties of an object. *)
Definition needs (items : list JsValue) : nat := pred (need (JsArray items)).
Definition needsOf (entries : list (string * JsValue)) : nat :=
  pred (need (JsObject entries)).

(** The members [serialize] writes for the properties of an object. *)
Fixpoint members (entries : list (string * JsValue)) : list string :=
  match entries with
  | [] => []
  | (k, x) :: rest =>
      match x with
      | JsUndefined => members rest
      | _ => (quote k +:+ ":" +:+ serialize x) :: members rest
      end
  end.

(** [v] is read back from its serialized form, with any fuel that
    covers its nesting and before any text that cannot continue it. *)
Definition readsBack (v : JsValue) : Prop :=
  forall fuel rest,
    delimited rest = true -> (need v <= fuel)%nat ->
    parseValue fuel (serialize v +:+ rest) = Some (v, rest).

End JSON.

(* ===================================================================== *)
(** * core/cache/macroStore.ts: [applyParams]                             *)
(* ===================================================================== *)

Module MacroStore.

(** [\w] *)
Definition isWordChar (c : ascii) : bool :=
  (Js.inRange 97 122 c || Js.inRange 65 90 c || Js.inRange 48 57 c
   || Nat.eqb (nat_of_ascii c) 95)%bool.

Definition lbrace : ascii := ascii_of_nat 123.
Definition rbrace : ascii := ascii_of_nat 125.

(** The longest run of word characters [s] starts with, and what
    follows it. *)
Fixpoint wordPrefix (s : string) : string * string :=
  match s with
  | EmptyString => (EmptyString, EmptyString)
  | String c r =>
      if isWordChar c
      then let '(word, rest) := wordPrefix r in (String c word, rest)
      else (EmptyString, s)
  end.

(** [/\{(\w+)\}/] tried at the start of [s]: the captured name. *)
Definition matchToken (s : string) : option string :=
  match s with
  | EmptyString => None
  | String c r =>
      if Ascii.eqb c lbrace then
        match wordPrefix r with
        | (String n name, String d _) =>
            if Ascii.eqb d rbrace then Some (String n name) else None
        | _ => None
        end
      else None
  end.

Definition token (name : string) : string :=
  Js.chr lbrace +:+ name +:+ Js.chr rbrace.

(** The object [params] as the replacer reads it. [params[key]] finds
    a property of [params] itself, or else a member of the prototype
    chain, which for an object literal is [Object.prototype];
    [inherited] gives, for each member that is neither [null] nor
    [undefined], the string the replacement turns it into. *)
Record Params := {
  own : gmap string string;
  inherited : gmap string string;
}.

(** [params[key]] where it is neither [null] nor [undefined]. *)
Definition get (params : Params) (key : string) : option string :=
  match own params !! key with
  | Some value => Some value
  | None => inherited params !! key
  end.

(** The replacer callback: [params[key] ?? `{${key}}`]. *)
Definition fill (params : Params) (key : string) : string :=
  match get params key with
  | Some value => value
  | None => token key
  end.

(** The string form of a built-in function, as Node prints it. *)
Definition nativeFunction (name : string) : string :=
  "function " +:+ name +:+ "() { [native code] }".

(** The members of [Object.prototype] in Node, each with its string
    form: the functions, and under [__proto__] the prototype itself. *)
Definition objectPrototype : gmap string string :=
  list_to_map
    (("constructor", nativeFunction "Object")
     :: ("__proto__", "[object Object]")
     :: map (fun name => (name, nativeFunction name))
          ["__defineGetter__"; "__defineSetter__"; "hasOwnProperty";
           "__lookupGetter__"; "__lookupSetter__"; "isPrototypeOf";
           "propertyIsEnumerable"; "toString"; "valueOf"; "toLocaleString"]).

(** An object literal with the given properties. *)
Definition literal (properties : gmap string string) : Params :=
  {| own := properties; inherited := objectPrototype |}.

(** [s.replace(/\{(\w+)\}/g, replacer)]: scan left to right; at a match
    emit the replacement and resume right after the matched token
    ([skip] counts the code units of it still to pass over); elsewhere
    copy the code unit. *)
Fixpoint replaceFrom (params : Params) (skip : nat) (s : string)
  : string :=
  match s with
  | EmptyString => EmptyString
  | String c r =>
      match skip with
      | S k => replaceFrom params k r
      | O =>
          match matchToken s with
          | Some name =>
              fill params name +:+ replaceFrom params (S (String.length name)) r
          | None => String c (replaceFrom params 0 r)
          end
      end
  end.

Definition replaceTokens (params : Params) (s : string) : string :=
  replaceFrom params 0 s.

(** The two built-ins [applyParams] is made of, on plans of some run-time
    representation: [JSON.stringify] (which yields [undefined] for some
    values) and [JSON.parse] (which throws on malformed text). *)
Record Json (Plan : Type) := {
  stringify : Plan -> option string;
  parse : string -> Result Plan;
}.
Arguments stringify {Plan}.
Arguments parse {Plan}.

Definition notAString : Thrown :=
  Foreign "Cannot read properties of undefined (reading 'replace')".

Definition applyParams {Plan : Type} (JSON : Json Plan) (plan : Plan)
    (params : Params) : Result Plan :=
  match stringify JSON plan with
  | None => Throw notAString
  | Some planStr =>
      let filled := replaceTokens params planStr in
      parse JSON filled
  end.

(** The built-ins on [JsValue]. *)
Definition builtin : Json JsValue :=
  {| stringify := JSON.stringify; parse := JSON.parse |}.

(** A serialized form without placeholders: the pattern matches at no
    position. *)
Fixpoint tokenFree (s : string) : bool :=
  match matchToken s with
  | Some _ => false
  | None =>
      match s with
      | EmptyString => true
      | String _ r => tokenFree r
      end
  end.

(** A placeholder name: a non-empty run of word characters. *)
Fixpoint allWord (s : string) : bool :=
  match s with
  | EmptyString => true
  | String c r => (isWordChar c && allWord r)%bool
  end.

Definition isName (s : string) : bool := (Js.truthy s && allWord s)%bool.

End MacroStore.

(* ===================================================================== *)
(** * A scripted environment                                              *)
(* ===================================================================== *)

(** A small concrete world on which the embedded code can be run: the
    world is a clock tick; every browser call succeeds and advances the
    clock; the page shows a fixed text. *)
Module Sample.
Import Selectors Model Schemas Recovery Executor.

Definition World := Z.

Definition tick {A : Type} (a : A) (w : World) : A * World := (a, w + 1).

Definition pageShowing (bodyText : string) : Probe World :=
  {| bodyTextLower := fun w => tick (Ok bodyText) w;
     present := fun _ w => tick (Ok false) w |}.

Definition calmPage : Probe World := pageShowing "example domain".
Definition captchaPage : Probe World :=
  pageShowing "please solve the captcha to continue".
Definition twoFactorPage : Probe World :=
  pageShowing "enter your verification code".

Definition emptyState : CompactState :=
  {| meta := {| runId := "run-1"; timestamp := "t0";
                url := "https://example.com"; title := "Example Domain" |};
     pageSummary := {| headings := []; forms := []; notices := [] |};
     interactive := [] |}.

Definition button (r l : string) : InteractiveElement :=
  {| ref := r; role := RButton; label := l; name := None; inputType := None;
     valuePresent := false; disabled := false; visible := true;
     selectors := {| primary := "#" +:+ r; fallback := [] |};
     text := None; href := None |}.

Definition oneButton : CompactState :=
  {| meta := meta emptyState; pageSummary := pageSummary emptyState;
     interactive := [button "E1" "Submit"] |}.

Definition browser : Browser World :=
  {| navigate := fun _ w => tick (Ok tt) w;
     click := fun s w => tick (Ok (primary s)) w;
     type := fun s _ w => tick (Ok (primary s)) w;
     select := fun s _ w => tick (Ok (primary s)) w;
     waitFor := fun _ _ w => tick (Ok tt) w;
     screenshot := fun w => tick (Ok tt) w;
     scroll := fun _ _ w => tick (Ok tt) w;
     evaluateInnerText := fun w => tick (Ok "Example Domain") w;
     currentUrl := fun _ => "https://example.com";
     handleCookieBanner := fun w => tick (Ok false) w;
     dismissModal := fun w => tick (Ok false) w;
     collectState := fun _ w => tick (Ok oneButton) w;
     runAssertions := fun _ _ w =>
       tick {| Assertions.passed := true; Assertions.failed := [] |} w;
     writeJsonArtifact := fun _ _ w => tick (Ok tt) w;
     dateNow := fun w => tick w w;
     isoNow := fun w => tick "2026-02-22T00:00:00.000Z" w |}.

Definition step (i o : string) (r : option string) : Step.t :=
  {| Step.id := i; Step.op := o; Step.url := None; Step.ref := r;
     Step.text := None; Step.value := None; Step.kind := None;
     Step.timeoutMs := None; Step.schemaRef := None; Step.out := None;
     Step.direction := None; Step.amount := None |}.

(** A page for [trySelectors]: handles are element ids; [#submit] and
    [button:nth-of-type(1)] match the visible element [submit],
    [.ghost] matches a detached element, [!!] is not a selector, and
    nothing else matches. *)
Definition domPage : Page World string :=
  {| query := fun sel w =>
       if String.eqb sel "#submit" then tick (Ok (Some "submit")) w
       else if String.eqb sel "button:nth-of-type(1)" then tick (Ok (Some "submit")) w
       else if String.eqb sel ".ghost" then tick (Ok (Some "ghost")) w
       else if String.eqb sel "!!" then tick (Throw (Foreign "not a valid selector")) w
       else tick (Ok None) w;
     isVisible := fun h w =>
       if String.eqb h "ghost" then tick (Throw (Foreign "element is detached")) w
       else tick (Ok true) w |}.

Definition planOf (todo : list Step.t) : Plan.t :=
  {| Plan.goal := "demo"; Plan.assumptions := None; Plan.steps := todo;
     Plan.assertions := None; Plan.onFailure := None;
     Plan.schemaVersion := Some "1.0" |}.

Definition verdictOf (st : string) : Verdict.t :=
  {| Verdict.status := st; Verdict.summary := "judged";
     Verdict.evidence := None; Verdict.patchPlan := None;
     Verdict.reason := None; Verdict.next := None;
     Verdict.schemaVersion := Some "1.0" |}.

(** An oracle whose every patch plan is a single screenshot and whose
    every verdict after a patch round has the status [answer]. *)
Definition oracleAnswering (answer : string) : Orchestrator.Oracle World :=
  {| Orchestrator.requestPatchPlan := fun _ _ _ _ w =>
       tick (Ok (planOf [step "p1" "screenshot" None])) w;
     Orchestrator.requestVerdict := fun _ _ _ w => tick (Ok (verdictOf answer)) w;
     Orchestrator.patchLogPath := fun _ => "patch-log.json" |}.

Definition configWithRounds (n : Z) : Config.WebRunnerConfig :=
  {| Config.globalTimeoutMs := 180000; Config.stepTimeoutMs := 30000;
     Config.navigationTimeoutMs := 60000; Config.headless := true;
     Config.outDir := "./out"; Config.model := "m";
     Config.allowScreenshots := true; Config.allowTracing := false;
     Config.redactPatterns := []; Config.maxPatchRounds := n;
     Config.openRouterApiKey := None; Config.downloadDir := None |}.

Definition usersDoc : JsValue :=
  JsObject [("users",
             JsArray [JsObject [("name", JsString "alice");
                                ("session",
                                 JsObject [("apiKey", JsString "key123")])]])].

Definition loginDoc : JsValue :=
  JsObject [("otp", JsNumber 123456);
            ("auth", JsObject [("token", JsString "abc123")])].

(** A stored macro plan with the placeholders [{email}] and
    [{password}], and a plan without placeholders. *)
Definition macroPlan : JsValue :=
  JsObject [("goal", JsString "log in as {email}");
            ("steps",
             JsArray [JsObject [("id", JsString "s1"); ("op", JsString "type");
                                ("ref", JsString "E1");
                                ("text", JsString "{email}")];
                      JsObject [("id", JsString "s2"); ("op", JsString "type");
                                ("ref", JsString "E2");
                                ("text", JsString "{password}")];
                      JsObject [("id", JsString "s3"); ("op", JsString "click");
                                ("ref", JsString "E3");
                                ("timeoutMs", JsNumber 5000)]]);
            ("schemaVersion", JsString "1.0")].

Definition plainPlan : JsValue :=
  JsObject [("goal", JsString "open the example page");
            ("steps",
             JsArray [JsObject [("id", JsString "s1");
                                ("op", JsString "navigate");
                                ("url", JsString "https://example.com")];
                      JsObject [("id", JsString "s2");
                                ("op", JsString "waitFor");
                                ("timeoutMs", JsNumber 5000)]]);
            ("assertions", JsArray []);
            ("schemaVersion", JsString "1.0")].

End Sample.

(* ===================================================================== *)
(** * core/state/diff.ts: [formatDiffForPrompt]                           *)
(* ===================================================================== *)

Module DiffPrompt.
Import Model Diff.

(** The property name of a tracked field. *)
Definition fieldName (f : TrackedField) : string :=
  match f with
  | FLabel => "label"
  | FDisabled => "disabled"
  | FVisible => "visible"
  | FValuePresent => "valuePresent"
  | FText => "text"
  | FHref => "href"
  end.

Definition valueOf (v : FieldValue) : JsValue :=
  match v with
  | VUndefined => JsUndefined
  | VString s => JsString s
  | VBool b => JsBool b
  end.

(** A [Partial<InteractiveElement>] as the object [JSON.stringify]
    is handed. *)
Definition toObject (p : PartialElement) : JsValue :=
  JsObject (map (fun entry : TrackedField * FieldValue =>
                   (fieldName (fst entry), valueOf (snd entry))) p).

Definition newline : string := Js.chr (ascii_of_nat 10).

(** [`${title} elements (${n}):`] *)
Definition heading (title : string) (n : nat) : string :=
  title +:+ " elements (" +:+ pretty n +:+ "):".

(** [`  ${sign} ${el.ref} [${el.role}] "${el.label}"`] *)
Definition elementLine (sign : string) (el : InteractiveElement) : string :=
  "  " +:+ sign +:+ " " +:+ ref el +:+ " [" +:+ roleName (role el) +:+ "] "
  +:+ Js.chr Js.dquote +:+ label el +:+ Js.chr Js.dquote.

Section Format.
(** The text between the two serialized objects of a changed line is
    [" → "]; the arrow is a code unit above U+00FF, so the text
    is a parameter here. *)
Variable arrow : string.

(** [`  ~ ${c.ref}: ${JSON.stringify(c.before)} -> ${JSON.stringify(c.after)}`] *)
Definition changeLine (c : Change) : string :=
  "  ~ " +:+ changedRef c +:+ ": " +:+ JSON.serialize (toObject (before c))
  +:+ arrow +:+ JSON.serialize (toObject (after c)).

(** The array [lines] when the three [if] blocks are through. *)
Definition diffLines (diff : StateDiff) : list string :=
  let lines := [] in
  let lines :=
    if (0 <? length (added diff))%nat
    then (lines ++ [heading "Added" (length (added diff))]
            ++ map (elementLine "+") (take 10 (added diff)))%list
    else lines in
  let lines :=
    if (0 <? length (removed diff))%nat
    then (lines ++ [heading "Removed" (length (removed diff))]
            ++ map (elementLine "-") (take 10 (removed diff)))%list
    else lines in
  let lines :=
    if (0 <? length (changedList diff))%nat
    then (lines ++ [heading "Changed" (length (changedList diff))]
            ++ map changeLine (take 10 (changedList diff)))%list
    else lines in
  lines.

Definition formatDiffForPrompt (diff : StateDiff) : string :=
  let text := Js.join newline (diffLines diff) in
  if Js.truthy text then text else "No observable changes.".

End Format.

(** The lines one of the three blocks contributes for a list of [n]
    entries. *)
Definition blockSize (n : nat) : nat :=
  if (0 <? n)%nat then S (Nat.min 10 n) else O.

(** The same element as far as the differ looks: the ref and the six
    tracked fields. *)
Definition sameTracked (p q : InteractiveElement) : Prop :=
  ref p = ref q /\ forall f, field p f = field q f.

(** The tracked fields on which two elements differ. *)
Definition differing (p q : InteractiveElement) : list TrackedField :=
  List.filter (fun f => negb (strictEq (field p f) (field q f))) TRACKED_FIELDS.

(** Two entries of an index with the same key and, under it, elements
    that agree on what the differ tracks. *)
Definition alike (e1 e2 : string * InteractiveElement) : Prop :=
  fst e1 = fst e2 /\ sameTracked (snd e1) (snd e2).

(** A changed entry with its two sides exchanged. *)
Definition swap (c : Change) : Change :=
  {| changedRef := changedRef c; before := after c; after := before c |}.

(** The number of line feeds in a text: one less than the number of
    lines it is printed on. *)
Fixpoint lineFeeds (s : string) : nat :=
  match s with
  | EmptyString => O
  | String c r =>
      ((if Nat.eqb (nat_of_ascii c) 10 then 1 else 0) + lineFeeds r)%nat
  end.

End DiffPrompt.

(* ===================================================================== *)
(** * More of the built-in string methods                                 *)
(* ===================================================================== *)

Module JsText.

(** The code units below U+0100 that [trim] removes and [\s] matches:
    TAB, LF, VT, FF, CR, SP and NBSP. *)
Definition isWhiteSpace (c : ascii) : bool :=
  let n := nat_of_ascii c in
  (Js.inRange 9 13 c || Nat.eqb n 32 || Nat.eqb n 160)%bool.

Fixpoint trimStart (s : string) : string :=
  match s with
  | EmptyString => EmptyString
  | String c r => if isWhiteSpace c then trimStart r else s
  end.

Fixpoint trimEnd (s : string) : string :=
  match s with
  | EmptyString => EmptyString
  | String c r =>
      match trimEnd r with
      | EmptyString => if isWhiteSpace c then EmptyString else Js.chr c
      | r' => String c r'
      end
  end.

(** [s.trim()] *)
Definition trim (s : string) : string := trimEnd (trimStart s).

(** [s.slice(0, n)] for a count [n]: the first [n] code units, or all
    of [s] if it has fewer. *)
Fixpoint sliceTo (n : nat) (s : string) : string :=
  match n, s with
  | S n', String c r => String c (sliceTo n' r)
  | _, _ => EmptyString
  end.

(** [a || b] where [a] may be [undefined] and [b] is a string. *)
Definition orTruthy (a : option string) (b : string) : string :=
  match a with
  | Some s => if Js.truthy s then s else b
  | None => b
  end.

(** The code units [lo], [lo + 1], ... [hi] of a class range. *)
Definition units (lo hi : nat) : list ascii :=
  map ascii_of_nat (seq lo (S hi - lo)).

Fixpoint mapUnits (f : ascii -> ascii) (s : string) : string :=
  match s with
  | EmptyString => EmptyString
  | String c r => String (f c) (mapUnits f r)
  end.

Fixpoint allUnits (p : ascii -> bool) (s : string) : bool :=
  match s with
  | EmptyString => true
  | String c r => (p c && allUnits p r)%bool
  end.

End JsText.

(* ===================================================================== *)
(** * core/state/collect.ts: from raw elements to the snapshot            *)
(* ===================================================================== *)

Module Collect.
Import Selectors.

(** What the in-page script reports of one element; [index] is its
    position among the elements matched. *)
Record RawElement := {
  tagName : string;
  type : option string;
  role : option string;
  ariaLabel : option string;
  id : option string;
  name : option string;
  placeholder : option string;
  value : option string;
  checked : option bool;
  disabled : option bool;
  visible : option bool;
  labelText : option string;
  innerText : option string;
  href : option string;
  dataTestId : option string;
  index : nat;
}.

(** [x === s] for an [x] that may be [undefined]. *)
Definition equals (x : option string) (s : string) : bool :=
  match x with Some v => String.eqb v s | None => false end.

Definition mapRole (tag : string) (type : option string) : Model.ElementRole :=
  let t := Js.toLowerCase tag in
  if (String.eqb t "button" || equals type "button" || equals type "submit"
      || equals type "reset")%bool then Model.RButton
  else if String.eqb t "a" then Model.RLink
  else if String.eqb t "select" then Model.RSelect
  else if String.eqb t "textarea" then Model.RTextarea
  else if equals type "checkbox" then Model.RCheckbox
  else if equals type "radio" then Model.RRadio
  else if String.eqb t "input" then Model.RInput
  else Model.ROther.

(** [deriveLabel]: the first truthy operand of the [||] chain, the
    last operand if none is. *)
Definition deriveLabel (el : RawElement) : string :=
  JsText.orTruthy (labelText el)
    (JsText.orTruthy (ariaLabel el)
       (JsText.orTruthy (placeholder el)
          (JsText.orTruthy
             (option_map (fun t => JsText.sliceTo 60 (JsText.trim t))
                (innerText el))
             (JsText.orTruthy (name el)
                (JsText.orTruthy (id el)
                   (tagName el +:+ "[" +:+ pretty (index el) +:+ "]")))))).

(** [`[${name}="${value}"]`] *)
Definition attribute (name value : string) : string :=
  "[" +:+ name +:+ "=" +:+ Js.chr Js.dquote +:+ value +:+ Js.chr Js.dquote
  +:+ "]".

(** [if (x) list.push(f(x))] *)
Definition pushIf (x : option string) (f : string -> string) (l : list string)
  : list string :=
  match x with
  | Some v => if Js.truthy v then (l ++ [f v])%list else l
  | None => l
  end.

Definition buildSelectors (el : RawElement) : SelectorSet :=
  let tag := Js.toLowerCase (tagName el) in
  let nth := tag +:+ ":nth-of-type(" +:+ pretty (index el + 1)%nat +:+ ")" in
  let named (n : string) := tag +:+ attribute "name" n in
  let fallback := [] in
  let fallback := pushIf (ariaLabel el) (attribute "aria-label") fallback in
  let fallback := pushIf (id el) (fun i => "#" +:+ i) fallback in
  let fallback := pushIf (name el) named fallback in
  let fallback := pushIf (placeholder el) (attribute "placeholder") fallback in
  let fallback := (fallback ++ [nth])%list in
  let '(primary, fallback) :=
    if Js.truthyOpt (dataTestId el)
    then (attribute "data-testid" (Js.orElse (dataTestId el) Js.empty), fallback)
    else if Js.truthyOpt (name el)
    then (named (Js.orElse (name el) Js.empty), fallback)
    else if Js.truthyOpt (ariaLabel el)
    then (attribute "aria-label" (Js.orElse (ariaLabel el) Js.empty), fallback)
    else if Js.truthyOpt (id el)
    then ("#" +:+ Js.orElse (id el) Js.empty, fallback)
    else
      (* fallback.shift() ?? ... *)
      match fallback with
      | first :: rest => (first, rest)
      | [] => (nth, [])
      end in
  {| primary := primary;
     fallback := List.filter (fun f => negb (String.eqb f primary)) fallback |}.

(** The callback of [rawElements.map((el, i) => ...)] in [collectState]. *)
Definition describe (i : nat) (el : RawElement) : Model.InteractiveElement :=
  {| Model.ref := "E" +:+ pretty (i + 1)%nat;
     Model.role := mapRole (tagName el) (type el);
     Model.label := deriveLabel el;
     Model.name := name el;
     Model.inputType := type el;
     Model.valuePresent := Js.truthyOpt (value el);
     Model.disabled := default false (disabled el);
     Model.visible := default true (visible el);
     Model.selectors := buildSelectors el;
     Model.text := option_map JsText.trim (innerText el);
     Model.href := href el |}.

(** The [interactive] list of the snapshot [collectState] returns. *)
Definition interactiveOf (rawElements : list RawElement)
  : list Model.InteractiveElement :=
  imap describe rawElements.

Definition snapshot (meta : Model.StateMeta) (summary : Model.PageSummary)
    (rawElements : list RawElement) : Model.CompactState :=
  {| Model.meta := meta; Model.pageSummary := summary;
     Model.interactive := interactiveOf rawElements |}.

End Collect.

(* ===================================================================== *)
(** * core/cache/keys.ts                                                  *)
(* ===================================================================== *)

Module Keys.

(** The members of the class [[a-z0-9]]. *)
Definition alphanumerics : list ascii :=
  (JsText.units 97 122 ++ JsText.units 48 57)%list.

(** A code unit [/[^a-z0-9]/i] does not match: one that, canonicalized,
    is a member of the class. *)
Definition kept (c : ascii) : bool :=
  existsb (Regex.sameUnit c) alphanumerics.

Definition underscore : ascii := ascii_of_nat 95.
Definition hyphen : ascii := ascii_of_nat 45.

(** [s.replace(/[^a-z0-9]/gi, '_')] *)
Definition sanitize (s : string) : string :=
  JsText.mapUnits (fun c => if kept c then c else underscore) s.

Record CacheKeyParams := {
  hostname : string;
  pathPattern : string;
  formSignature : option string;
  macroName : option string;
}.

Definition deriveCacheKey (params : CacheKeyParams) : string :=
  let parts :=
    [ sanitize (hostname params);
      JsText.sliceTo 40 (sanitize (pathPattern params));
      match formSignature params with
      | Some s => JsText.sliceTo 20 s
      | None => Js.empty
      end;
      match macroName params with
      | Some s => sanitize s
      | None => Js.empty
      end ] in
  Js.toLowerCase (Js.join "--" (List.filter Js.truthy parts)).

(** [inputNames.slice().sort().join(',')]: the default order of [sort]
    on strings is the order of their code units, which is [String.le];
    any two sorted arrangements of the same strings are the same
    list. *)
Definition deriveFormSignature (inputNames : list string) : string :=
  Js.join "," (merge_sort String.le inputNames).

Definition deriveSelectorKey (hostname ref : string) : string :=
  sanitize hostname +:+ "--" +:+ ref.

(** The code units a sanitized, lower-cased part is made of, and the
    separator. *)
Definition plain (c : ascii) : bool :=
  (Js.inRange 97 122 c || Js.inRange 48 57 c || Ascii.eqb c underscore
   || Ascii.eqb c hyphen)%bool.

(** What [sanitize] leaves: a code unit it keeps, or the underscore. *)
Definition clean (c : ascii) : bool := (kept c || Ascii.eqb c underscore)%bool.

(** What a key is made of before it is lower-cased. *)
Definition joined (c : ascii) : bool := (clean c || Ascii.eqb c hyphen)%bool.

Definition noHyphen (c : ascii) : bool := negb (Ascii.eqb c hyphen).

End Keys.

(* ===================================================================== *)
(** * The shape of a run log                                              *)
(* ===================================================================== *)

Module RunShape.
Import Schemas Executor.

(** The result recorded for a step carries the step's id and op. *)
Definition sameStep (r : StepResult) (s : Step.t) : Prop :=
  id r = Step.id s /\ op r = Step.op s.

Definition succeeded (r : StepResult) : Prop :=
  status r = success /\ error r = None.

(** The results of a pass over [todo]: one per step, in order, up to
    and including the first that failed. *)
Definition failFast (results : list StepResult) (todo : list Step.t) : Prop :=
  Forall2 sameStep results (take (length results) todo)
  /\ (Forall succeeded results /\ length results = length todo
      \/ exists done r text,
           results = (done ++ [r])%list
           /\ Forall succeeded done
           /\ status r = failed /\ error r = Some text
           /\ selectorUsed r = None).

(** The thrown value is an [ElementMissing]. *)
Definition isElementMissing (t : option Thrown) : Prop :=
  exists e, t = Some (Raised e) /\ class e = CElementMissing
            /\ recoverable e = true.

End RunShape.

(* ===================================================================== *)
(** * What redaction leaves as it is                                      *)
(* ===================================================================== *)

Module RedactShape.
Import Redact.

(** No property, at any depth, is named [__proto__]: a value all of
    whose properties [redactSecrets] carries over. *)
Fixpoint ordinaryKeys (v : JsValue) : bool :=
  match v with
  | JsArray items => forallb ordinaryKeys items
  | JsObject entries =>
      forallb (fun entry : string * JsValue =>
                 (negb (String.eqb (fst entry) "__proto__")
                  && ordinaryKeys (snd entry))%bool) entries
  | _ => true
  end.

(** Two values of the same shape: arrays of the same length and objects
    with the same property names in the same order, the same shape
    below, and at the leaves a string for a string and otherwise the
    same scalar. *)
Fixpoint sameShape (a b : JsValue) : bool :=
  match a, b with
  | JsArray xs, JsArray ys =>
      (fix all (xs ys : list JsValue) : bool :=
         match xs, ys with
         | [], [] => true
         | x :: xs', y :: ys' => (sameShape x y && all xs' ys')%bool
         | _, _ => false
         end) xs ys
  | JsObject es, JsObject fs =>
      (fix all (es fs : list (string * JsValue)) : bool :=
         match es, fs with
         | [], [] => true
         | (k, x) :: es', (k', y) :: fs' =>
             (String.eqb k k' && sameShape x y && all es' fs')%bool
         | _, _ => false
         end) es fs
  | JsString _, JsString _ => true
  | JsUndefined, JsUndefined => true
  | JsNull, JsNull => true
  | JsBool x, JsBool y => Bool.eqb x y
  | JsNumber x, JsNumber y => Z.eqb x y
  | _, _ => false
  end.

(** Some string of the value is the value of a property with a
    secret-like name, with no allow-listed name on the way to it. *)
Fixpoint holdsSecret (allowlist : list string) (patterns : list Regex.RegExp)
    (v : JsValue) {struct v} : bool :=
  match v with
  | JsArray items => existsb (holdsSecret allowlist patterns) items
  | JsObject entries =>
      existsb (fun entry : string * JsValue =>
                 (negb (allowed allowlist (fst entry))
                  && match snd entry with
                     | JsString _ => isSecretKey (fst entry) patterns
                     | _ => holdsSecret allowlist patterns (snd entry)
                     end)%bool) entries
  | _ => false
  end.

End RedactShape.

(* ===================================================================== *)
(** * core/planning/llm.ts: [LLMClient.call]                              *)
(* ===================================================================== *)

Module LLM.

Record LLMMessage := {
  role : string;
  content : string;
}.

Record LLMOptions := {
  maxTokens : option Z;
  temperature : option Z;
  retries : option Z;
}.

Record LLMUsage := {
  promptTokens : Z;
  completionTokens : Z;
  totalTokens : Z;
}.

Record LLMResponse := {
  responseContent : string;
  usage : LLMUsage;
  model : string;
}.

(** What the completion endpoint answers, as far as [call] reads it:
    the message content of the first choice and the three token
    counts, any of which may be missing. *)
Record Message := { messageContent : option string }.
Record Choice := { message : option Message }.
Record CompletionUsage := {
  prompt_tokens : option Z;
  completion_tokens : option Z;
  total_tokens : option Z;
}.
Record Completion := {
  choices : list Choice;
  completionUsage : option CompletionUsage;
}.

(** The two things [call] does to the outside: the request
    [client.chat.completions.create({ model, messages, max_tokens,
    temperature })], which may reject, and the pause
    [new Promise(r => setTimeout(r, ms))]. *)
Record Api (World : Type) := {
  create : string -> list LLMMessage -> Z -> Z -> World
           -> Result Completion * World;
  pause : Z -> World -> World;
}.
Arguments create {World}.
Arguments pause {World}.

(** The counters of an [LLMClient]. *)
Record Stats := {
  totalTokensUsed : Z;
  totalCalls : Z;
}.

(** What [call] does, in order: the requests, numbered by attempt, and
    the pauses between them. *)
Inductive Event :=
| Requested (attempt : Z)
| Paused (ms : Z).

(** How [call] ends: with a response, with a throw, or not within the
    turns the model was given. *)
Inductive Outcome :=
| Answered (response : LLMResponse)
| Failed (t : Thrown)
| Unfinished.

(** [response.choices[0]?.message?.content ?? ''] *)
Definition contentOf (response : Completion) : string :=
  match choices response with
  | first :: _ =>
      match message first with
      | Some m => Js.orElse (messageContent m) Js.empty
      | None => Js.empty
      end
  | [] => Js.empty
  end.

(** [response.usage?.field ?? 0] *)
Definition count (response : Completion)
    (field : CompletionUsage -> option Z) : Z :=
  match completionUsage response with
  | Some u => default 0 (field u)
  | None => 0
  end.

Definition usageOf (response : Completion) : LLMUsage :=
  {| promptTokens := count response prompt_tokens;
     completionTokens := count response completion_tokens;
     totalTokens := count response total_tokens |}.

(** The [details] of the final [LLMError] is [lastErr]; the embedding
    keeps its text. *)
Definition lastErrDetails (lastErr : option Thrown) : Details :=
  match lastErr with
  | Some t => Note (errorText t)
  | None => NoDetails
  end.

Section Call.
Context {World : Type} (api : Api World).
Variables (clientModel : string) (messages : list LLMMessage)
          (maxTokens' temperature' retries' : Z).

(** [for (let attempt = 1; attempt <= retries; attempt++)], from the
    value [attempt] on, and the [throw] after the loop; [turns] bounds
    the number of turns the model may take. *)
Fixpoint attemptsFrom (turns : nat) (attempt : Z) (lastErr : option Thrown)
    (stats : Stats) (w : World) : Outcome * list Event * Stats * World :=
  if attempt <=? retries' then
    match turns with
    | O => (Unfinished, [], stats, w)
    | S turns' =>
        let '(r, w1) :=
          create api clientModel messages maxTokens' temperature' w in
        match r with
        | Ok response =>
            let content := contentOf response in
            let usage := usageOf response in
            let stats' :=
              {| totalTokensUsed := totalTokensUsed stats + totalTokens usage;
                 totalCalls := totalCalls stats + 1 |} in
            (Answered {| responseContent := content; usage := usage;
                         model := clientModel |},
             [Requested attempt], stats', w1)
        | Throw err =>
            let '(paused, w2) :=
              if attempt <? retries'
              then ([Paused (1000 * attempt)], pause api (1000 * attempt) w1)
              else ([], w1) in
            let '(o, evs, stats', w3) :=
              attemptsFrom turns' (attempt + 1) (Some err) stats w2 in
            (o, (Requested attempt :: paused ++ evs)%list, stats', w3)
        end
    end
  else
    (Failed (Raised (LLMError
                       ("Failed after " +:+ pretty retries' +:+ " attempts")
                       (lastErrDetails lastErr))),
     [], stats, w).

(** The world in which the request number [k + 1] is made if the [k]
    requests before it were all rejected: after each of these, and the
    pause of [1000 * attempt] milliseconds that follows a rejected
    attempt below [retries]. *)
Fixpoint worldBefore (k : nat) (w : World) : World :=
  match k with
  | O => w
  | S k' =>
      let w1 :=
        snd (create api clientModel messages maxTokens' temperature'
               (worldBefore k' w)) in
      if Z.of_nat k' + 1 <? retries'
      then pause api (1000 * (Z.of_nat k' + 1)) w1
      else w1
  end.

(** What the request number [k + 1] is answered with, if the [k]
    before it were all rejected. *)
Definition answer (k : nat) (w : World) : Result Completion * World :=
  create api clientModel messages maxTokens' temperature' (worldBefore k w).

(** The error the last of [k] rejected requests was rejected with. *)
Definition lastRejection (k : nat) (w : World) : option Thrown :=
  match k with
  | O => None
  | S k' =>
      match fst (answer k' w) with
      | Throw t => Some t
      | Ok _ => None
      end
  end.

End Call.

(** [call(messages, opts)] on a client for [clientModel]. *)
Definition call {World : Type} (api : Api World) (clientModel : string)
    (messages : list LLMMessage) (opts : LLMOptions) (stats : Stats) (w : World)
  : Outcome * list Event * Stats * World :=
  let maxTokens := default 4096 (maxTokens opts) in
  let temperature := default 0 (temperature opts) in
  let retries := default 3 (retries opts) in
  attemptsFrom api clientModel messages maxTokens temperature retries
    (Z.to_nat retries) 1 None stats w.

(** [getStats()] *)
Definition getStats (stats : Stats) : Z * Z :=
  (totalCalls stats, totalTokensUsed stats).

(** The requests and pauses of a call whose attempts [first], ...,
    [first + n - 1] failed and were each followed by a pause and whose
    attempt [first + n] was the last. *)
Fixpoint schedule (n : nat) (first : Z) : list Event :=
  match n with
  | O => [Requested first]
  | S n' => Requested first :: Paused (1000 * first) :: schedule n' (first + 1)
  end.

(** The requests and pauses of a call all of whose [m] requests, from
    the attempt [first] on, are rejected: no pause follows the last. *)
Definition rejected (m : nat) (first : Z) : list Event :=
  match m with O => [] | S m' => schedule m' first end.

Definition isRequest (e : Event) : bool :=
  match e with Requested _ => true | Paused _ => false end.

Section Settled.
Context {World : Type} (api : Api World).
Variables (clientModel : string) (messages : list LLMMessage)
          (maxTokens' temperature' retries' : Z).

(** What a run of the loop from [attempt] on amounts to. *)
Definition Settles (attempt : Z) (stats : Stats)
    (run : Outcome * list Event * Stats * World) : Prop :=
  let '(o, evs, stats', _) := run in
  match o with
  | Answered r =>
      (exists n : nat, attempt + Z.of_nat n <= retries'
                       /\ evs = schedule n attempt)
      /\ totalCalls stats' = totalCalls stats + 1
      /\ totalTokensUsed stats' = totalTokensUsed stats + totalTokens (usage r)
      /\ model r = clientModel
      /\ exists response w0 w1,
           create api clientModel messages maxTokens' temperature' w0
           = (Ok response, w1)
           /\ responseContent r = contentOf response
           /\ usage r = usageOf response
  | Failed t =>
      stats' = stats
      /\ (exists d,
            t = Raised (LLMError
                          ("Failed after " +:+ pretty retries' +:+ " attempts") d))
      /\ (retries' < attempt /\ evs = []
          \/ exists n : nat, attempt + Z.of_nat n = retries'
                             /\ evs = schedule n attempt)
  | Unfinished => False
  end.

End Settled.

End LLM.

(* ===================================================================== *)
(** * core/browser/waits.ts and core/browser/controller.ts                *)
(* ===================================================================== *)

Module Controller.
Import Selectors.

(** [new TimeoutError(operation, timeoutMs)] *)
Definition TimeoutError (operation : string) (timeoutMs : Z) : WebRunnerError :=
  {| class := CTimeoutError; code := TIMEOUT;
     message := "Operation " +:+ Js.chr Js.dquote +:+ operation
                +:+ Js.chr Js.dquote +:+ " timed out after "
                +:+ pretty timeoutMs +:+ "ms";
     recoverable := true; details := NoDetails |}.

(** The response of a navigation, as far as [navigate] reads it. *)
Record Response := {
  ok : bool;
  status : Z;
}.

(** The Playwright calls of the controller's action methods, each an
    operation on the world that may reject. [goto] resolves to a
    response or to [null]. *)
Record Driver (World Handle : Type) := {
  goto : string -> Z -> World -> Result (option Response) * World;
  waitForLoadState : string -> Z -> World -> Result unit * World;
  waitForNavigation : Z -> World -> Result unit * World;
  handleClick : Handle -> option Z -> option Z -> World -> Result unit * World;
  handleFill : Handle -> string -> Z -> World -> Result unit * World;
  selectOption : string -> string -> Z -> World -> Result unit * World;
  evaluate : string -> World -> Result unit * World;
}.
Arguments goto {World Handle}.
Arguments waitForLoadState {World Handle}.
Arguments waitForNavigation {World Handle}.
Arguments handleClick {World Handle}.
Arguments handleFill {World Handle}.
Arguments selectOption {World Handle}.
Arguments evaluate {World Handle}.

(** The controller calls, in order. *)
Inductive Call (Handle : Type) :=
| Goto (url : string)
| WaitIdle
| WaitNavigation
| Click (h : Handle)
| Fill (h : Handle) (text : string)
| SelectOption (selector value : string)
| Evaluate (script : string).
Arguments Goto {Handle}.
Arguments WaitIdle {Handle}.
Arguments WaitNavigation {Handle}.
Arguments Click {Handle}.
Arguments Fill {Handle}.
Arguments SelectOption {Handle}.
Arguments Evaluate {Handle}.

Section Methods.
Context {World Handle : Type} (config : Config.WebRunnerConfig)
        (page : Page World Handle) (driver : Driver World Handle).

(** [waitForNavigation(page, opts)] of waits.ts: never rejects. *)
Definition awaitNavigation (timeoutMs : option Z) (w : World) : World :=
  let timeout := default 5000 timeoutMs in
  snd (waitForNavigation driver timeout w).

(** [waitForNetworkIdle(page, opts)] of waits.ts *)
Definition waitForNetworkIdle (timeoutMs : option Z) (w : World)
  : Result unit * World :=
  let timeout := default 10000 timeoutMs in
  let '(r, w1) := waitForLoadState driver "networkidle" timeout w in
  match r with
  | Ok _ => (Ok tt, w1)
  | Throw _ => (Throw (Raised (TimeoutError "waitForNetworkIdle" timeout)), w1)
  end.

(** The [details] of a [NavigationFailed]: the error it wraps, of which
    the embedding keeps the text, or the status of the response. *)
Definition wrapped (err : Thrown) : Details := Note (errorText err).

(** [navigate(url)] *)
Definition navigate (url : string) (w : World)
  : Result unit * list (Call Handle) * World :=
  let '(r, w1) := goto driver url (Config.navigationTimeoutMs config) w in
  let settle :=
    let '(_, w2) := waitForNetworkIdle (Some 5000) w1 in
    (Ok tt, [Goto url; WaitIdle], w2) in
  match r with
  | Ok (Some response) =>
      if (negb (ok response) && (400 <=? status response))%bool
      then
        (* thrown inside the [try] and rethrown by the [catch] *)
        (Throw (Raised (NavigationFailed url (Note (pretty (status response))))),
         [Goto url], w1)
      else settle
  | Ok None => settle
  | Throw err =>
      if instanceOf CNavigationFailed err
      then (Throw err, [Goto url], w1)
      else (Throw (Raised (NavigationFailed url (wrapped err))), [Goto url], w1)
  end.

(** [click(selectorSet)] *)
Definition click (selectorSet : SelectorSet) (w : World)
  : Result string * list (Call Handle) * World :=
  let '(r, w1) := trySelectors page selectorSet w in
  match r with
  | Throw t => (Throw t, [], w1)
  | Ok found =>
      let '(c, w2) :=
        handleClick driver (handle found) (Some (Config.stepTimeoutMs config))
          None w1 in
      match c with
      | Throw t => (Throw t, [Click (handle found)], w2)
      | Ok _ =>
          let w3 := awaitNavigation (Some 3000) w2 in
          (Ok (selector found), [Click (handle found); WaitNavigation], w3)
      end
  end.

(** [type(selectorSet, text)] *)
Definition type (selectorSet : SelectorSet) (text : string) (w : World)
  : Result string * list (Call Handle) * World :=
  let '(r, w1) := trySelectors page selectorSet w in
  match r with
  | Throw t => (Throw t, [], w1)
  | Ok found =>
      let '(c, w2) := handleClick driver (handle found) None (Some 3) w1 in
      match c with
      | Throw t => (Throw t, [Click (handle found)], w2)
      | Ok _ =>
          let '(f, w3) :=
            handleFill driver (handle found) text (Config.stepTimeoutMs config)
              w2 in
          match f with
          | Throw t =>
              (Throw t, [Click (handle found); Fill (handle found) text], w3)
          | Ok _ =>
              (Ok (selector found),
               [Click (handle found); Fill (handle found) text], w3)
          end
      end
  end.

(** [select(selectorSet, value)] *)
Definition select (selectorSet : SelectorSet) (value : string) (w : World)
  : Result string * list (Call Handle) * World :=
  let '(r, w1) := trySelectors page selectorSet w in
  match r with
  | Throw t => (Throw t, [], w1)
  | Ok found =>
      let '(c, w2) :=
        selectOption driver (selector found) value
          (Config.stepTimeoutMs config) w1 in
      match c with
      | Throw t => (Throw t, [SelectOption (selector found) value], w2)
      | Ok _ => (Ok (selector found), [SelectOption (selector found) value], w2)
      end
  end.

(** [scroll(direction, amount)] *)
Definition scroll (direction : string) (amount : option Z) (w : World)
  : Result unit * list (Call Handle) * World :=
  let script :=
    if String.eqb direction "top" then "window.scrollTo(0, 0)"
    else if String.eqb direction "bottom"
    then "window.scrollTo(0, document.body.scrollHeight)"
    else
      let delta :=
        (if String.eqb direction "down" then 1 else -1) * default 300 amount in
      "window.scrollBy(0, " +:+ pretty delta +:+ ")" in
  let '(r, w1) := evaluate driver script w in
  (r, [Evaluate script], w1).

(** [waitFor(kind, timeoutMs)] *)
Definition waitFor (kind : string) (timeoutMs : option Z) (w : World)
  : Result unit * World :=
  let timeout := default (Config.stepTimeoutMs config) timeoutMs in
  if String.eqb kind "networkIdle" then waitForNetworkIdle (Some timeout) w
  else waitForLoadState driver kind timeout w.

End Methods.

(** A call that acts on an element. *)
Definition touches {Handle : Type} (c : Call Handle) : bool :=
  match c with
  | Click _ | Fill _ _ | SelectOption _ _ => true
  | _ => false
  end.

End Controller.

(* ===================================================================== *)
(** * core/execute/assertions.ts                                          *)
(* ===================================================================== *)

Module Checks.
Import Schemas Assertions.

(** [new AssertionFailed(kind, expected, details)] *)
Definition AssertionFailed (kind expected : string) (d : Details)
  : WebRunnerError :=
  {| class := CAssertionFailed; code := ASSERTION_FAILED;
     message := "Assertion " +:+ kind +:+ " failed: expected " +:+ expected;
     recoverable := true; details := d |}.

(** What the checks read of the page and of the download directory:
    [page.url()], [page.title()], the inner text of the body,
    [page.isVisible(selector)], [fs.readdir(dir)] and
    [new RegExp(pattern).test(name)], which throws on a malformed
    pattern; [stringOf] is [String(err)] on a thrown value. *)
Record Page (World : Type) := {
  url : World -> string;
  title : World -> Result string * World;
  bodyText : World -> Result string * World;
  isVisible : string -> World -> Result bool * World;
  readdir : string -> World -> Result (list string) * World;
  regexTest : string -> string -> Result bool;
  stringOf : Thrown -> string;
}.
Arguments url {World}.
Arguments title {World}.
Arguments bodyText {World}.
Arguments isVisible {World}.
Arguments readdir {World}.
Arguments regexTest {World}.
Arguments stringOf {World}.

(** [x !== s] for an [x] that may be [undefined]. *)
Definition differs (x : option string) (s : string) : bool :=
  match x with Some v => negb (String.eqb v s) | None => true end.

Section OnPage.
Context {World : Type} (page : Page World).

(** [files.some(f => f.includes(pattern) || new RegExp(pattern).test(f))] *)
Fixpoint someMatches (pattern : string) (files : list string) : Result bool :=
  match files with
  | [] => Ok false
  | f :: rest =>
      if Js.includes f pattern then Ok true
      else
        match regexTest page pattern f with
        | Ok true => Ok true
        | Ok false => someMatches pattern rest
        | Throw t => Throw t
        end
  end.

Definition checkAssertion (assertion : Assertion.t) (downloadDir : string)
    (w : World) : Result unit * World :=
  let kind := Assertion.kind assertion in
  let value := Assertion.value assertion in
  let ref := Assertion.ref assertion in
  let filePattern := Assertion.filePattern assertion in
  let expected := Js.orElse value Js.empty in
  if String.eqb kind "urlContains" then
    if negb (Js.includes (url page w) expected)
    then (Throw (Raised (AssertionFailed "urlContains" expected
                           (Note (url page w)))), w)
    else (Ok tt, w)
  else if String.eqb kind "urlEquals" then
    if differs value (url page w)
    then (Throw (Raised (AssertionFailed "urlEquals" expected
                           (Note (url page w)))), w)
    else (Ok tt, w)
  else if String.eqb kind "titleContains" then
    let '(t, w1) := title page w in
    match t with
    | Throw err => (Throw err, w1)
    | Ok text =>
        if negb (Js.includes text expected)
        then (Throw (Raised (AssertionFailed "titleContains" expected
                               (Note text))), w1)
        else (Ok tt, w1)
    end
  else if String.eqb kind "textPresent" then
    let '(t, w1) := bodyText page w in
    match t with
    | Throw err => (Throw err, w1)
    | Ok text =>
        if negb (Js.includes text expected)
        then (Throw (Raised (AssertionFailed "textPresent" expected
                               (Note (JsText.sliceTo 200 text)))), w1)
        else (Ok tt, w1)
    end
  else if String.eqb kind "elementVisible" then
    if negb (Js.truthyOpt ref)
    then (Throw (Raised (AssertionFailed "elementVisible" "ref required"
                           NoDetails)), w)
    else
      let r := Js.orElse ref Js.empty in
      let quoted := Js.chr Js.dquote +:+ r +:+ Js.chr Js.dquote in
      let '(first, w1) := isVisible page ("text=" +:+ quoted) w in
      let '(visible, w2) :=
        match first with
        | Ok b => (b, w1)
        | Throw _ =>
            let '(second, w2) := isVisible page r w1 in
            (match second with Ok b => b | Throw _ => false end, w2)
        end in
      if negb visible
      then (Throw (Raised (AssertionFailed "elementVisible"
                             (quoted +:+ " to be visible") NoDetails)), w2)
      else (Ok tt, w2)
  else if String.eqb kind "downloadExists" then
    let pattern := Js.orElse filePattern (Js.orElse value Js.empty) in
    let '(listing, w1) := readdir page downloadDir w in
    let files := match listing with Ok l => l | Throw _ => [] end in
    match someMatches pattern files with
    | Throw err => (Throw err, w1)
    | Ok found =>
        if negb found
        then (Throw (Raised (AssertionFailed "downloadExists"
                               ("file matching " +:+ Js.chr Js.dquote
                                +:+ pattern +:+ Js.chr Js.dquote)
                               (Attempts files))), w1)
        else (Ok tt, w1)
    end
  else
    (Throw (Raised (AssertionFailed kind "known assertion kind" NoDetails)), w).

(** The entry pushed for an assertion whose check threw. *)
Definition failure (assertion : Assertion.t) (err : Thrown) : Failure :=
  if instanceOf CAssertionFailed err
  then {| kind := Assertion.kind assertion;
          expected := Assertion.value assertion;
          actual := None;
          error := Some (errorText err) |}
  else {| kind := Assertion.kind assertion;
          expected := None;
          actual := None;
          error := Some (stringOf page err) |}.

(** The [for] loop of [runAssertions] over the assertions left, with
    the array [failed] as it stands. *)
Fixpoint checkAll (assertions : list Assertion.t) (downloadDir : string)
    (failed : list Failure) (w : World) : list Failure * World :=
  match assertions with
  | [] => (failed, w)
  | assertion :: rest =>
      let '(r, w1) := checkAssertion assertion downloadDir w in
      match r with
      | Ok _ => checkAll rest downloadDir failed w1
      | Throw err =>
          checkAll rest downloadDir (failed ++ [failure assertion err])%list w1
      end
  end.

Definition runAssertions (assertions : list Assertion.t) (downloadDir : string)
    (w : World) : AssertionResult * World :=
  let '(failed, w1) := checkAll assertions downloadDir [] w in
  ({| passed := Nat.eqb (length failed) 0; failed := failed |}, w1).

End OnPage.

(** The kinds of [assertionKinds]. *)
Definition assertionKinds : list string :=
  ["urlContains"; "urlEquals"; "titleContains"; "textPresent";
   "elementVisible"; "downloadExists"].

End Checks.

(* ===================================================================== *)
(** * core/planning/validate.ts: [repairPlan] and [repairVerdict]         *)
(* ===================================================================== *)

(** Both take the parsed response as a [Record<string, unknown>]: an
    object, given here by its own properties in their order. *)
Module Repair.

Definition Obj := JsMap.t JsValue.

(** [!!v] *)
Definition truthy (v : JsValue) : bool :=
  match v with
  | JsUndefined | JsNull => false
  | JsBool b => b
  | JsNumber n => negb (n =? 0)
  | JsString s => Js.truthy s
  | JsArray _ | JsObject _ => true
  end.

(** [obj[k]] *)
Definition read (obj : Obj) (k : string) : JsValue :=
  default JsUndefined (JsMap.get obj k).

(** [if (!obj[k]) obj[k] = v] *)
Definition fill (obj : Obj) (k : string) (v : JsValue) : Obj :=
  if negb (truthy (read obj k)) then JsMap.set obj k v else obj.

Definition repairPlan (raw : Obj) : Obj :=
  let obj := raw in
  let obj := fill obj "schemaVersion" (JsString "1.0") in
  let obj := fill obj "assumptions" (JsArray []) in
  let obj := fill obj "assertions" (JsArray []) in
  obj.

(** [v === s] *)
Definition equals (v : JsValue) (s : string) : bool :=
  match v with JsString t => String.eqb t s | _ => false end.

(** [if (obj['status'] === status && !obj['next']) obj['next'] = next] *)
Definition fillNext (obj : Obj) (status next : string) : Obj :=
  if (equals (read obj "status") status && negb (truthy (read obj "next")))%bool
  then JsMap.set obj "next" (JsString next)
  else obj.

Definition repairVerdict (raw : Obj) : Obj :=
  let obj := raw in
  let obj := fill obj "schemaVersion" (JsString "1.0") in
  let obj := fill obj "evidence" (JsObject []) in
  let obj := fillNext obj "success" "stop" in
  let obj := fillNext obj "patch" "runPatch" in
  let obj := fillNext obj "escalate" "enterStepMode" in
  obj.

(** The [next] that goes with a status, if the status is one of the
    three the repair knows. *)
Definition nextFor (status : JsValue) : option string :=
  if equals status "success" then Some "stop"
  else if equals status "patch" then Some "runPatch"
  else if equals status "escalate" then Some "enterStepMode"
  else None.

End Repair.

(* ===================================================================== *)
(** * More of the scripted environment                                    *)
(* ===================================================================== *)

Module Scenes.
Import Selectors Model.

(** The page of [Sample.oneButton] after a restyling: the element [E1]
    is now a link with a name and other selectors; its label, its
    flags, its text and its href are as they were. *)
Definition restyled : CompactState :=
  {| meta := meta Sample.oneButton;
     pageSummary := pageSummary Sample.oneButton;
     interactive :=
       [ {| ref := "E1"; role := RLink; label := "Submit";
            name := Some "go"; inputType := Some "submit";
            valuePresent := false; disabled := false; visible := true;
            selectors := {| primary := "a.go"; fallback := ["#E1"] |};
            text := None; href := None |} ] |}.

(** A completion endpoint that rejects the first two requests and
    answers from the third on; the world counts the requests made. *)
Definition flakyApi : LLM.Api Z :=
  {| LLM.create := fun _ _ _ _ w =>
       if w <? 2 then (Throw (Foreign "rate limited"), w + 1)
       else
         (Ok {| LLM.choices :=
                  [ {| LLM.message :=
                         Some {| LLM.messageContent := Some "{}" |} |} ];
                LLM.completionUsage :=
                  Some {| LLM.prompt_tokens := Some 10;
                          LLM.completion_tokens := Some 2;
                          LLM.total_tokens := Some 12 |} |},
          w + 1);
     LLM.pause := fun _ w => w |}.

Definition noOptions : LLM.LLMOptions :=
  {| LLM.maxTokens := None; LLM.temperature := None; LLM.retries := None |}.

Definition freshStats : LLM.Stats :=
  {| LLM.totalTokensUsed := 0; LLM.totalCalls := 0 |}.

End Scenes.

(* ===================================================================== *)
(** * Properties                                                          *)
(* ===================================================================== *)

(* --------------------------------------------------------------------- *)
(** ** Strings                                                            *)
(* --------------------------------------------------------------------- *)

Module StringFacts.

#[local] Arguments String.append !s1 s2 : simpl nomatch.

Lemma append_cons c a b : String c a +:+ b = String c (a +:+ b).
Proof. reflexivity. Qed.

Lemma append_nil b : EmptyString +:+ b = b.
Proof. reflexivity. Qed.

Lemma append_empty s : s +:+ EmptyString = s.
Proof.
  induction s as [|c s IH]; [reflexivity|].
  rewrite append_cons, IH. reflexivity.
Qed.

Lemma append_assoc (a b c : string) : (a +:+ b) +:+ c = a +:+ (b +:+ c).
Proof. induction a as [|x a IH]; simpl; [reflexivity | rewrite IH; reflexivity]. Qed.

Lemma length_append (a b : string) :
  String.length (a +:+ b) = (String.length a + String.length b)%nat.
Proof. induction a as [|x a IH]; simpl; [reflexivity | rewrite IH; reflexivity]. Qed.

(** Two strings with a common tail are equal if what precedes it is. *)
Lemma append_inv_tail (a b c : string) : a +:+ c = b +:+ c -> a = b.
Proof.
  revert b. induction a as [|x a IH]; intros [|y b] H.
  - reflexivity.
  - apply (f_equal String.length) in H.
    rewrite append_nil, length_append in H. simpl in H. lia.
  - apply (f_equal String.length) in H.
    rewrite append_nil, length_append in H. simpl in H. lia.
  - rewrite !append_cons in H. injection H as -> H.
    f_equal. apply IH. exact H.
Qed.

End StringFacts.

(* --------------------------------------------------------------------- *)
(** ** Ref resolution                                                     *)
(* --------------------------------------------------------------------- *)

Module RefFacts.
Import Selectors Model Schemas Recovery Executor.

Lemma find_absent (r : string) (els : list InteractiveElement) :
  (forall el, In el els -> ref el <> r) ->
  List.find (fun e => String.eqb (ref e) r) els = None.
Proof.
  induction els as [|el els IH]; intros Habs; simpl; [reflexivity|].
  destruct (String.eqb_spec (ref el) r) as [Heq|Hne].
  - exfalso. apply (Habs el); [left; reflexivity | exact Heq].
  - apply IH. intros e He. apply Habs. right. exact He.
Qed.

Lemma find_present (r : string) (els : list InteractiveElement) el :
  List.find (fun e => String.eqb (ref e) r) els = Some el ->
  In el els /\ ref el = r.
Proof.
  intros H. apply List.find_some in H. destruct H as [Hin Heq].
  split; [exact Hin|]. apply String.eqb_eq. exact Heq.
Qed.

Lemma resolveRef_absent (r : option string) (state : CompactState) :
  (forall s, r = Some s -> absent s state) ->
  resolveRef r state
  = Throw (Raised (ElementMissing (missingText r) NoDetails)).
Proof.
  intros Habs. unfold resolveRef, missingText.
  destruct r as [s|]; [|reflexivity].
  destruct (Js.truthy s); simpl; [|reflexivity].
  rewrite (find_absent s (interactive state) (Habs s eq_refl)).
  reflexivity.
Qed.

Lemma resolveRef_ok (r : option string) (state : CompactState) el :
  resolveRef r state = Ok el ->
  exists s, r = Some s /\ In el (interactive state) /\ ref el = s.
Proof.
  unfold resolveRef. destruct r as [s|]; [|discriminate].
  destruct (Js.truthy s); simpl; [|discriminate].
  destruct (List.find _ _) as [e|] eqn:Hfind; simpl; [|discriminate].
  intros [= <-]. exists s. split; [reflexivity|].
  apply find_present. exact Hfind.
Qed.

End RefFacts.

(** C3. In the executor's ref resolution the fuzzy fallback is called
    without its hint, and without a hint [fuzzyRefResolve] returns no
    match whatever the snapshot; so for every ref that is not present in
    the current snapshot [resolveRef] fails with [ElementMissing], and
    whenever [resolveRef] succeeds it is by exact match on the ref. *)
Theorem resolveRef_missing_ref_is_ElementMissing :
  (forall missingRef state,
     Recovery.fuzzyRefResolve missingRef state None = None)
  /\ (forall (r : option string) (state : Model.CompactState),
        (forall s, r = Some s -> Executor.absent s state) ->
        Executor.resolveRef r state
        = Throw (Raised (ElementMissing (Executor.missingText r) NoDetails)))
  /\ (forall r state el,
        Executor.resolveRef r state = Ok el ->
        exists s, r = Some s /\ In el (Model.interactive state)
                  /\ Model.ref el = s).
Proof.
  split; [reflexivity|]. split.
  - apply RefFacts.resolveRef_absent.
  - apply RefFacts.resolveRef_ok.
Qed.

(* --------------------------------------------------------------------- *)
(** ** The step loop                                                      *)
(* --------------------------------------------------------------------- *)

Module LoopFacts.
Import Selectors Model Schemas Recovery Executor.

Section WithBrowser.
Context {World : Type} (page : Probe World) (browser : Browser World).

#[local] Abbreviation tryStep := (Executor.tryStep page browser).
#[local] Abbreviation turn := (Executor.turn page browser).
#[local] Abbreviation runSteps := (Executor.runSteps page browser).
#[local] Abbreviation reach := (Executor.reach page browser).
#[local] Abbreviation quiet := (Executor.quiet page browser).

Lemma tryStep_captcha step cs w :
  fst (detectCaptcha page w) = true ->
  tryStep step cs w
  = (Throw (Raised CaptchaDetected), [EvDetectCaptcha true],
     snd (detectCaptcha page w)).
Proof.
  intros H. unfold Executor.tryStep.
  destruct (detectCaptcha page w) as [c w1]. simpl in H. subst c. reflexivity.
Qed.

Lemma tryStep_twoFA step cs w :
  fst (detectCaptcha page w) = false ->
  fst (detect2FA page (snd (detectCaptcha page w))) = true ->
  tryStep step cs w
  = (Throw (Raised TwoFADetected), [EvDetectCaptcha false; EvDetect2FA true],
     snd (detect2FA page (snd (detectCaptcha page w)))).
Proof.
  intros H1 H2. unfold Executor.tryStep.
  destruct (detectCaptcha page w) as [c w1]. simpl in *. subst c.
  destruct (detect2FA page w1) as [f w2]. simpl in *. subst f. reflexivity.
Qed.

Lemma tryStep_silent step cs w :
  fst (detectCaptcha page w) = false ->
  fst (detect2FA page (snd (detectCaptcha page w))) = false ->
  tryStep step cs w
  = let '(r, evs, w3) :=
      executeStep browser step cs (snd (detect2FA page (snd (detectCaptcha page w)))) in
    (r, EvDetectCaptcha false :: EvDetect2FA false :: evs, w3).
Proof.
  intros H1 H2. unfold Executor.tryStep.
  destruct (detectCaptcha page w) as [c w1]. simpl in *. subst c.
  destruct (detect2FA page w1) as [f w2]. simpl in *. subst f. reflexivity.
Qed.

(** The events of [executeStep] are dispatches only, at most one. *)
Lemma executeStep_events step cs w :
  snd (fst (executeStep browser step cs w)) = []
  \/ exists call, snd (fst (executeStep browser step cs w)) = [EvDispatch call].
Proof.
  unfold executeStep, dispatched.
  repeat match goal with
         | |- context [String.eqb ?a ?b] => destruct (String.eqb a b)
         end;
  repeat match goal with
         | |- context [resolveRef ?a ?b] => destruct (resolveRef a b)
         | |- context [Step.url ?s] => destruct (Step.url s)
         | |- context [Js.truthy ?s] => destruct (Js.truthy s)
         end; simpl; eauto.
Qed.

(** A step whose [op] is none of the eight known names falls to the
    [default] branch. *)
Lemma executeStep_unknown step cs w :
  ~ In (Step.op step) stepOps ->
  executeStep browser step cs w = (Ok None, [], w).
Proof.
  intros Hop. unfold executeStep.
  repeat match goal with
         | |- context [String.eqb ?a ?b] =>
             destruct (String.eqb_spec a b) as [Heq|_];
             [exfalso; apply Hop; rewrite Heq; unfold stepOps; simpl; tauto|]
         end.
  reflexivity.
Qed.

Lemma executeStep_click_unresolved step cs w t :
  Step.op step = "click" ->
  resolveRef (Step.ref step) cs = Throw t ->
  executeStep browser step cs w = (Throw t, [], w).
Proof.
  intros Hop Hres. unfold executeStep. rewrite Hop. simpl. rewrite Hres.
  reflexivity.
Qed.

#[local] Abbreviation Gate := (Executor.Gate page browser).

Lemma not_quiet_gate w : ~ quiet w -> Gate w.
Proof.
  unfold Executor.quiet. intros H.
  destruct (fst (detectCaptcha page (snd (dateNow browser w)))) eqn:Hc.
  - apply Executor.GateCaptcha. exact Hc.
  - destruct (fst (detect2FA page (snd (detectCaptcha page (snd (dateNow browser w))))))
      eqn:Hf.
    + apply Executor.GateTwoFA; assumption.
    + exfalso. apply H. split; reflexivity.
Qed.

(** A turn whose detectors fire breaks out at once. *)
Lemma turn_gated step cs w :
  Gate w ->
  exists result evs err w',
    turn step cs w
    = Break result {| attempted := step; events := evs; thrown := Some err |} w'
    /\ status result = failed
    /\ id result = Step.id step
    /\ op result = Step.op step
    /\ error result = Some (errorText err)
    /\ (err = Raised CaptchaDetected /\ evs = [EvDetectCaptcha true]
        \/ err = Raised TwoFADetected
           /\ evs = [EvDetectCaptcha false; EvDetect2FA true]).
Proof.
  intros G. unfold Executor.turn.
  destruct G as [Hc | Hc Hf];
    destruct (dateNow browser w) as [t0 w0]; simpl in Hc |- *.
  - rewrite (tryStep_captcha step cs w0 Hc).
    destruct (dateNow browser (snd (detectCaptcha page w0))) as [t1 w2].
    simpl. do 4 eexists. split; [reflexivity|].
    simpl. repeat split. left. split; reflexivity.
  - simpl in Hf. rewrite (tryStep_twoFA step cs w0 Hc Hf).
    destruct (dateNow browser _) as [t1 w2].
    simpl. do 4 eexists. split; [reflexivity|].
    simpl. repeat split. right. split; reflexivity.
Qed.

(** The shape of a turn's log, whatever happens in it. *)
Lemma turn_log step cs w :
  exists result log,
    (exists cs' w', turn step cs w = Continue result log cs' w'
                    /\ status result = success /\ thrown log = None)
    \/ (exists w', turn step cs w = Break result log w'
                   /\ status result = failed /\ thrown log <> None).
Proof.
  unfold Executor.turn.
  destruct (dateNow browser w) as [t0 w0].
  destruct (tryStep step cs w0) as [[r evs] w1].
  destruct r as [used|err].
  - destruct (dateNow browser w1) as [t1 w2].
    destruct (collectState browser _ w2) as [snap w3].
    do 2 eexists. left. do 2 eexists. split; [reflexivity|]. split; reflexivity.
  - destruct (dateNow browser w1) as [t1 w2].
    destruct (afterFailure browser err w2) as [rec w3].
    do 2 eexists. right. eexists. split; [reflexivity|]. split; [reflexivity|].
    simpl. discriminate.
Qed.

Lemma turn_gated_log step cs w :
  attempted (turnLog (turn step cs w)) = step
  /\ gated (turnLog (turn step cs w))
  /\ id (turnResult (turn step cs w)) = Step.id step
  /\ op (turnResult (turn step cs w)) = Step.op step.
Proof.
  unfold Executor.turn.
  destruct (dateNow browser w) as [t0 w0].
  destruct (fst (detectCaptcha page w0)) eqn:Hc.
  { rewrite (tryStep_captcha step cs w0 Hc).
    destruct (dateNow browser _) as [t1 w2]. simpl.
    repeat split; eauto. intros call [H|[]]. discriminate. }
  destruct (fst (detect2FA page (snd (detectCaptcha page w0)))) eqn:Hf.
  { rewrite (tryStep_twoFA step cs w0 Hc Hf).
    destruct (dateNow browser _) as [t1 w2]. simpl.
    repeat split; eauto. intros call [H|[H|[]]]; discriminate. }
  rewrite (tryStep_silent step cs w0 Hc Hf).
  destruct (executeStep browser step cs _) as [[r evs] w3].
  destruct r as [used|err].
  - destruct (dateNow browser w3) as [t1 w4].
    destruct (collectState browser _ w4) as [snap w5]. simpl.
    repeat split; eauto.
  - destruct (dateNow browser w3) as [t1 w4].
    destruct (afterFailure browser err w4) as [rec w5]. simpl.
    repeat split; eauto.
Qed.

(** Once the steps [done] are processed without a [break], the loop
    goes on with the rest from the point reached. *)
Lemma runSteps_after_reach done todo cs w results logs cs' w' :
  reach done cs w = Some (results, logs, cs', w') ->
  runSteps (done ++ todo) cs w
  = let '(results2, logs2, w2) := runSteps todo cs' w' in
    ((results ++ results2)%list, (logs ++ logs2)%list, w2).
Proof.
  revert cs w results logs cs' w'.
  induction done as [|step done IH]; intros cs w results logs cs' w'; simpl.
  - intros [= <- <- <- <-]. destruct (runSteps todo cs w) as [[rs ls] w2].
    reflexivity.
  - destruct (turn step cs w) as [r l ns w1 | r l w1]; [|discriminate].
    destruct (reach done ns w1) as [[[[rs ls] cs1] w2]|] eqn:Hreach;
      [|discriminate].
    intros [= <- <- <- <-].
    rewrite (IH _ _ _ _ _ _ Hreach).
    destruct (runSteps todo cs1 w2) as [[rs2 ls2] w3]. reflexivity.
Qed.

(** Every turn the loop takes is the turn of the next step of the plan,
    in order, and the loop pushes one result per turn. *)
Lemma runSteps_shape todo cs w :
  let '(results, logs, _) := runSteps todo cs w in
  (exists rest, todo = (map attempted logs ++ rest)%list)
  /\ length results = length logs
  /\ Forall gated logs
  /\ Forall (fun r => status r = success \/ status r = failed) results.
Proof.
  revert cs w. induction todo as [|step todo IH]; intros cs w; simpl.
  - repeat split; eauto.
  - pose proof (turn_gated_log step cs w) as (Hatt & Hg & _).
    pose proof (turn_log step cs w) as (r0 & l0 & Hcases).
    destruct (turn step cs w) as [r l ns w1 | r l w1]; simpl in Hatt, Hg.
    + specialize (IH ns w1).
      destruct (runSteps todo ns w1) as [[rs ls] w2].
      destruct IH as ((rest & Hrest) & Hlen & Hgs & Hst).
      destruct Hcases as [(? & ? & [= <- <- <- <-] & Hs & _) | (? & [=] & _)].
      repeat split.
      * exists rest. simpl. rewrite Hatt. f_equal. exact Hrest.
      * simpl. f_equal. exact Hlen.
      * constructor; assumption.
      * constructor; [left; exact Hs | exact Hst].
    + destruct Hcases as [(? & ? & [=] & _) | (? & [= <- <- <-] & Hs & _)].
      repeat split.
      * exists todo. simpl. rewrite Hatt. reflexivity.
      * constructor; [assumption | constructor].
      * constructor; [right; exact Hs | constructor].
Qed.

End WithBrowser.
End LoopFacts.

Module StepFacts.
Import Selectors Model Schemas Recovery Executor LoopFacts.

Section WithBrowser.
Context {World : Type} (page : Probe World) (browser : Browser World).

#[local] Abbreviation turn := (Executor.turn page browser).
#[local] Abbreviation quiet := (Executor.quiet page browser).

Lemma quiet_tryStep step cs w :
  quiet w ->
  tryStep page browser step cs (snd (dateNow browser w))
  = let '(r, evs, w3) :=
      executeStep browser step cs
        (snd (detect2FA page (snd (detectCaptcha page (snd (dateNow browser w)))))) in
    (r, EvDetectCaptcha false :: EvDetect2FA false :: evs, w3).
Proof.
  intros [Hc Hf]. apply tryStep_silent; assumption.
Qed.

(** The turn of a [click] whose ref the snapshot lacks. *)
Lemma turn_click_missing step cs w :
  quiet w ->
  Step.op step = "click" ->
  (forall s, Step.ref step = Some s -> absent s cs) ->
  exists result w',
    turn step cs w
    = Break result
        {| attempted := step;
           events := [EvDetectCaptcha false; EvDetect2FA false;
                      EvHandleCookieBanner; EvDismissModal];
           thrown := Some (Raised (ElementMissing (missingText (Step.ref step))
                                     NoDetails)) |}
        w'
    /\ status result = failed
    /\ id result = Step.id step
    /\ op result = Step.op step
    /\ selectorUsed result = None
    /\ error result
       = Some ("Element ref " +:+ missingText (Step.ref step) +:+ " not found in DOM").
Proof.
  intros Hq Hop Habs. unfold Executor.turn.
  pose proof (quiet_tryStep step cs w Hq) as Htry.
  destruct (dateNow browser w) as [t0 w0]. simpl in Htry. rewrite Htry.
  rewrite (executeStep_click_unresolved browser step cs _ _ Hop
             (RefFacts.resolveRef_absent _ _ Habs)).
  destruct (dateNow browser _) as [t1 w2].
  unfold afterFailure. simpl.
  destruct (handleCookieBanner browser w2) as [b1 w3].
  destruct (dismissModal browser w3) as [b2 w4].
  do 2 eexists. split; [reflexivity|]. simpl. repeat split.
Qed.

(** The turn of a step with an unknown [op]. *)
Lemma turn_unknown_op step cs w :
  quiet w ->
  ~ In (Step.op step) stepOps ->
  exists result cs' w',
    turn step cs w
    = Continue result
        {| attempted := step;
           events := [EvDetectCaptcha false; EvDetect2FA false; EvCollectState];
           thrown := None |}
        cs' w'
    /\ status result = success
    /\ id result = Step.id step
    /\ op result = Step.op step
    /\ selectorUsed result = None
    /\ error result = None.
Proof.
  intros Hq Hop. unfold Executor.turn.
  pose proof (quiet_tryStep step cs w Hq) as Htry.
  destruct (dateNow browser w) as [t0 w0]. simpl in Htry. rewrite Htry.
  rewrite (executeStep_unknown browser step cs _ Hop).
  destruct (dateNow browser _) as [t1 w2].
  destruct (collectState browser _ w2) as [snap w3].
  do 3 eexists. split; [reflexivity|]. simpl. repeat split.
Qed.

(** [executePlan] returns the results of the loop run from
    [loopStart], and logs its turns. *)
Lemma executePlan_runs_loop plan config cs downloadDir runlogPath w :
  let '(r, trace, _) :=
    executePlan page browser plan config cs downloadDir runlogPath w in
  let '(results, logs, _) :=
    runSteps page browser (Plan.steps plan) cs (loopStart browser w) in
  attempts trace = logs
  /\ preRun trace = [EvHandleCookieBanner; EvDismissModal]
  /\ forall runLog, r = Ok runLog -> steps runLog = results.
Proof.
  unfold executePlan, loopStart.
  destruct (isoNow browser w) as [s0 w0].
  destruct (dateNow browser w0) as [t0 w1].
  destruct (handleCookieBanner browser w1) as [b1 w2].
  destruct (dismissModal browser w2) as [b2 w3].
  destruct (runSteps page browser (Plan.steps plan) cs w3) as [[rs ls] w4].
  destruct (match Plan.assertions plan with
            | Some (a :: more) => _ | _ => _ end) as [ar w5].
  destruct (isoNow browser w5) as [s1 w6].
  destruct (dateNow browser w6) as [t1 w7].
  destruct (writeJsonArtifact browser runlogPath _ w7) as [wr w8].
  destruct wr; simpl; repeat split; try discriminate.
  intros runLog [= <-]. reflexivity.
Qed.

End WithBrowser.
End StepFacts.

Module TurnFacts.
Import Selectors Model Schemas Recovery Executor LoopFacts.

Section WithBrowser.
Context {World : Type} (page : Probe World) (browser : Browser World).

#[local] Abbreviation turn := (Executor.turn page browser).

(** The turn in which the CAPTCHA detector fires: the detector and the
    two clock reads are all that touches the world. *)
Lemma turn_captcha_at step cs w :
  fst (detectCaptcha page (snd (dateNow browser w))) = true ->
  turn step cs w
  = Break
      {| id := Step.id step; op := Step.op step; status := failed;
         selectorUsed := None;
         durationMs :=
           fst (dateNow browser
                  (snd (detectCaptcha page (snd (dateNow browser w)))))
           - fst (dateNow browser w);
         error := Some "CAPTCHA detected, human intervention required" |}
      {| attempted := step; events := [EvDetectCaptcha true];
         thrown := Some (Raised CaptchaDetected) |}
      (snd (dateNow browser
              (snd (detectCaptcha page (snd (dateNow browser w)))))).
Proof.
  intros Hc. unfold Executor.turn.
  destruct (dateNow browser w) as [t0 w0]. simpl in Hc |- *.
  rewrite (tryStep_captcha page browser step cs w0 Hc).
  destruct (dateNow browser (snd (detectCaptcha page w0))) as [t1 w2].
  reflexivity.
Qed.

Lemma turn_twoFA_at step cs w :
  fst (detectCaptcha page (snd (dateNow browser w))) = false ->
  fst (detect2FA page (snd (detectCaptcha page (snd (dateNow browser w)))))
  = true ->
  turn step cs w
  = Break
      {| id := Step.id step; op := Step.op step; status := failed;
         selectorUsed := None;
         durationMs :=
           fst (dateNow browser
                  (snd (detect2FA page
                          (snd (detectCaptcha page (snd (dateNow browser w)))))))
           - fst (dateNow browser w);
         error := Some "2FA prompt detected, human intervention required" |}
      {| attempted := step; events := [EvDetectCaptcha false; EvDetect2FA true];
         thrown := Some (Raised TwoFADetected) |}
      (snd (dateNow browser
              (snd (detect2FA page
                      (snd (detectCaptcha page (snd (dateNow browser w)))))))).
Proof.
  intros Hc Hf. unfold Executor.turn.
  destruct (dateNow browser w) as [t0 w0]. simpl in Hc, Hf |- *.
  rewrite (tryStep_twoFA page browser step cs w0 Hc Hf).
  destruct (dateNow browser (snd (detect2FA page (snd (detectCaptcha page w0)))))
    as [t1 w2].
  reflexivity.
Qed.

(** What recovery adds. *)
Lemma afterFailure_recovery err w :
  Forall (fun e => isRecovery e = true) (fst (afterFailure browser err w)).
Proof.
  unfold afterFailure.
  destruct (_ || _)%bool; [constructor|].
  destruct (instanceOf CElementMissing err); [|constructor].
  destruct (handleCookieBanner browser w) as [b1 w1].
  destruct (dismissModal browser w1) as [b2 w2]. repeat constructor.
Qed.

(** The turn in which both detectors stay silent: the step is handed
    to [executeStep] in the world the detectors left; after a success
    the clock is read and the state collected, after a failure the
    clock is read and [afterFailure] runs. *)
Lemma turn_silent_at step cs w :
  fst (detectCaptcha page (snd (dateNow browser w))) = false ->
  fst (detect2FA page (snd (detectCaptcha page (snd (dateNow browser w)))))
  = false ->
  match executeStep browser step cs
          (snd (detect2FA page
                  (snd (detectCaptcha page (snd (dateNow browser w)))))) with
  | (Ok used, evs, w3) =>
      turn step cs w
      = Continue
          {| id := Step.id step; op := Step.op step; status := success;
             selectorUsed := used;
             durationMs := fst (dateNow browser w3) - fst (dateNow browser w);
             error := None |}
          {| attempted := step;
             events := (EvDetectCaptcha false :: EvDetect2FA false
                        :: evs ++ [EvCollectState])%list;
             thrown := None |}
          match fst (collectState browser (runId (meta cs))
                       (snd (dateNow browser w3))) with
          | Ok s => s
          | Throw _ => cs
          end
          (snd (collectState browser (runId (meta cs))
                  (snd (dateNow browser w3))))
  | (Throw err, evs, w3) =>
      turn step cs w
      = Break
          {| id := Step.id step; op := Step.op step; status := failed;
             selectorUsed := None;
             durationMs := fst (dateNow browser w3) - fst (dateNow browser w);
             error := Some (errorText err) |}
          {| attempted := step;
             events := (EvDetectCaptcha false :: EvDetect2FA false
                        :: evs
                           ++ fst (afterFailure browser err
                                     (snd (dateNow browser w3))))%list;
             thrown := Some err |}
          (snd (afterFailure browser err (snd (dateNow browser w3))))
  end.
Proof.
  intros Hc Hf. unfold Executor.turn.
  destruct (dateNow browser w) as [t0 w0]. simpl in Hc, Hf |- *.
  rewrite (tryStep_silent page browser step cs w0 Hc Hf).
  destruct (executeStep browser step cs _) as [[[used|err] evs] w3].
  - destruct (dateNow browser w3) as [t1 w4]. cbn [fst snd].
    destruct (collectState browser _ w4) as [snap w5]. reflexivity.
  - destruct (dateNow browser w3) as [t1 w4]. cbn [fst snd].
    destruct (afterFailure browser err w4) as [rec w5]. reflexivity.
Qed.

(** The world recovery leaves. *)
Lemma afterFailure_world err w :
  snd (afterFailure browser err w)
  = if (match err with
        | Raised e => classEqb (class e) CElementMissing && recoverable e
        | Foreign _ => false
        end)%bool
    then snd (dismissModal browser (snd (handleCookieBanner browser w)))
    else w.
Proof.
  unfold afterFailure. destruct err as [e|text]; simpl.
  - destruct (class e), (recoverable e); simpl; try reflexivity;
      destruct (handleCookieBanner browser w) as [b1 w1]; simpl;
      destruct (dismissModal browser w1) as [b2 w2]; reflexivity.
  - reflexivity.
Qed.

(** The turn of a [click] whose ref the snapshot lacks, with the world
    it leaves: after the detectors the clock is read, then the cookie
    banner is handled, then the modal dismissed; nothing else is
    called. *)
Lemma turn_click_missing_at step cs w :
  Executor.quiet page browser w ->
  Step.op step = "click" ->
  (forall s, Step.ref step = Some s -> absent s cs) ->
  turn step cs w
  = Break
      {| id := Step.id step; op := "click"; status := failed;
         selectorUsed := None;
         durationMs :=
           fst (dateNow browser
                  (snd (detect2FA page
                          (snd (detectCaptcha page (snd (dateNow browser w)))))))
           - fst (dateNow browser w);
         error := Some (message (ElementMissing (missingText (Step.ref step))
                                   NoDetails)) |}
      {| attempted := step;
         events := [EvDetectCaptcha false; EvDetect2FA false;
                    EvHandleCookieBanner; EvDismissModal];
         thrown := Some (Raised (ElementMissing (missingText (Step.ref step))
                                   NoDetails)) |}
      (snd (dismissModal browser
              (snd (handleCookieBanner browser
                      (snd (dateNow browser
                              (snd (detect2FA page
                                      (snd (detectCaptcha page
                                              (snd (dateNow browser w)))))))))))).
Proof.
  intros Hq Hop Habs. unfold Executor.turn.
  pose proof (StepFacts.quiet_tryStep page browser step cs w Hq) as Htry.
  destruct (dateNow browser w) as [t0 w0]. simpl in Htry |- *. rewrite Htry.
  rewrite (executeStep_click_unresolved browser step cs _ _ Hop
             (RefFacts.resolveRef_absent _ _ Habs)).
  destruct (dateNow browser _) as [t1 w2]. cbn [fst snd].
  unfold afterFailure. simpl.
  destruct (handleCookieBanner browser w2) as [b1 w3]. cbn [fst snd].
  destruct (dismissModal browser w3) as [b2 w4].
  rewrite Hop. reflexivity.
Qed.

End WithBrowser.
End TurnFacts.

(** C2. In [executePlan], when the loop comes to a [click] step whose
    ref is absent from the current snapshot (the detectors being
    silent), that step gets exactly one result, [failed], carrying the
    message of [ElementMissing]; the turn dispatches nothing to the
    browser and makes exactly one recovery attempt: after the detectors
    and the clock read for the duration, [handleCookieBanner] is called
    once, then [dismissModal] once, and the world these two calls leave
    is the world the loop ends in; the pass halts there: the results
    and the logged turns end with this step, the steps after it are
    not attempted. *)
Theorem click_on_missing_ref_fails_once_and_halts
    {World : Type} (page : Recovery.Probe World)
    (browser : Executor.Browser World)
    (plan : Schemas.Plan.t) (config : Config.WebRunnerConfig)
    (currentState : Model.CompactState) (downloadDir runlogPath : string)
    (w : World)
    (done : list Schemas.Step.t) (step : Schemas.Step.t)
    (rest : list Schemas.Step.t)
    (results : list Executor.StepResult) (logs : list Executor.Attempt)
    (cs : Model.CompactState) (w1 : World) :
  Schemas.Plan.steps plan = (done ++ step :: rest)%list ->
  Executor.reach page browser done currentState (Executor.loopStart browser w)
  = Some (results, logs, cs, w1) ->
  Schemas.Step.op step = "click" ->
  (forall s, Schemas.Step.ref step = Some s -> Executor.absent s cs) ->
  Executor.quiet page browser w1 ->
  let detected :=
    snd (Recovery.detect2FA page
           (snd (Recovery.detectCaptcha page
                   (snd (Executor.dateNow browser w1))))) in
  let failedAt := snd (Executor.dateNow browser detected) in
  let recovered :=
    snd (Executor.dismissModal browser
           (snd (Executor.handleCookieBanner browser failedAt))) in
  let result :=
    {| Executor.id := Schemas.Step.id step; Executor.op := "click";
       Executor.status := Executor.failed; Executor.selectorUsed := None;
       Executor.durationMs :=
         fst (Executor.dateNow browser detected)
         - fst (Executor.dateNow browser w1);
       Executor.error :=
         Some (message (ElementMissing
                          (Executor.missingText (Schemas.Step.ref step))
                          NoDetails)) |} in
  let log :=
    {| Executor.attempted := step;
       Executor.events :=
         [Executor.EvDetectCaptcha false; Executor.EvDetect2FA false;
          Executor.EvHandleCookieBanner; Executor.EvDismissModal];
       Executor.thrown :=
         Some (Raised (ElementMissing
                         (Executor.missingText (Schemas.Step.ref step))
                         NoDetails)) |} in
  Executor.runSteps page browser (Schemas.Plan.steps plan) currentState
    (Executor.loopStart browser w)
  = ((results ++ [result])%list, (logs ++ [log])%list, recovered)
  /\ let '(r, trace, _) :=
       Executor.executePlan page browser plan config currentState
         downloadDir runlogPath w in
     Executor.attempts trace = (logs ++ [log])%list
     /\ forall runLog,
          r = Ok runLog ->
          Executor.steps runLog = (results ++ [result])%list.
Proof.
  intros Hsteps Hreach Hop Habs Hq detected failedAt recovered result log.
  assert (Hloop :
    Executor.runSteps page browser (Schemas.Plan.steps plan) currentState
      (Executor.loopStart browser w)
    = ((results ++ [result])%list, (logs ++ [log])%list, recovered)).
  { rewrite Hsteps.
    rewrite (LoopFacts.runSteps_after_reach page browser done (step :: rest)
               _ _ _ _ _ _ Hreach).
    simpl.
    rewrite (TurnFacts.turn_click_missing_at page browser step cs w1 Hq Hop Habs).
    reflexivity. }
  split; [exact Hloop|].
  pose proof (StepFacts.executePlan_runs_loop page browser plan config
                currentState downloadDir runlogPath w) as Hrun.
  destruct (Executor.executePlan page browser plan config currentState
              downloadDir runlogPath w) as [[r trace] w3].
  rewrite Hloop in Hrun. destruct Hrun as (Hlogs & _ & Hres).
  split; assumption.
Qed.

(** C2, run: the plan [click E1; click E99; screenshot] on a page whose
    only element is [E1]. The world of the sample counts the calls
    made: the second turn is entered at 11, the clock read after the
    failure leaves 16, and the loop ends in the world the two recovery
    calls make of that. *)
Lemma click_on_missing_ref_fails_once_and_halts_witness :
  let plan :=
    Sample.planOf [Sample.step "s1" "click" (Some "E1");
                   Sample.step "s2" "click" (Some "E99");
                   Sample.step "s3" "screenshot" None] in
  snd (Executor.runSteps Sample.calmPage Sample.browser
         (Schemas.Plan.steps plan) Sample.oneButton
         (Executor.loopStart Sample.browser 0))
  = snd (Executor.dismissModal Sample.browser
           (snd (Executor.handleCookieBanner Sample.browser 16)))
  /\ map Executor.id
       (fst (fst (Executor.runSteps Sample.calmPage Sample.browser
                    (Schemas.Plan.steps plan) Sample.oneButton
                    (Executor.loopStart Sample.browser 0))))
     = ["s1"; "s2"]
  /\ let '(r, trace, _) :=
       Executor.executePlan Sample.calmPage Sample.browser plan
         Config.defaultConfig Sample.oneButton "downloads" "runlog.json" 0 in
     map Executor.events (Executor.attempts trace)
     = [[Executor.EvDetectCaptcha false; Executor.EvDetect2FA false;
         Executor.EvDispatch
           (Executor.CallClick
              {| Selectors.primary := "#E1"; Selectors.fallback := [] |});
         Executor.EvCollectState];
        [Executor.EvDetectCaptcha false; Executor.EvDetect2FA false;
         Executor.EvHandleCookieBanner; Executor.EvDismissModal]]
     /\ forall runLog,
          r = Ok runLog ->
          map Executor.status (Executor.steps runLog)
          = [Executor.success; Executor.failed].
Proof.
  intros plan.
  destruct (Executor.reach Sample.calmPage Sample.browser
              [Sample.step "s1" "click" (Some "E1")] Sample.oneButton
              (Executor.loopStart Sample.browser 0))
    as [[[[results logs] cs] w1]|] eqn:Hreach; [|vm_compute in Hreach; discriminate].
  pose proof (click_on_missing_ref_fails_once_and_halts
                Sample.calmPage Sample.browser plan
                Config.defaultConfig Sample.oneButton "downloads" "runlog.json" 0
                [Sample.step "s1" "click" (Some "E1")]
                (Sample.step "s2" "click" (Some "E99"))
                [Sample.step "s3" "screenshot" None]
                results logs cs w1 eq_refl Hreach eq_refl) as H.
  vm_compute in Hreach. injection Hreach as <- <- <- <-.
  cbv zeta in H.
  destruct H as [Hloop Hrun].
  - intros s [= <-] el [Hel|[]]. subst el. discriminate.
  - split; reflexivity.
  - split; [rewrite Hloop; reflexivity|].
    split; [rewrite Hloop; reflexivity|].
    destruct (Executor.executePlan _ _ _ _ _ _ _ _) as [[r trace] w'].
    destruct Hrun as [Hlogs Hres]. split.
    + rewrite Hlogs. reflexivity.
    + intros runLog Hr. rewrite (Hres runLog Hr). reflexivity.
Defined.

(** C6. The detectors gate every step. At every turn of a pass (the
    steps [done] having been processed without a break), the clock is
    read and [detectCaptcha] is evaluated in the world that leaves;
    [detect2FA] is evaluated next unless the CAPTCHA detector fired.
    (1) If [detectCaptcha] answers yes, or answers no and [detect2FA]
    answers yes, the step is not dispatched: its result is [failed]
    with the message of [CaptchaDetected] or [TwoFADetected], both
    escalatable; the detector evaluations are the turn's only events;
    between the detector that fired and the end of the loop only the
    clock is read; and the loop ends there, whatever steps remain.
    (2) If both answer no, the step is handed to [executeStep] in the
    world the detectors left, and the turn is what the source makes of
    the answer: after a success the clock read and [collectState],
    after a failure the clock read and the [catch] block. (3) In every run of the loop the turns taken are the plan's
    steps in order, each turn opens with the CAPTCHA detector, and any
    dispatch in a turn comes after both detectors answered no. *)
Theorem detectors_gate_every_step
    {World : Type} (page : Recovery.Probe World)
    (browser : Executor.Browser World)
    (done : list Schemas.Step.t) (step : Schemas.Step.t)
    (rest : list Schemas.Step.t) (cs : Model.CompactState) (w : World)
    (results : list Executor.StepResult) (logs : list Executor.Attempt)
    (cs1 : Model.CompactState) (w1 : World) :
  Executor.reach page browser done cs w = Some (results, logs, cs1, w1) ->
  let started := snd (Executor.dateNow browser w1) in
  let afterCaptcha := snd (Recovery.detectCaptcha page started) in
  let afterTwoFA := snd (Recovery.detect2FA page afterCaptcha) in
  let failedWith (text : string) (w2 : World) :=
    {| Executor.id := Schemas.Step.id step;
       Executor.op := Schemas.Step.op step;
       Executor.status := Executor.failed; Executor.selectorUsed := None;
       Executor.durationMs :=
         fst (Executor.dateNow browser w2) - fst (Executor.dateNow browser w1);
       Executor.error := Some text |} in
  (fst (Recovery.detectCaptcha page started) = true ->
   Executor.runSteps page browser (done ++ step :: rest)%list cs w
   = ((results
       ++ [failedWith "CAPTCHA detected, human intervention required"
             afterCaptcha])%list,
      (logs
       ++ [{| Executor.attempted := step;
              Executor.events := [Executor.EvDetectCaptcha true];
              Executor.thrown := Some (Raised CaptchaDetected) |}])%list,
      snd (Executor.dateNow browser afterCaptcha)))
  /\ (fst (Recovery.detectCaptcha page started) = false ->
      fst (Recovery.detect2FA page afterCaptcha) = true ->
      Executor.runSteps page browser (done ++ step :: rest)%list cs w
      = ((results
          ++ [failedWith "2FA prompt detected, human intervention required"
                afterTwoFA])%list,
         (logs
          ++ [{| Executor.attempted := step;
                 Executor.events :=
                   [Executor.EvDetectCaptcha false; Executor.EvDetect2FA true];
                 Executor.thrown := Some (Raised TwoFADetected) |}])%list,
         snd (Executor.dateNow browser afterTwoFA)))
  /\ (fst (Recovery.detectCaptcha page started) = false ->
      fst (Recovery.detect2FA page afterCaptcha) = false ->
      match Executor.executeStep browser step cs1 afterTwoFA with
      | (Ok used, evs, w3) =>
          Executor.turn page browser step cs1 w1
          = Executor.Continue
              {| Executor.id := Schemas.Step.id step;
                 Executor.op := Schemas.Step.op step;
                 Executor.status := Executor.success;
                 Executor.selectorUsed := used;
                 Executor.durationMs :=
                   fst (Executor.dateNow browser w3)
                   - fst (Executor.dateNow browser w1);
                 Executor.error := None |}
              {| Executor.attempted := step;
                 Executor.events :=
                   (Executor.EvDetectCaptcha false
                    :: Executor.EvDetect2FA false
                    :: evs ++ [Executor.EvCollectState])%list;
                 Executor.thrown := None |}
              match fst (Executor.collectState browser
                           (Model.runId (Model.meta cs1))
                           (snd (Executor.dateNow browser w3))) with
              | Ok s => s
              | Throw _ => cs1
              end
              (snd (Executor.collectState browser
                      (Model.runId (Model.meta cs1))
                      (snd (Executor.dateNow browser w3))))
      | (Throw err, evs, w3) =>
          Executor.turn page browser step cs1 w1
          = Executor.Break (failedWith (errorText err) w3)
              {| Executor.attempted := step;
                 Executor.events :=
                   (Executor.EvDetectCaptcha false
                    :: Executor.EvDetect2FA false
                    :: evs
                       ++ fst (Executor.afterFailure browser err
                                 (snd (Executor.dateNow browser w3))))%list;
                 Executor.thrown := Some err |}
              (snd (Executor.afterFailure browser err
                      (snd (Executor.dateNow browser w3))))
            /\ Forall (fun e => Executor.isRecovery e = true)
                 (fst (Executor.afterFailure browser err
                         (snd (Executor.dateNow browser w3))))
      end)
  /\ isEscalatable (Raised CaptchaDetected) = true
  /\ isEscalatable (Raised TwoFADetected) = true
  /\ (let '(results', logs', _) :=
        Executor.runSteps page browser (done ++ step :: rest)%list cs w in
      (exists rest',
          (done ++ step :: rest)%list
          = (map Executor.attempted logs' ++ rest')%list)
      /\ length results' = length logs'
      /\ Forall Executor.gated logs').
Proof.
  intros Hreach started afterCaptcha afterTwoFA failedWith.
  split; [|split; [|split; [|split; [reflexivity|split; [reflexivity|]]]]].
  - intros Hc.
    rewrite (LoopFacts.runSteps_after_reach page browser done (step :: rest)
               _ _ _ _ _ _ Hreach).
    simpl. rewrite (TurnFacts.turn_captcha_at page browser step cs1 w1 Hc).
    reflexivity.
  - intros Hc Hf.
    rewrite (LoopFacts.runSteps_after_reach page browser done (step :: rest)
               _ _ _ _ _ _ Hreach).
    simpl. rewrite (TurnFacts.turn_twoFA_at page browser step cs1 w1 Hc Hf).
    reflexivity.
  - intros Hc Hf.
    pose proof (TurnFacts.turn_silent_at page browser step cs1 w1 Hc Hf) as H.
    fold started afterCaptcha afterTwoFA in H.
    destruct (Executor.executeStep browser step cs1 afterTwoFA)
      as [[[used|err] evs] w3]; [exact H|].
    split; [exact H | apply TurnFacts.afterFailure_recovery].
  - pose proof (LoopFacts.runSteps_shape page browser (done ++ step :: rest)%list
                  cs w) as H.
    destruct (Executor.runSteps page browser (done ++ step :: rest)%list cs w)
      as [[results' logs'] w'].
    destruct H as (Hpre & Hlen & Hg & _). split; [exact Hpre|].
    split; [exact Hlen | exact Hg].
Qed.

(** C6, run: the plan [navigate; screenshot] on a page that shows a
    CAPTCHA challenge. The world of the sample counts the calls made:
    the loop ends after the clock read, the two calls of the CAPTCHA
    detector and the clock read, with the one failed result. *)
Lemma detectors_gate_every_step_witness :
  fst (Recovery.detectCaptcha Sample.captchaPage
         (snd (Executor.dateNow Sample.browser 0))) = true
  /\ exists result,
       Executor.runSteps Sample.captchaPage Sample.browser
         [Sample.step "s1" "navigate" None; Sample.step "s2" "screenshot" None]
         Sample.emptyState 0
       = ([result],
          [{| Executor.attempted := Sample.step "s1" "navigate" None;
              Executor.events := [Executor.EvDetectCaptcha true];
              Executor.thrown := Some (Raised CaptchaDetected) |}],
          4)
       /\ Executor.status result = Executor.failed
       /\ Executor.id result = "s1"
       /\ Executor.error result
          = Some "CAPTCHA detected, human intervention required".
Proof.
  assert (Hc : fst (Recovery.detectCaptcha Sample.captchaPage
                      (snd (Executor.dateNow Sample.browser 0))) = true).
  { vm_compute. reflexivity. }
  split; [exact Hc|].
  destruct (detectors_gate_every_step Sample.captchaPage Sample.browser
              [] (Sample.step "s1" "navigate" None)
              [Sample.step "s2" "screenshot" None] Sample.emptyState 0
              [] [] Sample.emptyState 0 eq_refl) as (Hcaptcha & _).
  specialize (Hcaptcha Hc). eexists. split; [exact Hcaptcha|].
  repeat split.
Defined.



(** C3, run: the ref [E99] against a snapshot whose only element is
    [E1]. *)
Lemma resolveRef_missing_ref_is_ElementMissing_witness :
  Executor.absent "E99" Sample.oneButton
  /\ Executor.resolveRef (Some "E99") Sample.oneButton
     = Throw (Raised (ElementMissing "E99" NoDetails)).
Proof.
  assert (Habs : Executor.absent "E99" Sample.oneButton).
  { intros el [Hel|[]]. subst el. discriminate. }
  split; [exact Habs|].
  apply (proj1 (proj2 resolveRef_missing_ref_is_ElementMissing)
           (Some "E99") Sample.oneButton).
  intros s [= <-]. exact Habs.
Defined.

(* --------------------------------------------------------------------- *)
(** ** Selector resolution                                                *)
(* --------------------------------------------------------------------- *)

Module SelectorFacts.
Import Selectors.

Section WithPage.
Context {World Handle : Type} (page : Page World Handle).

(** A probe that returns does so with the selector it was given and
    the handle [page.$] produced for it, whose visibility check did not
    reject. *)
Lemma probe_found sel w found w' :
  probe page sel w = (Some found, w') ->
  selector found = sel
  /\ exists w1 v,
       query page sel w = (Ok (Some (handle found)), w1)
       /\ isVisible page (handle found) w1 = (Ok v, w').
Proof.
  unfold probe.
  destruct (query page sel w) as [[[h|]|t] w1]; try discriminate.
  destruct (isVisible page h w1) as [[[|]|t] w2] eqn:Hv; try discriminate.
  - intros [= <- <-]. simpl. split; [reflexivity|]. eauto.
  - intros [= <- <-]. simpl. split; [reflexivity|]. eauto.
Qed.

(** A probe that falls through does so because the page gave no live
    element for the selector. *)
Lemma probe_none sel w w' :
  probe page sel w = (None, w') -> Dead page sel w w'.
Proof.
  unfold probe.
  destruct (query page sel w) as [[[h|]|t] w1] eqn:Hq.
  - destruct (isVisible page h w1) as [[[|]|t] w2] eqn:Hv; try discriminate.
    intros [= <-]. exact (DeadDetached page sel w w2 h w1 t Hq Hv).
  - intros [= <-]. apply DeadNull. exact Hq.
  - intros [= <-]. exact (DeadQuery page sel w w1 t Hq).
Qed.

Lemma trySelectorsFrom_spec all rest w :
  match trySelectorsFrom page all rest w with
  | (Ok found, w') =>
      exists before after w1,
        rest = (before ++ selector found :: after)%list
        /\ Misses page before w w1
        /\ probe page (selector found) w1 = (Some found, w')
  | (Throw t, w') =>
      Misses page rest w w'
      /\ t = Raised (ElementMissing
                       ("(via selectors: " +:+ Js.join ", " all +:+ ")")
                       (Attempts all))
  end.
Proof.
  revert w. induction rest as [|sel rest IH]; intros w; simpl.
  - split; [constructor | reflexivity].
  - destruct (probe page sel w) as [[found|] w1] eqn:Hp.
    + destruct (probe_found sel w found w1 Hp) as [Hsel _].
      exists [], rest, w. rewrite Hsel. simpl.
      split; [reflexivity|]. split; [constructor | exact Hp].
    + pose proof (probe_none sel w w1 Hp) as Hdead.
      specialize (IH w1).
      destruct (trySelectorsFrom page all rest w1) as [[found|t] w2].
      * destruct IH as (before & after & w3 & Hrest & Hmiss & Hhit).
        exists (sel :: before), after, w3. simpl.
        split; [f_equal; exact Hrest|].
        split; [econstructor; eassumption | exact Hhit].
      * destruct IH as (Hmiss & Ht).
        split; [econstructor; eassumption | exact Ht].
Qed.

End WithPage.
End SelectorFacts.

(** C4. [trySelectors] hands the locators to the page in the order
    [primary, ...fallback]. If it returns, the locator returned is the
    first of that list that matches a live element: for every locator
    before it, in order, [page.$] gave [null] or rejected, or gave a
    handle whose [isVisible] rejected; for the locator returned
    [page.$] gave the handle it is paired with, whose [isVisible]
    resolved; and the page is left as that last call left it, so no
    later locator is handed to it. If it throws, the page gave no live
    element for any locator of the list, each handed to it in order,
    and the error is [ElementMissing] carrying the whole list of
    attempts. *)
Theorem trySelectors_returns_first_match
    {World Handle : Type} (page : Selectors.Page World Handle)
    (selectorSet : Selectors.SelectorSet) (w : World) :
  let attempts := Selectors.primary selectorSet :: Selectors.fallback selectorSet in
  match Selectors.trySelectors page selectorSet w with
  | (Ok found, w') =>
      exists before after w1 w2 visible,
        attempts = (before ++ Selectors.selector found :: after)%list
        /\ Selectors.Misses page before w w1
        /\ Selectors.query page (Selectors.selector found) w1
           = (Ok (Some (Selectors.handle found)), w2)
        /\ Selectors.isVisible page (Selectors.handle found) w2 = (Ok visible, w')
  | (Throw t, w') =>
      Selectors.Misses page attempts w w'
      /\ t = Raised (ElementMissing
                       ("(via selectors: " +:+ Js.join ", " attempts +:+ ")")
                       (Attempts attempts))
      /\ details (ElementMissing
                    ("(via selectors: " +:+ Js.join ", " attempts +:+ ")")
                    (Attempts attempts)) = Attempts attempts
  end.
Proof.
  intros attempts. unfold Selectors.trySelectors. fold attempts.
  pose proof (SelectorFacts.trySelectorsFrom_spec page attempts attempts w) as H.
  destruct (Selectors.trySelectorsFrom page attempts attempts w) as [[found|t] w'].
  - destruct H as (before & after & w1 & Hsplit & Hmiss & Hhit).
    destruct (SelectorFacts.probe_found page _ _ _ _ Hhit) as (_ & w2 & v & Hq & Hv).
    exists before, after, w1, w2, v.
    split; [exact Hsplit|]. split; [exact Hmiss|]. split; [exact Hq | exact Hv].
  - destruct H as (Hmiss & Ht).
    split; [exact Hmiss|]. split; [exact Ht | reflexivity].
Qed.

(** C4, run: a primary locator that no longer matches, a fallback that
    is not a valid selector, one that matches a detached element, then
    two that match: the fourth locator is returned, after [page.$] gave
    [null] for the first and rejected the second, and [isVisible]
    rejected for the third. *)
Lemma trySelectors_returns_first_match_witness :
  exists w1 w2 w',
    Selectors.trySelectors Sample.domPage
      {| Selectors.primary := "#old-id";
         Selectors.fallback :=
           ["!!"; ".ghost"; "button:nth-of-type(1)"; "#submit"] |} 0
    = (Ok {| Selectors.selector := "button:nth-of-type(1)";
             Selectors.handle := "submit" |}, w')
    /\ Selectors.Misses Sample.domPage ["#old-id"; "!!"; ".ghost"] 0 w1
    /\ Selectors.query Sample.domPage "button:nth-of-type(1)" w1
       = (Ok (Some "submit"), w2)
    /\ Selectors.isVisible Sample.domPage "submit" w2 = (Ok true, w').
Proof.
  pose proof (trySelectors_returns_first_match Sample.domPage
                {| Selectors.primary := "#old-id";
                   Selectors.fallback :=
                     ["!!"; ".ghost"; "button:nth-of-type(1)"; "#submit"] |} 0)
    as H.
  cbv zeta in H.
  destruct (Selectors.trySelectors Sample.domPage _ 0) as [[found|t] w'] eqn:Hrun;
    vm_compute in Hrun; [|discriminate Hrun].
  injection Hrun as Hfound Hw. subst found.
  destruct H as (before & after & w1 & w2 & visible & Hsplit & Hmiss & Hq & Hv).
  cbn [Selectors.selector Selectors.handle Selectors.primary Selectors.fallback]
    in Hsplit, Hq, Hv.
  assert (Hbefore : before = ["#old-id"; "!!"; ".ghost"]).
  { destruct before as [|b0 before]; [inversion Hmiss; subst; discriminate Hsplit|].
    injection Hsplit as <- Hsplit.
    destruct before as [|b1 before];
      [exfalso; inversion Hmiss as [|? ? ? wa ? Hd Hrest]; subst;
       inversion Hrest; subst; injection Hsplit as Heq _; discriminate Heq|].
    injection Hsplit as <- Hsplit.
    destruct before as [|b2 before];
      [exfalso; injection Hsplit as Heq _; discriminate Heq|].
    injection Hsplit as <- Hsplit.
    destruct before as [|b3 before]; [reflexivity|].
    exfalso. injection Hsplit as <- Hsplit.
    inversion Hmiss as [|? ? ? wa ? _ H1]; subst.
    inversion H1 as [|? ? ? wb ? _ H2]; subst.
    inversion H2 as [|? ? ? wc ? _ H3]; subst.
    inversion H3 as [|? ? ? wd ? Hd _]; subst.
    destruct Hd as [Hd|t Hd|h wx t Hd Hvis]; vm_compute in Hd; try discriminate Hd.
    injection Hd as <- <-. vm_compute in Hvis. discriminate Hvis. }
  subst before. exists w1, w2, w'.
  split; [f_equal; exact Hw|]. split; [exact Hmiss|].
  assert (Hvisible : visible = true).
  { vm_compute in Hq. injection Hq as <-. vm_compute in Hv.
    injection Hv as <- _. reflexivity. }
  subst visible. split; assumption.
Defined.

(* --------------------------------------------------------------------- *)
(** ** The differ                                                         *)
(* --------------------------------------------------------------------- *)

Module DiffFacts.
Import Model Diff.

#[local] Abbreviation keys := JsMap.keys.

Lemma keys_set {V : Type} (m : JsMap.t V) k v x :
  In x (keys (JsMap.set m k v)) -> x = k \/ In x (keys m).
Proof.
  induction m as [|[k' v'] m IH]; simpl.
  - intros [H|[]]. left. symmetry. exact H.
  - destruct (String.eqb_spec k' k) as [Heq|Hne]; simpl.
    + intros H. right. exact H.
    + intros [H|H]; [right; left; exact H|].
      destruct (IH H) as [H'|H']; [left; exact H' | right; right; exact H'].
Qed.

Lemma NoDup_set {V : Type} (m : JsMap.t V) k v :
  List.NoDup (keys m) -> List.NoDup (keys (JsMap.set m k v)).
Proof.
  induction m as [|[k' v'] m IH]; simpl; intros Hnd.
  - constructor; [intros []|constructor].
  - inversion Hnd as [|? ? Hnotin Hnd']; subst.
    destruct (String.eqb_spec k' k) as [Heq|Hne]; simpl.
    + constructor; assumption.
    + constructor; [|apply IH; exact Hnd'].
      intros Hin. destruct (keys_set m k v k' Hin) as [H|H].
      * apply Hne. exact H.
      * apply Hnotin. exact H.
Qed.

Lemma NoDup_fold_set {V : Type} (entries : list (string * V)) (m : JsMap.t V) :
  List.NoDup (keys m) ->
  List.NoDup (keys (fold_left (fun m e => JsMap.set m (fst e) (snd e)) entries m)).
Proof.
  revert m. induction entries as [|e entries IH]; intros m Hnd; simpl.
  - exact Hnd.
  - apply IH. apply NoDup_set. exact Hnd.
Qed.

(** The keys of a [Map] are distinct. *)
Lemma NoDup_ofEntries {V : Type} (entries : list (string * V)) :
  List.NoDup (keys (JsMap.ofEntries entries)).
Proof. apply NoDup_fold_set. constructor. Qed.

(** Looking up the key of an entry of a [Map] gives that entry's value. *)
Lemma get_entry {V : Type} (m : JsMap.t V) k v :
  List.NoDup (keys m) -> In (k, v) m -> JsMap.get m k = Some v.
Proof.
  induction m as [|[k' v'] m IH]; simpl; intros Hnd Hin; [destruct Hin|].
  inversion Hnd as [|? ? Hnotin Hnd']; subst.
  destruct Hin as [[= -> ->]|Hin].
  - rewrite String.eqb_refl. reflexivity.
  - destruct (String.eqb_spec k' k) as [Heq|Hne].
    + exfalso. apply Hnotin. subst k'.
      change k with (fst (k, v)). apply in_map. exact Hin.
    + apply IH; assumption.
Qed.

Lemma strictEq_refl v : strictEq v v = true.
Proof.
  destruct v as [|s|b]; simpl.
  - reflexivity.
  - apply String.eqb_refl.
  - destruct b; reflexivity.
Qed.

Lemma changedOver_same fields el : changedOver fields el el = ([], []).
Proof.
  induction fields as [|f fields IH]; simpl; [reflexivity|].
  rewrite IH, strictEq_refl. reflexivity.
Qed.

(** An element does not differ from itself on any tracked field. *)
Lemma changed_same el : changed el el = None.
Proof. unfold changed. rewrite changedOver_same. reflexivity. Qed.

Lemma scanCurrent_same (m entries : JsMap.t InteractiveElement) :
  List.NoDup (keys m) ->
  (forall e, In e entries -> In e m) ->
  scanCurrent entries m = ([], []).
Proof.
  intros Hnd. induction entries as [|[r el] entries IH]; intros Hsub; simpl;
    [reflexivity|].
  rewrite IH by (intros e He; apply Hsub; right; exact He).
  unfold JsMap.has.
  rewrite (get_entry m r el Hnd (Hsub (r, el) (or_introl eq_refl))).
  simpl. rewrite changed_same. reflexivity.
Qed.

Lemma scanPrevious_same (m entries : JsMap.t InteractiveElement) :
  List.NoDup (keys m) ->
  (forall e, In e entries -> In e m) ->
  scanPrevious entries m = [].
Proof.
  intros Hnd. induction entries as [|[r el] entries IH]; intros Hsub; simpl;
    [reflexivity|].
  unfold JsMap.has.
  rewrite (get_entry m r el Hnd (Hsub (r, el) (or_introl eq_refl))).
  simpl. apply IH. intros e He. apply Hsub. right. exact He.
Qed.

Lemma diff_same_elements (prev curr : CompactState) :
  interactive prev = interactive curr ->
  diffStates prev curr = {| added := []; removed := []; changedList := [] |}.
Proof.
  intros Heq. unfold diffStates. rewrite Heq.
  set (m := indexByRef (interactive curr)).
  assert (Hnd : List.NoDup (keys m)) by apply NoDup_ofEntries.
  rewrite (scanCurrent_same m m Hnd (fun e H => H)).
  rewrite (scanPrevious_same m m Hnd (fun e H => H)).
  reflexivity.
Qed.

End DiffFacts.

(** C7. For every [CompactState] [S], [diffStates S S] has empty
    [added], [removed] and [changed] lists; more generally so has the
    diff of any two snapshots with the same elements by value,
    whatever their metadata and page summaries. *)
Theorem diffStates_identical_is_empty :
  (forall S : Model.CompactState,
     Diff.diffStates S S
     = {| Diff.added := []; Diff.removed := []; Diff.changedList := [] |})
  /\ (forall meta1 meta2 summary1 summary2 elements,
        Diff.diffStates
          {| Model.meta := meta1; Model.pageSummary := summary1;
             Model.interactive := elements |}
          {| Model.meta := meta2; Model.pageSummary := summary2;
             Model.interactive := elements |}
        = {| Diff.added := []; Diff.removed := []; Diff.changedList := [] |}).
Proof.
  split.
  - intros S. apply DiffFacts.diff_same_elements. reflexivity.
  - intros. apply DiffFacts.diff_same_elements. reflexivity.
Qed.

(** The differ does report differences: one changed label, one element
    added, and a snapshot in which two elements share a ref. *)
Example diffStates_runs :
  Diff.diffStates Sample.oneButton
    {| Model.meta := Model.meta Sample.oneButton;
       Model.pageSummary := Model.pageSummary Sample.oneButton;
       Model.interactive := [Sample.button "E1" "Send"; Sample.button "E2" "Cancel"] |}
  = {| Diff.added := [Sample.button "E2" "Cancel"];
       Diff.removed := [];
       Diff.changedList :=
         [{| Diff.changedRef := "E1";
             Diff.before := [(Diff.FLabel, Diff.VString "Submit")];
             Diff.after := [(Diff.FLabel, Diff.VString "Send")] |}] |}
  /\ Diff.indexByRef [Sample.button "E1" "a"; Sample.button "E2" "b";
                      Sample.button "E1" "c"]
     = [("E1", Sample.button "E1" "c"); ("E2", Sample.button "E2" "b")].
Proof. split; reflexivity. Qed.

(* --------------------------------------------------------------------- *)
(** ** The patch loop                                                     *)
(* --------------------------------------------------------------------- *)

Module PatchFacts.
Import Model Schemas Executor Orchestrator.

Section Runs.
Variable config : Config.WebRunnerConfig.

#[local] Abbreviation bound := (Config.maxPatchRounds config).

Lemma Rounds_length n v log o :
  Rounds config n v log o -> Z.of_nat (length log) <= Z.max 0 (bound - n).
Proof.
  induction 1 as [n v Hstop | n v t Hp Hlt | n v v' log o Hp Hlt Hrest IH];
    simpl length; lia.
Qed.

Lemma Rounds_nth n v log o (i : nat) r :
  Rounds config n v log o ->
  log !! i = Some r ->
  counter r = n + Z.of_nat i + 1
  /\ n + Z.of_nat i < bound
  /\ Verdict.status (given r) = "patch".
Proof.
  intros Hr. revert i.
  induction Hr as [n v Hstop | n v t Hp Hlt | n v v' log o Hp Hlt Hrest IH];
    intros i Hi.
  - discriminate.
  - destruct i as [|i]; [|discriminate].
    injection Hi as <-. simpl. repeat split; try assumption; lia.
  - destruct i as [|i].
    + injection Hi as <-. simpl. repeat split; try assumption; lia.
    + simpl in Hi. destruct (IH i Hi) as (Hc & Hb & Hs).
      repeat split; try assumption; lia.
Qed.

Lemma Rounds_first n v log o r :
  Rounds config n v log o -> log !! 0%nat = Some r -> given r = v.
Proof.
  intros Hr H0. destruct Hr; try discriminate; injection H0 as <-; reflexivity.
Qed.

Lemma Rounds_chain n v log o (i : nat) r r' :
  Rounds config n v log o ->
  log !! i = Some r -> log !! S i = Some r' ->
  produced r = Ok (given r').
Proof.
  intros Hr. revert i.
  induction Hr as [n v Hstop | n v t Hp Hlt | n v v' log o Hp Hlt Hrest IH];
    intros i Hi Hi'.
  - discriminate.
  - destruct i; discriminate.
  - destruct i as [|i].
    + injection Hi as <-. simpl in *.
      rewrite (Rounds_first _ _ _ _ _ Hrest Hi'). reflexivity.
    + simpl in Hi, Hi'. apply (IH i); assumption.
Qed.

Lemma Rounds_stop n v log o (i : nat) r v' :
  Rounds config n v log o ->
  log !! i = Some r -> produced r = Ok v' -> Verdict.status v' <> "patch" ->
  length log = S i /\ o = Settled v' (counter r).
Proof.
  intros Hr. revert i.
  induction Hr as [n v Hstop | n v t Hp Hlt | n v v1 log o Hp Hlt Hrest IH];
    intros i Hi Hprod Hnp.
  - discriminate.
  - destruct i as [|i]; [|discriminate]. injection Hi as <-. discriminate.
  - destruct i as [|i].
    + injection Hi as <-. simpl in Hprod. injection Hprod as ->.
      inversion Hrest; subst; simpl; try contradiction.
      split; reflexivity.
    + simpl in Hi. destruct (IH i Hi Hprod Hnp) as [Hlen Ho].
      simpl. split; [f_equal; exact Hlen | exact Ho].
Qed.

Lemma lastVerdict_cons initial r log :
  lastVerdict initial (r :: log)
  = match log with
    | [] => produced r
    | _ :: _ => lastVerdict (given r) log
    end.
Proof.
  unfold lastVerdict. destruct log as [|r' log]; [reflexivity|].
  rewrite last_cons_cons.
  destruct (proj2 (last_is_Some (r' :: log))) as [x Hx]; [discriminate|].
  rewrite Hx. reflexivity.
Qed.

Lemma Rounds_last n v log o :
  Rounds config n v log o ->
  match lastVerdict v log with
  | Ok v' =>
      o = Settled v' (n + Z.of_nat (length log))
      /\ (Verdict.status v' <> "patch" \/ bound <= n + Z.of_nat (length log))
  | Throw t => o = Rejected t
  end.
Proof.
  induction 1 as [n v Hstop | n v t Hp Hlt | n v v' log o Hp Hlt Hrest IH].
  - unfold lastVerdict. simpl. rewrite Z.add_0_r. split; [reflexivity|].
    destruct (String.eqb_spec (Verdict.status v) "patch") as [Heq|Hne];
      [|left; exact Hne].
    right. destruct (Z_lt_le_dec n bound) as [Hlt|Hle]; [|exact Hle].
    exfalso. apply Hstop. split; assumption.
  - reflexivity.
  - rewrite lastVerdict_cons. destruct log as [|r' log].
    + inversion Hrest; subst. simpl.
      unfold lastVerdict in IH. simpl in IH. rewrite Z.add_0_r in IH.
      replace (n + 1) with (n + 1)%Z in IH by reflexivity.
      destruct IH as [_ Hor]. split; [reflexivity | exact Hor].
    + simpl given.
      assert (Hsame : lastVerdict v (r' :: log) = lastVerdict v' (r' :: log)).
      { unfold lastVerdict.
        destruct (proj2 (last_is_Some (r' :: log))) as [x Hx]; [discriminate|].
        rewrite Hx. reflexivity. }
      rewrite Hsame.
      destruct (lastVerdict v' (r' :: log)) as [v2|t].
      * destruct IH as [Ho Hor].
        replace (n + Z.of_nat (length (_ :: r' :: log)))
          with (n + 1 + Z.of_nat (length (r' :: log)))
          by (simpl length; lia).
        split; assumption.
      * exact IH.
Qed.

End Runs.

Section Loop.
Context {World : Type} (page : Recovery.Probe World) (browser : Browser World)
        (oracle : Oracle World).
Variables (config : Config.WebRunnerConfig) (task : string)
          (finalState : CompactState) (runId downloadDir : string).

#[local] Abbreviation patchLoop :=
  (Orchestrator.patchLoop page browser oracle config task finalState runId
     downloadDir).

(** Given as many turns as the bound still allows, the loop is left by
    its guard or by a rejection, and what it did is a run of [Rounds]. *)
Lemma patchLoop_rounds turns verdict patchRound w :
  (Z.to_nat (Config.maxPatchRounds config - patchRound) <= turns)%nat ->
  Rounds config patchRound verdict
    (snd (fst (patchLoop turns verdict patchRound w)))
    (fst (fst (patchLoop turns verdict patchRound w))).
Proof.
  revert verdict patchRound w.
  induction turns as [|turns IH]; intros verdict patchRound w Hfuel; simpl.
  - destruct (String.eqb_spec (Verdict.status verdict) "patch") as [Hp|Hnp];
      simpl.
    + destruct (Z.ltb_spec patchRound (Config.maxPatchRounds config)) as [Hlt|Hge];
        simpl; [lia|].
      constructor. intros [_ H]. lia.
    + constructor. intros [H _]. contradiction.
  - destruct (String.eqb_spec (Verdict.status verdict) "patch") as [Hp|Hnp];
      simpl.
    + destruct (Z.ltb_spec patchRound (Config.maxPatchRounds config)) as [Hlt|Hge];
        simpl.
      * destruct (patchBody page browser oracle config task finalState runId
                    downloadDir (patchRound + 1) verdict w) as [[v'|t] w1].
        -- specialize (IH v' (patchRound + 1) w1).
           destruct (patchLoop turns v' (patchRound + 1) w1) as [[o log] w2].
           simpl in *. apply RoundsStep; try assumption. apply IH. lia.
        -- simpl. apply RoundsThrow; assumption.
      * constructor. intros [_ H]. lia.
    + constructor. intros [H _]. contradiction.
Qed.

End Loop.
End PatchFacts.

Module OracleFacts.
Import Model Schemas Executor Orchestrator.

Section Loop.
Context {World : Type} (page : Recovery.Probe World) (browser : Browser World)
        (oracle : Oracle World).
Variables (config : Config.WebRunnerConfig) (task : string)
          (finalState : CompactState) (runId downloadDir : string).

#[local] Abbreviation patchBody :=
  (Orchestrator.patchBody page browser oracle config task finalState runId
     downloadDir).
#[local] Abbreviation patchLoop :=
  (Orchestrator.patchLoop page browser oracle config task finalState runId
     downloadDir).
#[local] Abbreviation Body :=
  (Orchestrator.Body page browser oracle config task finalState runId
     downloadDir).
#[local] Abbreviation Turns :=
  (Orchestrator.Turns page browser oracle config task finalState runId
     downloadDir).

(** What the body produces is what it got from the oracle, asked in
    the order of the source. *)
Lemma patchBody_Body patchRound verdict w :
  Body patchRound verdict w
    (fst (patchBody patchRound verdict w)) (snd (patchBody patchRound verdict w)).
Proof.
  unfold Orchestrator.patchBody.
  destruct (requestPatchPlan oracle task finalState verdict patchRound w)
    as [[patchPlan|t] w1] eqn:Hplan; [|exact (BodyNoPlan _ _ _ _ _ _ _ _ _ _ _ _ _ Hplan)].
  destruct (executePlan page browser patchPlan config finalState downloadDir
              (patchLogPath oracle patchRound) w1) as [[[runlog|t] trace] w2]
    eqn:Hrun;
    [|exact (BodyNoRun _ _ _ _ _ _ _ _ _ _ _ _ _ _ _ _ Hplan Hrun)].
  destruct (collectState browser runId w2) as [[newFinalState|t] w3] eqn:Hstate;
    [|exact (BodyNoState _ _ _ _ _ _ _ _ _ _ _ _ _ _ _ _ _ _ Hplan Hrun Hstate)].
  destruct (requestVerdict oracle task newFinalState (steps runlog) w3)
    as [r w4] eqn:Hverdict.
  exact (BodyVerdict _ _ _ _ _ _ _ _ _ _ _ _ _ _ _ _ _ _ _ _ Hplan Hrun Hstate
           Hverdict).
Qed.

(** Given as many turns as the bound still allows, what the loop did
    is a run of [Turns] from the world it was entered in to the world
    it leaves. *)
Lemma patchLoop_turns turns verdict patchRound w :
  (Z.to_nat (Config.maxPatchRounds config - patchRound) <= turns)%nat ->
  Turns patchRound verdict w
    (snd (fst (patchLoop turns verdict patchRound w)))
    (fst (fst (patchLoop turns verdict patchRound w)))
    (snd (patchLoop turns verdict patchRound w)).
Proof.
  revert verdict patchRound w.
  induction turns as [|turns IH]; intros verdict patchRound w Hfuel; simpl.
  - destruct (String.eqb_spec (Verdict.status verdict) "patch") as [Hp|Hnp];
      simpl.
    + destruct (Z.ltb_spec patchRound (Config.maxPatchRounds config)) as [Hlt|Hge];
        simpl; [lia|].
      constructor. intros [_ H]. lia.
    + constructor. intros [H _]. contradiction.
  - destruct (String.eqb_spec (Verdict.status verdict) "patch") as [Hp|Hnp];
      simpl.
    + destruct (Z.ltb_spec patchRound (Config.maxPatchRounds config)) as [Hlt|Hge];
        simpl.
      * pose proof (patchBody_Body (patchRound + 1) verdict w) as Hbody.
        destruct (patchBody (patchRound + 1) verdict w) as [[v'|t] w1].
        -- specialize (IH v' (patchRound + 1) w1).
           destruct (patchLoop turns v' (patchRound + 1) w1) as [[o log] w2].
           simpl in *. apply TurnsStep with (w1 := w1); try assumption.
           apply IH. lia.
        -- simpl in *. apply TurnsThrow; assumption.
      * constructor. intros [_ H]. lia.
    + constructor. intros [H _]. contradiction.
Qed.

End Loop.
End OracleFacts.

(** C1. The patch loop of [runTask] runs at most [maxPatchRounds]
    rounds. For every configuration, oracle, browser and starting
    verdict: the loop is left (within the turns the bound allows); it
    takes at most [max 0 maxPatchRounds] turns; turn [i] (from 0) is
    entered with a verdict of status [patch] and the counter [i] below
    the bound, and leaves the counter at [i + 1]; each turn is entered
    with the verdict the turn before produced (the first with the
    starting verdict); a turn that produces a verdict of any status
    other than [patch] ([escalate], [success]) is the last one, however
    far the counter is from the bound; and the loop ends with the last
    verdict produced, unchanged (with the starting verdict if no turn
    was taken), either because its status is not [patch] or because the
    counter has reached the bound; if the body rejects, so does the
    loop. What a turn produces is what the oracle answered in it: the
    turns are a run of [Turns], in which every body asks the oracle for
    a patch plan for the verdict it was entered with, runs the plan,
    collects the state and asks the oracle for the verdict, each turn
    in the world the one before left. *)
Theorem patch_loop_is_bounded_and_stops_on_verdict
    {World : Type} (page : Recovery.Probe World)
    (browser : Executor.Browser World) (oracle : Orchestrator.Oracle World)
    (config : Config.WebRunnerConfig) (task : string)
    (finalState : Model.CompactState) (runId downloadDir : string)
    (verdict : Schemas.Verdict.t) (w : World) :
  let '(outcome, log, w') :=
    Orchestrator.patchPhase page browser oracle config task finalState runId
      downloadDir verdict w in
  outcome <> Orchestrator.Unfinished
  /\ Z.of_nat (length log) <= Z.max 0 (Config.maxPatchRounds config)
  /\ (forall (i : nat) r,
        log !! i = Some r ->
        Schemas.Verdict.status (Orchestrator.given r) = "patch"
        /\ Z.of_nat i < Config.maxPatchRounds config
        /\ Orchestrator.counter r = Z.of_nat i + 1)
  /\ (forall r, log !! 0%nat = Some r -> Orchestrator.given r = verdict)
  /\ (forall (i : nat) r r',
        log !! i = Some r -> log !! S i = Some r' ->
        Orchestrator.produced r = Ok (Orchestrator.given r'))
  /\ (forall (i : nat) r v,
        log !! i = Some r -> Orchestrator.produced r = Ok v ->
        Schemas.Verdict.status v <> "patch" ->
        length log = S i
        /\ outcome = Orchestrator.Settled v (Z.of_nat i + 1))
  /\ match Orchestrator.lastVerdict verdict log with
     | Ok v =>
         outcome = Orchestrator.Settled v (Z.of_nat (length log))
         /\ (Schemas.Verdict.status v <> "patch"
             \/ Config.maxPatchRounds config <= Z.of_nat (length log))
     | Throw t => outcome = Orchestrator.Rejected t
     end
  /\ Orchestrator.Turns page browser oracle config task finalState runId
       downloadDir 0 verdict w log outcome w'.
Proof.
  unfold Orchestrator.patchPhase.
  pose proof (PatchFacts.patchLoop_rounds page browser oracle config task
                finalState runId downloadDir
                (Z.to_nat (Config.maxPatchRounds config)) verdict 0 w) as Hr.
  pose proof (OracleFacts.patchLoop_turns page browser oracle config task
                finalState runId downloadDir
                (Z.to_nat (Config.maxPatchRounds config)) verdict 0 w) as Ht.
  destruct (Orchestrator.patchLoop page browser oracle config task finalState
              runId downloadDir (Z.to_nat (Config.maxPatchRounds config))
              verdict 0 w) as [[outcome log] w'].
  simpl in Hr, Ht.
  assert (Hrun : Orchestrator.Rounds config 0 verdict log outcome).
  { apply Hr. rewrite Z.sub_0_r. apply Nat.le_refl. }
  assert (Hturns : Orchestrator.Turns page browser oracle config task finalState
                     runId downloadDir 0 verdict w log outcome w').
  { apply Ht. rewrite Z.sub_0_r. apply Nat.le_refl. }
  clear Hr Ht.
  split; [|split; [|split; [|split; [|split; [|split; [|split]]]]]].
  - pose proof (PatchFacts.Rounds_last config _ _ _ _ Hrun) as Hl.
    destruct (Orchestrator.lastVerdict verdict log).
    + destruct Hl as [-> _]. discriminate.
    + rewrite Hl. discriminate.
  - pose proof (PatchFacts.Rounds_length config _ _ _ _ Hrun) as Hl.
    rewrite Z.sub_0_r in Hl. exact Hl.
  - intros i r Hi.
    destruct (PatchFacts.Rounds_nth config _ _ _ _ i r Hrun Hi) as (Hc & Hb & Hs).
    split; [exact Hs|]. split; [lia|]. rewrite Hc. lia.
  - intros r Hi. exact (PatchFacts.Rounds_first config _ _ _ _ r Hrun Hi).
  - intros i r r' Hi Hi'.
    exact (PatchFacts.Rounds_chain config _ _ _ _ i r r' Hrun Hi Hi').
  - intros i r v Hi Hp Hnp.
    destruct (PatchFacts.Rounds_stop config _ _ _ _ i r v Hrun Hi Hp Hnp)
      as [Hlen Ho].
    destruct (PatchFacts.Rounds_nth config _ _ _ _ i r Hrun Hi) as (Hc & _).
    split; [exact Hlen|]. rewrite Ho, Hc. f_equal.
  - pose proof (PatchFacts.Rounds_last config _ _ _ _ Hrun) as Hl.
    destruct (Orchestrator.lastVerdict verdict log); [|exact Hl].
    rewrite Z.add_0_l in Hl. exact Hl.
  - exact Hturns.
Qed.

(** C1, runs: with the bound 2 and an oracle that keeps answering
    [patch], the loop takes two turns and the verdict [patch] stands;
    with the bound 5 and an oracle that answers [escalate], it takes
    one; with a bound of 0, none. *)
Example patch_loop_runs :
  (let '(outcome, log, _) :=
     Orchestrator.patchPhase Sample.calmPage Sample.browser
       (Sample.oracleAnswering "patch") (Sample.configWithRounds 2) "task"
       Sample.oneButton "run-1" "downloads" (Sample.verdictOf "patch") 0 in
   outcome = Orchestrator.Settled (Sample.verdictOf "patch") 2
   /\ map Orchestrator.counter log = [1; 2])
  /\ (let '(outcome, log, _) :=
        Orchestrator.patchPhase Sample.calmPage Sample.browser
          (Sample.oracleAnswering "escalate") (Sample.configWithRounds 5) "task"
          Sample.oneButton "run-1" "downloads" (Sample.verdictOf "patch") 0 in
      outcome = Orchestrator.Settled (Sample.verdictOf "escalate") 1
      /\ map Orchestrator.counter log = [1])
  /\ (let '(outcome, log, _) :=
        Orchestrator.patchPhase Sample.calmPage Sample.browser
          (Sample.oracleAnswering "patch") (Sample.configWithRounds 0) "task"
          Sample.oneButton "run-1" "downloads" (Sample.verdictOf "patch") 0 in
      outcome = Orchestrator.Settled (Sample.verdictOf "patch") 0 /\ log = []).
Proof. repeat split. Qed.

(* --------------------------------------------------------------------- *)
(** ** Redaction                                                          *)
(* --------------------------------------------------------------------- *)

Module RedactFacts.
Import JsPath Redact.

Section WithLists.
Variables (allowlist : list string) (patterns : list Regex.RegExp).

#[local] Abbreviation redact := (redactSecrets allowlist patterns).
#[local] Abbreviation left := (redactedAt allowlist patterns).

#[local] Abbreviation redactEntry := (Redact.redactEntry allowlist patterns).

Lemma redact_object entries :
  redact (JsObject entries)
  = JsObject (List.filter assignable (map redactEntry entries)).
Proof. reflexivity. Qed.

Lemma redact_array items :
  redact (JsArray items) = JsArray (map redact items).
Proof. reflexivity. Qed.

Lemma redact_scalar x : isScalar x = true -> redact x = x.
Proof. destruct x; simpl; intros H; try reflexivity; discriminate. Qed.

Lemma redact_not_string x : isString x = false -> isString (redact x) = false.
Proof. destruct x; simpl; intros H; try reflexivity; discriminate. Qed.

Lemma redactEntry_value k y :
  redactEntry (k, y) = (k, left [Key k] y).
Proof.
  unfold Redact.redactEntry, redactedAt, passesAllowed. simpl.
  destruct (allowed allowlist k); simpl; [reflexivity|].
  destruct y; try reflexivity.
  destruct (isSecretKey k patterns); reflexivity.
Qed.

Lemma property_redacted entries k :
  isProto k = false ->
  property (List.filter assignable (map redactEntry entries)) k
  = match property entries k with
    | Some y => Some (left [Key k] y)
    | None => None
    end.
Proof.
  intros Hk. induction entries as [|[k' y] entries IH]; [reflexivity|].
  cbn [map]. rewrite redactEntry_value. cbn [List.filter].
  unfold assignable at 1. cbn [fst].
  destruct (String.eqb_spec k' k) as [->|Hne].
  - rewrite Hk. cbn [negb property]. rewrite String.eqb_refl. reflexivity.
  - destruct (isProto k'); cbn [negb property].
    + destruct (String.eqb_spec k' k); [contradiction | exact IH].
    + destruct (String.eqb_spec k' k); [contradiction | exact IH].
Qed.

(** The result has no property named [__proto__]. *)
Lemma property_proto entries k :
  isProto k = true ->
  property (List.filter assignable (map redactEntry entries)) k = None.
Proof.
  intros Hk. induction entries as [|[k' y] entries IH]; [reflexivity|].
  cbn [map]. rewrite redactEntry_value. cbn [List.filter].
  unfold assignable at 1. cbn [fst].
  destruct (isProto k') eqn:Hk'; cbn [negb]; [exact IH|].
  cbn [property]. destruct (String.eqb_spec k' k) as [->|Hne]; [congruence | exact IH].
Qed.

(** A property of the result is the redacted property of that name of
    the argument. *)
Lemma property_from entries k y' :
  property (List.filter assignable (map redactEntry entries)) k = Some y' ->
  isProto k = false
  /\ exists y, property entries k = Some y /\ y' = left [Key k] y.
Proof.
  intros H. destruct (isProto k) eqn:Hk.
  - rewrite (property_proto entries k Hk) in H. discriminate.
  - split; [reflexivity|]. rewrite (property_redacted entries k Hk) in H.
    destruct (property entries k) as [y|]; [|discriminate].
    injection H as <-. exists y. split; reflexivity.
Qed.

Lemma lookup_map {A B : Type} (f : A -> B) (l : list A) (i : nat) :
  map f l !! i = match l !! i with Some y => Some (f y) | None => None end.
Proof.
  revert i. induction l as [|a l IH]; intros [|i]; simpl; try reflexivity.
  apply IH.
Qed.

Lemma follow_scalar x p y :
  isScalar x = true -> follow x p = Some y -> p = [] /\ y = x.
Proof.
  intros Hs. destruct p as [|[k|i] p]; simpl.
  - intros [= <-]. split; reflexivity.
  - destruct x; try discriminate.
  - destruct x; try discriminate.
Qed.

Lemma left_nil x : left [] x = redact x.
Proof. unfold redactedAt. simpl. destruct x; reflexivity. Qed.

Lemma left_cons_cons seg seg' p x :
  (match seg with Key k => allowed allowlist k | Index _ => false end) = false ->
  left (seg :: seg' :: p) x = left (seg' :: p) x.
Proof.
  intros Hseg. unfold redactedAt, passesAllowed.
  rewrite last_cons_cons.
  change (existsb ?f (seg :: seg' :: p)) with (f seg || existsb f (seg' :: p))%bool.
  cbv beta. rewrite Hseg. reflexivity.
Qed.

(** What sits at a path of the argument that goes through no property
    named [__proto__] is, in the result, at the same path, replaced as
    [redactedAt] says. *)
Lemma redact_follow v p x :
  protoFree p = true ->
  follow v p = Some x -> follow (redact v) p = Some (left p x).
Proof.
  revert v. induction p as [|seg p IH]; intros v Hfree.
  - simpl. intros [= <-]. rewrite left_nil. reflexivity.
  - cbn [protoFree forallb] in Hfree. apply andb_prop in Hfree.
    destruct Hfree as [Hseg Hfree]. fold (protoFree p) in Hfree.
    destruct seg as [k|i].
    + apply negb_true_iff in Hseg.
      destruct v; try discriminate. rename entries into es.
      rewrite redact_object. simpl. rewrite (property_redacted es k Hseg).
      destruct (property es k) as [y|]; [|discriminate].
      intros Hy.
      destruct (allowed allowlist k) eqn:Hal.
      * assert (Hl : forall q z, left (Key k :: q) z = z).
        { intros q z. unfold redactedAt, passesAllowed. simpl. rewrite Hal.
          reflexivity. }
        rewrite !Hl. exact Hy.
      * destruct p as [|seg' p].
        -- simpl in Hy. injection Hy as ->. reflexivity.
        -- rewrite (left_cons_cons (Key k) seg' p x Hal).
           assert (Hrec : left [Key k] y = redact y).
           { unfold redactedAt, passesAllowed. simpl. rewrite Hal. simpl.
             destruct y; try reflexivity.
             destruct (follow_scalar (JsString s) (seg' :: p) x eq_refl Hy)
               as [[=] _]. }
           rewrite Hrec. apply IH; [exact Hfree | exact Hy].
    + destruct v; try discriminate.
      rewrite redact_array. simpl. rewrite lookup_map.
      destruct (items !! i) as [y|]; [|discriminate].
      intros Hy. destruct p as [|seg' p].
      * simpl in Hy. injection Hy as ->. simpl.
        unfold redactedAt. simpl. destruct x; reflexivity.
      * rewrite (left_cons_cons (Index i) seg' p x eq_refl).
        apply IH; [exact Hfree | exact Hy].
Qed.

(** In the result a property named [__proto__] is found only below
    an allow-listed property, where nothing was touched. *)
Lemma redact_no_proto v p k x :
  isProto k = true ->
  follow (redact v) (p ++ [Key k])%list = Some x ->
  passesAllowed allowlist p = true.
Proof.
  intros Hk. revert v. induction p as [|seg p IH]; intros v.
  - destruct v; try (intros H; simpl in H; discriminate H).
    rewrite redact_object. cbn [app follow].
    rewrite (property_proto entries k Hk). discriminate.
  - destruct seg as [k0|i].
    + destruct v; try (intros H; simpl in H; discriminate H).
      rewrite redact_object. cbn [app follow].
      destruct (property (List.filter assignable (map redactEntry entries)) k0)
        as [y'|] eqn:Hp; [|discriminate].
      destruct (property_from entries k0 y' Hp) as (_ & y & _ & ->).
      destruct (allowed allowlist k0) eqn:Hal;
        [intros _; unfold passesAllowed; simpl; rewrite Hal; reflexivity|].
      intros Hy.
      assert (Hp' : passesAllowed allowlist p = true).
      { apply IH with (v := y).
        assert (Hrec : left [Key k0] y = redact y
                       \/ isString (left [Key k0] y) = true).
        { unfold redactedAt, passesAllowed. simpl. rewrite Hal. simpl.
          destruct y; try (left; reflexivity).
          destruct (isSecretKey k0 patterns); [right | left]; reflexivity. }
        destruct Hrec as [Hrec|Hstr]; [rewrite <- Hrec; exact Hy|].
        exfalso. destruct (left [Key k0] y); try discriminate Hstr.
        destruct p as [|[?|?] ?]; simpl in Hy; discriminate Hy. }
      unfold passesAllowed in *. simpl. rewrite Hp'. apply Bool.orb_true_r.
    + destruct v; try (intros H; simpl in H; discriminate H).
      rewrite redact_array. cbn [app follow]. rewrite lookup_map.
      destruct (items !! i) as [y|]; [|discriminate].
      intros Hy. unfold passesAllowed. simpl.
      apply (IH y). exact Hy.
Qed.

Lemma passesAllowed_app p q :
  passesAllowed allowlist (p ++ q)%list
  = (passesAllowed allowlist p || passesAllowed allowlist q)%bool.
Proof. unfold passesAllowed. apply existsb_app. Qed.

Lemma left_at_key p k x :
  passesAllowed allowlist (p ++ [Key k])%list = false ->
  left (p ++ [Key k])%list x
  = match x with
    | JsString s => if isSecretKey k patterns then JsString (marker s) else x
    | _ => redact x
    end.
Proof.
  intros Hp. unfold redactedAt. rewrite Hp, last_snoc. destruct x; reflexivity.
Qed.

End WithLists.

(** The marker determines the length it was made from. *)
Lemma marker_length s t :
  marker s = marker t -> String.length s = String.length t.
Proof.
  unfold marker. intros H.
  change ("[REDACTED:" +:+ ?x) with
    (String "["%char (String "R"%char (String "E"%char (String "D"%char
      (String "A"%char (String "C"%char (String "T"%char (String "E"%char
        (String "D"%char (String ":"%char x)))))))))) in H.
  injection H as H.
  apply StringFacts.append_inv_tail in H.
  apply (inj pretty) in H. exact H.
Qed.

End RedactFacts.







(** C1, run: with the bound 5, a first patch round whose verdict is
    [escalate] is the only one, and the [escalate] that stands is the
    verdict the oracle gave in that round. *)
Lemma patch_loop_is_bounded_and_stops_on_verdict_witness :
  let '(outcome, log, _) :=
    Orchestrator.patchPhase Sample.calmPage Sample.browser
      (Sample.oracleAnswering "escalate") (Sample.configWithRounds 5) "task"
      Sample.oneButton "run-1" "downloads" (Sample.verdictOf "patch") 0 in
  outcome = Orchestrator.Settled (Sample.verdictOf "escalate") 1
  /\ length log = 1%nat
  /\ exists state results w1 w2,
       Orchestrator.requestVerdict (Sample.oracleAnswering "escalate") "task"
         state results w1
       = (Ok (Sample.verdictOf "escalate"), w2).
Proof.
  pose proof (patch_loop_is_bounded_and_stops_on_verdict
                Sample.calmPage Sample.browser
                (Sample.oracleAnswering "escalate") (Sample.configWithRounds 5)
                "task" Sample.oneButton "run-1" "downloads"
                (Sample.verdictOf "patch") 0) as H.
  destruct (Orchestrator.patchPhase _ _ _ _ _ _ _ _ _ _) as [[outcome log] w']
    eqn:Hrun.
  destruct H as (_ & _ & _ & _ & _ & Hstop & _ & Hturns).
  vm_compute in Hrun. injection Hrun as Ho Hl Hw. subst log.
  destruct (Hstop 0%nat _ (Sample.verdictOf "escalate") eq_refl eq_refl)
    as [Hlen Hout].
  - discriminate.
  - split; [exact Hout|]. split; [reflexivity|].
    inversion Hturns as [| |n v w0 v' w1 log o w2 Hp Hlt Hbody Hrest].
    inversion Hbody
      as [| | |plan wa runlog trace wb state wc r wd Hplan Hexec Hstate Hverdict].
    exists state, (Executor.steps runlog), wc, w1. exact Hverdict.
Defined.

(* --------------------------------------------------------------------- *)
(** ** Placeholder substitution                                           *)
(* --------------------------------------------------------------------- *)

Module MacroFacts.
Import MacroStore StringFacts.

#[local] Arguments String.append !s1 s2 : simpl nomatch.

Lemma lbrace_not_word : isWordChar lbrace = false.
Proof. reflexivity. Qed.

Lemma rbrace_not_word : isWordChar rbrace = false.
Proof. reflexivity. Qed.

(** A run of word characters followed by something that is not one is
    exactly the word prefix. *)
Lemma wordPrefix_word name c rest :
  allWord name = true -> isWordChar c = false ->
  wordPrefix (name +:+ String c rest) = (name, String c rest).
Proof.
  intros Hw Hc. induction name as [|x name IH]; simpl.
  - rewrite Hc. reflexivity.
  - simpl in Hw. apply andb_prop in Hw. destruct Hw as [Hx Hw].
    rewrite Hx, (IH Hw). reflexivity.
Qed.

(** Text that follows, starting with an opening brace, does not change
    the word prefix. *)
Lemma wordPrefix_before_lbrace s t :
  wordPrefix (s +:+ String lbrace t)
  = (fst (wordPrefix s), snd (wordPrefix s) +:+ String lbrace t).
Proof.
  induction s as [|x s IH]; simpl.
  - reflexivity.
  - destruct (isWordChar x) eqn:Hx.
    + rewrite IH. destruct (wordPrefix s) as [w r]. reflexivity.
    + reflexivity.
Qed.

Lemma matchToken_token name post :
  isName name = true -> matchToken (token name +:+ post) = Some name.
Proof.
  unfold isName. intros H. apply andb_prop in H. destruct H as [Hne Hw].
  unfold token. simpl.
  rewrite append_assoc. simpl.
  rewrite (wordPrefix_word name rbrace post Hw rbrace_not_word).
  destruct name as [|n name]; [discriminate|]. reflexivity.
Qed.

(** No token begins in text that has none, whatever follows it from an
    opening brace on. *)
Lemma matchToken_before_lbrace c s t :
  matchToken (String c s) = None ->
  matchToken (String c s +:+ String lbrace t) = None.
Proof.
  simpl. destruct (Ascii.eqb c lbrace); [|reflexivity].
  rewrite wordPrefix_before_lbrace.
  destruct (wordPrefix s) as [w r]. simpl.
  destruct w as [|n w]; [reflexivity|].
  destruct r as [|d r]; simpl.
  - reflexivity.
  - destruct (Ascii.eqb d rbrace); [discriminate | reflexivity].
Qed.

Lemma replaceFrom_skip params x s :
  replaceFrom params (String.length x) (x +:+ s) = replaceFrom params 0 s.
Proof.
  induction x as [|c x IH]; simpl.
  - destruct s; reflexivity.
  - exact IH.
Qed.

(** At a token the replacement is emitted and the scan resumes right
    after the closing brace. *)
Lemma replaceTokens_token params name post :
  isName name = true ->
  replaceTokens params (token name +:+ post)
  = fill params name +:+ replaceTokens params post.
Proof.
  intros Hn. unfold replaceTokens.
  pose proof (matchToken_token name post Hn) as Hm.
  unfold token in *. simpl in *. rewrite Hm. f_equal.
  rewrite append_assoc.
  change (S (String.length name))
    with (String.length (String lbrace EmptyString) + String.length name)%nat.
  replace (String.length (String lbrace EmptyString) + String.length name)%nat
    with (String.length (name +:+ Js.chr rbrace))
    by (rewrite length_append; simpl; lia).
  rewrite <- (replaceFrom_skip params (name +:+ Js.chr rbrace) post).
  rewrite append_assoc. reflexivity.
Qed.

Lemma tokenFree_cons c s :
  tokenFree (String c s)
  = match matchToken (String c s) with
    | Some _ => false
    | None => tokenFree s
    end.
Proof. reflexivity. Qed.

Lemma replaceFrom_cons params c s :
  replaceFrom params 0 (String c s)
  = match matchToken (String c s) with
    | Some name =>
        fill params name +:+ replaceFrom params (S (String.length name)) s
    | None => String c (replaceFrom params 0 s)
    end.
Proof. reflexivity. Qed.

(** Text without tokens in front of an opening brace is copied. *)
Lemma replaceTokens_prefix params pre t :
  tokenFree pre = true ->
  replaceTokens params (pre +:+ String lbrace t)
  = pre +:+ replaceTokens params (String lbrace t).
Proof.
  unfold replaceTokens. induction pre as [|c pre IH]; intros Hfree.
  - reflexivity.
  - rewrite tokenFree_cons in Hfree.
    destruct (matchToken (String c pre)) eqn:Hm; [discriminate|].
    change (String c pre +:+ String lbrace t)
      with (String c (pre +:+ String lbrace t)).
    rewrite replaceFrom_cons.
    change (String c (pre +:+ String lbrace t))
      with (String c pre +:+ String lbrace t).
    rewrite (matchToken_before_lbrace c pre t Hm).
    change (String c pre +:+ replaceFrom params 0 (String lbrace t))
      with (String c (pre +:+ replaceFrom params 0 (String lbrace t))).
    f_equal. apply IH. exact Hfree.
Qed.

(** Text without tokens is left as it is. *)
Lemma replaceTokens_tokenFree params s :
  tokenFree s = true -> replaceTokens params s = s.
Proof.
  unfold replaceTokens. induction s as [|c s IH]; intros Hfree.
  - reflexivity.
  - rewrite tokenFree_cons in Hfree. rewrite replaceFrom_cons.
    destruct (matchToken (String c s)) eqn:Hm; [discriminate|].
    f_equal. apply IH. exact Hfree.
Qed.

Lemma wordPrefix_split s :
  s = fst (wordPrefix s) +:+ snd (wordPrefix s)
  /\ allWord (fst (wordPrefix s)) = true.
Proof.
  induction s as [|c s [IHeq IHw]]; [split; reflexivity|].
  simpl. destruct (isWordChar c) eqn:Hc.
  - destruct (wordPrefix s) as [w r]. simpl in *. rewrite Hc, IHw.
    split; [f_equal; exact IHeq | reflexivity].
  - split; reflexivity.
Qed.

(** Where the pattern matches, the text starts with the token of the
    captured name, and the name is a run of word characters. *)
Lemma matchToken_some s name :
  matchToken s = Some name ->
  isName name = true /\ exists post, s = token name +:+ post.
Proof.
  destruct s as [|c r]; [discriminate|]. simpl.
  destruct (Ascii.eqb_spec c lbrace) as [->|_]; [|discriminate].
  destruct (wordPrefix_split r) as [Heq Hw].
  destruct (wordPrefix r) as [[|n w] [|d rest]]; try discriminate.
  destruct (Ascii.eqb_spec d rbrace) as [->|_]; [|discriminate].
  intros [= <-]. simpl in Heq, Hw. split.
  - unfold isName. simpl. exact Hw.
  - exists rest. rewrite Heq. unfold token. simpl.
    rewrite append_assoc. reflexivity.
Qed.

Lemma matchToken_extend x y name :
  matchToken x = Some name -> matchToken (x +:+ y) = Some name.
Proof.
  intros H. destruct (matchToken_some x name H) as (Hname & post & ->).
  rewrite append_assoc. apply matchToken_token. exact Hname.
Qed.

(** Text that is not free of tokens has a first one. *)
Lemma first_token s :
  tokenFree s = false ->
  exists pre name post,
    s = pre +:+ token name +:+ post
    /\ tokenFree pre = true /\ isName name = true.
Proof.
  induction s as [|c s IH]; [discriminate|].
  rewrite tokenFree_cons.
  destruct (matchToken (String c s)) as [name|] eqn:Hm.
  - intros _. destruct (matchToken_some _ _ Hm) as (Hname & post & Heq).
    exists EmptyString, name, post. split; [exact Heq|]. split; [reflexivity|].
    exact Hname.
  - intros Hfree. destruct (IH Hfree) as (pre & name & post & Heq & Hpre & Hname).
    exists (String c pre), name, post. split; [|split].
    + rewrite Heq. reflexivity.
    + rewrite tokenFree_cons.
      destruct (matchToken (String c pre)) as [nm|] eqn:Hm'; [|exact Hpre].
      pose proof (matchToken_extend _ (token name +:+ post) _ Hm') as Hext.
      change (String c pre +:+ token name +:+ post)
        with (String c (pre +:+ token name +:+ post)) in Hext.
      rewrite <- Heq, Hm in Hext. discriminate.
    + exact Hname.
Qed.

End MacroFacts.

(* --------------------------------------------------------------------- *)
(** ** The JSON built-ins round-trip                                      *)
(* --------------------------------------------------------------------- *)

Module JsonFacts.
Import JSON StringFacts.

(** An escaped code unit is read back as the unit. *)
Lemma parseString_escapeUnit c t :
  parseString (escapeUnit c +:+ t)
  = match parseString t with
    | Some (str, rest) => Some (String c str, rest)
    | None => None
    end.
Proof.
  destruct c as [[] [] [] [] [] [] [] []]; reflexivity.
Qed.

Lemma parseString_escape s rest :
  parseString (escape s +:+ String Js.dquote rest) = Some (s, rest).
Proof.
  induction s as [|c s IH].
  - reflexivity.
  - change (escape (String c s)) with (escapeUnit c +:+ escape s).
    rewrite StringFacts.append_assoc, parseString_escapeUnit, IH. reflexivity.
Qed.

Lemma parseString_quote s rest :
  exists t, quote s +:+ rest = String Js.dquote t
            /\ parseString t = Some (s, rest).
Proof.
  exists (escape s +:+ String Js.dquote rest). split.
  - unfold quote. rewrite append_cons, StringFacts.append_assoc. reflexivity.
  - apply parseString_escape.
Qed.

(** *** Numbers *)

Lemma digit_char (d : N) :
  (d < 10)%N ->
  isDigit (pretty_N_char d) = true
  /\ N.of_nat (nat_of_ascii (pretty_N_char d) - 48) = d
  /\ (nat_of_ascii (pretty_N_char d) = 48%nat -> d = 0%N).
Proof.
  intros H.
  assert (d = 0 \/ d = 1 \/ d = 2 \/ d = 3 \/ d = 4 \/ d = 5 \/ d = 6
          \/ d = 7 \/ d = 8 \/ d = 9)%N as Hd by lia.
  repeat destruct Hd as [->|Hd]; try subst d;
    (split; [reflexivity|split; [reflexivity|]]);
    intros H48; first [reflexivity | exfalso; vm_compute in H48; discriminate H48].
Qed.

Lemma pretty_N_go_append x s rest :
  pretty_N_go x s +:+ rest = pretty_N_go x (s +:+ rest).
Proof.
  revert s. induction (N.lt_wf_0 x) as [x _ IH]; intros s.
  assert (x = 0 \/ 0 < x)%N as [->|Hx] by lia.
  - rewrite !pretty_N_go_0. reflexivity.
  - rewrite (pretty_N_go_step x s Hx), (pretty_N_go_step x (s +:+ rest) Hx).
    rewrite IH by (apply N.div_lt; lia). reflexivity.
Qed.

(** Reading the digits [pretty] writes for [x] on top of [acc]. *)
Lemma parseDigits_pretty x acc s :
  exists k : N,
    parseDigits acc (pretty_N_go x s) = parseDigits (acc * 10 ^ k + x) s.
Proof.
  revert acc s. induction (N.lt_wf_0 x) as [x _ IH]; intros acc s.
  assert (x = 0 \/ 0 < x)%N as [->|Hx] by lia.
  - exists 0%N. rewrite pretty_N_go_0. f_equal. simpl. lia.
  - rewrite pretty_N_go_step by exact Hx.
    destruct (IH (x `div` 10)%N ltac:(apply N.div_lt; lia) acc
                (String (pretty_N_char (x `mod` 10)) s)) as [k Hk].
    exists (k + 1)%N. rewrite Hk.
    destruct (digit_char (x `mod` 10)%N) as (Hd & Hv & _).
    { apply N.mod_lt. lia. }
    cbn [parseDigits]. rewrite Hd, Hv. f_equal.
    rewrite N.pow_add_r, N.pow_1_r.
    pose proof (N.div_mod x 10 ltac:(lia)) as Hdm. lia.
Qed.

(** What [pretty] writes for a positive number starts with a digit
    other than zero. *)
Lemma pretty_N_go_head x s :
  (0 < x)%N ->
  exists c t, pretty_N_go x s = String c t
              /\ isDigit c = true /\ nat_of_ascii c <> 48%nat.
Proof.
  revert s. induction (N.lt_wf_0 x) as [x _ IH]; intros s Hx.
  rewrite pretty_N_go_step by exact Hx.
  destruct (N.eq_0_gt_0_cases (x `div` 10)%N) as [H0|Hpos].
  - rewrite H0, pretty_N_go_0.
    destruct (digit_char (x `mod` 10)%N) as (Hd & _ & Hz).
    { apply N.mod_lt. lia. }
    eexists _, _. split; [reflexivity|]. split; [exact Hd|].
    intros H48. specialize (Hz H48).
    pose proof (N.div_mod x 10 ltac:(lia)) as Hdm. lia.
  - apply IH; [apply N.div_lt; lia | exact Hpos].
Qed.

Lemma parseDigits_stop acc rest :
  delimited rest = true -> parseDigits acc rest = (acc, rest).
Proof.
  destruct rest as [|c r]; [reflexivity|]. simpl.
  destruct (isDigit c); [discriminate | reflexivity].
Qed.

Lemma parseNatural_pretty (n : N) rest :
  delimited rest = true ->
  parseNatural (pretty n +:+ rest) = Some (n, rest).
Proof.
  intros Hrest. unfold pretty, pretty_N.
  destruct (decide (n = 0%N)) as [->|Hn].
  - change ("0" +:+ rest) with (String "0"%char rest).
    unfold parseNatural.
    change (isDigit "0") with true. cbn [parseDigits].
    change (isDigit "0") with true. cbn iota.
    rewrite (parseDigits_stop _ rest Hrest).
    destruct rest as [|d r]; [reflexivity|].
    simpl in Hrest. simpl.
    destruct (isDigit d); [discriminate|]. simpl in *.
    destruct (Nat.eqb (nat_of_ascii d) 46); [discriminate|].
    destruct (Nat.eqb (nat_of_ascii d) 101); [discriminate|].
    destruct (Nat.eqb (nat_of_ascii d) 69); [discriminate|]. reflexivity.
  - rewrite pretty_N_go_append. rewrite append_nil.
    destruct (pretty_N_go_head n rest ltac:(lia)) as (c & t & Heq & Hd & Hnz).
    destruct (parseDigits_pretty n 0 rest) as [k Hk].
    rewrite Heq in *. unfold parseNatural. rewrite Hd, Hk.
    replace (0 * 10 ^ k + n)%N with n by lia.
    rewrite (parseDigits_stop _ rest Hrest).
    apply Nat.eqb_neq in Hnz. rewrite Hnz. simpl.
    destruct rest as [|d r]; [reflexivity|].
    simpl in Hrest. 
    destruct (isDigit d); [discriminate|]. simpl in *.
    destruct (Nat.eqb (nat_of_ascii d) 46); [discriminate|].
    destruct (Nat.eqb (nat_of_ascii d) 101); [discriminate|].
    destruct (Nat.eqb (nat_of_ascii d) 69); [discriminate|]. reflexivity.
Qed.

Lemma parseNumber_pretty (z : Z) rest :
  delimited rest = true ->
  parseNumber (pretty z +:+ rest) = Some (z, rest).
Proof.
  intros Hrest. destruct z as [|p|p].
  - change (pretty 0%Z +:+ rest) with (String "0"%char rest).
    unfold parseNumber. change (Nat.eqb (nat_of_ascii "0") 45) with false.
    cbn iota.
    change (String "0"%char rest) with (pretty 0%N +:+ rest).
    rewrite (parseNatural_pretty 0 rest Hrest). reflexivity.
  - change (pretty (Z.pos p)) with (pretty (N.pos p)).
    pose proof (parseNatural_pretty (N.pos p) rest Hrest) as Hn.
    unfold pretty, pretty_N in *.
    destruct (decide (N.pos p = 0%N)) as [Heq|_]; [discriminate|].
    rewrite pretty_N_go_append, append_nil in *.
    destruct (pretty_N_go_head (N.pos p) rest ltac:(lia))
      as (c & t & Heq & Hd & Hnz).
    rewrite Heq in *. unfold parseNumber.
    assert (H45 : Nat.eqb (nat_of_ascii c) 45 = false).
    { unfold isDigit, Js.inRange in Hd. apply Nat.eqb_neq.
      apply andb_prop in Hd. destruct Hd as [Hlo _].
      apply Nat.leb_le in Hlo. lia. }
    rewrite H45, Hn. reflexivity.
  - change (pretty (Z.neg p)) with ("-" +:+ pretty (N.pos p)).
    rewrite StringFacts.append_assoc.
    change ("-" +:+ pretty (N.pos p) +:+ rest)
      with (String "-"%char (pretty (N.pos p) +:+ rest)).
    unfold parseNumber. change (Nat.eqb (nat_of_ascii "-") 45) with true.
    cbn iota. rewrite (parseNatural_pretty (N.pos p) rest Hrest). reflexivity.
Qed.

(** *** Values *)

Lemma numeric_opens c : numeric c = true -> opens c = true.
Proof.
  destruct c as [[] [] [] [] [] [] [] []]; intros H;
    first [reflexivity | discriminate H].
Qed.

Lemma numeric_dispatch c fuel r :
  numeric c = true ->
  parseValue (S fuel) (String c r)
  = match parseNumber (String c r) with
    | Some (z, rest) => Some (JsNumber z, rest)
    | None => None
    end.
Proof.
  destruct c as [[] [] [] [] [] [] [] []]; intros H;
    first [reflexivity | discriminate H].
Qed.

Lemma pretty_Z_head (z : Z) :
  exists c t, pretty z = String c t /\ numeric c = true.
Proof.
  destruct z as [|p|p].
  - exists "0"%char, EmptyString. split; reflexivity.
  - change (pretty (Z.pos p)) with (pretty (N.pos p)).
    unfold pretty, pretty_N.
    destruct (decide (N.pos p = 0%N)) as [Heq|_]; [discriminate|].
    destruct (pretty_N_go_head (N.pos p) EmptyString ltac:(lia))
      as (c & t & Heq & Hd & _).
    exists c, t. split; [exact Heq|]. unfold numeric. rewrite Hd. reflexivity.
  - exists "-"%char, (pretty (N.pos p)). split; reflexivity.
Qed.

Lemma serialize_head v :
  exists c t, serialize v = String c t /\ opens c = true.
Proof.
  destruct v as [| |[]|n|s|items|entries];
    try (eexists _, _; split; reflexivity).
  simpl. destruct (pretty_Z_head n) as (c & t & Heq & Hn).
  exists c, t. split; [exact Heq | apply numeric_opens; exact Hn].
Qed.

(** Induction on values with the hypothesis for every element of an
    array and every property value of an object. *)
Lemma JsValue_nested_ind (P : JsValue -> Prop) :
  P JsUndefined -> P JsNull -> (forall b, P (JsBool b)) ->
  (forall n, P (JsNumber n)) -> (forall s, P (JsString s)) ->
  (forall items, Forall P items -> P (JsArray items)) ->
  (forall entries, Forall (fun e => P (snd e)) entries -> P (JsObject entries)) ->
  forall v, P v.
Proof.
  intros Hu Hn Hb Hz Hs Ha Ho. fix IH 1.
  intros [| |b|n|s|items|entries].
  - exact Hu.
  - exact Hn.
  - apply Hb.
  - apply Hz.
  - apply Hs.
  - apply Ha. revert items. fix IHl 1. intros [|x xs].
    + constructor.
    + constructor; [apply IH | apply IHl].
  - apply Ho. revert entries. fix IHl 1. intros [|[k x] xs].
    + constructor.
    + constructor; [apply IH | apply IHl].
Qed.

Lemma needs_cons x items :
  needs (x :: items) = S (Nat.max (need x) (needs items)).
Proof. reflexivity. Qed.

Lemma needsOf_cons k x entries :
  needsOf ((k, x) :: entries) = S (Nat.max (need x) (needsOf entries)).
Proof. reflexivity. Qed.

Lemma serialize_object entries :
  serialize (JsObject entries) = "{" +:+ Js.join "," (members entries) +:+ "}".
Proof. reflexivity. Qed.

Lemma members_cons k x entries :
  wellFormed x = true ->
  members ((k, x) :: entries)
  = (quote k +:+ ":" +:+ serialize x) :: members entries.
Proof. destruct x; intros H; first [reflexivity | discriminate H]. Qed.

Lemma skipWs_opens c t : opens c = true -> skipWs (String c t) = String c t.
Proof.
  unfold opens. intros H. simpl.
  destruct (isWs c); [discriminate | reflexivity].
Qed.

Lemma parseElements_cons fuel s acc :
  parseElements (S fuel) s acc
  = match parseValue fuel s with
    | Some (v, rest) =>
        match skipWs rest with
        | String d r' =>
            if Nat.eqb (nat_of_ascii d) 44
            then parseElements fuel r' (acc ++ [v])%list
            else if Nat.eqb (nat_of_ascii d) 93
                 then Some (JsArray (acc ++ [v])%list, r')
                 else None
        | EmptyString => None
        end
    | None => None
    end.
Proof. reflexivity. Qed.

Lemma parseElements_items items :
  Forall readsBack items -> items <> [] ->
  forall fuel acc rest,
    (needs items <= fuel)%nat ->
    parseElements fuel (Js.join "," (map serialize items) +:+ "]" +:+ rest) acc
    = Some (JsArray (acc ++ items)%list, rest).
Proof.
  induction 1 as [|x items Hx Hitems IH]; intros Hne fuel acc rest Hfuel;
    [contradiction|].
  rewrite needs_cons in Hfuel.
  destruct fuel as [|fuel]; [lia|].
  rewrite parseElements_cons.
  destruct items as [|y items].
  - change (Js.join "," (map serialize [x])) with (serialize x).
    rewrite (Hx fuel ("]" +:+ rest) eq_refl ltac:(lia)).
    reflexivity.
  - change (Js.join "," (map serialize (x :: y :: items)))
      with (serialize x +:+ "," +:+ Js.join "," (map serialize (y :: items))).
    rewrite !StringFacts.append_assoc.
    rewrite (Hx fuel
               ("," +:+ Js.join "," (map serialize (y :: items)) +:+ "]" +:+ rest)
               eq_refl ltac:(lia)).
    change (skipWs ("," +:+ ?t)) with (String ","%char t).
    cbn iota. change (Nat.eqb (nat_of_ascii ",") 44) with true. cbn iota.
    rewrite (IH ltac:(discriminate) fuel (acc ++ [x])%list rest ltac:(lia)).
    rewrite <- app_assoc. reflexivity.
Qed.

Lemma distinct_NoDup names : distinct names = true -> List.NoDup names.
Proof.
  induction names as [|k names IH]; simpl; intros H; [constructor|].
  apply andb_prop in H. destruct H as [Hk Hrest].
  constructor; [|apply IH; exact Hrest].
  intros Hin. apply negb_true_iff in Hk.
  assert (Hex : existsb (String.eqb k) names = true).
  { apply existsb_exists. exists k. split; [exact Hin | apply String.eqb_refl]. }
  congruence.
Qed.

Lemma has_fresh {V : Type} (m : JsMap.t V) k :
  ~ In k (map fst m) -> JsMap.has m k = false.
Proof.
  unfold JsMap.has. induction m as [|[k' v'] m IH]; simpl; intros Hk.
  - reflexivity.
  - destruct (String.eqb_spec k' k) as [Heq|Hne].
    + exfalso. apply Hk. left. exact Heq.
    + apply IH. intros Hin. apply Hk. right. exact Hin.
Qed.

Lemma ordered_app_l names more :
  ordered (names ++ more)%list = true -> ordered names = true.
Proof.
  induction names as [|k names IH]; [reflexivity|].
  cbn [app ordered]. intros H. apply andb_prop in H. destruct H as [Hk Hrest].
  apply andb_true_intro. split; [|apply IH; exact Hrest].
  destruct (arrayIndex k); rewrite forallb_app in Hk;
    apply andb_prop in Hk; destruct Hk as [Hk _]; exact Hk.
Qed.

(** Before a last name that is an array index there are only smaller
    array indices. *)
Lemma ordered_before_index names k n :
  ordered (names ++ [k])%list = true -> arrayIndex k = Some n ->
  Forall (fun k' => exists m, arrayIndex k' = Some m /\ (m < n)%N) names.
Proof.
  intros H Hk. induction names as [|k' names IH]; [constructor|].
  cbn [app ordered] in H. apply andb_prop in H. destruct H as [Hk' Hrest].
  constructor; [|apply IH; exact Hrest].
  destruct (arrayIndex k') as [m|]; rewrite forallb_app in Hk';
    apply andb_prop in Hk'; destruct Hk' as [_ Hlast];
    cbn [forallb] in Hlast; rewrite Hk in Hlast;
    rewrite Bool.andb_true_r in Hlast; [|discriminate].
  exists m. split; [reflexivity|]. apply N.ltb_lt. exact Hlast.
Qed.

Lemma place_last acc n k v :
  Forall (fun k' => exists m, arrayIndex k' = Some m /\ (m < n)%N)
    (map fst acc) ->
  place acc n k v = (acc ++ [(k, v)])%list.
Proof.
  induction acc as [|[k' v'] acc IH]; cbn [map fst place app]; intros H;
    [reflexivity|].
  inversion H as [|? ? (m & Hm & Hlt) Hrest]; subst.
  rewrite Hm. apply N.ltb_lt in Hlt. rewrite Hlt. f_equal. apply IH. exact Hrest.
Qed.

(** Defining a property of a new name that comes last in the order of
    property names adds it at the end. *)
Lemma define_fresh acc k v :
  ~ In k (map fst acc) ->
  ordered (map fst acc ++ [k])%list = true ->
  define acc k v = (acc ++ [(k, v)])%list.
Proof.
  intros Hk Hord. unfold define. rewrite (has_fresh acc k Hk).
  destruct (arrayIndex k) as [n|] eqn:Hn; [|reflexivity].
  apply place_last. exact (ordered_before_index _ k n Hord Hn).
Qed.

Lemma parseMembers_quote fuel r acc :
  parseMembers (S fuel) (String Js.dquote r) acc
  = match parseString r with
    | Some (k, r1) =>
        match skipWs r1 with
        | String colon r2 =>
            if Nat.eqb (nat_of_ascii colon) 58 then
              match parseValue fuel r2 with
              | Some (v, r3) =>
                  match skipWs r3 with
                  | String d r4 =>
                      if Nat.eqb (nat_of_ascii d) 44
                      then parseMembers fuel r4 (define acc k v)
                      else if Nat.eqb (nat_of_ascii d) 125
                           then Some (JsObject (define acc k v), r4)
                           else None
                  | EmptyString => None
                  end
              | None => None
              end
            else None
        | EmptyString => None
        end
    | None => None
    end.
Proof. reflexivity. Qed.

Lemma parseMembers_member fuel k t acc :
  parseMembers (S fuel) (quote k +:+ ":" +:+ t) acc
  = match parseValue fuel t with
    | Some (v, r3) =>
        match skipWs r3 with
        | String d r4 =>
            if Nat.eqb (nat_of_ascii d) 44
            then parseMembers fuel r4 (define acc k v)
            else if Nat.eqb (nat_of_ascii d) 125
                 then Some (JsObject (define acc k v), r4)
                 else None
        | EmptyString => None
        end
    | None => None
    end.
Proof.
  destruct (parseString_quote k (":" +:+ t)) as (r & Heq & Hparse).
  rewrite Heq, parseMembers_quote, Hparse. reflexivity.
Qed.

Lemma parseMembers_entries entries :
  Forall (fun e => readsBack (snd e)) entries ->
  forallb (fun entry : string * JsValue => let (_, x) := entry in wellFormed x)
    entries = true ->
  entries <> [] ->
  forall fuel acc rest,
    (needsOf entries <= fuel)%nat ->
    List.NoDup (map fst acc ++ map fst entries) ->
    ordered (map fst acc ++ map fst entries)%list = true ->
    parseMembers fuel (Js.join "," (members entries) +:+ "}" +:+ rest) acc
    = Some (JsObject (acc ++ entries)%list, rest).
Proof.
  induction 1 as [|[k x] entries Hx Hentries IH];
    intros Hwf Hne fuel acc rest Hfuel Hnd Hord; [contradiction|].
  simpl in Hwf. apply andb_prop in Hwf. destruct Hwf as [Hwx Hwf].
  rewrite needsOf_cons in Hfuel. destruct fuel as [|fuel]; [lia|].
  rewrite (members_cons k x entries Hwx).
  assert (Hfresh : ~ In k (map fst acc)).
  { simpl in Hnd. apply List.NoDup_remove_2 in Hnd. intros Hin. apply Hnd.
    apply in_or_app. left. exact Hin. }
  assert (Hlast : ordered (map fst acc ++ [k])%list = true).
  { apply (ordered_app_l _ (map fst entries)).
    rewrite <- app_assoc. exact Hord. }
  simpl in Hx.
  destruct entries as [|[k' y] entries].
  - change (members []) with (@nil string).
    change (Js.join "," [quote k +:+ ":" +:+ serialize x])
      with (quote k +:+ ":" +:+ serialize x).
    rewrite !StringFacts.append_assoc.
    rewrite parseMembers_member.
    rewrite (Hx fuel ("}" +:+ rest) eq_refl ltac:(lia)).
    change (skipWs ("}" +:+ rest)) with (String "}"%char rest).
    cbn iota. change (Nat.eqb (nat_of_ascii "}") 44) with false.
    change (Nat.eqb (nat_of_ascii "}") 125) with true. cbn iota.
    rewrite (define_fresh acc k x Hfresh Hlast). reflexivity.
  - simpl in Hwf. apply andb_prop in Hwf. destruct Hwf as [Hwy Hwf'].
    assert (Hwf2 : forallb (fun entry : string * JsValue =>
                              let (_, x) := entry in wellFormed x)
                     ((k', y) :: entries) = true).
    { simpl. rewrite Hwy, Hwf'. reflexivity. }
    rewrite (members_cons k' y entries Hwy).
    change (Js.join "," ((quote k +:+ ":" +:+ serialize x)
                         :: (quote k' +:+ ":" +:+ serialize y) :: members entries))
      with ((quote k +:+ ":" +:+ serialize x) +:+ "," +:+
            Js.join "," ((quote k' +:+ ":" +:+ serialize y) :: members entries)).
    rewrite !StringFacts.append_assoc.
    rewrite parseMembers_member.
    rewrite (Hx fuel
               ("," +:+ Js.join ","
                  ((quote k' +:+ ":" +:+ serialize y) :: members entries)
                +:+ "}" +:+ rest)
               eq_refl ltac:(lia)).
    change (skipWs ("," +:+ ?t)) with (String ","%char t).
    cbn iota. change (Nat.eqb (nat_of_ascii ",") 44) with true. cbn iota.
    rewrite (define_fresh acc k x Hfresh Hlast).
    rewrite <- (members_cons k' y entries Hwy).
    rewrite (IH Hwf2 ltac:(discriminate) fuel (acc ++ [(k, x)])%list rest
               ltac:(lia)).
    + rewrite <- app_assoc. reflexivity.
    + rewrite map_app, <- app_assoc. exact Hnd.
    + rewrite map_app, <- app_assoc. exact Hord.
Qed.

Lemma parseValue_array fuel r :
  parseValue (S fuel) (String "["%char r)
  = match skipWs r with
    | String d r' =>
        if Nat.eqb (nat_of_ascii d) 93 then Some (JsArray [], r')
        else parseElements fuel r []
    | EmptyString => None
    end.
Proof. reflexivity. Qed.

Lemma parseValue_object fuel r :
  parseValue (S fuel) (String "{"%char r)
  = match skipWs r with
    | String d r' =>
        if Nat.eqb (nat_of_ascii d) 125 then Some (JsObject [], r')
        else parseMembers fuel r []
    | EmptyString => None
    end.
Proof. reflexivity. Qed.

Lemma parseValue_string fuel r :
  parseValue (S fuel) (String Js.dquote r)
  = match parseString r with
    | Some (str, rest) => Some (JsString str, rest)
    | None => None
    end.
Proof. reflexivity. Qed.

Lemma opens_not_closing c :
  opens c = true ->
  Nat.eqb (nat_of_ascii c) 93 = false /\ Nat.eqb (nat_of_ascii c) 125 = false.
Proof.
  unfold opens. intros H.
  apply andb_prop in H. destruct H as [H H125].
  apply andb_prop in H. destruct H as [_ H93].
  apply negb_true_iff in H93, H125. split; assumption.
Qed.

Lemma Forall_readsBack items :
  Forall (fun v => wellFormed v = true -> readsBack v) items ->
  forallb wellFormed items = true -> Forall readsBack items.
Proof.
  induction 1 as [|y ys Hy Hys IHys]; intros Hwf; [constructor|].
  simpl in Hwf. apply andb_prop in Hwf. destruct Hwf as [Hwy Hwf].
  constructor; [apply Hy; exact Hwy | apply IHys; exact Hwf].
Qed.

Lemma Forall_readsBack_values (entries : list (string * JsValue)) :
  Forall (fun e => wellFormed (snd e) = true -> readsBack (snd e)) entries ->
  forallb (fun entry : string * JsValue => let (_, x) := entry in wellFormed x)
    entries = true ->
  Forall (fun e => readsBack (snd e)) entries.
Proof.
  induction 1 as [|[k y] ys Hy Hys IHys]; intros Hwf; [constructor|].
  simpl in Hwf. apply andb_prop in Hwf. destruct Hwf as [Hwy Hwf].
  constructor; [apply Hy; exact Hwy | apply IHys; exact Hwf].
Qed.

(** Every well-formed value is read back from its serialized form. *)
Lemma wellFormed_readsBack v : wellFormed v = true -> readsBack v.
Proof.
  induction v as [| |b|n|s|items IH|entries IH] using JsValue_nested_ind;
    intros Hwf fuel rest Hrest Hfuel.
  - discriminate.
  - destruct fuel as [|fuel]; [simpl in Hfuel; lia | reflexivity].
  - destruct fuel as [|fuel]; [simpl in Hfuel; lia|]. destruct b; reflexivity.
  - destruct fuel as [|fuel]; [simpl in Hfuel; lia|].
    change (serialize (JsNumber n)) with (pretty n).
    destruct (pretty_Z_head n) as (c & t & Heq & Hc).
    pose proof (parseNumber_pretty n rest Hrest) as Hn.
    rewrite Heq in *. rewrite append_cons in *.
    rewrite (numeric_dispatch c fuel _ Hc), Hn. reflexivity.
  - destruct fuel as [|fuel]; [simpl in Hfuel; lia|].
    change (serialize (JsString s)) with (quote s).
    destruct (parseString_quote s rest) as (t & Heq & Hparse).
    rewrite Heq, parseValue_string, Hparse. reflexivity.
  - destruct fuel as [|fuel]; [simpl in Hfuel; lia|].
    change (need (JsArray items)) with (S (needs items)) in Hfuel.
    change (serialize (JsArray items))
      with ("[" +:+ Js.join "," (map serialize items) +:+ "]").
    rewrite !StringFacts.append_assoc.
    change ("[" +:+ ?t) with (String "["%char t).
    rewrite parseValue_array.
    destruct items as [|x items].
    + reflexivity.
    + pose proof (Forall_readsBack _ IH Hwf) as Hall.
      pose proof (parseElements_items (x :: items) Hall ltac:(discriminate)
                    fuel [] rest ltac:(lia)) as Hparse.
      destruct (serialize_head x) as (c & t & Heq & Hc).
      destruct (opens_not_closing c Hc) as [H93 _].
      assert (Hhead : exists t',
                 Js.join "," (map serialize (x :: items)) +:+ "]" +:+ rest
                 = String c t').
      { destruct items as [|y items].
        - change (Js.join "," (map serialize [x])) with (serialize x).
          rewrite Heq. eexists. reflexivity.
        - change (Js.join "," (map serialize (x :: y :: items)))
            with (serialize x +:+ "," +:+ Js.join "," (map serialize (y :: items))).
          rewrite Heq. eexists. reflexivity. }
      destruct Hhead as [t' Ht']. rewrite Ht' in *.
      rewrite (skipWs_opens c t' Hc), H93. exact Hparse.
  - destruct fuel as [|fuel]; [simpl in Hfuel; lia|].
    change (need (JsObject entries)) with (S (needsOf entries)) in Hfuel.
    rewrite serialize_object, !StringFacts.append_assoc.
    change ("{" +:+ ?t) with (String "{"%char t).
    rewrite parseValue_object.
    change (wellFormed (JsObject entries))
      with (distinct (map fst entries) && ordered (map fst entries)
            && forallb (fun entry : string * JsValue =>
                          let (_, x) := entry in wellFormed x) entries)%bool
      in Hwf.
    apply andb_prop in Hwf. destruct Hwf as [Hkeys Hvals].
    apply andb_prop in Hkeys. destruct Hkeys as [Hkeys Hord].
    pose proof (Forall_readsBack_values _ IH Hvals) as Hall.
    apply distinct_NoDup in Hkeys.
    destruct entries as [|[k x] entries].
    + reflexivity.
    + pose proof (parseMembers_entries ((k, x) :: entries) Hall Hvals
                    ltac:(discriminate) fuel [] rest ltac:(lia) Hkeys Hord)
        as Hparse.
      simpl in Hvals. apply andb_prop in Hvals. destruct Hvals as [Hwx _].
      rewrite (members_cons k x entries Hwx) in *.
      assert (Hhead : exists t',
                 Js.join "," ((quote k +:+ ":" +:+ serialize x) :: members entries)
                   +:+ "}" +:+ rest
                 = String Js.dquote t').
      { destruct (members entries) as [|m ms]; eexists; reflexivity. }
      destruct Hhead as [t' Ht']. rewrite Ht' in *.
      exact Hparse.
Qed.

(** *** Fuel *)

Lemma needs_le_length items :
  Forall (fun x => (need x <= String.length (serialize x))%nat) items ->
  (needs items <= String.length (Js.join "," (map serialize items)) + 1)%nat.
Proof.
  induction 1 as [|x items Hx Hitems IH]; [exact (Nat.le_0_l _)|].
  rewrite needs_cons. destruct items as [|y items].
  - change (Js.join "," (map serialize [x])) with (serialize x).
    change (needs []) with O. lia.
  - change (Js.join "," (map serialize (x :: y :: items)))
      with (serialize x +:+ "," +:+ Js.join "," (map serialize (y :: items))).
    rewrite !StringFacts.length_append.
    change (String.length ",") with 1%nat. lia.
Qed.

Lemma needsOf_le_length (entries : list (string * JsValue)) :
  Forall (fun e => (need (snd e) <= String.length (serialize (snd e)))%nat)
    entries ->
  forallb (fun entry : string * JsValue => let (_, x) := entry in wellFormed x)
    entries = true ->
  (needsOf entries <= String.length (Js.join "," (members entries)) + 1)%nat.
Proof.
  induction 1 as [|[k x] entries Hx Hentries IH]; intros Hwf;
    [exact (Nat.le_0_l _)|].
  simpl in Hwf. apply andb_prop in Hwf. destruct Hwf as [Hwx Hwf].
  rewrite needsOf_cons, (members_cons k x entries Hwx).
  specialize (IH Hwf). simpl in Hx.
  destruct entries as [|[k' y] entries].
  - change (members []) with (@nil string).
    change (Js.join "," [quote k +:+ ":" +:+ serialize x])
      with (quote k +:+ ":" +:+ serialize x).
    rewrite !StringFacts.length_append.
    change (needsOf []) with O. lia.
  - simpl in Hwf. apply andb_prop in Hwf. destruct Hwf as [Hwy _].
    rewrite (members_cons k' y entries Hwy) in *.
    change (Js.join "," ((quote k +:+ ":" +:+ serialize x)
                         :: (quote k' +:+ ":" +:+ serialize y) :: members entries))
      with ((quote k +:+ ":" +:+ serialize x) +:+ "," +:+
            Js.join "," ((quote k' +:+ ":" +:+ serialize y) :: members entries)).
    rewrite !StringFacts.length_append.
    change (String.length ",") with 1%nat. lia.
Qed.

(** The serialized form of a well-formed value is at least as long as
    the parser's calls nest on it. *)
Lemma need_le_length v :
  wellFormed v = true -> (need v <= String.length (serialize v))%nat.
Proof.
  induction v as [| |b|n|s|items IH|entries IH] using JsValue_nested_ind;
    intros Hwf.
  - discriminate.
  - simpl. lia.
  - destruct b; simpl; lia.
  - destruct (serialize_head (JsNumber n)) as (c & t & Heq & _).
    rewrite Heq. simpl. lia.
  - simpl. lia.
  - change (need (JsArray items)) with (S (needs items)).
    change (serialize (JsArray items))
      with ("[" +:+ Js.join "," (map serialize items) +:+ "]").
    rewrite !StringFacts.length_append.
    change (String.length "[") with 1%nat. change (String.length "]") with 1%nat.
    assert (Hall : Forall (fun x => (need x <= String.length (serialize x))%nat)
                     items).
    { change (wellFormed (JsArray items)) with (forallb wellFormed items) in Hwf.
      revert Hwf. induction IH as [|y ys Hy Hys IHys]; intros Hwf; [constructor|].
      simpl in Hwf. apply andb_prop in Hwf. destruct Hwf as [Hwy Hwf].
      constructor; [apply Hy; exact Hwy | apply IHys; exact Hwf]. }
    pose proof (needs_le_length items Hall). lia.
  - change (need (JsObject entries)) with (S (needsOf entries)).
    rewrite serialize_object, !StringFacts.length_append.
    change (String.length "{") with 1%nat. change (String.length "}") with 1%nat.
    change (wellFormed (JsObject entries))
      with (distinct (map fst entries) && ordered (map fst entries)
            && forallb (fun entry : string * JsValue =>
                          let (_, x) := entry in wellFormed x) entries)%bool
      in Hwf.
    apply andb_prop in Hwf. destruct Hwf as [_ Hvals].
    assert (Hall : Forall (fun e => (need (snd e)
                                    <= String.length (serialize (snd e)))%nat)
                     entries).
    { revert Hvals. induction IH as [|[k y] ys Hy Hys IHys]; intros Hwf;
        [constructor|].
      simpl in Hwf. apply andb_prop in Hwf. destruct Hwf as [Hwy Hwf].
      constructor; [apply Hy; exact Hwy | apply IHys; exact Hwf]. }
    pose proof (needsOf_le_length entries Hall Hvals). lia.
Qed.

(** [JSON.parse(JSON.stringify(v))] is [v] for every well-formed [v]. *)
Lemma parse_stringify v :
  wellFormed v = true ->
  exists text, stringify v = Some text /\ parse text = Ok v.
Proof.
  intros Hwf. exists (serialize v). split.
  - destruct v; first [reflexivity | discriminate Hwf].
  - unfold parse.
    pose proof (wellFormed_readsBack v Hwf
                  (2 * String.length (serialize v) + 2)%nat EmptyString eq_refl)
      as Hread.
    rewrite append_empty in Hread. rewrite Hread.
    + reflexivity.
    + pose proof (need_le_length v Hwf). lia.
Qed.

End JsonFacts.




(* --------------------------------------------------------------------- *)
(** ** The differ, beyond identical snapshots                             *)
(* --------------------------------------------------------------------- *)

Module DiffMore.
Import Model Diff DiffPrompt DiffFacts.

#[local] Abbreviation keys := JsMap.keys.
#[local] Abbreviation entriesOf :=
  (map (fun el : InteractiveElement => (ref el, el))).

Lemma In_set {V : Type} (m : JsMap.t V) k v e :
  In e (JsMap.set m k v) -> e = (k, v) \/ In e m.
Proof.
  induction m as [|[k' v'] m IH]; simpl.
  - intros [H|[]]. left. symmetry. exact H.
  - destruct (String.eqb_spec k' k) as [Heq|Hne]; simpl.
    + intros [H|H]; [left; subst k'; symmetry; exact H | right; right; exact H].
    + intros [H|H]; [right; left; exact H|].
      destruct (IH H) as [H'|H']; [left; exact H' | right; right; exact H'].
Qed.

Lemma In_fold_set {V : Type} (entries : list (string * V)) (m : JsMap.t V) e :
  In e (fold_left (fun m e => JsMap.set m (fst e) (snd e)) entries m) ->
  In e m \/ In e entries.
Proof.
  revert m. induction entries as [|[k v] entries IH]; intros m; simpl.
  - intros H. left. exact H.
  - intros H. destruct (IH _ H) as [H'|H'].
    + destruct (In_set m k v e H') as [->|H2];
        [right; left; reflexivity | left; exact H2].
    + right. right. exact H'.
Qed.

(** An entry of a [Map] built from a list is an entry of the list. *)
Lemma In_ofEntries {V : Type} (entries : list (string * V)) e :
  In e (JsMap.ofEntries entries) -> In e entries.
Proof.
  intros H. destruct (In_fold_set entries [] e H) as [[]|H']. exact H'.
Qed.

Lemma keys_set_keep {V : Type} (m : JsMap.t V) k v x :
  In x (keys m) -> In x (keys (JsMap.set m k v)).
Proof.
  induction m as [|[k' v'] m IH]; simpl; [intros []|].
  destruct (String.eqb_spec k' k) as [Heq|Hne]; simpl.
  - intros H. exact H.
  - intros [H|H]; [left; exact H | right; apply IH; exact H].
Qed.

Lemma keys_set_new {V : Type} (m : JsMap.t V) k v :
  In k (keys (JsMap.set m k v)).
Proof.
  induction m as [|[k' v'] m IH]; simpl; [left; reflexivity|].
  destruct (String.eqb_spec k' k) as [Heq|Hne]; simpl.
  - left. exact Heq.
  - right. exact IH.
Qed.

Lemma keys_fold_set {V : Type} (entries : list (string * V)) (m : JsMap.t V) x :
  In x (keys m) \/ In x (map fst entries) ->
  In x (keys (fold_left (fun m e => JsMap.set m (fst e) (snd e)) entries m)).
Proof.
  revert m. induction entries as [|[k v] entries IH]; intros m; simpl.
  - intros [H|[]]. exact H.
  - intros [H|[H|H]]; apply IH.
    + left. apply keys_set_keep. exact H.
    + left. subst x. apply keys_set_new.
    + right. exact H.
Qed.

(** The keys of a [Map] built from a list are the keys of the list. *)
Lemma keys_ofEntries {V : Type} (entries : list (string * V)) x :
  In x (keys (JsMap.ofEntries entries)) <-> In x (map fst entries).
Proof.
  split.
  - intros H. apply in_map_iff in H. destruct H as ([k v] & <- & Hin).
    apply In_ofEntries in Hin. change k with (fst (k, v)).
    apply in_map. exact Hin.
  - intros H. apply keys_fold_set. right. exact H.
Qed.

Lemma get_In {V : Type} (m : JsMap.t V) k v :
  JsMap.get m k = Some v -> In (k, v) m.
Proof.
  induction m as [|[k' v'] m IH]; simpl; [discriminate|].
  destruct (String.eqb_spec k' k) as [Heq|Hne].
  - intros [= ->]. left. subst k'. reflexivity.
  - intros H. right. apply IH. exact H.
Qed.

Lemma get_None {V : Type} (m : JsMap.t V) k :
  JsMap.get m k = None <-> ~ In k (keys m).
Proof.
  induction m as [|[k' v'] m IH]; simpl.
  - split; [intros _ [] | reflexivity].
  - destruct (String.eqb_spec k' k) as [Heq|Hne].
    + split; [discriminate|]. intros H. exfalso. apply H. left. exact Heq.
    + rewrite IH. split.
      * intros H [H'|H']; [apply Hne; exact H' | apply H; exact H'].
      * intros H H'. apply H. right. exact H'.
Qed.

Lemma has_false {V : Type} (m : JsMap.t V) k :
  JsMap.has m k = false <-> ~ In k (keys m).
Proof.
  unfold JsMap.has. rewrite <- get_None.
  destruct (JsMap.get m k); split; intros H; try reflexivity; discriminate.
Qed.

(** The entries of [indexByRef] are elements of the list under their
    own refs. *)
Lemma In_indexByRef els r el :
  In (r, el) (indexByRef els) -> In el els /\ ref el = r.
Proof.
  intros H. apply In_ofEntries in H. apply in_map_iff in H.
  destruct H as (x & [= <- <-] & Hin). split; [exact Hin | reflexivity].
Qed.

Lemma keys_indexByRef els r :
  In r (keys (indexByRef els)) <-> In r (map ref els).
Proof.
  unfold indexByRef. rewrite keys_ofEntries, map_map. simpl. reflexivity.
Qed.

(** The second loop of [diffStates] is a filter. *)
Lemma scanPrevious_filter es (m : JsMap.t InteractiveElement) :
  scanPrevious es m
  = map snd (List.filter (fun e => negb (JsMap.has m (fst e))) es).
Proof.
  induction es as [|[r el] es IH]; simpl; [reflexivity|].
  destruct (negb (JsMap.has m r)); simpl; rewrite IH; reflexivity.
Qed.

(** The first loop collects as added what the second would collect as
    removed with the two maps exchanged. *)
Lemma scanCurrent_added es (m : JsMap.t InteractiveElement) :
  fst (scanCurrent es m) = scanPrevious es m.
Proof.
  induction es as [|[r el] es IH]; simpl; [reflexivity|].
  destruct (scanCurrent es m) as [a c]. simpl in IH.
  destruct (negb (JsMap.has m r)); simpl; [rewrite IH; reflexivity|].
  destruct (JsMap.get m r) as [p|]; [|exact IH].
  destruct (changed p el) as [[b a']|]; exact IH.
Qed.

Lemma scanCurrent_changed es (m : JsMap.t InteractiveElement) c :
  In c (snd (scanCurrent es m)) <->
  exists q p, In (changedRef c, q) es /\ JsMap.get m (changedRef c) = Some p
              /\ changed p q = Some (before c, after c).
Proof.
  induction es as [|[r el] es IH]; simpl.
  - split; [intros [] | intros (q & p & [] & _)].
  - destruct (scanCurrent es m) as [a cs]. simpl in IH.
    unfold JsMap.has.
    destruct (JsMap.get m r) as [p|] eqn:Hget; simpl.
    + destruct (changed p el) as [[b a']|] eqn:Hch; simpl.
      * split.
        -- intros [<-|H].
           ++ exists el, p. simpl. auto.
           ++ apply IH in H. destruct H as (q & p' & Hin & Hg & Hc).
              exists q, p'. auto.
        -- intros (q & p' & [Heq|Hin] & Hg & Hc).
           ++ left. injection Heq as Hr Hel. subst r el.
              rewrite Hget in Hg. injection Hg as Hp. subst p'.
              rewrite Hch in Hc. injection Hc as Hb Ha. subst b a'.
              destruct c; reflexivity.
           ++ right. apply IH. exists q, p'. auto.
      * rewrite IH. split.
        -- intros (q & p' & Hin & Hg & Hc). exists q, p'. auto.
        -- intros (q & p' & [Heq|Hin] & Hg & Hc).
           ++ injection Heq as Hr Hel. subst r el.
              rewrite Hget in Hg. injection Hg as Hp. subst p'.
              rewrite Hch in Hc. discriminate.
           ++ exists q, p'. auto.
    + rewrite IH. split.
      * intros (q & p' & Hin & Hg & Hc). exists q, p'. auto.
      * intros (q & p' & [Heq|Hin] & Hg & Hc).
        -- injection Heq as Hr Hel. subst r el.
           rewrite Hget in Hg. discriminate.
        -- exists q, p'. auto.
Qed.

Lemma scanCurrent_refs es (m : JsMap.t InteractiveElement) x :
  In x (map changedRef (snd (scanCurrent es m))) -> In x (map fst es).
Proof.
  intros H. apply in_map_iff in H. destruct H as (c & <- & Hin).
  apply scanCurrent_changed in Hin. destruct Hin as (q & p & Hin & _).
  change (changedRef c) with (fst (changedRef c, q)). apply in_map. exact Hin.
Qed.

Lemma scanCurrent_NoDup es (m : JsMap.t InteractiveElement) :
  List.NoDup (map fst es) ->
  List.NoDup (map changedRef (snd (scanCurrent es m))).
Proof.
  induction es as [|[r el] es IH]; simpl; intros Hnd; [constructor|].
  inversion Hnd as [|? ? Hnotin Hnd']; subst.
  specialize (IH Hnd'). pose proof (scanCurrent_refs es m) as Hrefs.
  destruct (scanCurrent es m) as [a cs]. simpl in IH, Hrefs.
  destruct (negb (JsMap.has m r)); simpl; [exact IH|].
  destruct (JsMap.get m r) as [p|]; [|exact IH].
  destruct (changed p el) as [[b a']|]; simpl; [|exact IH].
  constructor; [|exact IH]. intros H. apply Hnotin. apply Hrefs. exact H.
Qed.

Lemma filter_keys_NoDup {V : Type} (f : string * V -> bool) (m : JsMap.t V) :
  List.NoDup (keys m) -> List.NoDup (map fst (List.filter f m)).
Proof.
  induction m as [|e m IH]; simpl; intros Hnd; [constructor|].
  inversion Hnd as [|? ? Hnotin Hnd']; subst.
  destruct (f e); simpl; [|apply IH; exact Hnd'].
  constructor; [|apply IH; exact Hnd'].
  intros H. apply Hnotin. apply in_map_iff in H.
  destruct H as (x & Hx & Hin). apply List.filter_In in Hin.
  apply in_map_iff. exists x. split; [exact Hx | apply Hin].
Qed.

(** In a [Map] built by [indexByRef] every element sits under its ref. *)
Lemma refs_of_index els (f : string * InteractiveElement -> bool) :
  map ref (map snd (List.filter f (indexByRef els)))
  = map fst (List.filter f (indexByRef els)).
Proof.
  assert (H : forall e, In e (indexByRef els) -> ref (snd e) = fst e).
  { intros [r el] Hin. apply In_indexByRef in Hin. apply Hin. }
  induction (indexByRef els) as [|e m IH]; simpl; [reflexivity|].
  destruct (f e); simpl.
  - rewrite (H e (or_introl eq_refl)). f_equal.
    apply IH. intros x Hx. apply H. right. exact Hx.
  - apply IH. intros x Hx. apply H. right. exact Hx.
Qed.

(** What [scanPrevious] keeps of one index against another. *)
Lemma scanPrevious_In xs ys el :
  In el (scanPrevious (indexByRef xs) (indexByRef ys)) ->
  In el xs /\ forall y, In y ys -> ref y <> ref el.
Proof.
  rewrite scanPrevious_filter. intros H. apply in_map_iff in H.
  destruct H as ([r x] & Hx & Hin). simpl in Hx. subst x.
  apply List.filter_In in Hin. destruct Hin as [Hin Hhas]. simpl in Hhas.
  apply In_indexByRef in Hin. destruct Hin as [Hin <-].
  split; [exact Hin|]. intros y Hy Heq.
  apply Bool.negb_true_iff in Hhas. apply has_false in Hhas. apply Hhas.
  apply keys_indexByRef. rewrite <- Heq. apply in_map. exact Hy.
Qed.

Lemma scanPrevious_covers xs ys x :
  In x xs -> (forall y, In y ys -> ref y <> ref x) ->
  In (ref x) (map ref (scanPrevious (indexByRef xs) (indexByRef ys))).
Proof.
  intros Hx Hfresh.
  assert (Hk : In (ref x) (keys (indexByRef xs))).
  { apply keys_indexByRef. apply in_map. exact Hx. }
  apply in_map_iff in Hk. destruct Hk as ([r el] & Hr & Hin). simpl in Hr.
  subst r. pose proof (In_indexByRef _ _ _ Hin) as [_ Hrefel].
  apply in_map_iff. exists el. split; [exact Hrefel|].
  rewrite scanPrevious_filter. apply in_map_iff. exists (ref x, el).
  split; [reflexivity|]. apply List.filter_In. split; [exact Hin|].
  simpl. apply Bool.negb_true_iff. apply has_false. intros Hk.
  apply keys_indexByRef in Hk. apply in_map_iff in Hk.
  destruct Hk as (y & Hy & Hyin). exact (Hfresh y Hyin Hy).
Qed.

Lemma scanPrevious_NoDup xs ys :
  List.NoDup (map ref (scanPrevious (indexByRef xs) (indexByRef ys))).
Proof.
  rewrite scanPrevious_filter, refs_of_index.
  apply filter_keys_NoDup. apply NoDup_ofEntries.
Qed.

Lemma strictEq_sym a b : strictEq a b = strictEq b a.
Proof.
  destruct a as [|s|x], b as [|t|y]; simpl; try reflexivity.
  - apply String.eqb_sym.
  - destruct x, y; reflexivity.
Qed.

Lemma strictEq_eq a b : strictEq a b = true <-> a = b.
Proof.
  destruct a as [|s|x], b as [|t|y]; simpl;
    try (split; [discriminate | intros [=]]); try (split; reflexivity).
  - rewrite String.eqb_eq. split; [intros ->; reflexivity | intros [= ->]; reflexivity].
  - destruct x, y; simpl; split; try reflexivity; try discriminate;
      intros [=].
Qed.

(** [changed] collects exactly the tracked fields on which the two
    elements differ, with the value on either side. *)
Lemma changedOver_differing fields p q :
  changedOver fields p q
  = (let fs := List.filter (fun f => negb (strictEq (field p f) (field q f)))
                 fields in
     (map (fun f => (f, field p f)) fs, map (fun f => (f, field q f)) fs)).
Proof.
  induction fields as [|f fields IH]; simpl; [reflexivity|].
  rewrite IH. simpl.
  destruct (negb (strictEq (field p f) (field q f))); reflexivity.
Qed.

Lemma changed_differing p q :
  changed p q
  = match differing p q with
    | [] => None
    | fs => Some (map (fun f => (f, field p f)) fs,
                  map (fun f => (f, field q f)) fs)
    end.
Proof.
  unfold changed. rewrite changedOver_differing. fold (differing p q).
  destruct (differing p q); reflexivity.
Qed.

Lemma differing_sym p q : differing p q = differing q p.
Proof.
  unfold differing. apply List.filter_ext. intros f.
  rewrite strictEq_sym. reflexivity.
Qed.

Lemma changed_swap p q b a :
  changed p q = Some (b, a) -> changed q p = Some (a, b).
Proof.
  rewrite !changed_differing, (differing_sym q p).
  destruct (differing p q); [discriminate|].
  intros [= <- <-]. reflexivity.
Qed.

Lemma changed_sameTracked p q : sameTracked p q -> changed p q = None.
Proof.
  intros [_ Hf]. rewrite changed_differing.
  assert (H : differing p q = []).
  { unfold differing. induction TRACKED_FIELDS as [|f fs IH]; simpl;
      [reflexivity|].
    rewrite (Hf f), strictEq_refl. simpl. exact IH. }
  rewrite H. reflexivity.
Qed.

Lemma alike_set m1 m2 k v1 v2 :
  Forall2 alike m1 m2 -> sameTracked v1 v2 ->
  Forall2 alike (JsMap.set m1 k v1) (JsMap.set m2 k v2).
Proof.
  intros H Hv. induction H as [|[k1 x1] [k2 x2] m1 m2 [Hk Hx] Hm IH]; simpl.
  - constructor; [split; [reflexivity | exact Hv] | constructor].
  - simpl in Hk. subst k2.
    destruct (String.eqb k1 k).
    + constructor; [split; [reflexivity | exact Hv] | exact Hm].
    + constructor; [split; [reflexivity | exact Hx] | exact IH].
Qed.

Lemma alike_index xs ys :
  Forall2 sameTracked xs ys ->
  Forall2 alike (indexByRef xs) (indexByRef ys).
Proof.
  unfold indexByRef, JsMap.ofEntries.
  assert (G : forall m1 m2, Forall2 alike m1 m2 ->
            Forall2 sameTracked xs ys ->
            Forall2 alike
              (fold_left (fun m e => JsMap.set m (fst e) (snd e))
                 (entriesOf xs) m1)
              (fold_left (fun m e => JsMap.set m (fst e) (snd e))
                 (entriesOf ys) m2)).
  { intros m1 m2 Hm H. revert m1 m2 Hm.
    induction H as [|x y xs ys Hxy H IH]; intros m1 m2 Hm; simpl.
    - exact Hm.
    - apply IH. destruct Hxy as [Hr Hf]. rewrite Hr.
      apply alike_set; [exact Hm | split; [exact Hr | exact Hf]]. }
  intros H. apply G; [constructor | exact H].
Qed.

Lemma alike_get m1 m2 k v2 :
  Forall2 alike m1 m2 -> JsMap.get m2 k = Some v2 ->
  exists v1, JsMap.get m1 k = Some v1 /\ sameTracked v1 v2.
Proof.
  intros H. induction H as [|[k1 x1] [k2 x2] m1 m2 [Hk Hx] Hm IH]; simpl;
    [discriminate|].
  simpl in Hk. subst k2. destruct (String.eqb k1 k).
  - intros [= <-]. exists x1. split; [reflexivity | exact Hx].
  - exact IH.
Qed.

Lemma alike_keys m1 m2 : Forall2 alike m1 m2 -> keys m1 = keys m2.
Proof.
  intros H. induction H as [|[k1 x1] [k2 x2] m1 m2 [Hk Hx] Hm IH]; simpl;
    [reflexivity|].
  simpl in Hk. rewrite Hk, IH. reflexivity.
Qed.

Lemma sameTracked_sym p q : sameTracked p q -> sameTracked q p.
Proof. intros [Hr Hf]. split; [symmetry; exact Hr | intros f; symmetry; apply Hf]. Qed.

Lemma scanCurrent_alike es m1 :
  List.NoDup (keys es) ->
  (forall e, In e es -> exists v1, JsMap.get m1 (fst e) = Some v1
                                   /\ sameTracked v1 (snd e)) ->
  scanCurrent es m1 = ([], []).
Proof.
  intros _. induction es as [|[r el] es IH]; intros Hget; simpl; [reflexivity|].
  rewrite IH by (intros e He; apply Hget; right; exact He).
  destruct (Hget (r, el) (or_introl eq_refl)) as (v1 & Hg & Hs). simpl in Hg, Hs.
  unfold JsMap.has. rewrite Hg. simpl.
  rewrite (changed_sameTracked _ _ Hs). reflexivity.
Qed.

Lemma scanPrevious_alike es (m : JsMap.t InteractiveElement) :
  (forall e, In e es -> In (fst e) (keys m)) ->
  scanPrevious es m = [].
Proof.
  induction es as [|[r el] es IH]; intros Hk; simpl; [reflexivity|].
  assert (Hhas : JsMap.has m r = true).
  { destruct (JsMap.has m r) eqn:E; [reflexivity|].
    apply has_false in E. exfalso. apply E.
    apply (Hk (r, el)). left. reflexivity. }
  rewrite Hhas. simpl. apply IH. intros e He. apply Hk. right. exact He.
Qed.

Lemma diff_sameTracked prev curr :
  Forall2 sameTracked (interactive prev) (interactive curr) ->
  diffStates prev curr = {| added := []; removed := []; changedList := [] |}.
Proof.
  intros H. unfold diffStates.
  pose proof (alike_index _ _ H) as Ha.
  set (pm := indexByRef (interactive prev)) in *.
  set (cm := indexByRef (interactive curr)) in *.
  assert (Hnd : List.NoDup (keys cm)) by apply NoDup_ofEntries.
  rewrite (scanCurrent_alike cm pm Hnd).
  - rewrite scanPrevious_alike; [reflexivity|].
    intros e He. rewrite <- (alike_keys _ _ Ha).
    apply in_map. exact He.
  - intros [r el] He. simpl.
    apply (alike_get pm cm r el Ha).
    apply get_entry; assumption.
Qed.

End DiffMore.

(** X1. Exchanging the two snapshots exchanges what [diffStates]
    reports as added and as removed, and turns every changed entry
    around: same ref, [before] and [after] exchanged. *)
Theorem diffStates_reversed_exchanges_added_and_removed :
  forall prev curr : Model.CompactState,
    Diff.added (Diff.diffStates prev curr)
    = Diff.removed (Diff.diffStates curr prev)
    /\ Diff.removed (Diff.diffStates prev curr)
       = Diff.added (Diff.diffStates curr prev)
    /\ (forall c,
          In c (Diff.changedList (Diff.diffStates prev curr))
          <-> In (DiffPrompt.swap c)
                (Diff.changedList (Diff.diffStates curr prev))).
Proof.
  intros prev curr.
  assert (Hadd : forall a b,
            Diff.added (Diff.diffStates a b)
            = Diff.removed (Diff.diffStates b a)).
  { intros a b. unfold Diff.diffStates.
    pose proof (DiffMore.scanCurrent_added
                  (Diff.indexByRef (Model.interactive b))
                  (Diff.indexByRef (Model.interactive a))) as H.
    destruct (Diff.scanCurrent (Diff.indexByRef (Model.interactive b))
                (Diff.indexByRef (Model.interactive a))) as [x y].
    destruct (Diff.scanCurrent (Diff.indexByRef (Model.interactive a))
                (Diff.indexByRef (Model.interactive b))) as [x' y'].
    exact H. }
  assert (Hch : forall a b c,
            In c (Diff.changedList (Diff.diffStates a b))
            -> In (DiffPrompt.swap c)
                 (Diff.changedList (Diff.diffStates b a))).
  { intros a b c. unfold Diff.diffStates.
    pose proof (DiffMore.scanCurrent_changed
                  (Diff.indexByRef (Model.interactive b))
                  (Diff.indexByRef (Model.interactive a)) c) as H1.
    pose proof (DiffMore.scanCurrent_changed
                  (Diff.indexByRef (Model.interactive a))
                  (Diff.indexByRef (Model.interactive b))
                  (DiffPrompt.swap c)) as H2.
    destruct (Diff.scanCurrent (Diff.indexByRef (Model.interactive b))
                (Diff.indexByRef (Model.interactive a))) as [x y].
    destruct (Diff.scanCurrent (Diff.indexByRef (Model.interactive a))
                (Diff.indexByRef (Model.interactive b))) as [x' y'].
    simpl in *. intros Hin. apply H2. apply H1 in Hin.
    destruct Hin as (q & p & Hq & Hp & Hc).
    exists p, q. split; [|split].
    - apply DiffMore.get_In. exact Hp.
    - apply DiffFacts.get_entry; [apply DiffFacts.NoDup_ofEntries | exact Hq].
    - apply DiffMore.changed_swap. exact Hc. }
  split; [apply Hadd|]. split; [symmetry; apply Hadd|].
  intros c. split; [apply Hch|].
  intros H. apply Hch in H. destruct c. exact H.
Qed.

(** X2. What [diffStates] reports as added are elements of the current
    snapshot whose ref no element of the previous one has, one for
    every such ref; likewise removed, with the snapshots exchanged; a
    changed entry is reported under a ref both snapshots have; and no
    ref is reported twice in a list. *)
Theorem diffStates_sorts_elements_by_ref :
  forall prev curr : Model.CompactState,
    Forall (fun el =>
              In el (Model.interactive curr)
              /\ forall p, In p (Model.interactive prev) ->
                           Model.ref p <> Model.ref el)
      (Diff.added (Diff.diffStates prev curr))
    /\ Forall (fun el =>
                 In el (Model.interactive prev)
                 /\ forall q, In q (Model.interactive curr) ->
                              Model.ref q <> Model.ref el)
         (Diff.removed (Diff.diffStates prev curr))
    /\ Forall (fun c =>
                 In (Diff.changedRef c) (map Model.ref (Model.interactive prev))
                 /\ In (Diff.changedRef c)
                      (map Model.ref (Model.interactive curr)))
         (Diff.changedList (Diff.diffStates prev curr))
    /\ (forall q, In q (Model.interactive curr) ->
          (forall p, In p (Model.interactive prev) ->
                     Model.ref p <> Model.ref q) ->
          In (Model.ref q)
            (map Model.ref (Diff.added (Diff.diffStates prev curr))))
    /\ (forall p, In p (Model.interactive prev) ->
          (forall q, In q (Model.interactive curr) ->
                     Model.ref q <> Model.ref p) ->
          In (Model.ref p)
            (map Model.ref (Diff.removed (Diff.diffStates prev curr))))
    /\ List.NoDup (map Model.ref (Diff.added (Diff.diffStates prev curr)))
    /\ List.NoDup (map Model.ref (Diff.removed (Diff.diffStates prev curr)))
    /\ List.NoDup
         (map Diff.changedRef (Diff.changedList (Diff.diffStates prev curr))).
Proof.
  intros prev curr. unfold Diff.diffStates.
  pose proof (DiffMore.scanCurrent_added
                (Diff.indexByRef (Model.interactive curr))
                (Diff.indexByRef (Model.interactive prev))) as Hadd.
  pose proof (DiffMore.scanCurrent_changed
                (Diff.indexByRef (Model.interactive curr))
                (Diff.indexByRef (Model.interactive prev))) as Hch.
  pose proof (DiffMore.scanCurrent_NoDup
                (Diff.indexByRef (Model.interactive curr))
                (Diff.indexByRef (Model.interactive prev))
                (DiffFacts.NoDup_ofEntries _)) as Hnd.
  destruct (Diff.scanCurrent (Diff.indexByRef (Model.interactive curr))
              (Diff.indexByRef (Model.interactive prev))) as [a cs].
  simpl in *. subst a.
  repeat split.
  - apply List.Forall_forall. intros el Hel.
    apply (DiffMore.scanPrevious_In _ _ _ Hel).
  - apply List.Forall_forall. intros el Hel.
    apply (DiffMore.scanPrevious_In _ _ _ Hel).
  - apply List.Forall_forall. intros c Hc. apply Hch in Hc.
    destruct Hc as (q & p & Hq & Hp & _).
    apply DiffMore.get_In in Hp.
    apply DiffMore.In_indexByRef in Hp. apply DiffMore.In_indexByRef in Hq.
    destruct Hp as [Hp Hrp]. destruct Hq as [Hq Hrq].
    split; [rewrite <- Hrp | rewrite <- Hrq]; apply in_map; assumption.
  - intros q Hq Hfresh. apply DiffMore.scanPrevious_covers; assumption.
  - intros p Hp Hfresh. apply DiffMore.scanPrevious_covers; assumption.
  - apply DiffMore.scanPrevious_NoDup.
  - apply DiffMore.scanPrevious_NoDup.
  - exact Hnd.
Qed.

(** X3. Every changed entry that [diffStates] reports belongs to an
    element of the previous and an element of the current snapshot with
    the entry's ref; the two differ on at least one tracked field, and
    [before] and [after] list exactly the tracked fields on which they
    differ, in the order of [TRACKED_FIELDS], with the previous and
    the current value. *)
Theorem diffStates_changed_lists_the_differing_fields :
  forall prev curr : Model.CompactState,
    Forall (fun c =>
              exists p q,
                In p (Model.interactive prev)
                /\ In q (Model.interactive curr)
                /\ Model.ref p = Diff.changedRef c
                /\ Model.ref q = Diff.changedRef c
                /\ DiffPrompt.differing p q <> []
                /\ Diff.before c
                   = map (fun f => (f, Diff.field p f))
                       (DiffPrompt.differing p q)
                /\ Diff.after c
                   = map (fun f => (f, Diff.field q f))
                       (DiffPrompt.differing p q))
      (Diff.changedList (Diff.diffStates prev curr)).
Proof.
  intros prev curr. unfold Diff.diffStates.
  pose proof (DiffMore.scanCurrent_changed
                (Diff.indexByRef (Model.interactive curr))
                (Diff.indexByRef (Model.interactive prev))) as Hch.
  destruct (Diff.scanCurrent (Diff.indexByRef (Model.interactive curr))
              (Diff.indexByRef (Model.interactive prev))) as [a cs].
  simpl in *. apply List.Forall_forall. intros c Hc. apply Hch in Hc.
  destruct Hc as (q & p & Hq & Hp & Hc).
  apply DiffMore.get_In in Hp.
  apply DiffMore.In_indexByRef in Hp. apply DiffMore.In_indexByRef in Hq.
  destruct Hp as [Hp Hrp]. destruct Hq as [Hq Hrq].
  exists p, q. rewrite DiffMore.changed_differing in Hc.
  destruct (DiffPrompt.differing p q) as [|f fs] eqn:Hd; [discriminate|].
  injection Hc as Hb Ha.
  repeat split; try assumption; try (symmetry; assumption).
  discriminate.
Qed.

(** X4. [diffStates] looks at nothing but the ref and the six tracked
    fields: two snapshots whose elements agree on these, position by
    position, have an empty diff, whatever became of the role, the
    name, the input type and the selectors. *)
Theorem diffStates_ignores_untracked_attributes :
  forall prev curr : Model.CompactState,
    Forall2 DiffPrompt.sameTracked
      (Model.interactive prev) (Model.interactive curr) ->
    Diff.diffStates prev curr
    = {| Diff.added := []; Diff.removed := []; Diff.changedList := [] |}.
Proof. exact DiffMore.diff_sameTracked. Qed.

Lemma diffStates_ignores_untracked_attributes_witness :
  Forall2 DiffPrompt.sameTracked
    (Model.interactive Sample.oneButton) (Model.interactive Scenes.restyled)
  /\ Diff.diffStates Sample.oneButton Scenes.restyled
     = {| Diff.added := []; Diff.removed := []; Diff.changedList := [] |}.
Proof.
  assert (H : Forall2 DiffPrompt.sameTracked
                (Model.interactive Sample.oneButton)
                (Model.interactive Scenes.restyled)).
  { constructor; [|constructor]. split; [reflexivity|].
    intros f. destruct f; reflexivity. }
  split; [exact H|].
  apply (diffStates_ignores_untracked_attributes
           Sample.oneButton Scenes.restyled H).
Defined.

Module PromptFacts.
Import Model Diff DiffPrompt.

#[local] Arguments String.append !s1 s2 : simpl nomatch.

Lemma join_head sep c t rest :
  exists t', Js.join sep (String c t :: rest) = String c t'.
Proof.
  destruct rest as [|l rest]; simpl; eexists; reflexivity.
Qed.

(** The array [lines] is empty for an empty diff and opens with the
    heading of the first non-empty block otherwise. *)
Lemma diffLines_head arrow diff :
  (added diff = [] /\ removed diff = [] /\ changedList diff = []
   /\ diffLines arrow diff = [])
  \/ exists c t rest,
       diffLines arrow diff = String c t :: rest
       /\ (c = "A" \/ c = "R" \/ c = "C")%char.
Proof.
  unfold diffLines.
  destruct (added diff) as [|a al], (removed diff) as [|r rl],
    (changedList diff) as [|c cl]; simpl;
    try (left; repeat split; reflexivity);
    right; unfold heading; simpl; do 3 eexists;
    (split; [reflexivity|]); auto.
Qed.

Lemma length_diffLines arrow diff :
  length (diffLines arrow diff)
  = (blockSize (length (added diff)) + blockSize (length (removed diff))
     + blockSize (length (changedList diff)))%nat.
Proof.
  unfold diffLines, blockSize.
  destruct (0 <? length (added diff))%nat,
    (0 <? length (removed diff))%nat,
    (0 <? length (changedList diff))%nat;
    repeat rewrite ?length_app, ?length_map, ?length_take; simpl; lia.
Qed.

End PromptFacts.

Module LineFacts.
Import Model Diff DiffPrompt.

#[local] Arguments String.append !s1 s2 : simpl nomatch.

Lemma lineFeeds_append a b :
  lineFeeds (a +:+ b) = (lineFeeds a + lineFeeds b)%nat.
Proof.
  induction a as [|c a IH]; [reflexivity|].
  change (String c a +:+ b) with (String c (a +:+ b)).
  cbn [lineFeeds]. rewrite IH. lia.
Qed.

(** The line feeds of joined entries: those between the entries and
    those inside them. *)
Lemma lineFeeds_join entries :
  lineFeeds (Js.join newline entries)
  = (pred (length entries) + list_sum (map lineFeeds entries))%nat.
Proof.
  induction entries as [|e entries IH]; [reflexivity|].
  destruct entries as [|e' entries].
  - simpl. lia.
  - change (Js.join newline (e :: e' :: entries))
      with (e +:+ newline +:+ Js.join newline (e' :: entries)).
    rewrite !lineFeeds_append, IH.
    change (lineFeeds newline) with 1%nat.
    cbn [map length pred]. unfold list_sum. cbn [fold_right]. lia.
Qed.

(** What is returned is the joined entries, or the fixed sentence if
    there are none. *)
Lemma formatDiffForPrompt_joined arrow diff :
  formatDiffForPrompt arrow diff
  = match diffLines arrow diff with
    | [] => "No observable changes."
    | _ :: _ => Js.join newline (diffLines arrow diff)
    end.
Proof.
  unfold formatDiffForPrompt.
  destruct (PromptFacts.diffLines_head arrow diff)
    as [(_ & _ & _ & Hl) | (c & t & rest & Hl & _)]; rewrite Hl.
  - reflexivity.
  - destruct (PromptFacts.join_head newline c t rest) as [t' Ht].
    rewrite Ht. reflexivity.
Qed.

End LineFacts.

(** X5. [formatDiffForPrompt] answers "No observable changes." exactly
    for a diff whose three lists are empty; so it does for the diff of
    a snapshot with itself. *)
Theorem formatDiffForPrompt_says_no_changes_exactly_for_empty_diffs :
  forall (arrow : string),
    (forall diff : Diff.StateDiff,
       DiffPrompt.formatDiffForPrompt arrow diff = "No observable changes."
       <-> Diff.added diff = [] /\ Diff.removed diff = []
           /\ Diff.changedList diff = [])
    /\ (forall S : Model.CompactState,
          DiffPrompt.formatDiffForPrompt arrow (Diff.diffStates S S)
          = "No observable changes.").
Proof.
  intros arrow.
  assert (H : forall diff : Diff.StateDiff,
             DiffPrompt.formatDiffForPrompt arrow diff = "No observable changes."
             <-> Diff.added diff = [] /\ Diff.removed diff = []
                 /\ Diff.changedList diff = []).
  { intros diff. unfold DiffPrompt.formatDiffForPrompt.
    destruct (PromptFacts.diffLines_head arrow diff)
      as [(Ha & Hr & Hc & Hl) | (c & t & rest & Hl & Hc)]; rewrite Hl.
    - simpl. split; [intros _; auto | reflexivity].
    - destruct (PromptFacts.join_head DiffPrompt.newline c t rest) as [t' Ht].
      rewrite Ht. simpl. split.
      + intros Heq. injection Heq as Hc' _. subst c.
        destruct Hc as [Hc|[Hc|Hc]]; discriminate Hc.
      + intros (Ha & Hr & Hcl). exfalso.
        unfold DiffPrompt.diffLines in Hl. rewrite Ha, Hr, Hcl in Hl.
        discriminate Hl. }
  split; [exact H|].
  intros S. apply H.
  rewrite (DiffFacts.diff_same_elements S S eq_refl).
  repeat split.
Qed.

(** X6. What [formatDiffForPrompt] returns is the entries of the array
    [lines] joined by line feeds, or the fixed sentence if the array is
    empty. Each of the three lists of the diff gives the array a
    heading followed by at most ten entries, however long the list is,
    and an empty list gives it nothing: the array has at most 33
    entries. The line feeds of the text returned are those between the
    entries and those inside the entries themselves, which hold the
    labels as they are. *)
Theorem formatDiffForPrompt_lists_at_most_ten_per_block :
  forall (arrow : string) (diff : Diff.StateDiff),
    DiffPrompt.formatDiffForPrompt arrow diff
    = match DiffPrompt.diffLines arrow diff with
      | [] => "No observable changes."
      | _ :: _ => Js.join DiffPrompt.newline (DiffPrompt.diffLines arrow diff)
      end
    /\ length (DiffPrompt.diffLines arrow diff)
       = (DiffPrompt.blockSize (length (Diff.added diff))
          + DiffPrompt.blockSize (length (Diff.removed diff))
          + DiffPrompt.blockSize (length (Diff.changedList diff)))%nat
    /\ (length (DiffPrompt.diffLines arrow diff) <= 33)%nat
    /\ (forall n, (DiffPrompt.blockSize n <= 11)%nat)
    /\ DiffPrompt.blockSize 0 = 0%nat
    /\ (DiffPrompt.diffLines arrow diff <> [] ->
        DiffPrompt.lineFeeds (DiffPrompt.formatDiffForPrompt arrow diff)
        = (pred (length (DiffPrompt.diffLines arrow diff))
           + list_sum (map DiffPrompt.lineFeeds
                         (DiffPrompt.diffLines arrow diff)))%nat).
Proof.
  intros arrow diff.
  assert (Hb : forall n, (DiffPrompt.blockSize n <= 11)%nat).
  { intros n. unfold DiffPrompt.blockSize. destruct (0 <? n)%nat; lia. }
  pose proof (PromptFacts.length_diffLines arrow diff) as Hlen.
  split; [apply LineFacts.formatDiffForPrompt_joined|].
  split; [exact Hlen|]. split; [|split; [exact Hb|split; [reflexivity|]]].
  - rewrite Hlen.
    pose proof (Hb (length (Diff.added diff))).
    pose proof (Hb (length (Diff.removed diff))).
    pose proof (Hb (length (Diff.changedList diff))).
    lia.
  - intros Hne. rewrite LineFacts.formatDiffForPrompt_joined.
    destruct (DiffPrompt.diffLines arrow diff) as [|l ls] eqn:Hl;
      [contradiction|].
    apply LineFacts.lineFeeds_join.
Qed.

(* --------------------------------------------------------------------- *)
(** ** Collecting the snapshot                                            *)
(* --------------------------------------------------------------------- *)

Module CollectFacts.
Import Selectors Collect.

#[local] Arguments String.append !s1 s2 : simpl nomatch.

Lemma truthy_append_r a b : Js.truthy b = true -> Js.truthy (a +:+ b) = true.
Proof. destruct a; simpl; [intros H; exact H | reflexivity]. Qed.

Lemma truthy_append_l a b : Js.truthy a = true -> Js.truthy (a +:+ b) = true.
Proof. destruct a; simpl; [discriminate | reflexivity]. Qed.

Lemma orTruthy_truthy a b :
  Js.truthy b = true -> Js.truthy (JsText.orTruthy a b) = true.
Proof.
  intros Hb. unfold JsText.orTruthy. destruct a as [s|]; [|exact Hb].
  destruct (Js.truthy s) eqn:Hs; [exact Hs | exact Hb].
Qed.

Lemma deriveLabel_truthy el : Js.truthy (deriveLabel el) = true.
Proof.
  unfold deriveLabel. repeat apply orTruthy_truthy.
  apply truthy_append_r. reflexivity.
Qed.

(** The ref given to the element at position [i]. *)
#[local] Abbreviation refAt := (fun i : nat => "E" +:+ pretty (i + 1)%nat).

Lemma refAt_inj i j : refAt i = refAt j -> i = j.
Proof.
  simpl. intros H. injection H as H. apply (inj pretty) in H. lia.
Qed.

Lemma refs_interactiveOf raws :
  map Model.ref (interactiveOf raws) = map refAt (seq 0 (length raws)).
Proof.
  unfold interactiveOf.
  change (map Model.ref (imap describe raws))
    with (Model.ref <$> imap describe raws).
  rewrite fmap_imap.
  rewrite (imap_ext _ (fun j _ => refAt j)) by reflexivity.
  apply imap_seq_0.
Qed.

Lemma NoDup_refs raws : List.NoDup (map Model.ref (interactiveOf raws)).
Proof.
  rewrite refs_interactiveOf. apply NoDup_ListNoDup.
  change (map refAt (seq 0 (length raws)))
    with (refAt <$> seq 0 (length raws)).
  apply NoDup_fmap_2; [|apply NoDup_seq].
  intros i j H. apply refAt_inj. exact H.
Qed.

(** Among elements with distinct refs, [find] by the ref of one of
    them finds that one. *)
Lemma find_by_ref (els : list Model.InteractiveElement) el :
  List.NoDup (map Model.ref els) -> In el els ->
  List.find (fun e => String.eqb (Model.ref e) (Model.ref el)) els = Some el.
Proof.
  induction els as [|x els IH]; simpl; intros Hnd Hin; [destruct Hin|].
  inversion Hnd as [|? ? Hnotin Hnd']; subst.
  destruct Hin as [->|Hin].
  - rewrite String.eqb_refl. reflexivity.
  - destruct (String.eqb_spec (Model.ref x) (Model.ref el)) as [Heq|Hne].
    + exfalso. apply Hnotin. rewrite Heq. apply in_map. exact Hin.
    + apply IH; assumption.
Qed.

Lemma truthy_ref i : Js.truthy (refAt i) = true.
Proof. reflexivity. Qed.

Lemma In_interactiveOf raws el :
  In el (interactiveOf raws) -> exists i, Model.ref el = refAt i.
Proof.
  intros H. apply list_elem_of_In in H.
  apply list_elem_of_lookup in H. destruct H as [i Hi].
  unfold interactiveOf in Hi. rewrite list_lookup_imap in Hi.
  destruct (raws !! i) as [raw|]; [|discriminate].
  injection Hi as <-. exists i. reflexivity.
Qed.

Lemma interactiveOf_described raws el :
  In el (interactiveOf raws) ->
  exists i raw, raws !! i = Some raw /\ el = describe i raw.
Proof.
  intros H. apply list_elem_of_In in H.
  apply list_elem_of_lookup in H. destruct H as [i Hi].
  unfold interactiveOf in Hi. rewrite list_lookup_imap in Hi.
  destruct (raws !! i) as [raw|] eqn:Hraw; [|discriminate].
  injection Hi as <-. exists i, raw. split; [exact Hraw | reflexivity].
Qed.

Lemma set_fresh {V : Type} (m : JsMap.t V) k v :
  ~ In k (JsMap.keys m) -> JsMap.set m k v = (m ++ [(k, v)])%list.
Proof.
  induction m as [|[k' v'] m IH]; simpl; intros H; [reflexivity|].
  destruct (String.eqb_spec k' k) as [Heq|Hne].
  - exfalso. apply H. left. exact Heq.
  - f_equal. apply IH. intros Hin. apply H. right. exact Hin.
Qed.

Lemma fold_set_fresh {V : Type} (es : list (string * V)) (m : JsMap.t V) :
  List.NoDup (JsMap.keys m ++ map fst es) ->
  fold_left (fun m e => JsMap.set m (fst e) (snd e)) es m = (m ++ es)%list.
Proof.
  revert m. induction es as [|[k v] es IH]; intros m Hnd; simpl.
  - rewrite app_nil_r. reflexivity.
  - simpl in Hnd. rewrite set_fresh.
    + rewrite IH.
      * rewrite <- app_assoc. reflexivity.
      * unfold JsMap.keys. rewrite map_app. simpl.
        rewrite <- app_assoc. simpl. exact Hnd.
    + apply List.NoDup_remove_2 in Hnd. intros Hin. apply Hnd.
      apply in_or_app. left. exact Hin.
Qed.

(** Built from entries with distinct keys, a [Map] holds exactly these
    entries, in their order. *)
Lemma ofEntries_distinct {V : Type} (es : list (string * V)) :
  List.NoDup (map fst es) -> JsMap.ofEntries es = es.
Proof.
  intros Hnd. unfold JsMap.ofEntries. rewrite fold_set_fresh; [reflexivity|].
  exact Hnd.
Qed.

Lemma pushIf_truthy x f l :
  (forall v, Js.truthy (f v) = true) ->
  Forall (fun s => Js.truthy s = true) l ->
  Forall (fun s => Js.truthy s = true) (pushIf x f l).
Proof.
  intros Hf Hl. unfold pushIf. destruct x as [v|]; [|exact Hl].
  destruct (Js.truthy v); [|exact Hl].
  apply Forall_app. split; [exact Hl|]. constructor; [apply Hf | constructor].
Qed.

Lemma attribute_truthy n v : Js.truthy (attribute n v) = true.
Proof. reflexivity. Qed.

Lemma filter_keeps {A : Type} (f : A -> bool) (P : A -> Prop) l :
  Forall P l -> Forall P (List.filter f l).
Proof.
  induction 1 as [|x l Hx Hl IH]; simpl; [constructor|].
  destruct (f x); [constructor; assumption | exact IH].
Qed.

Lemma filter_not_primary (p : string) l :
  ~ In p (List.filter (fun f => negb (String.eqb f p)) l).
Proof.
  intros H. apply List.filter_In in H. destruct H as [_ H].
  rewrite String.eqb_refl in H. discriminate.
Qed.

Lemma In_filter_or (p x : string) l :
  In x l -> p = x \/ In x (List.filter (fun f => negb (String.eqb f p)) l).
Proof.
  intros H. destruct (String.eqb_spec x p) as [Heq|Hne];
    [left; symmetry; exact Heq|].
  right. apply List.filter_In. split; [exact H|].
  apply Bool.negb_true_iff. apply String.eqb_neq. exact Hne.
Qed.

End CollectFacts.

(** X7. [collectState] numbers the elements [E1], [E2], ... in the
    order the page reports them, so no two elements of a snapshot share
    a ref: [resolveRef] on the ref of an element finds that element,
    and the index [diffStates] builds holds every element. *)
Theorem collected_refs_are_distinct_and_resolve :
  forall (meta : Model.StateMeta) (summary : Model.PageSummary)
         (rawElements : list Collect.RawElement),
    map Model.ref (Collect.interactiveOf rawElements)
    = map (fun i : nat => "E" +:+ pretty (i + 1)%nat)
        (seq 0 (length rawElements))
    /\ List.NoDup (map Model.ref (Collect.interactiveOf rawElements))
    /\ Forall (fun el =>
                 Executor.resolveRef (Some (Model.ref el))
                   (Collect.snapshot meta summary rawElements)
                 = Ok el)
         (Collect.interactiveOf rawElements)
    /\ Diff.indexByRef (Collect.interactiveOf rawElements)
       = map (fun el => (Model.ref el, el)) (Collect.interactiveOf rawElements).
Proof.
  intros meta summary raws.
  pose proof (CollectFacts.NoDup_refs raws) as Hnd.
  split; [apply CollectFacts.refs_interactiveOf|].
  split; [exact Hnd|]. split.
  - apply List.Forall_forall. intros el Hel.
    unfold Executor.resolveRef, Collect.snapshot. simpl.
    destruct (CollectFacts.In_interactiveOf raws el Hel) as [i Hi].
    rewrite Hi at 1. rewrite CollectFacts.truthy_ref. simpl.
    rewrite (CollectFacts.find_by_ref _ el Hnd Hel). reflexivity.
  - unfold Diff.indexByRef. apply CollectFacts.ofEntries_distinct.
    rewrite map_map. simpl. exact Hnd.
Qed.

(** X8. [deriveLabel] never yields the empty string, whatever the
    page reports of the element: the last operand of its chain, the
    tag name with the bracketed index, is never empty. So every
    element of a collected snapshot has a label. *)
Theorem deriveLabel_is_never_empty :
  (forall el : Collect.RawElement, Js.truthy (Collect.deriveLabel el) = true)
  /\ (forall rawElements : list Collect.RawElement,
        Forall (fun e => Js.truthy (Model.label e) = true)
          (Collect.interactiveOf rawElements)).
Proof.
  split; [apply CollectFacts.deriveLabel_truthy|].
  intros rawElements. apply List.Forall_forall. intros e He.
  destruct (CollectFacts.interactiveOf_described rawElements e He)
    as (i & raw & _ & ->).
  apply CollectFacts.deriveLabel_truthy.
Qed.

(** X9. In the selector set [buildSelectors] gives an element, no
    selector is the empty string, the primary selector is not repeated
    among the fallbacks, and the positional selector
    [tag:nth-of-type(index + 1)] is always there, as the primary or as a
    fallback. *)
Theorem buildSelectors_keeps_a_positional_selector :
  forall el : Collect.RawElement,
    Js.truthy (Selectors.primary (Collect.buildSelectors el)) = true
    /\ Forall (fun s => Js.truthy s = true)
         (Selectors.fallback (Collect.buildSelectors el))
    /\ ~ In (Selectors.primary (Collect.buildSelectors el))
           (Selectors.fallback (Collect.buildSelectors el))
    /\ In (Js.toLowerCase (Collect.tagName el) +:+ ":nth-of-type("
           +:+ pretty (Collect.index el + 1)%nat +:+ ")")
         (Selectors.primary (Collect.buildSelectors el)
          :: Selectors.fallback (Collect.buildSelectors el)).
Proof.
  intros el. unfold Collect.buildSelectors.
  set (tag := Js.toLowerCase (Collect.tagName el)).
  set (nth := tag +:+ ":nth-of-type(" +:+ pretty (Collect.index el + 1)%nat
              +:+ ")").
  set (named := fun n : string => tag +:+ Collect.attribute "name" n).
  set (pushed :=
         Collect.pushIf (Collect.placeholder el)
           (Collect.attribute "placeholder")
           (Collect.pushIf (Collect.name el) named
              (Collect.pushIf (Collect.id el) (fun i => "#" +:+ i)
                 (Collect.pushIf (Collect.ariaLabel el)
                    (Collect.attribute "aria-label") [])))).
  assert (Hnth : Js.truthy nth = true).
  { subst nth. apply CollectFacts.truthy_append_r. reflexivity. }
  assert (Hnamed : forall n, Js.truthy (named n) = true).
  { intros n. subst named. simpl. apply CollectFacts.truthy_append_r.
    reflexivity. }
  assert (Hall : Forall (fun s => Js.truthy s = true) (pushed ++ [nth])%list).
  { apply Forall_app. split; [|constructor; [exact Hnth | constructor]].
    subst pushed.
    repeat (apply CollectFacts.pushIf_truthy;
            [first [exact Hnamed | intros v; reflexivity]|]).
    constructor. }
  assert (Hin : In nth (pushed ++ [nth])%list).
  { apply in_or_app. right. left. reflexivity. }
  destruct (Js.truthyOpt (Collect.dataTestId el)).
  { simpl. split; [reflexivity|].
    split; [apply CollectFacts.filter_keeps; exact Hall|].
    split; [apply CollectFacts.filter_not_primary|].
    apply CollectFacts.In_filter_or. exact Hin. }
  destruct (Js.truthyOpt (Collect.name el)).
  { simpl. split; [apply Hnamed|].
    split; [apply CollectFacts.filter_keeps; exact Hall|].
    split; [apply CollectFacts.filter_not_primary|].
    apply CollectFacts.In_filter_or. exact Hin. }
  destruct (Js.truthyOpt (Collect.ariaLabel el)).
  { simpl. split; [reflexivity|].
    split; [apply CollectFacts.filter_keeps; exact Hall|].
    split; [apply CollectFacts.filter_not_primary|].
    apply CollectFacts.In_filter_or. exact Hin. }
  destruct (Js.truthyOpt (Collect.id el)).
  { simpl. split; [reflexivity|].
    split; [apply CollectFacts.filter_keeps; exact Hall|].
    split; [apply CollectFacts.filter_not_primary|].
    apply CollectFacts.In_filter_or. exact Hin. }
  destruct (pushed ++ [nth])%list as [|first rest] eqn:Hl.
  { destruct Hin. }
  simpl. inversion Hall as [|? ? Hfirst Hrest]; subst.
  split; [exact Hfirst|].
  split; [apply CollectFacts.filter_keeps; exact Hrest|].
  split; [apply CollectFacts.filter_not_primary|].
  destruct Hin as [Heq|Hin]; [left; exact Heq|].
  apply CollectFacts.In_filter_or. exact Hin.
Qed.

(* --------------------------------------------------------------------- *)
(** ** Cache keys                                                         *)
(* --------------------------------------------------------------------- *)

Module KeyFacts.
Import JsText Keys.

#[local] Arguments String.append !s1 s2 : simpl nomatch.

(** The class [[a-z0-9]] under the flag [i]: the letters of either
    case and the digits. *)
Lemma kept_alnum c :
  kept c = (Js.inRange 97 122 c || Js.inRange 65 90 c || Js.inRange 48 57 c)%bool.
Proof. destruct c as [[] [] [] [] [] [] [] []]; vm_compute; reflexivity. Qed.

Lemma clean_sanitized c : clean (if kept c then c else underscore) = true.
Proof.
  unfold clean. destruct (kept c) eqn:H; [rewrite H; reflexivity|].
  rewrite Ascii.eqb_refl. apply Bool.orb_true_r.
Qed.

Lemma allUnits_sanitize s : allUnits clean (sanitize s) = true.
Proof.
  unfold sanitize. induction s as [|c s IH]; simpl; [reflexivity|].
  rewrite clean_sanitized. exact IH.
Qed.

Lemma allUnits_impl (p q : ascii -> bool) s :
  (forall c, p c = true -> q c = true) ->
  allUnits p s = true -> allUnits q s = true.
Proof.
  intros Hpq. induction s as [|c s IH]; simpl; [reflexivity|].
  intros H. apply Bool.andb_true_iff in H. destruct H as [Hc Hs].
  rewrite (Hpq c Hc). apply IH. exact Hs.
Qed.

Lemma allUnits_append p a b :
  allUnits p (a +:+ b) = (allUnits p a && allUnits p b)%bool.
Proof.
  induction a as [|c a IH]; simpl; [reflexivity|].
  rewrite IH. apply Bool.andb_assoc.
Qed.

Lemma allUnits_sliceTo p n s :
  allUnits p s = true -> allUnits p (sliceTo n s) = true.
Proof.
  revert s. induction n as [|n IH]; intros [|c s]; simpl; try reflexivity.
  intros H. apply Bool.andb_true_iff in H. destruct H as [Hc Hs].
  rewrite Hc. apply IH. exact Hs.
Qed.

Lemma allUnits_join p sep parts :
  allUnits p sep = true ->
  Forall (fun s => allUnits p s = true) parts ->
  allUnits p (Js.join sep parts) = true.
Proof.
  intros Hsep H. induction H as [|x parts Hx Hparts IH]; [reflexivity|].
  destruct parts as [|y parts]; [exact Hx|].
  change (Js.join sep (x :: y :: parts))
    with (x +:+ sep +:+ Js.join sep (y :: parts)).
  rewrite !allUnits_append, Hx, Hsep, IH. reflexivity.
Qed.

Lemma plain_lowerUnit c : joined c = true -> plain (Js.lowerUnit c) = true.
Proof.
  unfold joined, clean. rewrite kept_alnum.
  destruct c as [[] [] [] [] [] [] [] []]; vm_compute;
    first [reflexivity | discriminate].
Qed.

Lemma allUnits_toLowerCase s :
  allUnits joined s = true -> allUnits plain (Js.toLowerCase s) = true.
Proof.
  induction s as [|c s IH]; simpl; [reflexivity|].
  intros H. apply Bool.andb_true_iff in H. destruct H as [Hc Hs].
  rewrite (plain_lowerUnit c Hc). apply IH. exact Hs.
Qed.

Lemma truthy_toLowerCase s : Js.truthy (Js.toLowerCase s) = Js.truthy s.
Proof. destruct s; reflexivity. Qed.

Lemma truthy_sanitize s : Js.truthy (sanitize s) = Js.truthy s.
Proof. destruct s; reflexivity. Qed.

Lemma truthy_sliceTo n s : Js.truthy (sliceTo (S n) s) = Js.truthy s.
Proof. destruct s; reflexivity. Qed.

Lemma truthy_join sep parts :
  Forall (fun s => Js.truthy s = true) parts ->
  Js.truthy (Js.join sep parts)
  = match parts with [] => false | _ => true end.
Proof.
  intros H. destruct H as [|x parts Hx Hparts]; [reflexivity|].
  destruct parts as [|y parts]; [exact Hx|].
  change (Js.join sep (x :: y :: parts))
    with (x +:+ sep +:+ Js.join sep (y :: parts)).
  destruct x; [discriminate | reflexivity].
Qed.

Lemma filter_truthy parts :
  Forall (fun s => Js.truthy s = true) (List.filter Js.truthy parts).
Proof.
  induction parts as [|x parts IH]; simpl; [constructor|].
  destruct (Js.truthy x) eqn:Hx; [constructor; assumption | exact IH].
Qed.

Lemma filter_empty parts :
  match List.filter Js.truthy parts with [] => false | _ => true end
  = existsb Js.truthy parts.
Proof.
  induction parts as [|x parts IH]; simpl; [reflexivity|].
  destruct (Js.truthy x); [reflexivity | exact IH].
Qed.

Lemma length_sanitize s : String.length (sanitize s) = String.length s.
Proof.
  unfold sanitize.
  induction s as [|c s IH]; simpl; [reflexivity | rewrite IH; reflexivity].
Qed.

Lemma sanitize_idempotent s : sanitize (sanitize s) = sanitize s.
Proof.
  unfold sanitize. induction s as [|c s IH]; simpl; [reflexivity|].
  rewrite IH. f_equal.
  destruct (kept c) eqn:H; [rewrite H; reflexivity|]. reflexivity.
Qed.

Lemma clean_noHyphen c : clean c = true -> noHyphen c = true.
Proof.
  unfold clean. rewrite kept_alnum.
  destruct c as [[] [] [] [] [] [] [] []]; vm_compute;
    first [reflexivity | discriminate].
Qed.

(** Text without hyphens is recovered from what follows it after a
    double hyphen. *)
Lemma split_at_hyphens a b r1 r2 :
  allUnits noHyphen a = true -> allUnits noHyphen b = true ->
  a +:+ "--" +:+ r1 = b +:+ "--" +:+ r2 -> a = b /\ r1 = r2.
Proof.
  revert b. induction a as [|x a IH]; intros [|y b] Ha Hb H; simpl in *.
  - injection H as H. split; [reflexivity | exact H].
  - injection H as Hy _. subst y. discriminate Hb.
  - injection H as Hx _. subst x. discriminate Ha.
  - injection H as Hxy H. subst y.
    apply Bool.andb_true_iff in Ha. apply Bool.andb_true_iff in Hb.
    destruct (IH b (proj2 Ha) (proj2 Hb) H) as [-> ->].
    split; reflexivity.
Qed.

Lemma noHyphen_sanitize s : allUnits noHyphen (sanitize s) = true.
Proof.
  apply (allUnits_impl clean); [apply clean_noHyphen | apply allUnits_sanitize].
Qed.

End KeyFacts.

(** X10. Two selector cache keys are equal exactly when the refs are
    equal and the hostnames are equal once every code unit that is not
    a letter or a digit is replaced by an underscore; so a hostname and
    its sanitized form share their keys. *)
Theorem deriveSelectorKey_separates_refs_and_sanitized_hosts :
  forall hostname1 ref1 hostname2 ref2 : string,
    (Keys.deriveSelectorKey hostname1 ref1 = Keys.deriveSelectorKey hostname2 ref2
     <-> Keys.sanitize hostname1 = Keys.sanitize hostname2 /\ ref1 = ref2)
    /\ Keys.deriveSelectorKey (Keys.sanitize hostname1) ref1
       = Keys.deriveSelectorKey hostname1 ref1
    /\ String.length (Keys.sanitize hostname1) = String.length hostname1.
Proof.
  intros h1 r1 h2 r2. unfold Keys.deriveSelectorKey. split; [split|split].
  - apply KeyFacts.split_at_hyphens; apply KeyFacts.noHyphen_sanitize.
  - intros [-> ->]. reflexivity.
  - rewrite KeyFacts.sanitize_idempotent. reflexivity.
  - apply KeyFacts.length_sanitize.
Qed.

(** X11. A cache key derived without a form signature consists of
    lower-case letters, digits, underscores and hyphens only; and a
    cache key is empty exactly when the hostname, the path pattern, the
    form signature and the macro name are all empty or missing. *)
Theorem deriveCacheKey_is_plain_without_form_signature :
  forall params : Keys.CacheKeyParams,
    (Keys.formSignature params = None ->
     JsText.allUnits Keys.plain (Keys.deriveCacheKey params) = true)
    /\ Js.truthy (Keys.deriveCacheKey params)
       = (Js.truthy (Keys.hostname params)
          || Js.truthy (Keys.pathPattern params)
          || Js.truthyOpt (Keys.formSignature params)
          || Js.truthyOpt (Keys.macroName params))%bool.
Proof.
  intros params. unfold Keys.deriveCacheKey.
  assert (Hclean : forall s,
            JsText.allUnits Keys.joined (Keys.sanitize s) = true).
  { intros s. apply (KeyFacts.allUnits_impl Keys.clean);
      [intros c Hc; unfold Keys.joined; rewrite Hc; reflexivity|].
    apply KeyFacts.allUnits_sanitize. }
  split.
  - intros Hf. rewrite Hf. apply KeyFacts.allUnits_toLowerCase.
    apply KeyFacts.allUnits_join; [reflexivity|].
    apply CollectFacts.filter_keeps.
    constructor; [apply Hclean|].
    constructor; [apply KeyFacts.allUnits_sliceTo; apply Hclean|].
    constructor; [reflexivity|].
    constructor; [|constructor].
    destruct (Keys.macroName params) as [s|]; [apply Hclean | reflexivity].
  - rewrite KeyFacts.truthy_toLowerCase.
    rewrite KeyFacts.truthy_join by apply KeyFacts.filter_truthy.
    rewrite KeyFacts.filter_empty. cbn [existsb].
    rewrite KeyFacts.truthy_sliceTo, !KeyFacts.truthy_sanitize.
    rewrite Bool.orb_false_r, !Bool.orb_assoc.
    destruct (Keys.formSignature params) as [s|],
      (Keys.macroName params) as [t|]; cbn [Js.truthyOpt Js.empty];
      rewrite ?KeyFacts.truthy_sliceTo, ?KeyFacts.truthy_sanitize;
      reflexivity.
Qed.

(** X12. The form signature does not depend on the order in which the
    input names are given: two lists with the same names, each as often
    in one as in the other, have the same signature. *)
Theorem deriveFormSignature_ignores_the_order_of_names :
  forall inputNames reordered : list string,
    Permutation inputNames reordered ->
    Keys.deriveFormSignature inputNames = Keys.deriveFormSignature reordered.
Proof.
  intros l1 l2 Hperm. unfold Keys.deriveFormSignature. f_equal.
  apply (Sorted_unique String.le).
  - apply Sorted_merge_sort. apply _.
  - apply Sorted_merge_sort. apply _.
  - rewrite !merge_sort_Permutation. exact Hperm.
Qed.

Lemma deriveFormSignature_ignores_the_order_of_names_witness :
  Keys.deriveFormSignature ["password"; "email"; "otp"]
  = Keys.deriveFormSignature ["otp"; "password"; "email"]
  /\ Keys.deriveFormSignature ["password"; "email"; "otp"]
     = "email,otp,password".
Proof.
  split.
  - apply deriveFormSignature_ignores_the_order_of_names.
    symmetry. exact (Permutation_cons_append ["password"; "email"] "otp").
  - vm_compute. reflexivity.
Defined.

(* --------------------------------------------------------------------- *)
(** ** The step loop as a whole                                           *)
(* --------------------------------------------------------------------- *)

Module RunFacts.
Import Selectors Model Schemas Recovery Executor LoopFacts RunShape.

Section WithBrowser.
Context {World : Type} (page : Probe World) (browser : Browser World).

#[local] Abbreviation tryStep := (Executor.tryStep page browser).
#[local] Abbreviation turn := (Executor.turn page browser).
#[local] Abbreviation runSteps := (Executor.runSteps page browser).

(** What a turn records, by the way it ends. *)
Lemma turn_cases step cs w :
  (exists result log cs' w',
      turn step cs w = Continue result log cs' w'
      /\ status result = success /\ error result = None
      /\ id result = Step.id step /\ op result = Step.op step
      /\ thrown log = None)
  \/ (exists result log w' err,
        turn step cs w = Break result log w'
        /\ status result = failed /\ error result = Some (errorText err)
        /\ selectorUsed result = None
        /\ id result = Step.id step /\ op result = Step.op step
        /\ thrown log = Some err).
Proof.
  unfold Executor.turn.
  destruct (dateNow browser w) as [t0 w0].
  destruct (tryStep step cs w0) as [[r evs] w1].
  destruct r as [used|err].
  - destruct (dateNow browser w1) as [t1 w2].
    destruct (collectState browser _ w2) as [snap w3].
    left. do 4 eexists. split; [reflexivity|]. simpl. repeat split.
  - destruct (dateNow browser w1) as [t1 w2].
    destruct (afterFailure browser err w2) as [rec w3].
    right. do 4 eexists. split; [reflexivity|]. simpl. repeat split.
Qed.

(** The loop takes the steps in order and leaves at the first one that
    fails. *)
Lemma runSteps_fail_fast todo cs w :
  failFast (fst (fst (runSteps todo cs w))) todo.
Proof.
  unfold failFast, succeeded.
  revert cs w. induction todo as [|step todo IH]; intros cs w; simpl.
  - split; [constructor|]. left. split; [constructor | reflexivity].
  - destruct (turn_cases step cs w)
      as [(result & log & cs' & w' & Hturn & Hst & Herr & Hid & Hop & _)
         |(result & log & w' & err & Hturn & Hst & Herr & Hsel & Hid & Hop & _)];
      rewrite Hturn.
    + specialize (IH cs' w').
      destruct (Executor.runSteps page browser todo cs' w') as [[rs ls] w2].
      simpl in *. destruct IH as [Hsame Hshape]. split.
      * constructor; [split; assumption | exact Hsame].
      * destruct Hshape as [[Hall Hlen] | (done & r & text & Hrs & Hdone & Hr)].
        -- left. split; [constructor; [split; assumption | exact Hall]|].
           f_equal. exact Hlen.
        -- right. exists (result :: done), r, text. rewrite Hrs.
           split; [reflexivity|].
           split; [constructor; [split; assumption | exact Hdone] | exact Hr].
    + simpl. split.
      * constructor; [split; assumption | constructor].
      * right. exists [], result, (errorText err).
        split; [reflexivity|]. split; [constructor|]. auto.
Qed.

(** The events of the [try] block: the detectors' answers, then at
    most one dispatch. *)
Lemma tryStep_events step cs w :
  Forall (fun e => isRecovery e = false) (snd (fst (tryStep step cs w))).
Proof.
  unfold Executor.tryStep.
  destruct (detectCaptcha page w) as [c w1]. destruct c.
  { repeat constructor. }
  destruct (detect2FA page w1) as [f w2]. destruct f.
  { repeat constructor. }
  pose proof (executeStep_events browser step cs w2) as H.
  destruct (executeStep browser step cs w2) as [[r evs] w3]. simpl in *.
  destruct H as [->|[call ->]]; repeat constructor.
Qed.

Lemma afterFailure_events err w :
  fst (afterFailure browser err w)
  = if (match err with
        | Raised e => classEqb (class e) CElementMissing && recoverable e
        | Foreign _ => false
        end)%bool
    then [EvHandleCookieBanner; EvDismissModal] else [].
Proof.
  unfold afterFailure. destruct err as [e|text]; simpl.
  - destruct (class e), (recoverable e); simpl; try reflexivity;
      destruct (handleCookieBanner browser w) as [b1 w1];
      destruct (dismissModal browser w1) as [b2 w2]; reflexivity.
  - reflexivity.
Qed.

End WithBrowser.
End RunFacts.

(** X13. The run log [executePlan] returns has one result per step
    attempted, with the step's id and op, in the order of the plan; the
    pass ends at the first step that fails, whatever the error: every
    result before the last is a success, a failed result is the last
    and carries the error text, and when no step fails there is a
    result for every step of the plan. *)
Theorem executePlan_stops_at_the_first_failed_step
    {World : Type} (page : Recovery.Probe World)
    (browser : Executor.Browser World)
    (plan : Schemas.Plan.t) (config : Config.WebRunnerConfig)
    (currentState : Model.CompactState) (downloadDir runlogPath : string)
    (w : World) :
  match fst (fst (Executor.executePlan page browser plan config currentState
                    downloadDir runlogPath w)) with
  | Ok runLog =>
      RunShape.failFast (Executor.steps runLog) (Schemas.Plan.steps plan)
  | Throw _ => True
  end.
Proof.
  pose proof (StepFacts.executePlan_runs_loop page browser plan config
                currentState downloadDir runlogPath w) as Hrun.
  destruct (Executor.executePlan page browser plan config currentState
              downloadDir runlogPath w) as [[r trace] w3].
  pose proof (RunFacts.runSteps_fail_fast page browser
                (Schemas.Plan.steps plan) currentState
                (Executor.loopStart browser w)) as Hshape.
  destruct (Executor.runSteps page browser (Schemas.Plan.steps plan)
              currentState (Executor.loopStart browser w)) as [[rs ls] w4].
  destruct Hrun as (_ & _ & Hres). simpl in *.
  destruct r as [runLog|t]; [|exact I].
  rewrite (Hres runLog eq_refl). exact Hshape.
Qed.

(** A run: of the plan [click E1; type E99; screenshot] on a page
    whose only element is [E1], the second step fails and the third is
    never attempted. *)
Example executePlan_run_ends_at_the_failed_step :
  match fst (fst (Executor.executePlan Sample.calmPage Sample.browser
                    (Sample.planOf [Sample.step "s1" "click" (Some "E1");
                                    Sample.step "s2" "type" (Some "E99");
                                    Sample.step "s3" "screenshot" None])
                    Config.defaultConfig Sample.oneButton "downloads"
                    "runlog.json" 0)) with
  | Ok runLog =>
      map (fun r => (Executor.id r, Executor.status r)) (Executor.steps runLog)
      = [("s1", Executor.success); ("s2", Executor.failed)]
  | Throw _ => False
  end.
Proof. vm_compute. reflexivity. Qed.


Module StepMore.
Import Selectors Model Schemas Recovery Executor LoopFacts RunShape.

Section WithBrowser.
Context {World : Type} (page : Probe World) (browser : Browser World).

Lemma executeStep_navigate_without_url step cs w :
  Step.op step = "navigate" -> Js.truthyOpt (Step.url step) = false ->
  executeStep browser step cs w
  = (Throw (Raised (NavigationFailed "(missing url)"
                      (Note "step.url is required for navigate op"))), [], w).
Proof.
  intros Hop Hurl. unfold executeStep. rewrite Hop. simpl.
  destruct (Step.url step) as [u|]; [|reflexivity].
  simpl in Hurl. rewrite Hurl. reflexivity.
Qed.

(** Where the selector a step reports comes from. *)
Lemma executeStep_used step cs w sel evs w' :
  executeStep browser step cs w = (Ok (Some sel), evs, w') ->
  exists el,
    resolveRef (Step.ref step) cs = Ok el
    /\ (Step.op step = "click"
        /\ click browser (selectors el) w = (Ok sel, w')
        \/ Step.op step = "select"
           /\ select browser (selectors el)
                (Js.orElse (Step.value step) Js.empty) w = (Ok sel, w')).
Proof.
  unfold executeStep, dispatched, discard, pass.
  destruct (String.eqb_spec (Step.op step) "navigate") as [_|_].
  { destruct (Step.url step) as [u|]; [|discriminate].
    destruct (Js.truthy u); [|discriminate].
    destruct (navigate browser u w) as [[?|?] ?]; discriminate. }
  destruct (String.eqb_spec (Step.op step) "click") as [Hop|_].
  { destruct (resolveRef (Step.ref step) cs) as [el|t]; [|discriminate].
    destruct (click browser (selectors el) w) as [[s|t] w1] eqn:Hc;
      [|discriminate].
    simpl. intros [= <- _ <-]. exists el. split; [reflexivity|].
    left. split; [exact Hop | exact Hc]. }
  destruct (String.eqb_spec (Step.op step) "type") as [_|_].
  { destruct (resolveRef (Step.ref step) cs) as [el|t]; [|discriminate].
    destruct (type browser (selectors el) _ w) as [[?|?] ?]; discriminate. }
  destruct (String.eqb_spec (Step.op step) "select") as [Hop|_].
  { destruct (resolveRef (Step.ref step) cs) as [el|t]; [|discriminate].
    destruct (select browser (selectors el) _ w) as [[s|t] w1] eqn:Hc;
      [|discriminate].
    simpl. intros [= <- _ <-]. exists el. split; [reflexivity|].
    right. split; [exact Hop | exact Hc]. }
  destruct (String.eqb_spec (Step.op step) "waitFor") as [_|_].
  { destruct (waitFor browser _ _ w) as [[?|?] ?]; discriminate. }
  destruct (String.eqb_spec (Step.op step) "screenshot") as [_|_].
  { destruct (screenshot browser w) as [[?|?] ?]; discriminate. }
  destruct (String.eqb_spec (Step.op step) "scroll") as [_|_].
  { destruct (scroll browser _ _ w) as [[?|?] ?]; discriminate. }
  destruct (String.eqb_spec (Step.op step) "extract") as [_|_].
  { destruct (evaluateInnerText browser w) as [[?|?] ?]; discriminate. }
  discriminate.
Qed.

Lemma turn_used step cs w sel :
  selectorUsed (turnResult (Executor.turn page browser step cs w)) = Some sel ->
  status (turnResult (Executor.turn page browser step cs w)) = success
  /\ exists el w0 w1,
       resolveRef (Step.ref step) cs = Ok el
       /\ (Step.op step = "click"
           /\ click browser (selectors el) w0 = (Ok sel, w1)
           \/ Step.op step = "select"
              /\ select browser (selectors el)
                   (Js.orElse (Step.value step) Js.empty) w0 = (Ok sel, w1)).
Proof.
  unfold Executor.turn.
  destruct (dateNow browser w) as [t0 w0].
  unfold Executor.tryStep.
  destruct (detectCaptcha page w0) as [c w1]. destruct c.
  { destruct (dateNow browser w1) as [t1 w2]. simpl. discriminate. }
  destruct (detect2FA page w1) as [f w2]. destruct f.
  { destruct (dateNow browser w2) as [t1 w3]. simpl. discriminate. }
  destruct (executeStep browser step cs w2) as [[r evs] w3] eqn:Hexec.
  destruct r as [used|err].
  - destruct (dateNow browser w3) as [t1 w4].
    destruct (collectState browser _ w4) as [snap w5]. simpl.
    intros Hused. subst used. split; [reflexivity|].
    destruct (executeStep_used step cs w2 sel evs w3 Hexec) as (el & Hres & H).
    exists el, w2, w3. split; assumption.
  - destruct (dateNow browser w3) as [t1 w4].
    destruct (afterFailure browser err w4) as [rec w5]. simpl. discriminate.
Qed.

Lemma turn_events step cs w :
  exists evs,
    Forall (fun e => isRecovery e = false) evs
    /\ events (turnLog (Executor.turn page browser step cs w))
       = (evs ++
          match thrown (turnLog (Executor.turn page browser step cs w)) with
          | Some (Raised e) =>
              if (classEqb (class e) CElementMissing && recoverable e)%bool
              then [EvHandleCookieBanner; EvDismissModal] else []
          | _ => []
          end)%list.
Proof.
  unfold Executor.turn.
  destruct (dateNow browser w) as [t0 w0].
  pose proof (RunFacts.tryStep_events page browser step cs w0) as Hev.
  destruct (Executor.tryStep page browser step cs w0) as [[r evs] w1].
  simpl in Hev. destruct r as [used|err].
  - destruct (dateNow browser w1) as [t1 w2].
    destruct (collectState browser _ w2) as [snap w3]. simpl.
    exists (evs ++ [EvCollectState])%list. split.
    + apply Forall_app. split; [exact Hev | repeat constructor].
    + rewrite app_nil_r. reflexivity.
  - destruct (dateNow browser w1) as [t1 w2].
    pose proof (RunFacts.afterFailure_events browser err w2) as Haf.
    destruct (afterFailure browser err w2) as [rec w3]. simpl in *.
    exists evs. split; [exact Hev|]. rewrite Haf.
    destruct err as [e|text]; reflexivity.
Qed.

End WithBrowser.
End StepMore.



(** X16. A step result carries [selectorUsed] only for a [click] or a
    [select] that succeeded, and then it is the selector the browser
    call returned for the selectors of the resolved element; a [type]
    step records none, and neither does any failed step. *)
Theorem selectorUsed_comes_from_click_or_select
    {World : Type} (page : Recovery.Probe World)
    (browser : Executor.Browser World)
    (step : Schemas.Step.t) (currentState : Model.CompactState) (w : World)
    (sel : string) :
  Executor.selectorUsed
    (Executor.turnResult (Executor.turn page browser step currentState w))
  = Some sel ->
  Executor.status
    (Executor.turnResult (Executor.turn page browser step currentState w))
  = Executor.success
  /\ exists el w0 w1,
       Executor.resolveRef (Schemas.Step.ref step) currentState = Ok el
       /\ (Schemas.Step.op step = "click"
           /\ Executor.click browser (Model.selectors el) w0 = (Ok sel, w1)
           \/ Schemas.Step.op step = "select"
              /\ Executor.select browser (Model.selectors el)
                   (Js.orElse (Schemas.Step.value step) Js.empty) w0
                 = (Ok sel, w1)).
Proof. apply StepMore.turn_used. Qed.

Lemma selectorUsed_comes_from_click_or_select_witness :
  Executor.selectorUsed
    (Executor.turnResult
       (Executor.turn Sample.calmPage Sample.browser
          (Sample.step "s1" "click" (Some "E1")) Sample.oneButton 0))
  = Some "#E1"
  /\ Executor.selectorUsed
       (Executor.turnResult
          (Executor.turn Sample.calmPage Sample.browser
             (Sample.step "s1" "type" (Some "E1")) Sample.oneButton 0))
     = None
  /\ exists el,
       Executor.resolveRef (Some "E1") Sample.oneButton = Ok el.
Proof.
  split; [reflexivity|]. split; [reflexivity|].
  destruct (selectorUsed_comes_from_click_or_select
              Sample.calmPage Sample.browser
              (Sample.step "s1" "click" (Some "E1")) Sample.oneButton 0
              "#E1" eq_refl) as (_ & el & _ & _ & Hres & _).
  exists el. exact Hres.
Defined.

(** X17. In a turn of the step loop the recovery helpers run exactly
    when the error caught is an [ElementMissing]: then cookie banner
    and modal handling, in this order, are the last two events of the
    turn, and the world the turn leaves is the one [handleCookieBanner]
    and then [dismissModal] make of the world at the clock read after
    the failure; after any other error the turn has no recovery event
    and leaves the world as it was at that clock read; after a success
    it has no recovery event either, and the world the turn leaves is
    the one [collectState] makes of the world at the clock read after
    the step. *)
Theorem recovery_runs_exactly_after_ElementMissing
    {World : Type} (page : Recovery.Probe World)
    (browser : Executor.Browser World)
    (step : Schemas.Step.t) (currentState : Model.CompactState) (w : World) :
  (In Executor.EvHandleCookieBanner
      (Executor.events
         (Executor.turnLog (Executor.turn page browser step currentState w)))
   <-> RunShape.isElementMissing
         (Executor.thrown
            (Executor.turnLog (Executor.turn page browser step currentState w))))
  /\ (In Executor.EvDismissModal
        (Executor.events
           (Executor.turnLog (Executor.turn page browser step currentState w)))
      <-> RunShape.isElementMissing
            (Executor.thrown
               (Executor.turnLog
                  (Executor.turn page browser step currentState w))))
  /\ (RunShape.isElementMissing
        (Executor.thrown
           (Executor.turnLog (Executor.turn page browser step currentState w)))
      -> exists evs,
           Executor.events
             (Executor.turnLog (Executor.turn page browser step currentState w))
           = (evs ++ [Executor.EvHandleCookieBanner; Executor.EvDismissModal])%list
           /\ Forall (fun e => Executor.isRecovery e = false) evs)
  /\ (forall result log w',
        Executor.turn page browser step currentState w
        = Executor.Break result log w' ->
        let failedAt :=
          snd (Executor.dateNow browser
                 (snd (Executor.tryStep page browser step currentState
                         (snd (Executor.dateNow browser w))))) in
        (RunShape.isElementMissing (Executor.thrown log) ->
         w' = snd (Executor.dismissModal browser
                     (snd (Executor.handleCookieBanner browser failedAt))))
        /\ (~ RunShape.isElementMissing (Executor.thrown log) ->
            w' = failedAt))
  /\ (forall result log nextState w',
        Executor.turn page browser step currentState w
        = Executor.Continue result log nextState w' ->
        w' = snd (Executor.collectState browser
                    (Model.runId (Model.meta currentState))
                    (snd (Executor.dateNow browser
                            (snd (Executor.tryStep page browser step
                                    currentState
                                    (snd (Executor.dateNow browser w)))))))).
Proof.
  assert (Hcont : forall result log nextState w',
    Executor.turn page browser step currentState w
    = Executor.Continue result log nextState w' ->
    w' = snd (Executor.collectState browser
                (Model.runId (Model.meta currentState))
                (snd (Executor.dateNow browser
                        (snd (Executor.tryStep page browser step currentState
                                (snd (Executor.dateNow browser w)))))))).
  { intros result log nextState w'. unfold Executor.turn.
    destruct (Executor.dateNow browser w) as [t0 w0]. simpl.
    destruct (Executor.tryStep page browser step currentState w0)
      as [[[used|err] evs] w1]; simpl.
    - destruct (Executor.dateNow browser w1) as [t1 w2]. simpl.
      destruct (Executor.collectState browser _ w2) as [snap w3].
      intros [= _ _ _ <-]. reflexivity.
    - destruct (Executor.dateNow browser w1) as [t1 w2].
      destruct (Executor.afterFailure browser err w2) as [rec w3].
      discriminate. }
  assert (Hworld : forall result log w',
    Executor.turn page browser step currentState w
    = Executor.Break result log w' ->
    let failedAt :=
      snd (Executor.dateNow browser
             (snd (Executor.tryStep page browser step currentState
                     (snd (Executor.dateNow browser w))))) in
    (RunShape.isElementMissing (Executor.thrown log) ->
     w' = snd (Executor.dismissModal browser
                 (snd (Executor.handleCookieBanner browser failedAt))))
    /\ (~ RunShape.isElementMissing (Executor.thrown log) ->
        w' = failedAt)).
  { intros result log w'. unfold Executor.turn.
    destruct (Executor.dateNow browser w) as [t0 w0]. simpl.
    destruct (Executor.tryStep page browser step currentState w0)
      as [[[used|err] evs] w1]; simpl.
    { destruct (Executor.dateNow browser w1) as [t1 w2].
      destruct (Executor.collectState browser _ w2) as [snap w3]. discriminate. }
    destruct (Executor.dateNow browser w1) as [t1 w2]. simpl.
    pose proof (TurnFacts.afterFailure_world browser err w2) as Hw.
    destruct (Executor.afterFailure browser err w2) as [rec w3]. simpl in Hw.
    intros [= <- <- <-]. simpl. unfold RunShape.isElementMissing.
    destruct err as [e|text].
    - destruct (classEqb (class e) CElementMissing) eqn:Hc;
        destruct (recoverable e) eqn:Hr; simpl in Hw; split;
        try (intros _; exact Hw).
      + intros Hno. exfalso. apply Hno. exists e. repeat split; try assumption.
        destruct (class e); try discriminate Hc. reflexivity.
      + intros (e' & [= <-] & _ & Hr'). rewrite Hr in Hr'. discriminate.
      + intros (e' & [= <-] & Hc' & _). rewrite Hc' in Hc. discriminate.
      + intros (e' & [= <-] & Hc' & _). rewrite Hc' in Hc. discriminate.
    - split; [intros (e' & [=] & _) | intros _; exact Hw]. }
  destruct (StepMore.turn_events page browser step currentState w)
    as (evs & Hevs & Heq).
  set (log := Executor.turnLog (Executor.turn page browser step currentState w))
    in *.
  assert (Hno : forall e, Executor.isRecovery e = true -> ~ In e evs).
  { intros e He Hin. rewrite List.Forall_forall in Hevs.
    rewrite (Hevs e Hin) in He. discriminate. }
  assert (Hcase :
    (RunShape.isElementMissing (Executor.thrown log)
     /\ Executor.events log
        = (evs ++ [Executor.EvHandleCookieBanner; Executor.EvDismissModal])%list)
    \/ (~ RunShape.isElementMissing (Executor.thrown log)
        /\ Executor.events log = evs)).
  { rewrite Heq. unfold RunShape.isElementMissing.
    destruct (Executor.thrown log) as [[e|text]|].
    - destruct (classEqb (class e) CElementMissing) eqn:Hc;
        destruct (recoverable e) eqn:Hr; simpl.
      + left. split; [|reflexivity]. exists e. repeat split; try assumption.
        destruct (class e); try discriminate Hc. reflexivity.
      + right. split; [|apply app_nil_r].
        intros (e' & [= <-] & _ & Hr'). rewrite Hr in Hr'. discriminate.
      + right. split; [|apply app_nil_r].
        intros (e' & [= <-] & Hc' & _). rewrite Hc' in Hc. discriminate.
      + right. split; [|apply app_nil_r].
        intros (e' & [= <-] & Hc' & _). rewrite Hc' in Hc. discriminate.
    - right. split; [|apply app_nil_r]. intros (e' & [=] & _).
    - right. split; [|apply app_nil_r]. intros (e' & [=] & _). }
  destruct Hcase as [[Hm He]|[Hm He]]; rewrite He.
  - split; [|split; [|split; [|split]]].
    + split; [intros _; exact Hm|]. intros _. apply in_or_app. right.
      left. reflexivity.
    + split; [intros _; exact Hm|]. intros _. apply in_or_app. right.
      right. left. reflexivity.
    + intros _. exists evs. split; [reflexivity | exact Hevs].
    + exact Hworld.
    + exact Hcont.
  - split; [|split; [|split; [|split]]].
    + split; [|intros H; contradiction]. intros Hin.
      exfalso. exact (Hno Executor.EvHandleCookieBanner eq_refl Hin).
    + split; [|intros H; contradiction]. intros Hin.
      exfalso. exact (Hno Executor.EvDismissModal eq_refl Hin).
    + intros H. contradiction.
    + exact Hworld.
    + exact Hcont.
Qed.

(* --------------------------------------------------------------------- *)
(** ** The detectors as substring tests                                   *)
(* --------------------------------------------------------------------- *)

Module DetectorFacts.
Import Regex Recovery.

#[local] Arguments String.append !s1 s2 : simpl nomatch.

Lemma lower_canonicalize c : Js.lowerUnit (canonicalize c) = Js.lowerUnit c.
Proof. destruct c as [[] [] [] [] [] [] [] []]; vm_compute; reflexivity. Qed.

Lemma canonicalize_lower c : canonicalize (Js.lowerUnit c) = canonicalize c.
Proof. destruct c as [[] [] [] [] [] [] [] []]; vm_compute; reflexivity. Qed.

(** Two code units are the same under the flag [i] exactly when their
    lower-case forms are equal. *)
Lemma sameUnit_lower a b :
  sameUnit a b = Ascii.eqb (Js.lowerUnit a) (Js.lowerUnit b).
Proof.
  unfold sameUnit.
  destruct (Ascii.eqb_spec (canonicalize a) (canonicalize b)) as [H|H];
    destruct (Ascii.eqb_spec (Js.lowerUnit a) (Js.lowerUnit b)) as [H'|H'];
    try reflexivity; exfalso.
  - apply H'. rewrite <- (lower_canonicalize a), <- (lower_canonicalize b), H.
    reflexivity.
  - apply H. rewrite <- (canonicalize_lower a), <- (canonicalize_lower b), H'.
    reflexivity.
Qed.

Lemma lineTerminator_lower c :
  lineTerminator (Js.lowerUnit c) = lineTerminator c.
Proof. destruct c as [[] [] [] [] [] [] [] []]; vm_compute; reflexivity. Qed.

Lemma matchHere_lits kw s :
  matchHere (lits kw) s
  = Js.startsWith (Js.toLowerCase s) (Js.toLowerCase kw).
Proof.
  revert s. induction kw as [|c kw IH]; intros s; simpl.
  - destruct (Js.toLowerCase s); reflexivity.
  - destruct s as [|x s]; simpl; [reflexivity|].
    rewrite sameUnit_lower, IH. reflexivity.
Qed.

(** A pattern of literal characters under the flag [i] is a substring
    test on the lower-cased text. *)
Lemma matchAnywhere_lits kw s :
  matchAnywhere (lits kw) s
  = Js.includes (Js.toLowerCase s) (Js.toLowerCase kw).
Proof.
  induction s as [|x s IH].
  - simpl. rewrite matchHere_lits. simpl. rewrite Bool.orb_false_r.
    reflexivity.
  - cbn [matchAnywhere Js.toLowerCase Js.includes].
    rewrite matchHere_lits, IH. reflexivity.
Qed.

Lemma matchHere_gap a b s :
  matchHere (lits a ++ Dot :: lits b)%list s = true
  <-> exists c,
        lineTerminator c = false
        /\ Js.startsWith (Js.toLowerCase s)
             (Js.toLowerCase a +:+ String c (Js.toLowerCase b)) = true.
Proof.
  revert s. induction a as [|x a IH]; intros s.
  - cbn [lits app matchHere Js.toLowerCase]. destruct s as [|y s].
    + split; [discriminate|]. intros (c & _ & H). discriminate H.
    + rewrite Bool.andb_true_iff, Bool.negb_true_iff, matchHere_lits.
      split.
      * intros [Hlt Hm]. exists (Js.lowerUnit y).
        rewrite lineTerminator_lower. split; [exact Hlt|].
        simpl. rewrite Ascii.eqb_refl. exact Hm.
      * intros (c & Hlt & H). simpl in H.
        apply Bool.andb_true_iff in H. destruct H as [Hc Hm].
        apply Ascii.eqb_eq in Hc. subst c.
        rewrite lineTerminator_lower in Hlt. split; assumption.
  - cbn [lits app matchHere Js.toLowerCase]. destruct s as [|y s].
    + split; [discriminate|]. intros (c & _ & H). discriminate H.
    + rewrite Bool.andb_true_iff, sameUnit_lower, IH. simpl. split.
      * intros [Hxy (c & Hlt & H)]. exists c. split; [exact Hlt|].
        rewrite Hxy. exact H.
      * intros (c & Hlt & H). apply Bool.andb_true_iff in H.
        destruct H as [Hxy H]. split; [exact Hxy|]. exists c. split; assumption.
Qed.

Lemma matchAnywhere_gap a b s :
  matchAnywhere (lits a ++ Dot :: lits b)%list s = true
  <-> exists c,
        lineTerminator c = false
        /\ Js.includes (Js.toLowerCase s)
             (Js.toLowerCase a +:+ String c (Js.toLowerCase b)) = true.
Proof.
  induction s as [|y s IH].
  - cbn [matchAnywhere Js.toLowerCase Js.includes].
    rewrite Bool.orb_false_r, matchHere_gap. split.
    + intros (c & Hlt & H). exists c. split; [exact Hlt|].
      cbn [Js.toLowerCase] in H. rewrite H. reflexivity.
    + intros (c & Hlt & H). exists c. split; [exact Hlt|].
      rewrite Bool.orb_false_r in H. exact H.
  - cbn [matchAnywhere Js.toLowerCase Js.includes].
    rewrite Bool.orb_true_iff, matchHere_gap, IH. split.
    + intros [(c & Hlt & H)|(c & Hlt & H)]; exists c; split; try assumption.
      * cbn [Js.toLowerCase] in H. rewrite H. reflexivity.
      * rewrite H. apply Bool.orb_true_r.
    + intros (c & Hlt & H). apply Bool.orb_true_iff in H.
      destruct H as [H|H]; [left | right]; exists c; split; assumption.
Qed.

Lemma startsWith_includes s a b :
  Js.startsWith s (a +:+ b) = true -> Js.includes s b = true.
Proof.
  revert s. induction a as [|x a IH]; intros s.
  - change (EmptyString +:+ b) with b.
    intros H. destruct s; cbn [Js.includes]; rewrite H; reflexivity.
  - change (String x a +:+ b) with (String x (a +:+ b)).
    destruct s as [|y s]; [discriminate|]. cbn [Js.startsWith]. intros H.
    apply Bool.andb_true_iff in H. destruct H as [_ H].
    apply IH in H. cbn [Js.includes]. rewrite H. apply Bool.orb_true_r.
Qed.

(** Text that includes a string includes the string's endings. *)
Lemma includes_ending s a b :
  Js.includes s (a +:+ b) = true -> Js.includes s b = true.
Proof.
  induction s as [|y s IH]; cbn [Js.includes].
  - rewrite Bool.orb_false_r. apply startsWith_includes.
  - intros H. apply Bool.orb_true_iff in H. destruct H as [H|H].
    + exact (startsWith_includes _ _ _ H).
    + apply IH in H.
      change (Js.includes (String y s) b = true). cbn [Js.includes].
      rewrite H. apply Bool.orb_true_r.
Qed.

End DetectorFacts.

(** X18. [detectCaptcha] answers yes exactly when the text of the page,
    lower-cased, includes "captcha", "i'm not a robot" or
    "bot detection" anywhere, inside a word too, or when a reCAPTCHA or
    hCaptcha frame is present; a text that cannot be read counts as
    empty and a frame query that fails as no frame. *)
Theorem detectCaptcha_is_a_substring_test
    {World : Type} (page : Recovery.Probe World) (w : World) :
  fst (Recovery.detectCaptcha page w)
  = (Js.includes
       (Js.toLowerCase
          match fst (Recovery.bodyTextLower page w) with
          | Ok s => s
          | Throw _ => Js.empty
          end) "captcha"
     || Js.includes
          (Js.toLowerCase
             match fst (Recovery.bodyTextLower page w) with
             | Ok s => s
             | Throw _ => Js.empty
             end) "i'm not a robot"
     || Js.includes
          (Js.toLowerCase
             match fst (Recovery.bodyTextLower page w) with
             | Ok s => s
             | Throw _ => Js.empty
             end) "bot detection"
     || match fst (Recovery.present page Recovery.captchaFrames
                     (snd (Recovery.bodyTextLower page w))) with
        | Ok b => b
        | Throw _ => false
        end)%bool.
Proof.
  unfold Recovery.detectCaptcha.
  destruct (Recovery.bodyTextLower page w) as [t w1]. simpl.
  destruct (Recovery.present page Recovery.captchaFrames w1) as [f w2]. simpl.
  f_equal. unfold Regex.test, Recovery.captchaPattern, Regex.anyOf.
  cbn [Regex.alternatives existsb].
  rewrite !DetectorFacts.matchAnywhere_lits.
  set (text := Js.toLowerCase match t with Ok s => s | Throw _ => Js.empty end).
  change (Js.toLowerCase "captcha") with "captcha".
  change (Js.toLowerCase "recaptcha") with "recaptcha".
  change (Js.toLowerCase "i'm not a robot") with "i'm not a robot".
  change (Js.toLowerCase "bot detection") with "bot detection".
  rewrite Bool.orb_false_r.
  destruct (Js.includes text "recaptcha") eqn:Hre.
  - rewrite (DetectorFacts.includes_ending text "re" "captcha" Hre).
    reflexivity.
  - destruct (Js.includes text "captcha"); reflexivity.
Qed.

(** X19. [detect2FA] answers yes exactly when the text of the page,
    lower-cased, includes "2fa", "verification code", "authenticator"
    or "otp" anywhere, inside a word too, or "two" and "factor", or
    "one" and "time", with any one code unit but a line break between
    them; a page whose text cannot be read is not flagged. *)
Theorem detect2FA_is_a_substring_test
    {World : Type} (page : Recovery.Probe World) (w : World) :
  (forall text w1,
     Recovery.bodyTextLower page w = (Ok text, w1) ->
     (fst (Recovery.detect2FA page w) = true
      <-> Js.includes (Js.toLowerCase text) "2fa" = true
          \/ Js.includes (Js.toLowerCase text) "verification code" = true
          \/ Js.includes (Js.toLowerCase text) "authenticator" = true
          \/ Js.includes (Js.toLowerCase text) "otp" = true
          \/ exists c,
               Regex.lineTerminator c = false
               /\ (Js.includes (Js.toLowerCase text)
                     ("two" +:+ Js.chr c +:+ "factor") = true
                   \/ Js.includes (Js.toLowerCase text)
                        ("one" +:+ Js.chr c +:+ "time") = true)))
  /\ (forall t w1,
        Recovery.bodyTextLower page w = (Throw t, w1) ->
        fst (Recovery.detect2FA page w) = false).
Proof.
  split.
  - intros text w1 Hpage. unfold Recovery.detect2FA. rewrite Hpage. simpl.
    unfold Regex.test, Recovery.twoFactorPattern, Regex.anyOf.
    cbn [Regex.alternatives existsb].
    rewrite !Bool.orb_true_iff, !DetectorFacts.matchAnywhere_lits.
    change (Regex.lits "two" ++ [Regex.Dot] ++ Regex.lits "factor")%list
      with (Regex.lits "two" ++ Regex.Dot :: Regex.lits "factor")%list.
    change (Regex.lits "one" ++ [Regex.Dot] ++ Regex.lits "time")%list
      with (Regex.lits "one" ++ Regex.Dot :: Regex.lits "time")%list.
    rewrite !DetectorFacts.matchAnywhere_gap.
    change (Js.toLowerCase "2fa") with "2fa".
    change (Js.toLowerCase "verification code") with "verification code".
    change (Js.toLowerCase "authenticator") with "authenticator".
    change (Js.toLowerCase "otp") with "otp".
    change (Js.toLowerCase "two") with "two".
    change (Js.toLowerCase "factor") with "factor".
    change (Js.toLowerCase "one") with "one".
    change (Js.toLowerCase "time") with "time".
    split.
    + intros [(c & Hlt & H)|[H|[H|[H|[H|[(c & Hlt & H)|H]]]]]];
        try discriminate H; auto 6.
      * do 4 right. exists c. split; [exact Hlt|]. left. exact H.
      * do 4 right. exists c. split; [exact Hlt|]. right. exact H.
    + intros [H|[H|[H|[H|(c & Hlt & [H|H])]]]]; auto 8.
      * left. exists c. split; assumption.
      * do 5 right. left. exists c. split; assumption.
  - intros t w1 Hpage. unfold Recovery.detect2FA. rewrite Hpage. reflexivity.
Qed.

Lemma detect2FA_is_a_substring_test_witness :
  fst (Recovery.detect2FA (Sample.pageShowing "Reduce your carbon footprint") 0) = true
  /\ fst (Recovery.detect2FA (Sample.pageShowing "one-time offers") 0) = true
  /\ fst (Recovery.detect2FA Sample.calmPage 0) = false.
Proof.
  split; [|split; reflexivity].
  destruct (detect2FA_is_a_substring_test
              (Sample.pageShowing "Reduce your carbon footprint") 0) as [H _].
  apply (H "Reduce your carbon footprint" 1 eq_refl).
  do 3 right. left. reflexivity.
Defined.

(* --------------------------------------------------------------------- *)
(** ** What redaction leaves as it is                                     *)
(* --------------------------------------------------------------------- *)

Module ShapeFacts.
Import JsPath Redact RedactShape.

Section WithLists.
Variables (allowlist : list string) (patterns : list Regex.RegExp).

#[local] Abbreviation redact := (redactSecrets allowlist patterns).
#[local] Abbreviation redactEntry := (Redact.redactEntry allowlist patterns).

Lemma sameShape_refl v : sameShape v v = true.
Proof.
  induction v as [| |b|n|s|items IH|entries IH] using JsonFacts.JsValue_nested_ind;
    try reflexivity.
  - destruct b; reflexivity.
  - apply Z.eqb_refl.
  - cbn [sameShape]. induction IH as [|x items Hx _ IHitems]; [reflexivity|].
    rewrite Hx. exact IHitems.
  - cbn [sameShape]. induction IH as [|[k x] entries Hx _ IHentries];
      [reflexivity|].
    simpl in Hx. rewrite String.eqb_refl, Hx. exact IHentries.
Qed.

Lemma sameShape_entry k x :
  sameShape x (redact x) = true ->
  fst (redactEntry (k, x)) = k
  /\ sameShape x (snd (redactEntry (k, x))) = true.
Proof.
  intros IH. unfold Redact.redactEntry.
  destruct (allowed allowlist k); [split; [reflexivity | apply sameShape_refl]|].
  destruct x; try (split; [reflexivity | exact IH]).
  destruct (isSecretKey k patterns); split; reflexivity.
Qed.

(** An entry of an object without [__proto__] properties is carried
    over. *)
Lemma filter_entry k x rest :
  negb (String.eqb k "__proto__") = true ->
  List.filter assignable (redactEntry (k, x) :: rest)
  = redactEntry (k, x) :: List.filter assignable rest.
Proof.
  intros Hk. cbn [List.filter]. unfold assignable at 1.
  rewrite RedactFacts.redactEntry_value. cbn [fst]. unfold isProto.
  rewrite Hk. reflexivity.
Qed.

Lemma sameShape_redact v :
  ordinaryKeys v = true -> sameShape v (redact v) = true.
Proof.
  induction v as [| |b|n|s|items IH|entries IH] using JsonFacts.JsValue_nested_ind;
    try reflexivity.
  - destruct b; reflexivity.
  - intros _. apply Z.eqb_refl.
  - rewrite RedactFacts.redact_array. cbn [sameShape ordinaryKeys].
    induction IH as [|x items Hx _ IHitems]; [reflexivity|].
    cbn [map forallb]. intros H. apply andb_prop in H. destruct H as [H1 H2].
    rewrite (Hx H1). exact (IHitems H2).
  - rewrite RedactFacts.redact_object. cbn [sameShape ordinaryKeys].
    induction IH as [|[k x] entries Hx _ IHentries]; [reflexivity|].
    cbn [map forallb fst snd]. intros H. apply andb_prop in H.
    destruct H as [H1 H2]. apply andb_prop in H1. destruct H1 as [Hk Hox].
    rewrite (filter_entry k x _ Hk). simpl in Hx.
    destruct (sameShape_entry k x (Hx Hox)) as [Hk' Hs].
    destruct (redactEntry (k, x)) as [k' y]. simpl in Hk', Hs. subst k'.
    rewrite String.eqb_refl, Hs. exact (IHentries H2).
Qed.

Lemma unchanged_entry k x :
  (holdsSecret allowlist patterns x = false -> redact x = x) ->
  (negb (allowed allowlist k)
   && match x with
      | JsString _ => isSecretKey k patterns
      | _ => holdsSecret allowlist patterns x
      end)%bool = false ->
  redactEntry (k, x) = (k, x).
Proof.
  intros IH H. unfold Redact.redactEntry.
  destruct (allowed allowlist k); [reflexivity|]. simpl in H.
  destruct x; try (rewrite (IH H); reflexivity).
  rewrite H. reflexivity.
Qed.

Lemma redact_unchanged v :
  ordinaryKeys v = true ->
  holdsSecret allowlist patterns v = false -> redact v = v.
Proof.
  induction v as [| |b|n|s|items IH|entries IH] using JsonFacts.JsValue_nested_ind;
    try reflexivity.
  - rewrite RedactFacts.redact_array. cbn [holdsSecret ordinaryKeys].
    intros Ho H. f_equal.
    induction IH as [|x items Hx _ IHitems]; [reflexivity|].
    cbn [existsb] in H. apply Bool.orb_false_iff in H. destruct H as [H1 H2].
    cbn [forallb] in Ho. apply andb_prop in Ho. destruct Ho as [Ho1 Ho2].
    cbn [map]. rewrite (Hx Ho1 H1), (IHitems Ho2 H2). reflexivity.
  - rewrite RedactFacts.redact_object. cbn [holdsSecret ordinaryKeys].
    intros Ho H. f_equal.
    induction IH as [|[k x] entries Hx _ IHentries]; [reflexivity|].
    cbn [existsb] in H. apply Bool.orb_false_iff in H. destruct H as [H1 H2].
    cbn [forallb fst snd] in Ho. apply andb_prop in Ho. destruct Ho as [Ho1 Ho2].
    apply andb_prop in Ho1. destruct Ho1 as [Hk Hox].
    cbn [map]. rewrite (filter_entry k x _ Hk). simpl in Hx, H1.
    rewrite (unchanged_entry k x (Hx Hox) H1), (IHentries Ho2 H2). reflexivity.
Qed.

End WithLists.
End ShapeFacts.

(** X21. Of a value with no property named [__proto__],
    [redactSecrets] returns a value of the same shape: the same arrays,
    item for item, the same objects, property for property in the same
    order, and at the leaves a string for a string and every other
    scalar unchanged. *)
Theorem redactSecrets_preserves_the_shape :
  forall (allowlist : list string) (patterns : list Regex.RegExp)
         (value : JsValue),
    RedactShape.ordinaryKeys value = true ->
    RedactShape.sameShape value (Redact.redactSecrets allowlist patterns value)
    = true.
Proof. intros allowlist patterns value. apply ShapeFacts.sameShape_redact. Qed.

Lemma redactSecrets_preserves_the_shape_witness :
  RedactShape.sameShape Sample.loginDoc (Redact.redactSecretsDefault Sample.loginDoc)
  = true
  /\ Redact.redactSecretsDefault Sample.loginDoc <> Sample.loginDoc.
Proof.
  split.
  - apply (redactSecrets_preserves_the_shape [] Redact.SECRET_KEY_PATTERNS
             Sample.loginDoc).
    reflexivity.
  - vm_compute. discriminate.
Defined.

(** X22. A value with no property named [__proto__] that holds no
    string under a secret-like property name (allow-listed subtrees
    apart) comes back from [redactSecrets] unchanged. *)
Theorem redactSecrets_changes_nothing_without_secret_strings :
  forall (allowlist : list string) (patterns : list Regex.RegExp)
         (value : JsValue),
    RedactShape.ordinaryKeys value = true ->
    RedactShape.holdsSecret allowlist patterns value = false ->
    Redact.redactSecrets allowlist patterns value = value.
Proof.
  intros allowlist patterns value. apply ShapeFacts.redact_unchanged.
Qed.

Lemma redactSecrets_changes_nothing_without_secret_strings_witness :
  Redact.redactSecretsDefault Sample.plainPlan = Sample.plainPlan
  /\ Redact.redactSecrets ["auth"] Redact.SECRET_KEY_PATTERNS Sample.loginDoc
     = Sample.loginDoc.
Proof.
  split.
  - apply (redactSecrets_changes_nothing_without_secret_strings
             [] Redact.SECRET_KEY_PATTERNS Sample.plainPlan);
      vm_compute; reflexivity.
  - apply (redactSecrets_changes_nothing_without_secret_strings
             ["auth"] Redact.SECRET_KEY_PATTERNS Sample.loginDoc);
      vm_compute; reflexivity.
Defined.

(* --------------------------------------------------------------------- *)
(** ** Fuzzy resolution with a hint                                       *)
(* --------------------------------------------------------------------- *)

Module FuzzyFacts.
Import Model Recovery.

Lemma head_filter {A : Type} (f : A -> bool) (l : list A) :
  match head (List.filter f l) with
  | Some x =>
      exists before after,
        l = (before ++ x :: after)%list /\ f x = true
        /\ Forall (fun y => f y = false) before
  | None => Forall (fun y => f y = false) l
  end.
Proof.
  induction l as [|y l IH]; simpl; [constructor|].
  destruct (f y) eqn:Hy; simpl.
  - exists [], l. split; [reflexivity|]. split; [exact Hy | constructor].
  - destruct (head (List.filter f l)) as [x|].
    + destruct IH as (before & after & -> & Hx & Hb).
      exists (y :: before), after. split; [reflexivity|].
      split; [exact Hx | constructor; assumption].
    + constructor; assumption.
Qed.

Lemma includes_empty s : Js.includes s Js.empty = true.
Proof. destruct s; reflexivity. Qed.

End FuzzyFacts.

(** X20. Given a hint, [fuzzyRefResolve] returns the first element of
    the snapshot that passes the hint's test, or nothing if none does;
    the missing ref itself plays no part. A hint without role and
    label selects the first element, and a hint without role accepts
    every element whose label is empty, whatever label it asks for. *)
Theorem fuzzyRefResolve_returns_the_first_candidate :
  forall (missingRef otherRef : string) (state : Model.CompactState)
         (hint : Recovery.Hint),
    Recovery.fuzzyRefResolve missingRef state (Some hint)
    = Recovery.fuzzyRefResolve otherRef state (Some hint)
    /\ match Recovery.fuzzyRefResolve missingRef state (Some hint) with
       | Some el =>
           exists before after,
             Model.interactive state = (before ++ el :: after)%list
             /\ Recovery.fuzzyCandidate hint el = true
             /\ Forall (fun e => Recovery.fuzzyCandidate hint e = false) before
       | None =>
           Forall (fun e => Recovery.fuzzyCandidate hint e = false)
             (Model.interactive state)
       end
    /\ (Js.truthyOpt (Recovery.hintRole hint) = false ->
        Js.truthyOpt (Recovery.hintLabel hint) = false ->
        Recovery.fuzzyRefResolve missingRef state (Some hint)
        = head (Model.interactive state))
    /\ (forall el,
          Js.truthyOpt (Recovery.hintRole hint) = false ->
          Model.label el = Js.empty ->
          Recovery.fuzzyCandidate hint el = true).
Proof.
  intros missingRef otherRef state hint. unfold Recovery.fuzzyRefResolve.
  split; [reflexivity|]. split; [apply FuzzyFacts.head_filter|]. split.
  - intros Hr Hl. f_equal.
    assert (H : forall el, Recovery.fuzzyCandidate hint el = true).
    { intros el. unfold Recovery.fuzzyCandidate. rewrite Hr, Hl. reflexivity. }
    induction (Model.interactive state) as [|el els IH]; simpl; [reflexivity|].
    rewrite H, IH. reflexivity.
  - intros el Hr Hl. unfold Recovery.fuzzyCandidate. rewrite Hr, Hl. simpl.
    destruct (Js.truthyOpt (Recovery.hintLabel hint)); [|reflexivity].
    rewrite FuzzyFacts.includes_empty. apply Bool.orb_true_r.
Qed.

(* --------------------------------------------------------------------- *)
(** ** The retry loop of the LLM client                                   *)
(* --------------------------------------------------------------------- *)

Module LLMFacts.
Import LLM.

Section Call.
Context {World : Type} (api : Api World).
Variables (clientModel : string) (messages : list LLMMessage)
          (maxTokens temperature retries : Z).

#[local] Abbreviation attemptsFrom :=
  (LLM.attemptsFrom api clientModel messages maxTokens temperature retries).

#[local] Abbreviation Settles :=
  (LLM.Settles api clientModel messages maxTokens temperature retries).

Lemma attemptsFrom_settles turns attempt lastErr stats w :
  (Z.to_nat (retries - attempt + 1) <= turns)%nat ->
  Settles attempt stats (attemptsFrom turns attempt lastErr stats w).
Proof.
  revert attempt lastErr stats w.
  induction turns as [|turns IH]; intros attempt lastErr stats w Hfuel;
    cbn [LLM.attemptsFrom]; destruct (Z.leb_spec attempt retries) as [Hle|Hgt].
  - exfalso. lia.
  - simpl. split; [reflexivity|]. split; [eexists; reflexivity|].
    left. split; [lia | reflexivity].
  - destruct (create api clientModel messages maxTokens temperature w)
      as [[response|err] w1] eqn:Hcreate.
    + simpl. split; [exists 0%nat; split; [lia | reflexivity]|].
      repeat split. exists response, w, w1. repeat split. exact Hcreate.
    + destruct (Z.ltb_spec attempt retries) as [Hlt|Hge].
      * specialize (IH (attempt + 1) (Some err) stats
                      (pause api (1000 * attempt) w1) ltac:(lia)).
        unfold LLM.Settles in *.
        destruct (attemptsFrom turns (attempt + 1) (Some err) stats
                    (pause api (1000 * attempt) w1)) as [[[o evs] st] w3].
        destruct o as [r|t|]; [| |exact IH].
        -- destruct IH as ((n & Hn & Hevs) & Hrest).
           split; [|exact Hrest]. exists (S n). split; [lia|].
           simpl. rewrite Hevs. reflexivity.
        -- destruct IH as (Hst & Ht & Hevs).
           split; [exact Hst|]. split; [exact Ht|]. right.
           destruct Hevs as [[Hr _]|(n & Hn & Hevs)]; [lia|].
           exists (S n). split; [lia|]. simpl. rewrite Hevs. reflexivity.
      * specialize (IH (attempt + 1) (Some err) stats w1 ltac:(lia)).
        unfold LLM.Settles in *.
        destruct (attemptsFrom turns (attempt + 1) (Some err) stats w1)
          as [[[o evs] st] w3].
        destruct o as [r|t|]; [| |exact IH].
        -- destruct IH as ((n & Hn & _) & _). lia.
        -- destruct IH as (Hst & Ht & Hevs).
           split; [exact Hst|]. split; [exact Ht|]. right.
           destruct Hevs as [[_ Hevs]|(n & Hn & _)]; [|lia].
           exists 0%nat. split; [lia|]. simpl. rewrite Hevs. reflexivity.
  - simpl. split; [reflexivity|]. split; [eexists; reflexivity|].
    left. split; [lia | reflexivity].
Qed.

End Call.

Lemma requests_schedule n first :
  length (List.filter isRequest (schedule n first)) = S n.
Proof.
  revert first. induction n as [|n IH]; intros first; simpl; [reflexivity|].
  rewrite IH. reflexivity.
Qed.

End LLMFacts.

Module RetryFacts.
Import LLM.

Section Call.
Context {World : Type} (api : Api World).
Variables (clientModel : string) (messages : list LLMMessage)
          (maxTokens temperature retries : Z).

#[local] Abbreviation attemptsFrom :=
  (LLM.attemptsFrom api clientModel messages maxTokens temperature retries).
#[local] Abbreviation worldBefore :=
  (LLM.worldBefore api clientModel messages maxTokens temperature retries).
#[local] Abbreviation answer :=
  (LLM.answer api clientModel messages maxTokens temperature retries).
#[local] Abbreviation lastRejection :=
  (LLM.lastRejection api clientModel messages maxTokens temperature retries).

Lemma worldBefore_S k w :
  worldBefore (S k) w
  = if Z.of_nat k + 1 <? retries
    then pause api (1000 * (Z.of_nat k + 1)) (snd (answer k w))
    else snd (answer k w).
Proof. reflexivity. Qed.

(** The loop from the request number [j + 1] on, when the next [n]
    requests are rejected and the one after them is answered. *)
Lemma attemptsFrom_answered n :
  forall j turns lastErr stats w response w1,
    (n < turns)%nat ->
    Z.of_nat (j + n) < retries ->
    (forall k, (j <= k < j + n)%nat -> exists t, fst (answer k w) = Throw t) ->
    answer (j + n) w = (Ok response, w1) ->
    attemptsFrom turns (Z.of_nat j + 1) lastErr stats (worldBefore j w)
    = (Answered {| responseContent := contentOf response;
                   usage := usageOf response; model := clientModel |},
       schedule n (Z.of_nat j + 1),
       {| totalTokensUsed :=
            totalTokensUsed stats + totalTokens (usageOf response);
          totalCalls := totalCalls stats + 1 |},
       w1).
Proof.
  induction n as [|n IH]; intros j turns lastErr stats w response w1
                                 Hfuel Hlt Hfail Hok;
    (destruct turns as [|turns]; [lia|]); cbn [LLM.attemptsFrom].
  - rewrite Nat.add_0_r in *.
    destruct (Z.leb_spec (Z.of_nat j + 1) retries) as [_|Hgt]; [|lia].
    unfold LLM.answer in Hok. rewrite Hok. reflexivity.
  - destruct (Z.leb_spec (Z.of_nat j + 1) retries) as [_|Hgt]; [|lia].
    destruct (Hfail j ltac:(lia)) as [t Ht].
    unfold LLM.answer in Ht.
    destruct (create api clientModel messages maxTokens temperature
                (worldBefore j w)) as [r wa] eqn:Hcreate.
    simpl in Ht. subst r.
    assert (Hnext : worldBefore (S j) w
                    = pause api (1000 * (Z.of_nat j + 1)) wa).
    { rewrite worldBefore_S. unfold LLM.answer. rewrite Hcreate. simpl.
      destruct (Z.ltb_spec (Z.of_nat j + 1) retries); [reflexivity | lia]. }
    destruct (Z.ltb_spec (Z.of_nat j + 1) retries) as [_|Hge]; [|lia].
    cbn iota beta. rewrite <- Hnext.
    replace (Z.of_nat j + 1 + 1) with (Z.of_nat (S j) + 1) by lia.
    rewrite (IH (S j) turns (Some t) stats w response w1); try lia.
    + cbn [schedule app].
      replace (Z.of_nat (S j) + 1) with (Z.of_nat j + 1 + 1) by lia.
      reflexivity.
    + intros k Hk. apply Hfail. lia.
    + replace (S j + n)%nat with (j + S n)%nat by lia. exact Hok.
Qed.

(** The loop from the request number [j + 1] on, when all the requests
    still allowed are rejected. *)
Lemma attemptsFrom_rejected m :
  forall j turns stats w,
    Z.to_nat retries = (j + m)%nat ->
    (m <= turns)%nat ->
    (forall k, Z.of_nat k < retries -> exists t, fst (answer k w) = Throw t) ->
    attemptsFrom turns (Z.of_nat j + 1) (lastRejection j w) stats
      (worldBefore j w)
    = (Failed (Raised (LLMError
                         ("Failed after " +:+ pretty retries +:+ " attempts")
                         (lastErrDetails (lastRejection (j + m) w)))),
       rejected m (Z.of_nat j + 1), stats, worldBefore (j + m) w).
Proof.
  induction m as [|m IH]; intros j turns stats w Hall Hfuel Hfail.
  - rewrite Nat.add_0_r in *.
    assert (Hgt : retries < Z.of_nat j + 1) by lia.
    destruct turns as [|turns]; cbn [LLM.attemptsFrom];
      (destruct (Z.leb_spec (Z.of_nat j + 1) retries) as [Hle|_]; [lia|]);
      reflexivity.
  - destruct turns as [|turns]; [lia|]. cbn [LLM.attemptsFrom].
    destruct (Z.leb_spec (Z.of_nat j + 1) retries) as [_|Hgt]; [|lia].
    destruct (Hfail j ltac:(lia)) as [t Ht].
    assert (Hlast : lastRejection (S j) w = Some t).
    { unfold LLM.lastRejection. rewrite Ht. reflexivity. }
    unfold LLM.answer in Ht.
    destruct (create api clientModel messages maxTokens temperature
                (worldBefore j w)) as [r wa] eqn:Hcreate.
    simpl in Ht. subst r.
    assert (Hnext : worldBefore (S j) w
                    = if Z.of_nat j + 1 <? retries
                      then pause api (1000 * (Z.of_nat j + 1)) wa else wa).
    { rewrite worldBefore_S. unfold LLM.answer. rewrite Hcreate. reflexivity. }
    replace (j + S m)%nat with (S j + m)%nat by lia.
    replace (Z.of_nat j + 1 + 1) with (Z.of_nat (S j) + 1) by lia.
    rewrite <- Hlast.
    destruct (Z.ltb_spec (Z.of_nat j + 1) retries) as [Hlt|Hge];
      cbn iota beta; rewrite <- Hnext;
      rewrite (IH (S j) turns stats w ltac:(lia) ltac:(lia) Hfail).
    + destruct m as [|m]; [lia|]. cbn [LLM.rejected schedule app].
      replace (Z.of_nat (S j) + 1) with (Z.of_nat j + 1 + 1) by lia.
      reflexivity.
    + destruct m as [|m]; [|lia]. reflexivity.
Qed.

End Call.
End RetryFacts.

(** X23. [LLMClient.call] makes at most [retries] requests (three
    unless told otherwise), each in the world the one before left, with
    a pause of a second times its number after every rejected attempt
    but the last one allowed. It returns the response of the first
    request that is answered, built from that very answer, counting one
    call and that response's tokens, and makes no further request. If
    all [retries] requests are rejected, or if [retries] is zero or
    less and none is made, it throws
    [LLMError('Failed after N attempts')] with the last rejection as
    its details and leaves the counters as they were. *)
Theorem LLM_call_retries_are_bounded
    {World : Type} (api : LLM.Api World) (clientModel : string)
    (messages : list LLM.LLMMessage) (opts : LLM.LLMOptions)
    (stats : LLM.Stats) (w : World) :
  let maxTokens := default 4096 (LLM.maxTokens opts) in
  let temperature := default 0 (LLM.temperature opts) in
  let retries := default 3 (LLM.retries opts) in
  let answer (k : nat) :=
    LLM.answer api clientModel messages maxTokens temperature retries k w in
  (forall (n : nat) response w1,
     Z.of_nat n < retries ->
     (forall k, (k < n)%nat -> exists t, fst (answer k) = Throw t) ->
     answer n = (Ok response, w1) ->
     LLM.call api clientModel messages opts stats w
     = (LLM.Answered
          {| LLM.responseContent := LLM.contentOf response;
             LLM.usage := LLM.usageOf response;
             LLM.model := clientModel |},
        LLM.schedule n 1,
        {| LLM.totalTokensUsed :=
             LLM.totalTokensUsed stats
             + LLM.totalTokens (LLM.usageOf response);
           LLM.totalCalls := LLM.totalCalls stats + 1 |},
        w1))
  /\ ((forall k, Z.of_nat k < retries -> exists t, fst (answer k) = Throw t) ->
      LLM.call api clientModel messages opts stats w
      = (LLM.Failed
           (Raised (LLMError
                      ("Failed after " +:+ pretty retries +:+ " attempts")
                      (LLM.lastErrDetails
                         (LLM.lastRejection api clientModel messages maxTokens
                            temperature retries (Z.to_nat retries) w)))),
         LLM.rejected (Z.to_nat retries) 1,
         stats,
         LLM.worldBefore api clientModel messages maxTokens temperature
           retries (Z.to_nat retries) w))
  /\ match LLM.call api clientModel messages opts stats w with
     | (LLM.Answered r, events, stats', _) =>
         (exists n : nat, Z.of_nat n < retries /\ events = LLM.schedule n 1)
         /\ LLM.totalCalls stats' = LLM.totalCalls stats + 1
         /\ LLM.totalTokensUsed stats'
            = LLM.totalTokensUsed stats + LLM.totalTokens (LLM.usage r)
         /\ LLM.model r = clientModel
     | (LLM.Failed t, events, stats', _) =>
         stats' = stats
         /\ (exists d,
               t = Raised (LLMError
                             ("Failed after " +:+ pretty retries +:+ " attempts")
                             d))
         /\ events = LLM.rejected (Z.to_nat retries) 1
     | (LLM.Unfinished, _, _, _) => False
     end
  /\ (length (List.filter LLM.isRequest
                (snd (fst (fst (LLM.call api clientModel messages opts
                                  stats w)))))
      <= Z.to_nat retries)%nat.
Proof.
  intros maxTokens temperature retries answer.
  split; [|split; [|split]].
  - intros n response w1 Hn Hfail Hok. unfold LLM.call.
    fold maxTokens temperature retries.
    exact (RetryFacts.attemptsFrom_answered api clientModel messages maxTokens
             temperature retries n 0%nat (Z.to_nat retries) None stats w
             response w1 ltac:(lia) ltac:(lia)
             (fun k Hk => Hfail k ltac:(lia)) Hok).
  - intros Hfail. unfold LLM.call. fold maxTokens temperature retries.
    exact (RetryFacts.attemptsFrom_rejected api clientModel messages maxTokens
             temperature retries (Z.to_nat retries) 0%nat (Z.to_nat retries)
             stats w eq_refl (Nat.le_refl _) Hfail).
  - unfold LLM.call. fold maxTokens temperature retries.
    pose proof (LLMFacts.attemptsFrom_settles api clientModel messages
                  maxTokens temperature retries (Z.to_nat retries) 1 None
                  stats w ltac:(lia)) as H.
    unfold LLM.Settles in H.
    destruct (LLM.attemptsFrom api clientModel messages _ _ _ _ 1 None stats w)
      as [[[o evs] st] w'].
    destruct o as [r|t|]; [| |destruct H].
    + destruct H as ((n & Hn & Hevs) & Hcalls & Htokens & Hmodel & _).
      split; [exists n; split; [lia | exact Hevs]|].
      split; [exact Hcalls|]. split; [exact Htokens | exact Hmodel].
    + destruct H as (Hst & Ht & Hevs). split; [exact Hst|].
      split; [exact Ht|].
      destruct Hevs as [[Hr ->]|(n & Hn & ->)].
      * replace (Z.to_nat retries) with 0%nat by lia. reflexivity.
      * replace (Z.to_nat retries) with (S n) by lia. reflexivity.
  - unfold LLM.call. fold maxTokens temperature retries.
    pose proof (LLMFacts.attemptsFrom_settles api clientModel messages
                  maxTokens temperature retries (Z.to_nat retries) 1 None
                  stats w ltac:(lia)) as H.
    unfold LLM.Settles in H.
    destruct (LLM.attemptsFrom api clientModel messages _ _ _ _ 1 None stats w)
      as [[[o evs] st] w'].
    destruct o as [r|t|]; [| |destruct H]; simpl.
    + destruct H as ((n & Hn & ->) & _).
      rewrite LLMFacts.requests_schedule. lia.
    + destruct H as (_ & _ & [[Hr ->]|(n & Hn & ->)]); simpl; [lia|].
      rewrite LLMFacts.requests_schedule. lia.
Qed.

(** X23, run: with the default of three attempts, an endpoint that
    rejects twice is asked three times, with pauses of one and two
    seconds; the third answer is the response, counted as one call of
    twelve tokens. *)
Lemma LLM_call_retries_are_bounded_witness :
  let '(outcome, events, stats, w') :=
    LLM.call Scenes.flakyApi "m" [] Scenes.noOptions Scenes.freshStats 0 in
  (exists r, outcome = LLM.Answered r /\ LLM.responseContent r = "{}")
  /\ events = [LLM.Requested 1; LLM.Paused 1000; LLM.Requested 2;
               LLM.Paused 2000; LLM.Requested 3]
  /\ LLM.getStats stats = (1, 12)
  /\ w' = 3.
Proof.
  destruct (LLM_call_retries_are_bounded Scenes.flakyApi "m" []
              Scenes.noOptions Scenes.freshStats 0) as (Hanswered & _).
  cbv zeta in Hanswered.
  rewrite (Hanswered 2%nat
             {| LLM.choices :=
                  [ {| LLM.message :=
                         Some {| LLM.messageContent := Some "{}" |} |} ];
                LLM.completionUsage :=
                  Some {| LLM.prompt_tokens := Some 10;
                          LLM.completion_tokens := Some 2;
                          LLM.total_tokens := Some 12 |} |}
             3 ltac:(reflexivity)).
  - split; [eexists; split; reflexivity|]. repeat split.
  - intros k Hk. destruct k as [|[|k]]; [eexists; reflexivity.. | lia].
  - reflexivity.
Defined.

(* --------------------------------------------------------------------- *)
(** ** The browser controller                                             *)
(* --------------------------------------------------------------------- *)

Module ControllerFacts.
Import Selectors Controller.

Section WithDriver.
Context {World Handle : Type} (config : Config.WebRunnerConfig)
        (page : Page World Handle) (driver : Driver World Handle).

(** The selector [trySelectors] resolves is one of the set. *)
Lemma trySelectors_member selectorSet w found w' :
  trySelectors page selectorSet w = (Ok found, w') ->
  In (selector found) (primary selectorSet :: fallback selectorSet).
Proof.
  unfold trySelectors. intros H.
  pose proof (SelectorFacts.trySelectorsFrom_spec page
                (primary selectorSet :: fallback selectorSet)
                (primary selectorSet :: fallback selectorSet) w) as Hspec.
  rewrite H in Hspec. destruct Hspec as (before & after & w1 & Hsplit & _).
  rewrite Hsplit. apply in_or_app. right. left. reflexivity.
Qed.

Lemma trySelectors_throws selectorSet w t w' :
  trySelectors page selectorSet w = (Throw t, w') ->
  instanceOf CElementMissing t = true.
Proof.
  unfold trySelectors. intros H.
  pose proof (SelectorFacts.trySelectorsFrom_spec page
                (primary selectorSet :: fallback selectorSet)
                (primary selectorSet :: fallback selectorSet) w) as Hspec.
  rewrite H in Hspec. destruct Hspec as (_ & ->). reflexivity.
Qed.

End WithDriver.
End ControllerFacts.

(** X24. [BrowserController.navigate] rejects with [NavigationFailed]
    and with nothing else: whatever [goto] rejects with is wrapped, and
    a response that is not ok with a status of 400 or more is turned
    into one. It resolves exactly when [goto] resolves to no response
    or to one that is ok or has a status below 400; the wait for network
    idle that follows cannot make it fail. *)
Theorem navigate_rejects_only_with_NavigationFailed
    {World Handle : Type} (config : Config.WebRunnerConfig)
    (driver : Controller.Driver World Handle) (url : string) (w : World) :
  match Controller.navigate config driver url w with
  | (Ok _, calls, _) =>
      calls = [Controller.Goto url; Controller.WaitIdle]
      /\ exists response w1,
           Controller.goto driver url (Config.navigationTimeoutMs config) w
           = (Ok response, w1)
           /\ match response with
              | Some r => Controller.ok r = true \/ Controller.status r < 400
              | None => True
              end
  | (Throw t, calls, _) =>
      calls = [Controller.Goto url]
      /\ instanceOf CNavigationFailed t = true
      /\ ((exists w1,
             Controller.goto driver url (Config.navigationTimeoutMs config) w
             = (Throw t, w1))
          \/ exists d, t = Raised (NavigationFailed url d))
      /\ match fst (Controller.goto driver url
                      (Config.navigationTimeoutMs config) w) with
         | Ok (Some r) => Controller.ok r = false /\ 400 <= Controller.status r
         | Ok None => False
         | Throw _ => True
         end
  end.
Proof.
  unfold Controller.navigate.
  destruct (Controller.goto driver url (Config.navigationTimeoutMs config) w)
    as [[[r|]|err] w1]; simpl.
  - destruct (Controller.ok r) eqn:Hok; simpl.
    + destruct (Controller.waitForNetworkIdle driver (Some 5000) w1) as [i w2].
      split; [reflexivity|]. exists (Some r), w1. split; [reflexivity|].
      left. exact Hok.
    + destruct (Z.leb_spec 400 (Controller.status r)) as [Hs|Hs].
      * split; [reflexivity|]. split; [reflexivity|].
        split; [right; eexists; reflexivity|]. split; [reflexivity | exact Hs].
      * destruct (Controller.waitForNetworkIdle driver (Some 5000) w1)
          as [i w2].
        split; [reflexivity|]. exists (Some r), w1. split; [reflexivity|].
        right. exact Hs.
  - destruct (Controller.waitForNetworkIdle driver (Some 5000) w1) as [i w2].
    split; [reflexivity|]. exists None, w1. split; [reflexivity | exact I].
  - destruct (instanceOf CNavigationFailed err) eqn:Hi.
    + split; [reflexivity|]. split; [exact Hi|].
      split; [left; eexists; reflexivity | exact I].
    + split; [reflexivity|]. split; [reflexivity|].
      split; [right; eexists; reflexivity | exact I].
Qed.

(** X25. The action methods [click], [type] and [select] of the
    controller go through [trySelectors]: when no selector of the set
    yields an element they reject with its [ElementMissing] and act on
    nothing; when they resolve, what they return is the selector
    [trySelectors] resolved, which is one of the set. *)
Theorem controller_actions_use_the_resolved_selector
    {World Handle : Type} (config : Config.WebRunnerConfig)
    (page : Selectors.Page World Handle)
    (driver : Controller.Driver World Handle)
    (selectorSet : Selectors.SelectorSet) (text value : string) (w : World) :
  match Selectors.trySelectors page selectorSet w with
  | (Throw t, w1) =>
      instanceOf CElementMissing t = true
      /\ Controller.click config page driver selectorSet w = (Throw t, [], w1)
      /\ Controller.type config page driver selectorSet text w
         = (Throw t, [], w1)
      /\ Controller.select config page driver selectorSet value w
         = (Throw t, [], w1)
  | (Ok found, _) =>
      In (Selectors.selector found)
        (Selectors.primary selectorSet :: Selectors.fallback selectorSet)
      /\ (forall sel calls w',
            Controller.click config page driver selectorSet w
            = (Ok sel, calls, w') ->
            sel = Selectors.selector found
            /\ calls = [Controller.Click (Selectors.handle found);
                        Controller.WaitNavigation])
      /\ (forall sel calls w',
            Controller.type config page driver selectorSet text w
            = (Ok sel, calls, w') ->
            sel = Selectors.selector found
            /\ calls = [Controller.Click (Selectors.handle found);
                        Controller.Fill (Selectors.handle found) text])
      /\ (forall sel calls w',
            Controller.select config page driver selectorSet value w
            = (Ok sel, calls, w') ->
            sel = Selectors.selector found
            /\ calls = [Controller.SelectOption (Selectors.selector found)
                          value])
  end.
Proof.
  unfold Controller.click, Controller.type, Controller.select.
  destruct (Selectors.trySelectors page selectorSet w) as [[found|t] w1] eqn:Htry.
  - split; [exact (ControllerFacts.trySelectors_member page _ _ _ _ Htry)|].
    split; [|split].
    + intros sel calls w'.
      destruct (Controller.handleClick driver _ _ _ w1) as [[u|t] w2];
        [|discriminate].
      intros [= <- <- _]. split; reflexivity.
    + intros sel calls w'.
      destruct (Controller.handleClick driver _ _ _ w1) as [[u|t] w2];
        [|discriminate].
      destruct (Controller.handleFill driver _ _ _ w2) as [[u'|t] w3];
        [|discriminate].
      intros [= <- <- _]. split; reflexivity.
    + intros sel calls w'.
      destruct (Controller.selectOption driver _ _ _ w1) as [[u|t] w2];
        [|discriminate].
      intros [= <- <- _]. split; reflexivity.
  - split; [exact (ControllerFacts.trySelectors_throws page _ _ _ _ Htry)|].
    repeat split.
Qed.

(* --------------------------------------------------------------------- *)
(** ** Plan assertions                                                    *)
(* --------------------------------------------------------------------- *)

Module CheckFacts.
Import Schemas Assertions Checks.

Section WithPage.
Context {World : Type} (page : Page World).

#[local] Abbreviation checkAll := (Checks.checkAll page).

(** The loop only ever appends to [failed]. *)
Lemma checkAll_acc assertions downloadDir acc w :
  checkAll assertions downloadDir acc w
  = ((acc ++ fst (checkAll assertions downloadDir [] w))%list,
     snd (checkAll assertions downloadDir [] w)).
Proof.
  revert acc w. induction assertions as [|a rest IH]; intros acc w; simpl.
  - rewrite app_nil_r. reflexivity.
  - destruct (checkAssertion page a downloadDir w) as [[u|err] w1].
    + apply IH.
    + rewrite (IH (acc ++ [failure page a err])%list w1).
      rewrite (IH [failure page a err] w1). simpl.
      rewrite <- app_assoc. reflexivity.
Qed.

Lemma checkAll_app xs ys downloadDir w :
  checkAll (xs ++ ys)%list downloadDir [] w
  = ((fst (checkAll xs downloadDir [] w)
      ++ fst (checkAll ys downloadDir [] (snd (checkAll xs downloadDir [] w))))%list,
     snd (checkAll ys downloadDir [] (snd (checkAll xs downloadDir [] w)))).
Proof.
  revert w. induction xs as [|a xs IH]; intros w; simpl.
  - destruct (checkAll ys downloadDir [] w); reflexivity.
  - destruct (checkAssertion page a downloadDir w) as [[u|err] w1].
    + apply IH.
    + rewrite (checkAll_acc (xs ++ ys)%list downloadDir [failure page a err] w1).
      rewrite (checkAll_acc xs downloadDir [failure page a err] w1).
      rewrite IH. simpl. reflexivity.
Qed.

Lemma kind_failure a err : kind (failure page a err) = Assertion.kind a.
Proof. unfold failure. destruct (instanceOf CAssertionFailed err); reflexivity. Qed.

Lemma checkAll_kinds assertions downloadDir w :
  sublist (map kind (fst (checkAll assertions downloadDir [] w)))
    (map Assertion.kind assertions).
Proof.
  revert w. induction assertions as [|a rest IH]; intros w; simpl.
  - constructor.
  - destruct (checkAssertion page a downloadDir w) as [[u|err] w1].
    + apply sublist_cons. apply IH.
    + rewrite (checkAll_acc rest downloadDir [failure page a err] w1). simpl.
      rewrite kind_failure. apply sublist_skip. apply IH.
Qed.

End WithPage.
End CheckFacts.

(** X26. What the checks make of a missing operand. Without a [value],
    [urlContains] passes on every page and [titleContains] and
    [textPresent] pass whenever the page can be read, while
    [urlEquals] fails on every page; [elementVisible] without a ref
    fails before it looks at the page; and an assertion of a kind
    outside [assertionKinds] fails, naming the kind. *)
Theorem assertions_with_a_missing_operand
    {World : Type} (page : Checks.Page World) :
  (forall ref filePattern downloadDir w,
     Checks.checkAssertion page
       {| Schemas.Assertion.kind := "urlContains";
          Schemas.Assertion.value := None;
          Schemas.Assertion.ref := ref;
          Schemas.Assertion.filePattern := filePattern |} downloadDir w
     = (Ok tt, w))
  /\ (forall ref filePattern downloadDir w,
        Checks.checkAssertion page
          {| Schemas.Assertion.kind := "urlEquals";
             Schemas.Assertion.value := None;
             Schemas.Assertion.ref := ref;
             Schemas.Assertion.filePattern := filePattern |} downloadDir w
        = (Throw (Raised (Checks.AssertionFailed "urlEquals" Js.empty
                            (Note (Checks.url page w)))), w))
  /\ (forall ref filePattern downloadDir w,
        Checks.checkAssertion page
          {| Schemas.Assertion.kind := "titleContains";
             Schemas.Assertion.value := None;
             Schemas.Assertion.ref := ref;
             Schemas.Assertion.filePattern := filePattern |} downloadDir w
        = match Checks.title page w with
          | (Ok _, w1) => (Ok tt, w1)
          | (Throw err, w1) => (Throw err, w1)
          end)
  /\ (forall ref filePattern downloadDir w,
        Checks.checkAssertion page
          {| Schemas.Assertion.kind := "textPresent";
             Schemas.Assertion.value := None;
             Schemas.Assertion.ref := ref;
             Schemas.Assertion.filePattern := filePattern |} downloadDir w
        = match Checks.bodyText page w with
          | (Ok _, w1) => (Ok tt, w1)
          | (Throw err, w1) => (Throw err, w1)
          end)
  /\ (forall value ref filePattern downloadDir w,
        Js.truthyOpt ref = false ->
        Checks.checkAssertion page
          {| Schemas.Assertion.kind := "elementVisible";
             Schemas.Assertion.value := value;
             Schemas.Assertion.ref := ref;
             Schemas.Assertion.filePattern := filePattern |} downloadDir w
        = (Throw (Raised (Checks.AssertionFailed "elementVisible"
                            "ref required" NoDetails)), w))
  /\ (forall kind value ref filePattern downloadDir w,
        ~ In kind Checks.assertionKinds ->
        Checks.checkAssertion page
          {| Schemas.Assertion.kind := kind;
             Schemas.Assertion.value := value;
             Schemas.Assertion.ref := ref;
             Schemas.Assertion.filePattern := filePattern |} downloadDir w
        = (Throw (Raised (Checks.AssertionFailed kind "known assertion kind"
                            NoDetails)), w)).
Proof.
  split; [|split; [|split; [|split; [|split]]]].
  - intros ref filePattern downloadDir w. unfold Checks.checkAssertion. simpl.
    rewrite FuzzyFacts.includes_empty. reflexivity.
  - intros ref filePattern downloadDir w. reflexivity.
  - intros ref filePattern downloadDir w. unfold Checks.checkAssertion. simpl.
    destruct (Checks.title page w) as [[text|err] w1]; [|reflexivity].
    rewrite FuzzyFacts.includes_empty. reflexivity.
  - intros ref filePattern downloadDir w. unfold Checks.checkAssertion. simpl.
    destruct (Checks.bodyText page w) as [[text|err] w1]; [|reflexivity].
    rewrite FuzzyFacts.includes_empty. reflexivity.
  - intros value ref filePattern downloadDir w Href.
    unfold Checks.checkAssertion. simpl. rewrite Href. reflexivity.
  - intros kind value ref filePattern downloadDir w Hkind.
    unfold Checks.checkAssertion. cbn [Schemas.Assertion.kind].
    repeat match goal with
           | |- context [String.eqb kind ?b] =>
               destruct (String.eqb_spec kind b) as [Heq|_];
               [exfalso; apply Hkind; rewrite Heq;
                unfold Checks.assertionKinds; simpl; tauto|]
           end.
    reflexivity.
Qed.

(** X27. [runAssertions] checks every assertion, in order, whether or
    not an earlier one failed. An empty list passes without touching
    the page; a single assertion is handed to [checkAssertion] and
    fails exactly when that throws, with one failure recorded under
    the assertion's kind, carrying the message of an [AssertionFailed]
    with the expected value, or the string form of any other error;
    running a list is running its first part and then the rest on the
    page as the first part left it, with the failures of both. It
    passes exactly when no failure was recorded, and the failures
    recorded are, in order, of the kinds of some of the assertions. *)
Theorem runAssertions_checks_every_assertion
    {World : Type} (page : Checks.Page World)
    (assertions more : list Schemas.Assertion.t) (downloadDir : string)
    (w : World) :
  Checks.runAssertions page [] downloadDir w
  = ({| Assertions.passed := true; Assertions.failed := [] |}, w)
  /\ (forall assertion,
        Checks.runAssertions page [assertion] downloadDir w
        = match Checks.checkAssertion page assertion downloadDir w with
          | (Ok _, w1) =>
              ({| Assertions.passed := true; Assertions.failed := [] |}, w1)
          | (Throw err, w1) =>
              ({| Assertions.passed := false;
                  Assertions.failed :=
                    [{| Assertions.kind := Schemas.Assertion.kind assertion;
                        Assertions.expected :=
                          if instanceOf CAssertionFailed err
                          then Schemas.Assertion.value assertion else None;
                        Assertions.actual := None;
                        Assertions.error :=
                          Some (if instanceOf CAssertionFailed err
                                then errorText err
                                else Checks.stringOf page err) |}] |}, w1)
          end)
  /\ Checks.runAssertions page (assertions ++ more)%list downloadDir w
     = (let '(first, w1) := Checks.runAssertions page assertions downloadDir w in
        let '(second, w2) := Checks.runAssertions page more downloadDir w1 in
        ({| Assertions.passed :=
              (Assertions.passed first && Assertions.passed second)%bool;
            Assertions.failed :=
              (Assertions.failed first ++ Assertions.failed second)%list |}, w2))
  /\ (Assertions.passed
        (fst (Checks.runAssertions page assertions downloadDir w)) = true
      <-> Assertions.failed
            (fst (Checks.runAssertions page assertions downloadDir w)) = [])
  /\ sublist
       (map Assertions.kind
          (Assertions.failed
             (fst (Checks.runAssertions page assertions downloadDir w))))
       (map Schemas.Assertion.kind assertions).
Proof.
  unfold Checks.runAssertions. split; [reflexivity|]. split; [|split; [|split]].
  - intros assertion. cbn [Checks.checkAll].
    destruct (Checks.checkAssertion page assertion downloadDir w)
      as [[u|err] w1]; [reflexivity|].
    unfold Checks.failure.
    destruct (instanceOf CAssertionFailed err); reflexivity.
  - rewrite CheckFacts.checkAll_app.
    destruct (Checks.checkAll page assertions downloadDir [] w) as [f1 w1].
    simpl.
    destruct (Checks.checkAll page more downloadDir [] w1) as [f2 w2]. simpl.
    f_equal. f_equal. rewrite length_app.
    destruct (length f1), (length f2); reflexivity.
  - destruct (Checks.checkAll page assertions downloadDir [] w) as [f1 w1].
    simpl. destruct f1; simpl; split; try reflexivity; discriminate.
  - pose proof (CheckFacts.checkAll_kinds page assertions downloadDir w) as H.
    destruct (Checks.checkAll page assertions downloadDir [] w) as [f1 w1].
    exact H.
Qed.

(* --------------------------------------------------------------------- *)
(** ** Repairing a parsed plan or verdict                                 *)
(* --------------------------------------------------------------------- *)

Module RepairFacts.
Import Repair.

Lemma get_set_same {V : Type} (m : JsMap.t V) k v :
  JsMap.get (JsMap.set m k v) k = Some v.
Proof.
  induction m as [|[k' v'] m IH]; simpl.
  - rewrite String.eqb_refl. reflexivity.
  - destruct (String.eqb_spec k' k) as [Heq|Hne]; simpl.
    + rewrite Heq, String.eqb_refl. reflexivity.
    + destruct (String.eqb_spec k' k) as [Heq|_]; [contradiction|]. exact IH.
Qed.

Lemma get_set_other {V : Type} (m : JsMap.t V) k v k' :
  k <> k' -> JsMap.get (JsMap.set m k v) k' = JsMap.get m k'.
Proof.
  intros Hne. induction m as [|[k0 v0] m IH]; simpl.
  - destruct (String.eqb_spec k k') as [Heq|_]; [contradiction|]. reflexivity.
  - destruct (String.eqb_spec k0 k) as [Heq|Hne0]; simpl.
    + subst k0. destruct (String.eqb_spec k k') as [Heq|_]; [contradiction|].
      reflexivity.
    + destruct (String.eqb_spec k0 k'); [reflexivity|]. exact IH.
Qed.

Lemma read_set_same obj k v : read (JsMap.set obj k v) k = v.
Proof. unfold read. rewrite get_set_same. reflexivity. Qed.

Lemma read_set_other obj k v k' :
  k <> k' -> read (JsMap.set obj k v) k' = read obj k'.
Proof. intros Hne. unfold read. rewrite get_set_other by exact Hne. reflexivity. Qed.

Lemma keys_set_prefix {V : Type} (m : JsMap.t V) k v :
  JsMap.keys m `prefix_of` JsMap.keys (JsMap.set m k v).
Proof.
  induction m as [|[k' v'] m IH]; simpl.
  - apply prefix_nil.
  - destruct (String.eqb_spec k' k); simpl.
    + reflexivity.
    + apply prefix_cons. exact IH.
Qed.

Lemma read_fill_other obj k v k' : k <> k' -> read (fill obj k v) k' = read obj k'.
Proof.
  intros Hne. unfold fill. destruct (truthy (read obj k)); simpl;
    [reflexivity | apply read_set_other; exact Hne].
Qed.

Lemma read_fill_kept obj k v k' :
  truthy (read obj k') = true -> read (fill obj k v) k' = read obj k'.
Proof.
  intros Ht. unfold fill. destruct (truthy (read obj k)) eqn:Hk; simpl;
    [reflexivity|].
  apply read_set_other. intros ->. rewrite Ht in Hk. discriminate.
Qed.

Lemma truthy_fill obj k v : truthy v = true -> truthy (read (fill obj k v) k) = true.
Proof.
  intros Hv. unfold fill. destruct (truthy (read obj k)) eqn:Hk; simpl;
    [exact Hk | rewrite read_set_same; exact Hv].
Qed.

Lemma fill_done obj k v : truthy (read obj k) = true -> fill obj k v = obj.
Proof. intros Ht. unfold fill. rewrite Ht. reflexivity. Qed.

Lemma keys_fill obj k v : JsMap.keys obj `prefix_of` JsMap.keys (fill obj k v).
Proof.
  unfold fill. destruct (truthy (read obj k)); simpl;
    [reflexivity | apply keys_set_prefix].
Qed.

Lemma read_fillNext_other obj status next k :
  k <> "next" -> read (fillNext obj status next) k = read obj k.
Proof.
  intros Hne. unfold fillNext.
  destruct (equals (read obj "status") status
            && negb (truthy (read obj "next")))%bool; [|reflexivity].
  apply read_set_other. intros Heq. apply Hne. symmetry. exact Heq.
Qed.

Lemma fillNext_done obj status next :
  truthy (read obj "next") = true -> fillNext obj status next = obj.
Proof.
  intros Ht. unfold fillNext. rewrite Ht, Bool.andb_false_r. reflexivity.
Qed.

Lemma keys_fillNext obj status next :
  JsMap.keys obj `prefix_of` JsMap.keys (fillNext obj status next).
Proof.
  unfold fillNext.
  destruct (equals (read obj "status") status
            && negb (truthy (read obj "next")))%bool;
    [apply keys_set_prefix | reflexivity].
Qed.

Lemma equals_eq v s : equals v s = true -> v = JsString s.
Proof.
  destruct v; simpl; try discriminate. intros H.
  apply String.eqb_eq in H. rewrite H. reflexivity.
Qed.

(** After the three [next] lines, [next] is what it was if it was
    truthy or the status is not one of the three, and the [next] of
    the status otherwise. *)
Lemma read_next obj :
  read (fillNext (fillNext (fillNext obj "success" "stop") "patch" "runPatch")
          "escalate" "enterStepMode") "next"
  = if truthy (read obj "next") then read obj "next"
    else match nextFor (read obj "status") with
         | Some next => JsString next
         | None => read obj "next"
         end.
Proof.
  destruct (truthy (read obj "next")) eqn:Ht.
  - rewrite (fillNext_done obj "success" "stop") by exact Ht.
    rewrite (fillNext_done obj "patch" "runPatch") by exact Ht.
    rewrite (fillNext_done obj "escalate" "enterStepMode") by exact Ht.
    reflexivity.
  - unfold nextFor.
    destruct (equals (read obj "status") "success") eqn:H1.
    + assert (Hs : fillNext obj "success" "stop"
                   = JsMap.set obj "next" (JsString "stop")).
      { unfold fillNext. rewrite H1, Ht. reflexivity. }
      rewrite Hs.
      rewrite (fillNext_done _ "patch" "runPatch")
        by (rewrite read_set_same; reflexivity).
      rewrite (fillNext_done _ "escalate" "enterStepMode")
        by (rewrite read_set_same; reflexivity).
      apply read_set_same.
    + assert (Hs : fillNext obj "success" "stop" = obj).
      { unfold fillNext. rewrite H1. reflexivity. }
      rewrite Hs.
      destruct (equals (read obj "status") "patch") eqn:H2.
      * assert (Hp : fillNext obj "patch" "runPatch"
                     = JsMap.set obj "next" (JsString "runPatch")).
        { unfold fillNext. rewrite H2, Ht. reflexivity. }
        rewrite Hp. rewrite fillNext_done by (rewrite read_set_same; reflexivity).
        apply read_set_same.
      * assert (Hp : fillNext obj "patch" "runPatch" = obj).
        { unfold fillNext. rewrite H2. reflexivity. }
        rewrite Hp.
        destruct (equals (read obj "status") "escalate") eqn:H3.
        -- unfold fillNext. rewrite H3, Ht. simpl. apply read_set_same.
        -- unfold fillNext. rewrite H3. reflexivity.
Qed.

End RepairFacts.

(** X28. [repairPlan] fills in what is missing and nothing else: in
    the repaired object [schemaVersion], [assumptions] and
    [assertions] are truthy; every property that was truthy, and every
    property other than these three, reads as before; the properties
    the object had keep their places, new ones coming after them; and
    repairing a second time changes nothing. *)
Theorem repairPlan_fills_only_what_is_missing (raw : Repair.Obj) :
  (Repair.truthy (Repair.read (Repair.repairPlan raw) "schemaVersion") = true
   /\ Repair.truthy (Repair.read (Repair.repairPlan raw) "assumptions") = true
   /\ Repair.truthy (Repair.read (Repair.repairPlan raw) "assertions") = true)
  /\ (forall k,
        Repair.truthy (Repair.read raw k) = true
        \/ ~ In k ["schemaVersion"; "assumptions"; "assertions"] ->
        Repair.read (Repair.repairPlan raw) k = Repair.read raw k)
  /\ (forall k,
        Repair.truthy (Repair.read raw k) = false ->
        In (k, Repair.read (Repair.repairPlan raw) k)
          [("schemaVersion", JsString "1.0"); ("assumptions", JsArray []);
           ("assertions", JsArray [])]
        \/ Repair.read (Repair.repairPlan raw) k = Repair.read raw k)
  /\ JsMap.keys raw `prefix_of` JsMap.keys (Repair.repairPlan raw)
  /\ Repair.repairPlan (Repair.repairPlan raw) = Repair.repairPlan raw.
Proof.
  assert (Htruthy :
    Repair.truthy (Repair.read (Repair.repairPlan raw) "schemaVersion") = true
    /\ Repair.truthy (Repair.read (Repair.repairPlan raw) "assumptions") = true
    /\ Repair.truthy (Repair.read (Repair.repairPlan raw) "assertions") = true).
  { unfold Repair.repairPlan. split; [|split].
    - rewrite !RepairFacts.read_fill_other by discriminate.
      apply RepairFacts.truthy_fill. reflexivity.
    - rewrite RepairFacts.read_fill_other by discriminate.
      apply RepairFacts.truthy_fill. reflexivity.
    - apply RepairFacts.truthy_fill. reflexivity. }
  split; [exact Htruthy|]. split; [|split; [|split]].
  - intros k [Ht|Hk]; unfold Repair.repairPlan.
    + rewrite RepairFacts.read_fill_kept;
        rewrite ?RepairFacts.read_fill_kept; rewrite ?RepairFacts.read_fill_kept;
        try exact Ht; reflexivity.
    + rewrite !RepairFacts.read_fill_other; try reflexivity;
        intros Heq; apply Hk; rewrite <- Heq; simpl; tauto.
  - intros k Hf. unfold Repair.repairPlan.
    destruct (String.eqb_spec k "schemaVersion") as [->|H1].
    { left. rewrite !RepairFacts.read_fill_other by discriminate.
      unfold Repair.fill. rewrite Hf. simpl.
      rewrite RepairFacts.read_set_same. left. reflexivity. }
    destruct (String.eqb_spec k "assumptions") as [->|H2].
    { left. rewrite RepairFacts.read_fill_other by discriminate.
      unfold Repair.fill at 1.
      rewrite RepairFacts.read_fill_other by discriminate. rewrite Hf. simpl.
      rewrite RepairFacts.read_set_same. right. left. reflexivity. }
    destruct (String.eqb_spec k "assertions") as [->|H3].
    { left. unfold Repair.fill at 1.
      rewrite !RepairFacts.read_fill_other by discriminate. rewrite Hf. simpl.
      rewrite RepairFacts.read_set_same. right. right. left. reflexivity. }
    right. rewrite !RepairFacts.read_fill_other; try reflexivity;
      intros Heq; symmetry in Heq; contradiction.
  - unfold Repair.repairPlan.
    etrans; [apply RepairFacts.keys_fill|].
    etrans; [apply RepairFacts.keys_fill|]. apply RepairFacts.keys_fill.
  - destruct Htruthy as (H1 & H2 & H3).
    unfold Repair.repairPlan at 1.
    rewrite (RepairFacts.fill_done _ "schemaVersion") by exact H1.
    rewrite (RepairFacts.fill_done _ "assumptions") by exact H2.
    rewrite (RepairFacts.fill_done _ "assertions") by exact H3.
    reflexivity.
Qed.

(** X29. [repairVerdict] never touches [status], and it never replaces
    a [next] the verdict came with: a truthy [next] is kept even where
    it does not go with the status. A missing [next] becomes [stop]
    for [success], [runPatch] for [patch] and [enterStepMode] for
    [escalate], and stays missing for any other status. *)
Theorem repairVerdict_keeps_status_and_a_given_next (raw : Repair.Obj) :
  Repair.read (Repair.repairVerdict raw) "status" = Repair.read raw "status"
  /\ Repair.read (Repair.repairVerdict raw) "next"
     = (if Repair.truthy (Repair.read raw "next") then Repair.read raw "next"
        else match Repair.nextFor (Repair.read raw "status") with
             | Some next => JsString next
             | None => Repair.read raw "next"
             end)
  /\ Repair.truthy (Repair.read (Repair.repairVerdict raw) "schemaVersion") = true
  /\ Repair.truthy (Repair.read (Repair.repairVerdict raw) "evidence") = true
  /\ JsMap.keys raw `prefix_of` JsMap.keys (Repair.repairVerdict raw).
Proof.
  unfold Repair.repairVerdict. split; [|split; [|split; [|split]]].
  - rewrite !RepairFacts.read_fillNext_other by discriminate.
    rewrite !RepairFacts.read_fill_other by discriminate. reflexivity.
  - rewrite RepairFacts.read_next.
    rewrite !RepairFacts.read_fill_other by discriminate. reflexivity.
  - rewrite !RepairFacts.read_fillNext_other by discriminate.
    rewrite RepairFacts.read_fill_other by discriminate.
    apply RepairFacts.truthy_fill. reflexivity.
  - rewrite !RepairFacts.read_fillNext_other by discriminate.
    apply RepairFacts.truthy_fill. reflexivity.
  - etrans; [apply RepairFacts.keys_fill|].
    etrans; [apply RepairFacts.keys_fill|].
    etrans; [apply RepairFacts.keys_fillNext|].
    etrans; [apply RepairFacts.keys_fillNext|]. apply RepairFacts.keys_fillNext.
Qed.
